(* ===== verification/_CoqProject ===== *)
-Q . S2P
Prelude.v
Memory.v
LibcMem.v
LibcStr.v
DList.v
Malloc.v
MallocChains.v
MallocProof.v
MallocSpec.v
MallocApi.v
ConsProd.v
Csr.v
Uart.v
Boot.v
BootProto.v
BootClient.v
CmUtil.v
CmState.v
CmMatrix.v
CmList.v
CmSort.v
CmBench.v
CmMain.v
CmReady.v
CmKnown.v
Sort.v
Rand48.v
Strto.v
Stdio.v
Printf.v
PrintApi.v
Scanf.v
Scheme.v
Median.v
Dhrystone.v
DebugPort.v
Cc2541.v
Programmer.v
BleClient.v
BleTerminal.v
