(* ===== verification/Prelude.v ===== *)
(** * A verification of the sumeru software

    Sumeru is a small RISC-V system on a chip.  The C code of the repository that is the
    project's own is its freestanding C library and drivers (sw/sys-libs), the boot ROM of the
    board (cpu/BOOTCODE), the host tools that talk to it (tools) and the benchmark kernels that run
    on it (sw/kernels).  This library models that code and proves it correct; names of
    files below are relative to src/, and a definition has the name of the C function it
    models unless the manifest says otherwise.

    ** How code is modelled

    - C functions are executable functions in the state monad [M] of this file: a
      computation returns [Ret], makes an access C does not allow ([Fault]), or is
      still in a loop after [loop_bound] = 2^64 rounds ([Spin]).  Every C loop is [loop] (or
      [for_upto] for counted loops over an array).  The rules [wp_loop] and [wp_loop_ix] prove total
      correctness from an invariant and a measure below 2^64, more than any loop over a
      32-bit counter or address space can take, so no theorem is about a run that
      was cut short.
    - Integers are [Z] with the wrap-around of their width written out ([u8], [u16], [u32],
      [u64], [s16], [s32], [s64]).  [char] is unsigned, [int], [long] and pointers have 32 bits, as on the target;
      signed overflow wraps, which is what the target computes.
    - Memory is a finite map from addresses to bytes ([Memory]); strings, arrays and
      words are predicates on it.  The CoreMark list uses a heap of cells with named fields and
      the matrices bounded arrays, because that code only goes through its pointers' fields.
    - The address of a local variable that escapes is a parameter ([stack], [ch_loc],
      [bf_loc], the last two of the formatter's frames).
    - Code outside src/ is a parameter: the comparison function of qsort, the locking
      callbacks of malloc, the serial device of the upload client, the cycle counter, the
      GPIO library and the disk of the CC2541 programmer; which callback glib runs next and what it
      reads are the events of a run.
    - [wp m Q s] says that [m] returns from [s] with a result and a state in [Q].

    ** The files

    - [Prelude]: the monad, its rules, machine integers.  [Memory]: bytes, arrays, C strings, words.
    - [LibcMem], [LibcStr] (sw/sys-libs/libc, one C file per function): the mem... and
      str... functions against reference functions on lists; memmem's Not-So-Naive search finds
      the first occurrence; the copying functions stay within their buffers.
    - [DList], [Malloc], [MallocChains], [MallocProof], [MallocSpec], [MallocApi] (malloc.c,
      malloc.h, realloc.c, calloc.c, strdup.c, strndup.c): the two linked lists in memory, a
      heap of blocks as the abstract state, and refinement of malloc, free, realloc and
      add_malloc_block to first fit with coalescing.
    - [Sort] (qsort.c, bsearch.c): the comb sort ends and sorts; the search finds.
    - [Rand48] (the ...48.c files): the linear congruential sequence.
    - [Strto] (strntoumax.c and the strto.../ato... templates): parsing against a
      reference reader; [Stdio] (stdio.h, memfile.c, fgets.c): streams as the
      class [FILE] with the memory file and the UART console as instances; [Printf]
      (tinyprintf.c): the formatter over any stream that satisfies the class [Sink], proved to send
      the bytes the inductive relation [means] gives to a format; [PrintApi]: vsnprintf and its
      callers, printf on the console, and the round trip through [Strto].
    - [Scanf] (vsscanf.c, sscanf.c): the state machine of formatted input refines a reference
      semantics on lists of directives.
    - [ConsProd] (consprod.c): the lock-free ring as a queue, by rule induction over the
      interleavings of its two sides and against interrupts that arrive while a call polls;
      [Csr] (csr.h, memctl.h): the control registers as a log of accesses; [Uart] (uart0.c,
      interrupts.c): the interrupt handler and the blocking calls as clients of the ring.
    - [Boot], [BootProto] (cpu/BOOTCODE): the boot ROM's command loop refines a protocol
      specification; [BootClient] (tools/bootloader_uart_client.c, tools/genbootcode.c): the
      client over the class [Device], run end to end against the boot ROM.
    - [CmUtil], [CmState], [CmMatrix], [CmList], [CmSort], [CmBench], [CmMain], [CmReady],
      [CmKnown] (sw/kernels/coremark): CRC, state machine, matrices, list and merge sort of
      CoreMark, the benchmark's data being restored by every round, and the published CRCs for
      the known settings, by evaluation of one round and an invariant for the others.
    - [Scheme] (sw/kernels/scheme): the matcher of regex.c decides the languages of its patterns;
      the read-print loop of scheme.c over the driver and printf echoes its lines.
    - [Median] (sw/kernels/bmark_median): the filter, the check of its results and the
      sense-reversing barrier of util.h under all interleavings.
    - [Dhrystone] (sw/kernels/dhrystone): every run leaves the values the report says it should.
    - [DebugPort], [Cc2541], [Programmer] (tools/RPI/CC2541-programmer: debug.h, main.c): the
      bit-banged debug port, total whatever its pins are connected to (the class [Bcm2835]) and
      refining whole commands of a target (the class [DebugTarget]); a model of the CC2541 after
      the comments of debug.h (DMA, flash controller, the five instructions in use; what differs between
      parts and moments is the class [Part]), on which the memory functions are proved; the
      commands with their files, what they refuse, and the round trip of a firmware file through
      the chip.
    - [BleClient], [BleTerminal] (tools/bluetooth: the two clients): event loops whose callbacks
      glib may run in any order ([dispatch], [run]); what the boot loader client sends is a
      prefix of one script whatever arrives; its upload against [Boot], relayed by a serial module
      ([tick], [fly]), ends in every order of events with the file in memory, unless an answer comes before
      the handler of notifications is registered, when it hangs; the terminal loses nothing of its input, and of its
      output what a non-blocking terminal does not take.

    ** What the theorems show

    Functional correctness on every branch (LibcMem, LibcStr, Strto, Sort, CmMatrix), refinement
    of abstract specifications (MallocSpec, BootProto, Uart, Printf), invariants of
    concurrent, interrupt-driven and event-driven state (ConsProd, Uart, BleClient, BleTerminal), termination
    (Sort, CmMain) and progress (ConsProd, BleClient), round trips (BootClient, PrintApi, Programmer), bounds
    (strlcpy, vsnprintf), and error behaviour: what a refused request leaves (Programmer), and the
    places where the code does not do what it means to (listed in the manifest's findings).

    ** Not modelled

    The vendored bluez sources and riscv-tests are third-party; the VHDL is not C; start-up,
    atexit and the blinking demonstration kernels are linker-section walks and device I/O without
    results; what the benchmarks print is not followed.  The functions on double of util.h and
    asm statements have no model; nor have the connection set-up of the bluetooth clients (gatt.c, a copy of
    bluez code), the bcm2835 wrappers and gpiolib.c, which nothing uses.  Scan sets of vsscanf.c are in the model but not in its
    reference semantics, because the code does not leave them (see the findings). *)
From stdpp Require Import base list gmap fin_maps.
From Stdlib Require Import ZArith Lia.

#[local] Open Scope Z_scope.

(** * Outcomes and the state monad of the C functions

    [Ret] is a normal return, [Fault] an access the C code must not make (an
    unmapped address, an index outside an array), [Spin] a loop that is still
    running after [loop_bound] rounds. *)
Inductive outcome (A : Type) : Type :=
  | Ret (a : A)
  | Fault
  | Spin.
Arguments Ret {A} a.
Arguments Fault {A}.
Arguments Spin {A}.

Definition M (S A : Type) : Type := S → outcome (A * S).

#[export] Instance M_ret S : MRet (M S) := λ A a s, Ret (a, s).
#[export] Instance M_bind S : MBind (M S) := λ A B f m s,
  match m s with
  | Ret (a, s') => f a s'
  | Fault => Fault
  | Spin => Spin
  end.

Definition fault {S A : Type} : M S A := λ _, Fault.
Definition spin {S A : Type} : M S A := λ _, Spin.
Definition get_st {S : Type} : M S S := λ s, Ret (s, s).
Definition put_st {S : Type} (s : S) : M S () := λ _, Ret ((), s).
Definition gets {S A : Type} (f : S → A) : M S A := λ s, Ret (f s, s).
Definition modify {S : Type} (f : S → S) : M S () := λ s, Ret ((), f s).
Definition when {S : Type} (b : bool) (m : M S ()) : M S () := if b then m else mret ().

(** A computation on a part of a larger state. *)
Definition zoom {S T A : Type} (view : T → S) (upd : S → T → T) (m : M S A) : M T A := λ t,
  match m (view t) with
  | Ret (a, s') => Ret (a, upd s' t)
  | Fault => Fault
  | Spin => Spin
  end.

(** ** Loops

    [loop body a] runs [body] until it answers [inr]: every C [while], [do] and
    [for] loop is one.  It gives up after [loop_bound] rounds, more rounds than
    any loop over a 32-bit address space or a 32-bit counter can take; the rule
    [wp_loop] below discharges the bound by a measure. *)
Definition loop_bound : positive := (2 ^ 64)%positive.

Fixpoint rounds {S A R : Type} (p : positive) (body : A → M S (A + R)) (a : A) : M S (A + R) :=
  let again (q : positive) (r : A + R) : M S (A + R) :=
    match r with inl a' => rounds q body a' | inr _ => mret r end in
  match p with
  | xH => body a
  | xO q => r ← rounds q body a; again q r
  | xI q => r0 ← body a;
            r ← again q r0;
            again q r
  end.

Definition loop {S A R : Type} (body : A → M S (A + R)) (a : A) : M S R :=
  r ← rounds loop_bound body a;
  match r with
  | inl _ => spin
  | inr v => mret v
  end.

(** [for (i = a; i < a + n; i++) body(i)] for a body that does not touch [i]. *)
Fixpoint for_from {S : Type} (n : nat) (i : Z) (body : Z → M S ()) : M S () :=
  match n with
  | O => mret ()
  | Datatypes.S n => body i;; for_from n (i + 1) body
  end.
Definition for_upto {S : Type} (n : Z) (body : Z → M S ()) : M S () := for_from (Z.to_nat n) 0 body.

(** * Total-correctness reasoning *)
Definition wp {S A : Type} (m : M S A) (Q : A → S → Prop) (s : S) : Prop :=
  match m s with
  | Ret (a, s') => Q a s'
  | _ => False
  end.

Section Wp.
Context {S : Type}.

Lemma wp_eq {A} (m : M S A) Q s a s' : m s = Ret (a, s') → Q a s' → wp m Q s.
Proof. unfold wp. by intros ->. Qed.

Lemma wp_inv {A} (m : M S A) Q s : wp m Q s → ∃ a s', m s = Ret (a, s') ∧ Q a s'.
Proof. unfold wp. destruct (m s) as [[a s']| |]; naive_solver. Qed.

(** The strongest use of [wp]: an equation for the outcome. *)
Lemma wp_Ret {A} (m : M S A) s a s' : wp m (λ r t, r = a ∧ t = s') s → m s = Ret (a, s').
Proof. intros (r & t & -> & -> & ->)%wp_inv. done. Qed.

Lemma wp_ret {A} (a : A) (Q : A → S → Prop) s : Q a s → wp (mret a) Q s.
Proof. done. Qed.

Lemma wp_bind {A B} (m : M S A) (f : A → M S B) Q s :
  wp m (λ a s', wp (f a) Q s') s → wp (mbind f m) Q s.
Proof. unfold wp, mbind, M_bind. by destruct (m s) as [[a s']| |]. Qed.

Lemma wp_bind_inv {A B} (m : M S A) (f : A → M S B) Q s :
  wp (mbind f m) Q s → wp m (λ a s', wp (f a) Q s') s.
Proof. unfold wp, mbind, M_bind. by destruct (m s) as [[a s']| |]. Qed.

Lemma wp_mono {A} (m : M S A) (P Q : A → S → Prop) s :
  wp m P s → (∀ a s', P a s' → Q a s') → wp m Q s.
Proof. unfold wp. destruct (m s) as [[a s']| |]; naive_solver. Qed.

Lemma wp_bind_spin {A B} (m : M S A) (f : A → M S B) s :
  wp m (λ a s', f a s' = Spin) s → mbind f m s = Spin.
Proof. unfold wp, mbind, M_bind. by destruct (m s) as [[a s']| |]. Qed.

(** A [for] loop establishes what its body establishes step by step. *)
Lemma wp_for_from (I : Z → S → Prop) (Q : () → S → Prop) n i (body : Z → M S ()) s :
  I i s →
  (∀ j s, i ≤ j < i + Z.of_nat n → I j s → wp (body j) (λ _ s', I (j + 1) s') s) →
  (∀ s, I (i + Z.of_nat n) s → Q () s) →
  wp (for_from n i body) Q s.
Proof.
  revert i s. induction n as [|n IH]; intros i s HI Hb HQ; simpl.
  - apply wp_ret, HQ. by rewrite Z.add_0_r.
  - apply wp_bind. eapply wp_mono; [apply Hb; [lia|done]|]. intros ? s1 H1.
    apply IH; [done| |].
    + intros j s2 Hj. apply Hb. lia.
    + intros s2 H2. apply HQ. by replace (i + Z.of_nat (Datatypes.S n)) with (i + 1 + Z.of_nat n) by lia.
Qed.

Lemma wp_for_upto (I : Z → S → Prop) (Q : () → S → Prop) n (body : Z → M S ()) s :
  0 ≤ n → I 0 s →
  (∀ j s, 0 ≤ j < n → I j s → wp (body j) (λ _ s', I (j + 1) s') s) →
  (∀ s, I n s → Q () s) →
  wp (for_upto n body) Q s.
Proof.
  intros Hn HI Hb HQ. apply (wp_for_from I); [done| |].
  - intros j s1 Hj. apply Hb. lia.
  - intros s1. rewrite Z2Nat.id by done. apply HQ.
Qed.

Lemma wp_gets {A} (f : S → A) Q s : Q (f s) s → wp (gets f) Q s.
Proof. done. Qed.

Lemma wp_modify (f : S → S) (Q : () → S → Prop) s : Q () (f s) → wp (modify f) Q s.
Proof. done. Qed.

Lemma wp_get_st (Q : S → S → Prop) s : Q s s → wp get_st Q s.
Proof. done. Qed.

Lemma wp_put_st t (Q : () → S → Prop) s : Q () t → wp (put_st t) Q s.
Proof. done. Qed.

(** [I n a s] is the loop invariant, [n] a bound on the rounds to come. *)
Lemma wp_rounds {A R} (I : Z → A → S → Prop) (Q : R → S → Prop) (body : A → M S (A + R)) p :
  (∀ n a s, I n a s → 0 ≤ n ∧
     wp (body a) (λ r s', match r with
                          | inl a' => ∃ n', n' < n ∧ I n' a' s'
                          | inr v => Q v s'
                          end) s) →
  ∀ n a s, I n a s →
    wp (rounds p body a) (λ r s', match r with
                                  | inl a' => ∃ n', n' + Zpos p ≤ n ∧ I n' a' s'
                                  | inr v => Q v s'
                                  end) s.
Proof.
  intros Hb. induction p as [q IH|q IH|]; intros n a s HI; simpl.
  - apply wp_bind. eapply wp_mono; [apply (Hb _ _ _ HI)|].
    intros r s1 Hr. apply wp_bind. destruct r as [a1|v]; [|by apply wp_ret, wp_ret].
    destruct Hr as (n1 & Hlt1 & HI1). eapply wp_mono; [by apply (IH n1)|].
    intros r s2 Hr. destruct r as [a2|v]; [|done]. destruct Hr as (n2 & Hle2 & HI2).
    eapply wp_mono; [by apply (IH n2)|]. intros [a3|v] s3; [|done].
    intros (n3 & ? & ?). exists n3. split; [lia|done].
  - apply wp_bind. eapply wp_mono; [by apply (IH n)|].
    intros r s1 Hr. destruct r as [a1|v]; [|done]. destruct Hr as (n1 & Hle1 & HI1).
    eapply wp_mono; [by apply (IH n1)|]. intros [a2|v] s2; [|done].
    intros (n2 & ? & ?). exists n2. split; [lia|done].
  - eapply wp_mono; [apply (Hb _ _ _ HI)|]. intros [a1|v] s1; [|done].
    intros (n1 & ? & ?). exists n1. split; [lia|done].
Qed.

(** A loop with a bound on its rounds below [loop_bound] returns. *)
Lemma wp_loop_ix {A R} (I : Z → A → S → Prop) (Q : R → S → Prop)
    (body : A → M S (A + R)) n a s :
  I n a s → n < 2 ^ 64 →
  (∀ n a s, I n a s → 0 ≤ n ∧
     wp (body a) (λ r s', match r with
                          | inl a' => ∃ n', n' < n ∧ I n' a' s'
                          | inr v => Q v s'
                          end) s) →
  wp (loop body a) Q s.
Proof.
  intros HI Hf Hb. unfold loop. apply wp_bind.
  eapply wp_mono; [by apply (wp_rounds I Q _ _ Hb n)|].
  intros [a'|v] s' Hr; [|by apply wp_ret].
  exfalso. destruct Hr as (n' & Hle & HI'). destruct (Hb _ _ _ HI') as [Hge _].
  change (Z.pos loop_bound) with (2 ^ 64) in Hle. lia.
Qed.

(** The same with the bound given by a measure of the loop's variables. *)
Lemma wp_loop {A R} (I : A → S → Prop) (f : A → S → Z) (Q : R → S → Prop)
    (body : A → M S (A + R)) a s :
  I a s → f a s < 2 ^ 64 →
  (∀ a s, I a s → 0 ≤ f a s ∧
     wp (body a) (λ r s', match r with
                          | inl a' => I a' s' ∧ f a' s' < f a s
                          | inr v => Q v s'
                          end) s) →
  wp (loop body a) Q s.
Proof.
  intros HI Hf Hb. apply (wp_loop_ix (λ n a s, I a s ∧ n = f a s) Q _ (f a s)); [done..|].
  intros n a1 s1 [HI1 ->]. destruct (Hb _ _ HI1) as [? Hw]. split; [done|].
  eapply wp_mono; [exact Hw|]. intros [a2|v] s2; [|done]. intros [? ?]. eauto.
Qed.

(** A loop run round by round: within [n] rounds it ends with [Q]. *)
Fixpoint wp_run {A R} (n : nat) (body : A → M S (A + R)) (a : A) (Q : R → S → Prop) (s : S) : Prop :=
  match n with
  | O => False
  | Datatypes.S n =>
      wp (body a) (λ r s', match r with inl a' => wp_run n body a' Q s' | inr v => Q v s' end) s
  end.

Lemma wp_loop_run {A R} n (body : A → M S (A + R)) a Q s :
  Z.of_nat n < 2 ^ 64 → wp_run n body a Q s → wp (loop body a) Q s.
Proof.
  intros Hn Hr. apply (wp_loop_ix (λ k a s, ∃ j : nat, k = Z.of_nat j ∧ wp_run j body a Q s) Q body (Z.of_nat n)).
  - eauto.
  - done.
  - intros k a1 s1 (j & -> & Hj). split; [lia|]. destruct j as [|j]; [done|].
    eapply wp_mono; [exact Hj|]. intros [a2|v] s2 H2; [|done]. exists (Z.of_nat j). split; [lia|eauto].
Qed.

Lemma wp_run_mono {A R} n n' (body : A → M S (A + R)) a Q s :
  (n ≤ n')%nat → wp_run n body a Q s → wp_run n' body a Q s.
Proof.
  revert n' a s. induction n as [|n IH]; intros [|n'] a s Hle Hr; try (done || lia).
  eapply wp_mono; [exact Hr|]. intros [a'|v] s'; [|done]. apply IH. lia.
Qed.

(** A loop whose first round faults. *)
Lemma rounds_fault {A R} p (body : A → M S (A + R)) a s :
  body a s = Fault → rounds p body a s = Fault.
Proof.
  intros H. induction p as [q _|q IH|]; simpl; [|by unfold mbind, M_bind; rewrite IH|done].
  unfold mbind, M_bind. by rewrite H.
Qed.

Lemma loop_fault {A R} (body : A → M S (A + R)) a s : body a s = Fault → loop body a s = Fault.
Proof. intros H. unfold loop, mbind, M_bind. by rewrite rounds_fault. Qed.
End Wp.

(** Unification must not run a loop; [vm_compute] still does. *)
#[global] Opaque loop.

Lemma wp_zoom {S T A} (view : T → S) (upd : S → T → T) (m : M S A) Q t :
  wp m (λ a s', Q a (upd s' t)) (view t) → wp (zoom view upd m) Q t.
Proof. unfold wp, zoom. by destruct (m (view t)) as [[a s']| |]. Qed.

(** One symbolic step through the monadic syntax. *)
Ltac wp_pure :=
  lazymatch goal with
  | |- wp (mbind _ _) _ _ => apply wp_bind
  | |- wp (mret _) _ _ => apply wp_ret
  | |- wp (gets _) _ _ => apply wp_gets
  | |- wp (modify _) _ _ => apply wp_modify
  | |- wp get_st _ _ => apply wp_get_st
  | |- wp (put_st _) _ _ => apply wp_put_st
  end.
Ltac wp_pures := repeat (wp_pure; cbn beta iota zeta).

(** * Machine integers

    A w-bit unsigned value is a [Z] reduced by [wrapu]; a signed one by [wraps]
    (two's complement, which is what the RISC-V target computes). *)
Definition wrapu (w x : Z) : Z := x mod 2 ^ w.
Definition wraps (w x : Z) : Z := (x + 2 ^ (w - 1)) mod 2 ^ w - 2 ^ (w - 1).

Abbreviation u8 := (wrapu 8).
Abbreviation u16 := (wrapu 16).
Abbreviation u32 := (wrapu 32).
Abbreviation u64 := (wrapu 64).
Abbreviation s8 := (wraps 8).
Abbreviation s16 := (wraps 16).
Abbreviation s32 := (wraps 32).
Abbreviation s64 := (wraps 64).

Definition is_byte (b : Z) : Prop := 0 ≤ b < 256.
Definition is_u32 (x : Z) : Prop := 0 ≤ x < 2 ^ 32.

Section Ints.
Lemma wrapu_range w x : 0 ≤ w → 0 ≤ wrapu w x < 2 ^ w.
Proof. intros. apply Z.mod_pos_bound. lia. Qed.

Lemma wrapu_small w x : 0 ≤ x < 2 ^ w → wrapu w x = x.
Proof. apply Z.mod_small. Qed.

Lemma wraps_range w x : 0 < w → - 2 ^ (w - 1) ≤ wraps w x < 2 ^ (w - 1).
Proof.
  intros. unfold wraps. assert (2 ^ w = 2 * 2 ^ (w - 1)) as E.
  { rewrite <- Z.pow_succ_r by lia. f_equal. lia. }
  pose proof (Z.mod_pos_bound (x + 2 ^ (w - 1)) (2 ^ w) ltac:(lia)). lia.
Qed.

Lemma wraps_small w x : 0 < w → - 2 ^ (w - 1) ≤ x < 2 ^ (w - 1) → wraps w x = x.
Proof.
  intros. unfold wraps. assert (2 ^ w = 2 * 2 ^ (w - 1)) as E.
  { rewrite <- Z.pow_succ_r by lia. f_equal. lia. }
  rewrite Z.mod_small by lia. lia.
Qed.

Lemma wrapu_idemp w x : wrapu w (wrapu w x) = wrapu w x.
Proof. apply Zmod_mod. Qed.

Lemma wrapu_add_l w x y : wrapu w (wrapu w x + y) = wrapu w (x + y).
Proof. apply Zplus_mod_idemp_l. Qed.

Lemma wrapu_add_r w x y : wrapu w (x + wrapu w y) = wrapu w (x + y).
Proof. apply Zplus_mod_idemp_r. Qed.

Lemma wrapu_mul_l w x y : wrapu w (wrapu w x * y) = wrapu w (x * y).
Proof. apply Zmult_mod_idemp_l. Qed.

Lemma wrapu_mul_r w x y : wrapu w (x * wrapu w y) = wrapu w (x * y).
Proof. apply Zmult_mod_idemp_r. Qed.

Lemma wrapu_land w x : 0 ≤ w → wrapu w x = Z.land x (Z.ones w).
Proof. intros. by rewrite Z.land_ones. Qed.

Lemma wrapu_testbit w x i : 0 ≤ w → Z.testbit (wrapu w x) i = (i <? w) && Z.testbit x i.
Proof.
  intros. unfold wrapu. destruct (Z.ltb_spec i w).
  - by rewrite Z.mod_pow2_bits_low.
  - by rewrite Z.mod_pow2_bits_high by lia.
Qed.

Lemma u8_is_byte x : is_byte (u8 x).
Proof. apply (wrapu_range 8). lia. Qed.

Lemma u8_small b : is_byte b → u8 b = b.
Proof. apply (wrapu_small 8). Qed.

Lemma u32_small x : is_u32 x → u32 x = x.
Proof. apply (wrapu_small 32). Qed.

(** Values below a power of two are closed under the bitwise operations. *)
Lemma testbit_bound n x : 0 ≤ n → 0 ≤ x → (∀ i, n ≤ i → Z.testbit x i = false) → x < 2 ^ n.
Proof.
  intros Hn Hx Hb. destruct (Z.lt_ge_cases x (2 ^ n)) as [|Hge]; [done|exfalso].
  assert (0 < x) by (pose proof (Z.pow_pos_nonneg 2 n); lia).
  assert (n ≤ Z.log2 x) by (by apply Z.log2_le_pow2).
  pose proof (Z.bit_log2 x ltac:(lia)) as Hl. rewrite Hb in Hl; [done|lia].
Qed.

Lemma bound_testbit n x i : 0 ≤ x < 2 ^ n → n ≤ i → Z.testbit x i = false.
Proof.
  intros [? ?] ?. destruct (Z.eq_dec x 0) as [->|]; [apply Z.bits_0|].
  apply Z.bits_above_log2; [lia|]. apply Z.log2_lt_pow2; [lia|].
  destruct (Z.lt_ge_cases n 0).
  { pose proof (Z.pow_neg_r 2 n ltac:(done)). lia. }
  pose proof (Z.pow_le_mono_r 2 n i). lia.
Qed.

Lemma lxor_bound n x y : 0 ≤ n → 0 ≤ x < 2 ^ n → 0 ≤ y < 2 ^ n → 0 ≤ Z.lxor x y < 2 ^ n.
Proof.
  intros. assert (0 ≤ Z.lxor x y) by (apply Z.lxor_nonneg; lia). split; [done|].
  apply testbit_bound; [done..|]. intros i Hi.
  rewrite Z.lxor_spec, (bound_testbit n x), (bound_testbit n y); done.
Qed.

Lemma lor_bound n x y : 0 ≤ n → 0 ≤ x < 2 ^ n → 0 ≤ y < 2 ^ n → 0 ≤ Z.lor x y < 2 ^ n.
Proof.
  intros. assert (0 ≤ Z.lor x y) by (apply Z.lor_nonneg; lia). split; [done|].
  apply testbit_bound; [done..|]. intros i Hi.
  rewrite Z.lor_spec, (bound_testbit n x), (bound_testbit n y); done.
Qed.

(** [lor] of two values that share no bit is their sum. *)
Lemma lor_add_shift n x y : 0 ≤ n → 0 ≤ x < 2 ^ n → Z.lor x (Z.shiftl y n) = x + y * 2 ^ n.
Proof.
  intros. rewrite <- Z.shiftl_mul_pow2 by done.
  rewrite <- Z.lxor_lor, <- Z.add_nocarry_lxor; [done| |];
    apply Z.bits_inj'; intros i ?; rewrite Z.land_spec, Z.bits_0, Z.shiftl_spec by done;
    (destruct (Z.lt_ge_cases i n);
      [rewrite (Z.testbit_neg_r y) by lia; apply andb_false_r
      |rewrite (bound_testbit n x); done]).
Qed.

(** Clearing the low [k] bits with a mask rounds down to a multiple. *)
Lemma land_mask_down w k x : 0 ≤ k ≤ w → 0 ≤ x < 2 ^ w →
  Z.land x (2 ^ w - 2 ^ k) = x - x mod 2 ^ k.
Proof.
  intros [? ?] ?. assert (2 ^ w - 2 ^ k = Z.shiftl (Z.ones (w - k)) k) as ->.
  { rewrite Z.shiftl_mul_pow2, Z.ones_equiv by lia.
    replace (2 ^ w) with (2 ^ (w - k) * 2 ^ k); [lia|].
    rewrite <- Z.pow_add_r by lia. f_equal. lia. }
  assert (x - x mod 2 ^ k = Z.shiftl (Z.shiftr x k) k) as ->.
  { rewrite Z.shiftl_mul_pow2, Z.shiftr_div_pow2 by lia.
    pose proof (Z.div_mod x (2 ^ k) ltac:(lia)). lia. }
  apply Z.bits_inj'. intros i ?. rewrite Z.land_spec, !Z.shiftl_spec by lia.
  destruct (Z.lt_ge_cases i k).
  { rewrite !(Z.testbit_neg_r _ (i - k)) by lia. apply andb_false_r. }
  rewrite Z.shiftr_spec by lia. replace (i - k + k) with i by lia.
  destruct (Z.lt_ge_cases i w).
  - rewrite Z.ones_spec_low by lia. apply andb_true_r.
  - rewrite (bound_testbit w x) by lia. done.
Qed.
End Ints.

(** A decidable fact about every integer of a short range, by evaluation. *)
Lemma Z_range_forallb (P : Z → bool) lo n :
  forallb (λ i, P (lo + Z.of_nat i)) (seq 0 n) = true →
  ∀ x, lo ≤ x < lo + Z.of_nat n → P x = true.
Proof.
  rewrite forallb_forall. intros H x Hx.
  specialize (H (Z.to_nat (x - lo))). rewrite in_seq in H.
  replace x with (lo + Z.of_nat (Z.to_nat (x - lo))) by lia. apply H. lia.
Qed.

#[export] Hint Resolve u8_is_byte : core.
