(* ===== verification/Memory.v ===== *)
(** Byte-addressed memory shared by the C components: a finite map from
    addresses to bytes, the loads and stores of the C code (an access to an
    unmapped address is a [Fault]), arrays and NUL-terminated strings in memory,
    and little-endian 32-bit words. *)
From S2P Require Import Prelude.
From stdpp Require Import base list gmap fin_maps.
From Stdlib Require Import ZArith Lia.

#[local] Open Scope Z_scope.

Create HintDb mem.

Abbreviation mem := (gmap Z Z).

Definition loadb (a : Z) : M mem Z := λ m,
  match m !! a with
  | Some b => Ret (b, m)
  | None => Fault
  end.

Definition storeb (a v : Z) : M mem () := λ m,
  match m !! a with
  | Some _ => Ret ((), <[a := u8 v]> m)
  | None => Fault
  end.

(** ** Arrays of bytes in memory *)
Fixpoint arr (m : mem) (a : Z) (l : list Z) : Prop :=
  match l with
  | [] => True
  | b :: l' => m !! a = Some b ∧ arr m (a + 1) l'
  end.

(** The bytes [a, a + n) are mapped. *)
Definition mapped (m : mem) (a n : Z) : Prop := ∀ x, a ≤ x < a + n → is_Some (m !! x).

(** Every stored value is a byte. *)
Definition mem_wf (m : mem) : Prop := ∀ x b, m !! x = Some b → is_byte b.

Fixpoint mem_write (m : mem) (a : Z) (l : list Z) : mem :=
  match l with
  | [] => m
  | b :: l' => mem_write (<[a := b]> m) (a + 1) l'
  end.

(** A C string: non-zero bytes followed by a NUL. *)
Definition nonzero (l : list Z) : Prop := Forall (λ b, b ≠ 0) l.
Definition cstr (m : mem) (a : Z) (l : list Z) : Prop := nonzero l ∧ arr m a (l ++ [0]).

(** [ZL l] is the length of a list as an integer. *)
Abbreviation ZL l := (Z.of_nat (length l)).

Section Memory.
Implicit Types (m : mem) (l : list Z).

Lemma wp_loadb a b Q m : m !! a = Some b → Q b m → wp (loadb a) Q m.
Proof. unfold wp, loadb. by intros ->. Qed.

Lemma wp_storeb a v Q m : is_Some (m !! a) → Q () (<[a := u8 v]> m) → wp (storeb a v) Q m.
Proof. unfold wp, storeb. by intros [? ->]. Qed.

Lemma arr_lookup m a l : arr m a l ↔ ∀ i b, l !! i = Some b → m !! (a + Z.of_nat i) = Some b.
Proof.
  revert a. induction l as [|c l IH]; intros a; simpl.
  { split; [intros _ i b Hi; by rewrite lookup_nil in Hi|done]. }
  rewrite IH. split.
  - intros [Ha Hl] [|i] b Hb; simpl in Hb.
    + rewrite Z.add_0_r. congruence.
    + rewrite <- (Hl i b Hb). f_equal. lia.
  - intros H. split.
    + rewrite <- (H 0%nat c eq_refl). f_equal. lia.
    + intros i b Hb. rewrite <- (H (S i) b Hb). f_equal. lia.
Qed.

Lemma arr_app m a l1 l2 : arr m a (l1 ++ l2) ↔ arr m a l1 ∧ arr m (a + ZL l1) l2.
Proof.
  revert a. induction l1 as [|b l1 IH]; intros a; simpl.
  { rewrite Z.add_0_r. tauto. }
  rewrite IH. replace (a + Z.of_nat (S (length l1))) with (a + 1 + ZL l1) by lia. tauto.
Qed.

Lemma arr_take m a l n : arr m a l → arr m a (take n l).
Proof. intros H. rewrite <- (take_drop n l), arr_app in H. tauto. Qed.

Lemma arr_mapped m a l : arr m a l → mapped m a (ZL l).
Proof.
  rewrite arr_lookup. intros H x Hx.
  destruct (lookup_lt_is_Some_2 l (Z.to_nat (x - a)) ltac:(lia)) as [b Hb].
  exists b. rewrite <- (H _ _ Hb). f_equal. lia.
Qed.

Lemma mapped_arr m a n : 0 ≤ n → mapped m a n → ∃ l, ZL l = n ∧ arr m a l.
Proof.
  intros Hn. rewrite <- (Z2Nat.id n) by done. generalize (Z.to_nat n). clear n Hn.
  intros n. revert a. induction n as [|n IH]; intros a Hm.
  { exists []. done. }
  destruct (Hm a ltac:(lia)) as [b Hb].
  destruct (IH (a + 1)) as (l & Hl & Ha).
  { intros x Hx. apply Hm. lia. }
  exists (b :: l). simpl. split; [lia|done].
Qed.

Lemma arr_inj m a l1 l2 : length l1 = length l2 → arr m a l1 → arr m a l2 → l1 = l2.
Proof.
  rewrite !arr_lookup. intros Hlen H1 H2. apply list_eq. intros i.
  destruct (l1 !! i) as [b|] eqn:E1.
  - destruct (lookup_lt_is_Some_2 l2 i) as [c E2].
    { rewrite <- Hlen. by eapply lookup_lt_Some. }
    specialize (H1 _ _ E1). specialize (H2 _ _ E2). congruence.
  - symmetry. apply lookup_ge_None. rewrite <- Hlen. by apply lookup_ge_None.
Qed.

Lemma mem_write_lookup m a l x :
  mem_write m a l !! x =
    if decide (a ≤ x < a + ZL l) then l !! Z.to_nat (x - a) else m !! x.
Proof.
  revert m a. induction l as [|b l IH]; intros m a; simpl.
  { case_decide; [lia|done]. }
  rewrite IH. repeat case_decide; try lia.
  - replace (Z.to_nat (x - a)) with (S (Z.to_nat (x - (a + 1)))) by lia. done.
  - assert (x = a) as -> by lia. rewrite lookup_insert_eq, Z.sub_diag. done.
  - rewrite lookup_insert_ne by lia. done.
Qed.

Lemma mem_write_lookup_out m a l x : x < a ∨ a + ZL l ≤ x → mem_write m a l !! x = m !! x.
Proof. intros. rewrite mem_write_lookup. case_decide; [lia|done]. Qed.

Lemma mem_write_arr m a l : arr (mem_write m a l) a l.
Proof.
  apply arr_lookup. intros i b Hi. rewrite mem_write_lookup.
  pose proof (lookup_lt_Some _ _ _ Hi). case_decide; [|lia].
  rewrite <- Hi. f_equal. lia.
Qed.

Lemma mem_write_arr_out m a l b l' :
  b + ZL l' ≤ a ∨ a + ZL l ≤ b → arr m b l' → arr (mem_write m a l) b l'.
Proof.
  intros Hd. rewrite !arr_lookup. intros H i c Hi.
  pose proof (lookup_lt_Some _ _ _ Hi). rewrite mem_write_lookup_out by lia. by apply H.
Qed.

Lemma mem_write_id m a l : arr m a l → mem_write m a l = m.
Proof.
  rewrite arr_lookup. intros H. apply map_eq. intros x. rewrite mem_write_lookup.
  case_decide; [|done].
  destruct (lookup_lt_is_Some_2 l (Z.to_nat (x - a)) ltac:(lia)) as [b Hb].
  rewrite Hb, <- (H _ _ Hb). f_equal. lia.
Qed.

Lemma mem_write_app m a l1 l2 :
  mem_write m a (l1 ++ l2) = mem_write (mem_write m a l1) (a + ZL l1) l2.
Proof.
  revert m a. induction l1 as [|b l1 IH]; intros m a; simpl.
  { by rewrite Z.add_0_r. }
  rewrite IH. f_equal. lia.
Qed.

Lemma mem_write_snoc m a l b :
  mem_write m a (l ++ [b]) = <[a + ZL l := b]> (mem_write m a l).
Proof. by rewrite mem_write_app. Qed.

Lemma mapped_insert m a n x v : mapped m a n → mapped (<[x := v]> m) a n.
Proof.
  intros H y Hy. destruct (decide (x = y)) as [->|].
  - rewrite lookup_insert_eq. eauto.
  - rewrite lookup_insert_ne by done. by apply H.
Qed.

Lemma mapped_write m a n x l : mapped m a n → mapped (mem_write m x l) a n.
Proof.
  revert m x. induction l as [|b l IH]; intros m x H; simpl; [done|].
  by apply IH, mapped_insert.
Qed.

Lemma mapped_sub m a n a' n' : mapped m a n → a ≤ a' → a' + n' ≤ a + n → mapped m a' n'.
Proof. intros H ?? x Hx. apply H. lia. Qed.

Lemma mem_wf_insert m a v : mem_wf m → is_byte v → mem_wf (<[a := v]> m).
Proof.
  intros H Hv x b. destruct (decide (a = x)) as [->|].
  - rewrite lookup_insert_eq. naive_solver.
  - rewrite lookup_insert_ne by done. apply H.
Qed.

Lemma mem_wf_arr m a l : mem_wf m → arr m a l → Forall is_byte l.
Proof.
  intros Hw. rewrite arr_lookup. intros H. apply Forall_lookup. intros i b Hi. eauto.
Qed.

Lemma mem_wf_write m a l : mem_wf m → Forall is_byte l → mem_wf (mem_write m a l).
Proof.
  intros Hm Hl x b. rewrite mem_write_lookup. case_decide; [|apply Hm].
  intros Hb. by eapply Forall_lookup_1.
Qed.

Lemma cstr_arr m a l : cstr m a l → arr m a l.
Proof. unfold cstr. rewrite arr_app. tauto. Qed.

Lemma cstr_end m a l : cstr m a l → m !! (a + ZL l) = Some 0.
Proof. unfold cstr. rewrite arr_app. simpl. tauto. Qed.

Lemma cstr_lookup m a l i b : cstr m a l → l !! i = Some b → m !! (a + Z.of_nat i) = Some b ∧ b ≠ 0.
Proof.
  intros [Hnz Ha] Hi. rewrite arr_app, arr_lookup in Ha. split; [by apply Ha|].
  by eapply Forall_lookup_1 in Hnz.
Qed.

Lemma cstr_cons m a b l : cstr m a (b :: l) ↔ m !! a = Some b ∧ b ≠ 0 ∧ cstr m (a + 1) l.
Proof. unfold cstr, nonzero. rewrite Forall_cons. simpl. tauto. Qed.

Lemma cstr_nil m a : cstr m a [] ↔ m !! a = Some 0.
Proof. unfold cstr, nonzero. rewrite Forall_nil. simpl. tauto. Qed.

Lemma cstr_drop m a l i : (i ≤ length l)%nat → cstr m a l → cstr m (a + Z.of_nat i) (drop i l).
Proof.
  intros Hi [Hnz Ha]. rewrite <- (take_drop i l), <- app_assoc, arr_app, length_take_le in Ha by done.
  split; [by apply Forall_drop|tauto].
Qed.

(** A C string at an address is unique. *)
Lemma cstr_inj m a l1 l2 : cstr m a l1 → cstr m a l2 → l1 = l2.
Proof.
  revert a l2. induction l1 as [|b l1 IH]; intros a [|c l2];
    rewrite ?cstr_nil, ?cstr_cons.
  - done.
  - intros H1 (H2 & ? & _). congruence.
  - intros (H1 & ? & _) H2. congruence.
  - intros (? & _ & ?) (? & _ & ?). f_equal; [congruence|by eapply IH].
Qed.
End Memory.

(** ** Little-endian values *)
Fixpoint le_bytes (n : nat) (v : Z) : list Z :=
  match n with
  | O => []
  | S n' => u8 v :: le_bytes n' (Z.shiftr v 8)
  end.

Fixpoint le_val (l : list Z) : Z :=
  match l with
  | [] => 0
  | b :: l' => b + 256 * le_val l'
  end.

(** The 32-bit load and store of the target (four byte accesses). *)
Definition ldw (a : Z) : M mem Z :=
  b0 ← loadb a; b1 ← loadb (a + 1); b2 ← loadb (a + 2); b3 ← loadb (a + 3);
  mret (le_val [b0; b1; b2; b3]).

Definition stw (a v : Z) : M mem () :=
  storeb a v;; storeb (a + 1) (Z.shiftr v 8);;
  storeb (a + 2) (Z.shiftr v 16);; storeb (a + 3) (Z.shiftr v 24).

(** The word read at an address, and the memory after a word is written. *)
Definition rdw (m : mem) (a : Z) : Z :=
  le_val (map (λ i, default 0 (m !! (a + i))) [0; 1; 2; 3]).
Definition wrw (m : mem) (a v : Z) : mem := mem_write m a (le_bytes 4 v).

Section Words.
Implicit Types (m : mem).

Lemma length_le_bytes n v : length (le_bytes n v) = n.
Proof. revert v. induction n; intros; simpl; congruence. Qed.

Lemma le_bytes_byte n v : Forall is_byte (le_bytes n v).
Proof. revert v. induction n; intros; constructor; auto. Qed.

Lemma le_val_bytes n v : le_val (le_bytes n v) = v mod 2 ^ (8 * Z.of_nat n).
Proof.
  revert v. induction n as [|n IH]; intros v.
  { simpl. by rewrite Z.mod_1_r. }
  cbn [le_bytes le_val]. rewrite IH, Z.shiftr_div_pow2 by lia.
  replace (8 * Z.of_nat (S n)) with (8 + 8 * Z.of_nat n) by lia.
  rewrite Z.pow_add_r by lia. rewrite Z.rem_mul_r by lia. unfold wrapu. lia.
Qed.

Lemma le_val_bound l : Forall is_byte l → 0 ≤ le_val l < 2 ^ (8 * ZL l).
Proof.
  induction 1 as [|b l Hb _ IH]; [simpl; lia|].
  cbn [le_val length]. unfold is_byte in Hb.
  replace (8 * Z.of_nat (S (length l))) with (8 + 8 * ZL l) by lia.
  rewrite Z.pow_add_r by lia. lia.
Qed.

Lemma le_bytes_val l : Forall is_byte l → le_bytes (length l) (le_val l) = l.
Proof.
  induction 1 as [|b l Hb _ IH]; [done|].
  cbn [le_val length le_bytes]. unfold is_byte in Hb.
  assert (Z.shiftr (b + 256 * le_val l) 8 = le_val l) as ->.
  { rewrite Z.shiftr_div_pow2 by lia. change (2 ^ 8) with 256. Z.div_mod_to_equations. lia. }
  rewrite IH. f_equal. unfold wrapu. change (2 ^ 8) with 256. Z.div_mod_to_equations. lia.
Qed.

Lemma rdw_arr m a l : length l = 4%nat → arr m a l → rdw m a = le_val l.
Proof.
  destruct l as [|b0 [|b1 [|b2 [|b3 [|]]]]]; try done. intros _. unfold rdw. simpl.
  rewrite Z.add_0_r. replace (a + 1 + 1) with (a + 2) by lia.
  replace (a + 2 + 1) with (a + 3) by lia.
  intros (-> & -> & -> & -> & _). done.
Qed.

Lemma wp_ldw a Q m : mapped m a 4 → Q (rdw m a) m → wp (ldw a) Q m.
Proof.
  intros Hm HQ. destruct (mapped_arr m a 4 ltac:(lia) Hm) as (l & Hl & Ha).
  rewrite (rdw_arr m a l) in HQ by (done || lia).
  destruct l as [|b0 [|b1 [|b2 [|b3 [|]]]]]; try (simpl in Hl; lia).
  simpl in Ha. replace (a + 1 + 1) with (a + 2) in Ha by lia.
  replace (a + 2 + 1) with (a + 3) in Ha by lia. destruct Ha as (?&?&?&?&_).
  unfold ldw. do 4 (apply wp_bind; eapply wp_loadb; [done|]). by apply wp_ret.
Qed.

Lemma wrw_unfold m a v :
  wrw m a v = <[a + 3 := u8 (Z.shiftr v 24)]> (<[a + 2 := u8 (Z.shiftr v 16)]>
              (<[a + 1 := u8 (Z.shiftr v 8)]> (<[a := u8 v]> m))).
Proof.
  unfold wrw. simpl. rewrite !Z.shiftr_shiftr by lia.
  replace (a + 1 + 1) with (a + 2) by lia. replace (a + 2 + 1) with (a + 3) by lia. done.
Qed.

Lemma wp_stw a v Q m : mapped m a 4 → Q () (wrw m a v) → wp (stw a v) Q m.
Proof.
  intros Hm HQ. rewrite wrw_unfold in HQ. unfold stw.
  do 3 (apply wp_bind, wp_storeb; [repeat apply (mapped_insert _ a 4); try apply Hm; lia|]; cbn beta).
  apply wp_storeb; [|done]. repeat apply (mapped_insert _ a 4); try apply Hm; lia.
Qed.

Lemma rdw_wrw_eq m a v : is_u32 v → rdw (wrw m a v) a = v.
Proof.
  intros Hv. rewrite (rdw_arr _ _ (le_bytes 4 v)).
  - rewrite le_val_bytes. apply u32_small, Hv.
  - apply length_le_bytes.
  - apply mem_write_arr.
Qed.

Lemma wrw_lookup_ne m a v x : x < a ∨ a + 4 ≤ x → wrw m a v !! x = m !! x.
Proof.
  intros. unfold wrw. apply mem_write_lookup_out. rewrite length_le_bytes. lia.
Qed.

Lemma rdw_wrw_ne m a b v : b + 4 ≤ a ∨ a + 4 ≤ b → rdw (wrw m a v) b = rdw m b.
Proof. intros. unfold rdw. simpl. by rewrite !wrw_lookup_ne by lia. Qed.

Lemma mapped_wrw m a v x n : mapped m x n → mapped (wrw m a v) x n.
Proof. apply mapped_write. Qed.

Lemma mem_wf_wrw m a v : mem_wf m → mem_wf (wrw m a v).
Proof. intros. apply mem_wf_write; [done|apply le_bytes_byte]. Qed.

Lemma rdw_u32 m a : mem_wf m → mapped m a 4 → is_u32 (rdw m a).
Proof.
  intros Hw Hm. destruct (mapped_arr m a 4 ltac:(lia) Hm) as (l & Hl & Ha).
  rewrite (rdw_arr m a l) by (done || lia).
  pose proof (le_val_bound l (mem_wf_arr _ _ _ Hw Ha)). unfold is_u32. by rewrite Hl in *.
Qed.
End Words.

Arguments rdw : simpl never.
Arguments wrw : simpl never.
#[export] Hint Resolve mapped_wrw mapped_insert mapped_write : mem.
