(* ===== verification/LibcMem.v ===== *)
(** The [mem*] functions of sw/sys-libs/libc (memcpy.c, memmove.c, memset.c,
    memcmp.c, memchr.c, memrchr.c, memccpy.c, memswap.c, memmem.c, bzero.c) on
    the byte memory of [Memory].  A [char] is unsigned on the RISC-V target, so
    [(char)c] is [u8 c].  Pointers are integers; NULL is 0. *)
From S2P Require Import Prelude Memory.
From stdpp Require Import base list gmap fin_maps.
From Stdlib Require Import ZArith Lia.

#[local] Open Scope Z_scope.

Definition NULL : Z := 0.

(** The loop [while (n--) *q++ = *p++] of memcpy and of the first branch of
    memmove, and the downward loop of the other branch. *)
Definition copy_up (q p n : Z) : M mem () :=
  loop (λ '(q, p, n),
    if n =? 0 then mret (inr ())
    else b ← loadb p; storeb q b;; mret (inl (q + 1, p + 1, n - 1))) (q, p, n).

Definition copy_down (q p n : Z) : M mem () :=
  loop (λ '(q, p, n),
    if n =? 0 then mret (inr ())
    else b ← loadb (p - 1); storeb (q - 1) b;; mret (inl (q - 1, p - 1, n - 1))) (q, p, n).

Definition memcpy (dst src n : Z) : M mem Z :=
  copy_up dst src n;; mret dst.

Definition memmove (dst src n : Z) : M mem Z :=
  (if dst <? src then copy_up dst src n else copy_down (dst + n) (src + n) n);; mret dst.

Definition memset (dst c n : Z) : M mem Z :=
  loop (λ '(q, n),
    if n =? 0 then mret (inr ())
    else storeb q c;; mret (inl (q + 1, n - 1))) (dst, n);; mret dst.

Definition bzero (dst n : Z) : M mem () := memset dst 0 n;; mret ().

Definition memswap (m1 m2 n : Z) : M mem () :=
  loop (λ '(p, q, n),
    if n =? 0 then mret (inr ())
    else tmp ← loadb p;
         x ← loadb q;
         storeb p x;;
         storeb q tmp;;
         mret (inl (p + 1, q + 1, n - 1))) (m1, m2, n).

Definition memcmp (s1 s2 n : Z) : M mem Z :=
  loop (λ '(c1, c2, n, d),
    if n =? 0 then mret (inr d)
    else x ← loadb c1;
         y ← loadb c2;
         let d := x - y in
         if d =? 0 then mret (inl (c1 + 1, c2 + 1, n - 1, d)) else mret (inr d))
    (s1, s2, n, 0).

Definition memchr (s c n : Z) : M mem Z :=
  loop (λ '(sp, n),
    if n =? 0 then mret (inr NULL)
    else x ← loadb sp;
         if x =? u8 c then mret (inr sp) else mret (inl (sp + 1, n - 1))) (s, n).

Definition memrchr (s c n : Z) : M mem Z :=
  loop (λ '(sp, n),
    if n =? 0 then mret (inr NULL)
    else x ← loadb sp;
         if x =? u8 c then mret (inr sp) else mret (inl (sp - 1, n - 1))) (s + n - 1, n).

Definition memccpy (dst src c n : Z) : M mem Z :=
  loop (λ '(q, p, n),
    if n =? 0 then mret (inr NULL)
    else ch ← loadb p;
         storeb q ch;;
         if ch =? u8 c then mret (inr (q + 1)) else mret (inl (q + 1, p + 1, n - 1)))
    (dst, src, n).

(** The search of memmem ("Not So Naive"): the shift after a mismatch on the
    second needle byte is [k], after a mismatch elsewhere [l].  One round of its
    loop answers the next [j], or the result. *)
Definition memmem_round (haystack n needle m k l j : Z) : M mem (Z + Z) :=
  if j <=? n - m then
    x1 ← loadb (needle + 1);
    y1 ← loadb (haystack + j + 1);
    if negb (x1 =? y1) then mret (inl (j + k))
    else
      d ← memcmp (needle + 2) (haystack + j + 2) (m - 2);
      if d =? 0 then
        x0 ← loadb needle;
        y0 ← loadb (haystack + j);
        if x0 =? y0 then mret (inr (haystack + j)) else mret (inl (j + l))
      else mret (inl (j + l))
  else mret (inr NULL).

Definition memmem (haystack n needle m : Z) : M mem Z :=
  if (m >? n) || (m =? 0) || (n =? 0) then mret NULL
  else if negb (1 =? m) then
    x0 ← loadb needle;
    x1 ← loadb (needle + 1);
    let k := if x0 =? x1 then 2 else 1 in
    let l := if x0 =? x1 then 1 else 2 in
    loop (memmem_round haystack n needle m k l) 0
  else
    loop (λ '(y, n),
      a ← loadb y;
      b ← loadb needle;
      if a =? b then mret (inr y)
      else let n := n - 1 in
           if n =? 0 then mret (inr NULL) else mret (inl (y + 1, n)))
      (haystack, n).

(** * Copying *)
Section Copy.
Implicit Types (m : mem) (l : list Z).

Lemma arr_split_at m a l i : (i < length l)%nat → arr m a l →
  ∃ b, l !! i = Some b ∧ m !! (a + Z.of_nat i) = Some b.
Proof.
  intros Hi Ha. destruct (lookup_lt_is_Some_2 l i Hi) as [b Hb].
  rewrite arr_lookup in Ha. eauto.
Qed.

(** The bytes [a, a + n) can be copied upwards to [b, b + n). *)
Definition copyable (src dst n : Z) : Prop := dst ≤ src ∨ src + n ≤ dst.

(** Copying upwards byte by byte: after [i] bytes, byte [i] of the source is
    still there, and storing it extends the copy. *)
Lemma copy_load m dst src l i b :
  arr m src l → copyable src dst (ZL l) → l !! i = Some b →
  mem_write m dst (take i l) !! (src + Z.of_nat i) = Some b.
Proof.
  intros Ha Hc Hb. pose proof (lookup_lt_Some _ _ _ Hb). unfold copyable in Hc.
  rewrite mem_write_lookup_out; [by eapply arr_lookup in Ha|]. rewrite length_take_le by lia. lia.
Qed.

Lemma copy_store_bytes m dst l i b :
  Forall is_byte l → l !! i = Some b →
  <[dst + Z.of_nat i := u8 b]> (mem_write m dst (take i l)) = mem_write m dst (take (S i) l).
Proof.
  intros Hl Hb. pose proof (lookup_lt_Some _ _ _ Hb).
  rewrite (take_S_r _ _ b), mem_write_snoc, length_take_le by (done || lia).
  f_equal. apply u8_small. by eapply Forall_lookup_1.
Qed.

Lemma copy_store m dst src l i b :
  mem_wf m → arr m src l → l !! i = Some b →
  <[dst + Z.of_nat i := u8 b]> (mem_write m dst (take i l)) = mem_write m dst (take (S i) l).
Proof. intros Hw Ha. apply copy_store_bytes. by eapply mem_wf_arr. Qed.

Lemma copy_mapped m dst l (k : list Z) i :
  mapped m dst (ZL k) → (i < length k)%nat → is_Some (mem_write m dst l !! (dst + Z.of_nat i)).
Proof. intros Hm Hi. apply (mapped_write _ dst (ZL k)); [done|lia]. Qed.

Lemma copy_up_spec m q p l :
  Forall is_byte l → arr m p l → mapped m q (ZL l) → ZL l < 2 ^ 64 → copyable p q (ZL l) →
  wp (copy_up q p (ZL l)) (λ _ m', m' = mem_write m q l) m.
Proof.
  intros Hw Ha Hm Hlen Hov.
  apply wp_loop with
    (I := λ '(q', p', n) m', ∃ i : nat, (i ≤ length l)%nat ∧ q' = q + Z.of_nat i ∧
            p' = p + Z.of_nat i ∧ n = ZL l - Z.of_nat i ∧ m' = mem_write m q (take i l))
    (f := λ '(_, _, n) _, n); [|done|].
  { exists 0%nat. simpl. repeat split; lia. }
  intros [[q' p'] n] m' (i & Hi & -> & -> & -> & ->). split; [lia|].
  destruct (Z.eqb_spec (ZL l - Z.of_nat i) 0).
  { apply wp_ret. by rewrite take_ge by lia. }
  destruct (arr_split_at m p l i ltac:(lia) Ha) as (b & Hb & Hpb).
  apply wp_bind, wp_loadb with b; [by apply copy_load|].
  apply wp_bind, wp_storeb; [apply (copy_mapped _ _ _ l); (done || lia)|].
  apply wp_ret. split; [|lia]. exists (S i). repeat split; try lia. by apply copy_store_bytes.
Qed.

Lemma copy_down_spec m q p l :
  mem_wf m → arr m p l → mapped m q (ZL l) → ZL l < 2 ^ 64 → p ≤ q →
  wp (copy_down (q + ZL l) (p + ZL l) (ZL l)) (λ _ m', m' = mem_write m q l) m.
Proof.
  intros Hw Ha Hm Hlen Hov.
  apply wp_loop with
    (I := λ '(q', p', n) m', ∃ i : nat, (i ≤ length l)%nat ∧ q' = q + Z.of_nat i ∧
            p' = p + Z.of_nat i ∧ n = Z.of_nat i ∧
            m' = mem_write m (q + Z.of_nat i) (drop i l))
    (f := λ '(_, _, n) _, n); [|done|].
  { exists (length l). rewrite drop_all. repeat split; lia. }
  intros [[q' p'] n] m' (i & Hi & -> & -> & -> & ->). split; [lia|].
  destruct (Z.eqb_spec (Z.of_nat i) 0).
  { apply wp_ret. assert (i = 0%nat) as -> by lia. rewrite drop_0. f_equal. lia. }
  destruct (arr_split_at m p l (i - 1) ltac:(lia) Ha) as (b & Hb & Hpb).
  apply wp_bind, wp_loadb with b.
  { rewrite mem_write_lookup_out by lia. rewrite <- Hpb. f_equal. lia. }
  apply wp_bind, wp_storeb. { apply mapped_write with (n := ZL l) (a := q); [done|lia]. }
  apply wp_ret. split; [|lia]. exists (i - 1)%nat. repeat split; try lia.
  assert (drop (i - 1) l = b :: drop i l) as ->.
  { rewrite (drop_S l b (i - 1)) by done. do 2 f_equal. lia. }
  replace (q + Z.of_nat i) with (q + Z.of_nat (i - 1) + 1) by lia.
  simpl. apply map_eq. intros x. rewrite (u8_small b) by (by eapply Hw).
  set (a := q + Z.of_nat (i - 1)). replace (a + 1 - 1) with a by lia.
  destruct (decide (x = a)) as [->|].
  - rewrite lookup_insert_eq, mem_write_lookup_out by lia. by rewrite lookup_insert_eq.
  - rewrite lookup_insert_ne, !mem_write_lookup by done.
    case_decide; [done|]. by rewrite lookup_insert_ne.
Qed.

Lemma memcpy_spec m dst src l :
  Forall is_byte l → arr m src l → mapped m dst (ZL l) → ZL l < 2 ^ 32 →
  copyable src dst (ZL l) →
  wp (memcpy dst src (ZL l)) (λ r m', r = dst ∧ m' = mem_write m dst l) m.
Proof.
  intros. apply wp_bind. eapply wp_mono; [apply copy_up_spec; try done; lia|].
  intros _ m' ->. by apply wp_ret.
Qed.

(** Copying to an address that is not mapped. *)
Lemma memcpy_fault m dst src n b :
  n ≠ 0 → m !! src = Some b → m !! dst = None → memcpy dst src n m = Fault.
Proof.
  intros Hn Hs Hd. unfold memcpy, copy_up, mbind at 1, M_bind at 1. rewrite loop_fault; [done|].
  rewrite (proj2 (Z.eqb_neq n 0)) by done. unfold mbind, M_bind, loadb, storeb. by rewrite Hs, Hd.
Qed.

Lemma memmove_spec m dst src l :
  mem_wf m → arr m src l → mapped m dst (ZL l) → ZL l < 2 ^ 32 →
  wp (memmove dst src (ZL l)) (λ r m', r = dst ∧ m' = mem_write m dst l) m.
Proof.
  intros Hw Ha ??. pose proof (mem_wf_arr _ _ _ Hw Ha). apply wp_bind. destruct (Z.ltb_spec dst src).
  - eapply wp_mono; [apply copy_up_spec; try done; unfold copyable; lia|].
    intros _ m' ->. by apply wp_ret.
  - eapply wp_mono; [apply copy_down_spec; try done; lia|]. intros _ m' ->. by apply wp_ret.
Qed.

Lemma memset_spec m dst c n :
  mapped m dst n → 0 ≤ n < 2 ^ 32 →
  wp (memset dst c n)
    (λ r m', r = dst ∧ m' = mem_write m dst (replicate (Z.to_nat n) (u8 c))) m.
Proof.
  intros Hm Hn. apply wp_bind.
  apply wp_loop with
    (I := λ '(q, k) m', ∃ i : nat, Z.of_nat i ≤ n ∧ q = dst + Z.of_nat i ∧
            k = n - Z.of_nat i ∧ m' = mem_write m dst (replicate i (u8 c)))
    (f := λ '(_, k) _, k); [|lia|].
  { exists 0%nat. simpl. repeat split; lia. }
  intros [q k] m' (i & Hi & -> & -> & ->). split; [lia|].
  destruct (Z.eqb_spec (n - Z.of_nat i) 0).
  { apply wp_ret, wp_ret. split; [done|]. do 2 f_equal. lia. }
  apply wp_bind, wp_storeb. { apply mapped_write with (n := n) (a := dst); [done|lia]. }
  apply wp_ret. split; [|lia]. exists (S i). repeat split; try lia.
  rewrite replicate_S_end, mem_write_snoc, length_replicate. done.
Qed.
End Copy.

(** * Comparing and searching *)

(** The first non-zero difference of two byte sequences. *)
Fixpoint diff (l1 l2 : list Z) : Z :=
  match l1, l2 with
  | a :: l1', b :: l2' => if a - b =? 0 then diff l1' l2' else a - b
  | _, _ => 0
  end.

(** The position of the first and of the last [c] of a list. *)
Fixpoint first_idx (c : Z) (l : list Z) : option nat :=
  match l with
  | [] => None
  | b :: l' => if b =? c then Some O else S <$> first_idx c l'
  end.

Fixpoint last_idx (c : Z) (l : list Z) : option nat :=
  match l with
  | [] => None
  | b :: l' => match last_idx c l' with
               | Some i => Some (S i)
               | None => if b =? c then Some O else None
               end
  end.

(** The pointer answered for a position: NULL for none. *)
Definition ptr_at (s : Z) (o : option nat) : Z :=
  match o with Some i => s + Z.of_nat i | None => NULL end.

(** [x] occurs in [y] at position [j]. *)
Definition occurs (x y : list Z) (j : nat) : Prop :=
  ∀ i b, x !! i = Some b → y !! (j + i)%nat = Some b.

(** [r] is the address of the first occurrence of [x] in [y], NULL if none. *)
Definition first_occurrence (x y : list Z) (s r : Z) : Prop :=
  (∃ j : nat, r = s + Z.of_nat j ∧ occurs x y j ∧ ∀ i : nat, (i < j)%nat → ¬ occurs x y i) ∨
  (r = NULL ∧ ∀ j : nat, ¬ occurs x y j).

Section Search.
Implicit Types (m : mem) (l : list Z).

Lemma diff_eq l1 l2 : length l1 = length l2 → diff l1 l2 = 0 ↔ l1 = l2.
Proof.
  revert l2. induction l1 as [|a l1 IH]; intros [|b l2] Hl; simpl in *; try done.
  injection Hl as Hl. destruct (Z.eqb_spec (a - b) 0).
  - rewrite IH by done. assert (a = b) as -> by lia. split; congruence.
  - split; [lia|]. injection 1. lia.
Qed.

Lemma diff_self l : diff l l = 0.
Proof. by apply diff_eq. Qed.

Lemma first_idx_Some c l i :
  first_idx c l = Some i ↔ l !! i = Some c ∧ ∀ j, (j < i)%nat → l !! j ≠ Some c.
Proof.
  revert i. induction l as [|b l IH]; intros i; simpl.
  { rewrite lookup_nil. split; [done|]. by intros [? _]. }
  destruct (Z.eqb_spec b c) as [->|Hne].
  - split; [intros [= <-]; split; [done|lia]|].
    intros [Hi Hj]. destruct i; [done|]. exfalso. apply (Hj 0%nat); [lia|done].
  - rewrite fmap_Some. split.
    + intros (j & (Hl & Hj)%IH & ->). split; [done|]. intros [|k] Hk; simpl; [congruence|].
      apply Hj. lia.
    + intros [Hi Hj]. destruct i as [|i]; simpl in Hi; [congruence|].
      exists i. split; [|done]. apply IH. split; [done|]. intros k Hk. apply (Hj (S k)). lia.
Qed.

Lemma first_idx_None c l : first_idx c l = None ↔ c ∉ l.
Proof.
  induction l as [|b l IH]; simpl; [split; [intros _; apply not_elem_of_nil|done]|].
  rewrite not_elem_of_cons. destruct (Z.eqb_spec b c) as [->|Hne].
  - split; [done|]. by intros [? _].
  - rewrite fmap_None, IH. split; [|tauto]. intros ?. split; congruence.
Qed.

Lemma occurs_length x y j : x ≠ [] → occurs x y j → (j + length x ≤ length y)%nat.
Proof.
  intros Hx Ho. destruct x as [|a x']; [done|].
  destruct (lookup_lt_is_Some_2 (a :: x') (length x')) as [b Hb]; [simpl; lia|].
  apply Ho, lookup_lt_Some in Hb. simpl. lia.
Qed.

Lemma occurs_app x1 x2 y j :
  occurs (x1 ++ x2) y j ↔ occurs x1 y j ∧ occurs x2 y (j + length x1).
Proof.
  unfold occurs. split.
  - intros H. split.
    + intros i b Hi. apply H. by apply lookup_app_l_Some.
    + intros i b Hi. rewrite <- Nat.add_assoc. apply H.
      rewrite lookup_app_r by lia. by replace (length x1 + i - length x1)%nat with i by lia.
  - intros [H1 H2] i b [Hi|[Hle Hi]]%lookup_app_Some; [by apply H1|].
    specialize (H2 _ _ Hi). rewrite <- H2. f_equal. lia.
Qed.

Lemma occurs_one a y j : occurs [a] y j ↔ y !! j = Some a.
Proof.
  unfold occurs. split.
  - intros H. specialize (H 0%nat a eq_refl). by rewrite Nat.add_0_r in H.
  - intros H [|i] b; simpl; [|by rewrite lookup_nil]. intros [= ->]. by rewrite Nat.add_0_r.
Qed.

Lemma occurs_take x y j : (j + length x ≤ length y)%nat →
  occurs x y j ↔ take (length x) (drop j y) = x.
Proof.
  intros Hle. split.
  - intros Ho. apply list_eq. intros i. destruct (x !! i) as [b|] eqn:E.
    + pose proof (lookup_lt_Some _ _ _ E). rewrite lookup_take_lt, lookup_drop by done. by apply Ho.
    + apply lookup_ge_None in E. apply lookup_ge_None. rewrite length_take. lia.
  - intros Heq i b Hb. pose proof (lookup_lt_Some _ _ _ Hb).
    rewrite <- Heq, lookup_take_lt, lookup_drop in Hb by done. done.
Qed.

Lemma memcmp_spec m s1 s2 l1 l2 :
  arr m s1 l1 → arr m s2 l2 → length l1 = length l2 → ZL l1 < 2 ^ 32 →
  wp (memcmp s1 s2 (ZL l1)) (λ r m', r = diff l1 l2 ∧ m' = m) m.
Proof.
  intros H1 H2 Hl Hn.
  apply wp_loop with
    (I := λ '(c1, c2, n, d) m', m' = m ∧ (n = 0 → d = diff l1 l2) ∧
            ∃ k1 k2, arr m c1 k1 ∧ arr m c2 k2 ∧ length k1 = length k2 ∧ n = ZL k1 ∧
            diff k1 k2 = diff l1 l2)
    (f := λ '(_, _, n, _) _, n); [|lia|].
  { split; [done|]. split; [|by exists l1, l2]. by destruct l1, l2. }
  intros [[[c1 c2] n] d] m' (-> & Hd & k1 & k2 & Ha1 & Ha2 & Hk & -> & Heq).
  split; [lia|]. destruct (Z.eqb_spec (ZL k1) 0); [apply wp_ret; auto|].
  destruct k1 as [|a k1], k2 as [|b k2]; try done.
  destruct Ha1 as [? Ha1], Ha2 as [? Ha2].
  apply wp_bind. eapply wp_loadb; [done|]. apply wp_bind. eapply wp_loadb; [done|].
  simpl in *. destruct (Z.eqb_spec (a - b) 0) as [E|]; apply wp_ret; [|done].
  split; [|lia]. split; [done|]. split.
  - intros ?. rewrite <- Heq, E. destruct k1, k2; simpl in *; (done || lia).
  - exists k1, k2. repeat split; try done; lia.
Qed.

Lemma memchr_spec m s c l :
  arr m s l → ZL l < 2 ^ 32 →
  wp (memchr s c (ZL l)) (λ r m', r = ptr_at s (first_idx (u8 c) l) ∧ m' = m) m.
Proof.
  intros Ha Hn.
  apply wp_loop with
    (I := λ '(sp, n) m', m' = m ∧ ∃ k, arr m sp k ∧ n = ZL k ∧
            ptr_at sp (first_idx (u8 c) k) = ptr_at s (first_idx (u8 c) l))
    (f := λ '(_, n) _, n); [by eauto|lia|].
  intros [sp n] m' (-> & k & Hk & -> & Heq). split; [lia|].
  destruct k as [|b k]; simpl in *.
  { apply wp_ret. done. }
  destruct Hk as [Hb Hk].
  apply wp_bind. eapply wp_loadb; [done|]. rewrite <- Heq.
  destruct (Z.eqb_spec b (u8 c)); apply wp_ret.
  { split; [simpl; lia|done]. }
  split; [|lia]. split; [done|]. exists k. repeat split; [done|lia|].
  destruct (first_idx (u8 c) k); simpl; lia.
Qed.
End Search.

Section Search2.
Implicit Types (m : mem) (l : list Z).

Lemma last_idx_snoc c l b :
  last_idx c (l ++ [b]) = if b =? c then Some (length l) else last_idx c l.
Proof.
  induction l as [|a l IH]; simpl; [done|]. rewrite IH. by destruct (b =? c).
Qed.

Lemma memrchr_spec m s c l :
  arr m s l → ZL l < 2 ^ 32 →
  wp (memrchr s c (ZL l)) (λ r m', r = ptr_at s (last_idx (u8 c) l) ∧ m' = m) m.
Proof.
  intros Ha Hn.
  apply wp_loop with
    (I := λ '(sp, n) m', m' = m ∧ ∃ k, arr m s k ∧ n = ZL k ∧ sp = s + ZL k - 1 ∧
            last_idx (u8 c) k = last_idx (u8 c) l)
    (f := λ '(_, n) _, n); [split; [done|by exists l]|lia|].
  intros [sp n] m' (-> & k & Hk & -> & -> & Heq). split; [lia|].
  destruct k as [|b k _] using rev_ind; simpl.
  { apply wp_ret. simpl in Heq. by rewrite <- Heq. }
  apply arr_app in Hk as [Hk [Hb _]].
  rewrite length_app in *. simpl in *. destruct (Z.eqb_spec (Z.of_nat (length k + 1)) 0); [lia|].
  apply wp_bind, wp_loadb with b. { rewrite <- Hb. f_equal. lia. }
  rewrite <- Heq, last_idx_snoc. destruct (Z.eqb_spec b (u8 c)); apply wp_ret.
  { split; [simpl; lia|done]. }
  split; [|lia]. split; [done|]. exists k. repeat split; try done; lia.
Qed.

(** memccpy copies through the first [c], or everything. *)
Lemma memccpy_spec m dst src c l :
  mem_wf m → arr m src l → mapped m dst (ZL l) → ZL l < 2 ^ 32 →
  copyable src dst (ZL l) →
  wp (memccpy dst src c (ZL l))
    (λ r m', r = ptr_at (dst + 1) (first_idx (u8 c) l) ∧
             m' = mem_write m dst (match first_idx (u8 c) l with
                                   | Some i => take (S i) l
                                   | None => l
                                   end)) m.
Proof.
  intros Hw Ha Hm Hlen Hov.
  apply wp_loop with
    (I := λ '(q, p, n) m', ∃ i : nat, (i ≤ length l)%nat ∧ q = dst + Z.of_nat i ∧
            p = src + Z.of_nat i ∧ n = ZL l - Z.of_nat i ∧
            m' = mem_write m dst (take i l) ∧ (∀ j, (j < i)%nat → l !! j ≠ Some (u8 c)))
    (f := λ '(_, _, n) _, n); [|lia|].
  { exists 0%nat. simpl. repeat split; lia. }
  intros [[q p] n] m' (i & Hi & -> & -> & -> & -> & Hnot). split; [lia|].
  destruct (Z.eqb_spec (ZL l - Z.of_nat i) 0).
  { assert (first_idx (u8 c) l = None) as ->.
    { apply first_idx_None. intros [j Hj]%list_elem_of_lookup_1.
      apply (Hnot j); [|done]. apply lookup_lt_Some in Hj. lia. }
    apply wp_ret. by rewrite take_ge by lia. }
  destruct (arr_split_at m src l i ltac:(lia) Ha) as (b & Hb & Hpb).
  apply wp_bind, wp_loadb with b; [by apply copy_load|].
  apply wp_bind, wp_storeb; [apply (copy_mapped _ _ _ l); (done || lia)|].
  rewrite (copy_store m dst src l i b) by done.
  destruct (Z.eqb_spec b (u8 c)) as [->|Hne]; apply wp_ret.
  - assert (first_idx (u8 c) l = Some i) as -> by (by apply first_idx_Some).
    split; [simpl; lia|done].
  - split; [|lia]. exists (S i). repeat split; try lia.
    intros j Hj. destruct (decide (j = i)) as [->|]; [congruence|]. apply Hnot. lia.
Qed.

Lemma memswap_spec m p q l1 l2 :
  mem_wf m → arr m p l1 → arr m q l2 → length l1 = length l2 → ZL l1 < 2 ^ 32 →
  p + ZL l1 ≤ q ∨ q + ZL l1 ≤ p →
  wp (memswap p q (ZL l1)) (λ _ m', m' = mem_write (mem_write m p l2) q l1) m.
Proof.
  intros Hw Ha1 Ha2 Hl Hn Hd.
  apply wp_loop with
    (I := λ '(p', q', n) m', ∃ i : nat, (i ≤ length l1)%nat ∧ p' = p + Z.of_nat i ∧
            q' = q + Z.of_nat i ∧ n = ZL l1 - Z.of_nat i ∧
            m' = mem_write (mem_write m p (take i l2)) q (take i l1))
    (f := λ '(_, _, n) _, n); [|lia|].
  { exists 0%nat. simpl. repeat split; lia. }
  intros [[p' q'] n] m' (i & Hi & -> & -> & -> & ->). split; [lia|].
  destruct (Z.eqb_spec (ZL l1 - Z.of_nat i) 0).
  { apply wp_ret. by rewrite !take_ge by lia. }
  destruct (arr_split_at m p l1 i ltac:(lia) Ha1) as (a & Hla & Hpa).
  destruct (arr_split_at m q l2 i ltac:(lia) Ha2) as (b & Hlb & Hqb).
  assert (∀ x, x = p + Z.of_nat i ∨ x = q + Z.of_nat i →
    mem_write (mem_write m p (take i l2)) q (take i l1) !! x = m !! x) as Hout.
  { intros x Hx. rewrite !mem_write_lookup_out; [done|..]; rewrite length_take_le; lia. }
  apply wp_bind, wp_loadb with a; [rewrite Hout by auto; done|].
  apply wp_bind, wp_loadb with b; [rewrite Hout by auto; done|].
  apply wp_bind, wp_storeb; [rewrite Hout by auto; eauto|].
  apply wp_bind, wp_storeb.
  { rewrite lookup_insert_ne by lia. rewrite Hout by auto. eauto. }
  apply wp_ret. split; [|lia]. exists (S i). repeat split; try lia.
  rewrite (take_S_r l1 _ a), (take_S_r l2 _ b) by done.
  rewrite !mem_write_snoc, !length_take_le by lia. rewrite (u8_small a) by (eapply Hw, Hpa).
  rewrite (u8_small b) by (eapply Hw, Hqb).
  f_equal. apply map_eq. intros x. rewrite mem_write_lookup, length_take_le by lia.
  destruct (decide (x = p + Z.of_nat i)) as [->|].
  - rewrite lookup_insert_eq. case_decide; [lia|]. by rewrite lookup_insert_eq.
  - rewrite !lookup_insert_ne, mem_write_lookup, length_take_le by lia. done.
Qed.

Lemma occurs_cons2 x0 x1 xs y j :
  occurs (x0 :: x1 :: xs) y j ↔
  y !! j = Some x0 ∧ y !! (j + 1)%nat = Some x1 ∧ occurs xs y (j + 2).
Proof.
  rewrite (occurs_app [x0] (x1 :: xs)), occurs_one.
  rewrite (occurs_app [x1] xs), occurs_one. simpl.
  replace (j + 1 + 1)%nat with (j + 2)%nat by lia. done.
Qed.

(** No occurrence starts before position [j]. *)
Definition none_before (x y : list Z) (j : Z) : Prop :=
  ∀ i : nat, Z.of_nat i < j → ¬ occurs x y i.

Lemma none_before_step x y (i : nat) (k : Z) :
  none_before x y (Z.of_nat i) → ¬ occurs x y i →
  k = 1 ∨ k = 2 ∧ ¬ occurs x y (i + 1) → none_before x y (Z.of_nat i + k).
Proof.
  intros Hb H0 Hk i' Hi'. destruct (decide (i' < i)%nat); [apply Hb; lia|].
  destruct (decide (i' = i)) as [->|]; [done|].
  destruct Hk as [->|[-> H1]]; [lia|]. by assert (i' = i + 1)%nat as -> by lia.
Qed.

(** The two shifts of the algorithm skip no occurrence. *)
Lemma nsn_shift x0 x1 xs y (i : nat) y1 :
  none_before (x0 :: x1 :: xs) y (Z.of_nat i) → ¬ occurs (x0 :: x1 :: xs) y i →
  y !! (i + 1)%nat = Some y1 →
  none_before (x0 :: x1 :: xs) y
    (Z.of_nat i + if bool_decide (x1 = y1) then if x0 =? x1 then 1 else 2
                  else if x0 =? x1 then 2 else 1).
Proof.
  intros Hb H0 Hy. apply none_before_step; [done..|].
  rewrite (occurs_cons2 x0 x1 xs y (i + 1)), Hy.
  case_bool_decide; destruct (Z.eqb_spec x0 x1); auto; right; (split; [done|]);
    intros (? & _); congruence.
Qed.

Section Long.
Variables (m : mem) (h nd x0 x1 : Z) (xs y : list Z).
Let x := x0 :: x1 :: xs.
Hypothesis Hy : arr m h y.
Hypothesis Hx : arr m nd x.
Hypothesis Hlen : ZL y < 2 ^ 32.
Hypothesis Hle : (length x ≤ length y)%nat.

(** What one round guarantees from position [i]. *)
Definition round_post (i : nat) (r : Z + Z) (m' : mem) : Prop :=
  m' = m ∧
  match r with
  | inl j => none_before x y j ∧ Z.of_nat i < j ∧ Z.of_nat i ≤ ZL y - ZL x
  | inr v => first_occurrence x y h v
  end.

Lemma window_cmp (i : nat) (Q : Z → mem → Prop) :
  Z.of_nat i ≤ ZL y - ZL x →
  (∀ d, d = 0 ↔ occurs xs y (i + 2) → Q d m) →
  wp (memcmp (nd + 2) (h + Z.of_nat i + 2) (ZL x - 2)) Q m.
Proof.
  intros Hi HQ. subst x. set (w := take (length xs) (drop (i + 2) y)).
  cbn [length] in *. replace (Z.of_nat (S (S (length xs))) - 2) with (ZL xs) by lia.
  assert (length w = length xs) by (unfold w; rewrite length_take, length_drop; lia).
  eapply wp_mono; [apply (memcmp_spec m _ _ xs w); [| |done|lia]|].
  - destruct Hx as (_ & _ & Hxs). by replace (nd + 1 + 1) with (nd + 2) in Hxs by lia.
  - apply arr_take. rewrite <- (take_drop (i + 2) y), arr_app, length_take_le in Hy by lia.
    replace (h + Z.of_nat i + 2) with (h + Z.of_nat (i + 2)) by lia. apply Hy.
  - intros d m' [-> ->]. apply HQ. rewrite diff_eq, occurs_take by lia.
    fold w. split; congruence.
Qed.

Lemma memmem_round_spec (i : nat) :
  none_before x y (Z.of_nat i) →
  wp (memmem_round h (ZL y) nd (ZL x) (if x0 =? x1 then 2 else 1)
        (if x0 =? x1 then 1 else 2) (Z.of_nat i)) (round_post i) m.
Proof.
  intros Hb. unfold memmem_round.
  destruct (Z.leb_spec (Z.of_nat i) (ZL y - ZL x)) as [Hi|Hi].
  2: { apply wp_ret. split; [done|]. right. split; [done|]. intros j Ho.
       pose proof (occurs_length x y j ltac:(done) Ho). apply (Hb j); [lia|done]. }
  destruct (arr_split_at m h y i) as (y0 & Hy0 & Hmy0); [subst x; simpl in *; lia|done|].
  destruct (arr_split_at m h y (i + 1)) as (y1 & Hy1 & Hmy1);
    [subst x; simpl in *; lia|done|].
  pose proof Hx as (Hx0 & Hx1 & _).
  pose proof (λ Ho, nsn_shift x0 x1 xs y i y1 Hb Ho Hy1) as Hskip.
  assert (occurs x y i ↔ y0 = x0 ∧ y1 = x1 ∧ occurs xs y (i + 2)) as Hocc.
  { subst x. rewrite occurs_cons2, Hy0, Hy1. naive_solver. }
  fold x in Hskip. rewrite Hocc in Hskip.
  apply wp_bind, wp_loadb with x1; [done|].
  apply wp_bind, wp_loadb with y1; [rewrite <- Hmy1; f_equal; lia|].
  destruct (Z.eqb_spec x1 y1) as [E1|N1]; cbn [negb].
  2: { rewrite bool_decide_eq_false_2 in Hskip by done. apply wp_ret. split; [done|].
       split; [apply Hskip; naive_solver|]. destruct (x0 =? x1); lia. }
  rewrite bool_decide_eq_true_2 in Hskip by done.
  apply wp_bind, window_cmp; [done|]. intros d Hd.
  destruct (Z.eqb_spec d 0) as [E|E].
  2: { apply wp_ret. split; [done|]. split; [apply Hskip; naive_solver|].
       destruct (x0 =? x1); lia. }
  apply wp_bind, wp_loadb with x0; [done|]. apply wp_bind, wp_loadb with y0; [done|].
  destruct (Z.eqb_spec x0 y0) as [E0|N0]; apply wp_ret; (split; [done|]).
  - left. exists i. split; [done|]. split; [naive_solver|]. intros j Hj. apply Hb. lia.
  - split; [apply Hskip; naive_solver|]. destruct (x0 =? x1); lia.
Qed.

Lemma memmem_long_spec :
  wp (memmem h (ZL y) nd (ZL x)) (λ r m', first_occurrence x y h r ∧ m' = m) m.
Proof.
  assert (2 ≤ ZL x) by (subst x; simpl; lia). unfold memmem.
  destruct (Z.gtb_spec (ZL x) (ZL y)); [lia|].
  destruct (Z.eqb_spec (ZL x) 0); [lia|]. destruct (Z.eqb_spec (ZL y) 0); [lia|].
  destruct (Z.eqb_spec 1 (ZL x)); [lia|]. cbn [negb orb].
  apply wp_bind, wp_loadb with x0; [apply Hx|].
  apply wp_bind, wp_loadb with x1; [apply Hx|].
  apply wp_loop with
    (I := λ j m', m' = m ∧ 0 ≤ j ∧ none_before x y j)
    (f := λ j _, Z.max 0 (ZL y - ZL x + 1 - j)); [|lia|].
  { split; [done|]. split; [lia|]. intros i ?. lia. }
  intros j m' (-> & Hj & Hb). split; [lia|]. rewrite <- (Z2Nat.id j) in * by done.
  eapply wp_mono; [by apply memmem_round_spec|].
  intros [j'|v] m' [-> Hr]; [|done]. destruct Hr as (? & ? & ?). repeat split; (done || lia).
Qed.
End Long.

Lemma memmem_one_spec m h nd c y :
  arr m h y → m !! nd = Some c → ZL y < 2 ^ 32 → y ≠ [] →
  wp (memmem h (ZL y) nd 1) (λ r m', first_occurrence [c] y h r ∧ m' = m) m.
Proof.
  intros Hy Hc Hlen Hne. unfold memmem.
  assert (ZL y ≠ 0) by (destruct y; [done|simpl; lia]).
  destruct (Z.gtb_spec 1 (ZL y)); [lia|]. destruct (Z.eqb_spec (ZL y) 0); [lia|].
  cbn [Z.eqb orb negb Pos.eqb].
  apply wp_loop with
    (I := λ '(p, n) m', m' = m ∧ ∃ i : nat, p = h + Z.of_nat i ∧ n = ZL y - Z.of_nat i ∧
            (i < length y)%nat ∧ none_before [c] y (Z.of_nat i))
    (f := λ '(_, n) _, n); [|lia|].
  { split; [done|]. exists 0%nat. repeat split; try lia. intros i ?. lia. }
  intros [p k] m' (-> & i & -> & -> & Hi & Hb). split; [lia|].
  destruct (arr_split_at m h y i Hi Hy) as (b & Hyb & Hmb).
  apply wp_bind, wp_loadb with b; [done|]. apply wp_bind, wp_loadb with c; [done|].
  destruct (Z.eqb_spec b c) as [->|Hbc]; [apply wp_ret|].
  { split; [|done]. left. exists i. rewrite occurs_one.
    split; [done|]. split; [done|]. intros j Hj. apply Hb. lia. }
  assert (none_before [c] y (Z.of_nat (S i))) as Hb'.
  { rewrite Nat2Z.inj_succ, <- Z.add_1_r. apply none_before_step; [done| |by left].
    rewrite occurs_one. congruence. }
  destruct (Z.eqb_spec (ZL y - Z.of_nat i - 1) 0); apply wp_ret.
  - split; [|done]. right. split; [done|]. intros j Ho. apply (Hb' j); [|done].
    apply occurs_one, lookup_lt_Some in Ho. lia.
  - split; [|lia]. split; [done|]. exists (S i). repeat split; [lia..|done].
Qed.

(** memmem on a non-empty needle: the first occurrence. *)
Lemma memmem_spec m h nd x y :
  arr m h y → arr m nd x → ZL y < 2 ^ 32 → x ≠ [] →
  wp (memmem h (ZL y) nd (ZL x)) (λ r m', first_occurrence x y h r ∧ m' = m) m.
Proof.
  intros Hy Hx Hlen Hne. destruct (decide (length x ≤ length y)%nat) as [Hle|].
  - destruct x as [|x0 [|x1 xs]]; [done| |by apply memmem_long_spec].
    apply memmem_one_spec; [done|apply Hx|done|]. intros ->. simpl in Hle. lia.
  - unfold memmem. destruct (Z.gtb_spec (ZL x) (ZL y)); [|lia]. apply wp_ret.
    split; [|done]. right. split; [done|]. intros j Ho.
    pose proof (occurs_length x y j Hne Ho). lia.
Qed.

(** An empty needle is never found. *)
Lemma memmem_empty m h n nd : memmem h n nd 0 m = Ret (NULL, m).
Proof.
  unfold memmem. rewrite (Z.eqb_refl 0). by destruct (0 >? n).
Qed.

Lemma bzero_spec m dst n :
  mapped m dst n → 0 ≤ n < 2 ^ 32 →
  wp (bzero dst n) (λ _ m', m' = mem_write m dst (replicate (Z.to_nat n) 0)) m.
Proof.
  intros. apply wp_bind. eapply wp_mono; [by apply memset_spec|].
  intros r m' [_ ->]. by apply wp_ret.
Qed.
End Search2.

(** * Properties *)

(** C1 memmove copies any block onto any other, however they overlap, and memcpy
    does when the destination does not start inside the source: the result is
    the destination, the [n] bytes there are the old bytes of the source, and no
    other byte of memory changes. *)
Theorem memmove_correct (m : mem) (dst src : Z) (l : list Z) :
  mem_wf m → arr m src l → mapped m dst (ZL l) → ZL l < 2 ^ 32 →
  ∃ m', memmove dst src (ZL l) m = Ret (dst, m') ∧
    arr m' dst l ∧ (∀ x, x < dst ∨ dst + ZL l ≤ x → m' !! x = m !! x) ∧
    (copyable src dst (ZL l) → memcpy dst src (ZL l) m = Ret (dst, m')).
Proof.
  intros Hw Ha Hm Hl. exists (mem_write m dst l).
  split; [by apply wp_Ret, memmove_spec|]. split; [apply mem_write_arr|].
  split; [by apply mem_write_lookup_out|].
  intros Hc. apply wp_Ret, memcpy_spec; [by eapply mem_wf_arr|done..].
Qed.

(** A memory with the given bytes from address 256 on, for the examples. *)
Definition mem_at (l : list Z) : mem := mem_write ∅ 256 l.

Lemma mem_at_wf l : Forall is_byte l → mem_wf (mem_at l).
Proof. intros H. apply mem_wf_write; [|done]. intros x b. by rewrite lookup_empty. Qed.

Lemma mem_at_arr l : arr (mem_at l) 256 l.
Proof. apply mem_write_arr. Qed.

Lemma mem_at_mapped l a n : 256 ≤ a → a + n ≤ 256 + ZL l → mapped (mem_at l) a n.
Proof. intros ??. by apply (mapped_sub _ 256 (ZL l)); [apply arr_mapped, mem_at_arr|..]. Qed.

(** Contents of a concrete memory, by evaluation. *)
Ltac arr_ok := repeat split; vm_compute; reflexivity.
Ltac cstr_ok := split; [repeat constructor; lia|arr_ok].
Ltac bytes_ok := repeat constructor; unfold is_byte; lia.

Lemma memmove_correct_witness :
  let m := mem_at [1; 2; 3; 4; 5] in
  ∃ m', memmove 257 256 4 m = Ret (257, m') ∧
    arr m' 257 [1; 2; 3; 4] ∧ (∀ x, x < 257 ∨ 261 ≤ x → m' !! x = m !! x) ∧
    (copyable 256 257 4 → memcpy 257 256 4 m = Ret (257, m')).
Proof.
  apply (memmove_correct (mem_at [1; 2; 3; 4; 5]) 257 256 [1; 2; 3; 4]).
  - apply mem_at_wf. bytes_ok.
  - apply (arr_take _ _ [1; 2; 3; 4; 5] 4), mem_at_arr.
  - apply mem_at_mapped; simpl; lia.
  - simpl. lia.
Defined.
