(* ===== verification/LibcStr.v ===== *)
(** The string functions of sw/sys-libs/libc (str*.c) and the character classes
    of include/ctype.h, on the byte memory of [Memory]: strings are
    NUL-terminated byte sequences at an address.  The pointer variable that
    strsep and strtok_r update through [char **] is passed and returned by value;
    strtok keeps it in the static [holder], here the state argument. *)
From S2P Require Import Prelude Memory LibcMem.
From stdpp Require Import base list gmap fin_maps.
From Stdlib Require Import ZArith Lia.

#[local] Open Scope Z_scope.

(** * ctype.h *)
Definition isupper (c : Z) : bool := (65 <=? c) && (c <=? 90).
Definition islower (c : Z) : bool := (97 <=? c) && (c <=? 122).
Definition isalpha (c : Z) : bool := islower c || isupper c.
(* the subtraction is made on [unsigned] *)
Definition isdigit (c : Z) : bool := u32 (u32 c - 48) <=? 9.
Definition isalnum (c : Z) : bool := isalpha c || isdigit c.
Definition isascii (c : Z) : bool := Z.land c (Z.lnot 127) =? 0.
Definition isblank (c : Z) : bool := (c =? 9) || (c =? 32).
Definition iscntrl (c : Z) : bool := c <? 32.
Definition isspace (c : Z) : bool := (c =? 32) || (c =? 10) || (c =? 9) || (c =? 13).
Definition isxdigit (c : Z) : bool :=
  isdigit c || ((97 <=? c) && (c <=? 102)) || ((65 <=? c) && (c <=? 70)).
Definition toupper (c : Z) : Z := if islower c then Z.land c (Z.lnot 32) else c.
Definition tolower (c : Z) : Z := if isupper c then Z.lor c 32 else c.

(** * Lengths, copies *)
Definition strlen (s : Z) : M mem Z :=
  loop (λ ss, c ← loadb ss;
    if c =? 0 then mret (inr (ss - s)) else mret (inl (ss + 1))) s.

Definition strnlen (s maxlen : Z) : M mem Z :=
  loop (λ '(ss, maxlen),
    if maxlen >? 0 then
      c ← loadb ss;
      if c =? 0 then mret (inr (ss - s)) else mret (inl (ss + 1, maxlen - 1))
    else mret (inr (ss - s))) (s, maxlen).

Definition strcpy (dst src : Z) : M mem Z :=
  loop (λ '(q, p), ch ← loadb p; storeb q ch;;
    if ch =? 0 then mret (inr ()) else mret (inl (q + 1, p + 1))) (dst, src);;
  mret dst.

Definition strncpy (dst src n : Z) : M mem Z :=
  '(q, n) ← loop (λ '(q, p, n),
    if n =? 0 then mret (inr (q, n))
    else ch ← loadb p; storeb q ch;;
         if ch =? 0 then mret (inr (q + 1, n - 1))
         else mret (inl (q + 1, p + 1, n - 1))) (dst, src, n);
  memset q 0 n;;
  mret dst.

Definition strlcpy (dst src size : Z) : M mem Z :=
  '(q, bytes) ← loop (λ '(q, p, bytes),
    ch ← loadb p;
    if ch =? 0 then mret (inr (q, bytes))
    else if bytes + 1 <? size then storeb q ch;; mret (inl (q + 1, p + 1, bytes + 1))
         else mret (inl (q, p + 1, bytes + 1))) (dst, src, 0);
  when (negb (size =? 0)) (storeb q 0);;
  mret bytes.

Definition strchr (s c : Z) : M mem Z :=
  loop (λ s, x ← loadb s;
    if negb (x =? u8 c) then
      if x =? 0 then mret (inr NULL) else mret (inl (s + 1))
    else mret (inr s)) s.

Definition strrchr (s c : Z) : M mem Z :=
  loop (λ '(s, found), x ← loadb s;
    if x =? 0 then mret (inr found)
    else mret (inl (s + 1, if x =? u8 c then s else found))) (s, NULL).

Definition strcat (dst src : Z) : M mem Z :=
  e ← strchr dst 0; strcpy e src;; mret dst.

Definition strncat (dst src n : Z) : M mem Z :=
  q ← strchr dst 0;
  r ← loop (λ '(q, p, n),
    if n =? 0 then mret (inr (Some q))
    else ch ← loadb p; storeb q ch;;
         if ch =? 0 then mret (inr None) else mret (inl (q + 1, p + 1, n - 1)))
    (q, src, n);
  match r with
  | None => mret dst
  | Some q => storeb q 0;; mret dst
  end.

Definition strlcat (dst src size : Z) : M mem Z :=
  '(q, bytes) ← loop (λ '(q, bytes),
    if bytes <? size then
      c ← loadb q;
      if c =? 0 then mret (inr (q, bytes)) else mret (inl (q + 1, bytes + 1))
    else mret (inr (q, bytes))) (dst, 0);
  if bytes =? size then n ← strlen src; mret (bytes + n)
  else
    '(q, bytes) ← loop (λ '(q, p, bytes),
      ch ← loadb p;
      if ch =? 0 then mret (inr (q, bytes))
      else if bytes + 1 <? size then storeb q ch;; mret (inl (q + 1, p + 1, bytes + 1))
           else mret (inl (q, p + 1, bytes + 1))) (q, src, bytes);
    storeb q 0;;
    mret bytes.

(** * Comparisons *)
Definition strcmp (s1 s2 : Z) : M mem Z :=
  loop (λ '(c1, c2),
    ch ← loadb c1; y ← loadb c2;
    let d := ch - y in
    if negb (d =? 0) || (ch =? 0) then mret (inr d) else mret (inl (c1 + 1, c2 + 1)))
    (s1, s2).

Definition strncmp (s1 s2 n : Z) : M mem Z :=
  loop (λ '(c1, c2, n, d),
    if n =? 0 then mret (inr d)
    else ch ← loadb c1; y ← loadb c2;
         let d := ch - y in
         if negb (d =? 0) || (ch =? 0) then mret (inr d)
         else mret (inl (c1 + 1, c2 + 1, n - 1, d))) (s1, s2, n, 0).

Definition strcasecmp (s1 s2 : Z) : M mem Z :=
  loop (λ '(c1, c2),
    ch ← loadb c1; y ← loadb c2;
    let d := toupper ch - toupper y in
    if negb (d =? 0) || (ch =? 0) then mret (inr d) else mret (inl (c1 + 1, c2 + 1)))
    (s1, s2).

Definition strncasecmp (s1 s2 n : Z) : M mem Z :=
  loop (λ '(c1, c2, n, d),
    if n =? 0 then mret (inr d)
    else ch ← loadb c1; y ← loadb c2;
         let d := toupper ch - toupper y in
         if negb (d =? 0) || (ch =? 0) then mret (inr d)
         else mret (inl (c1 + 1, c2 + 1, n - 1, d))) (s1, s2, n, 0).

(** * Sets of characters *)

(** The inner loop [for (c = s2; *c; c++) if ( *s1 == *c) break;] *)
Definition find_in (s1 s2 : Z) : M mem Z :=
  loop (λ c, x ← loadb c;
    if x =? 0 then mret (inr c)
    else y ← loadb s1; if y =? x then mret (inr c) else mret (inl (c + 1))) s2.

Definition strcspn (s1 s2 : Z) : M mem Z :=
  loop (λ p, x ← loadb p;
    if x =? 0 then mret (inr (p - s1))
    else c ← find_in p s2; y ← loadb c;
         if negb (y =? 0) then mret (inr (p - s1)) else mret (inl (p + 1))) s1.

Definition strspn (s1 s2 : Z) : M mem Z :=
  loop (λ p, x ← loadb p;
    if x =? 0 then mret (inr (p - s1))
    else c ← find_in p s2; y ← loadb c;
         if y =? 0 then mret (inr (p - s1)) else mret (inl (p + 1))) s1.

Definition strpbrk (s1 s2 : Z) : M mem Z :=
  x ← loadb s1;
  if x =? 0 then mret NULL
  else
    '(s1, c) ← loop (λ '(s1, c), x ← loadb s1;
      if x =? 0 then mret (inr (s1, c))
      else c ← find_in s1 s2; y ← loadb c;
           if negb (y =? 0) then mret (inr (s1, c)) else mret (inl (s1 + 1, c))) (s1, s2);
    y ← loadb c;
    mret (if y =? 0 then NULL else s1).

Definition strsep (stringp delim : Z) : M mem (Z * Z) :=
  if stringp =? NULL then mret (NULL, stringp)
  else
    e ← strpbrk stringp delim;
    if negb (e =? NULL) then storeb e 0;; mret (stringp, e + 1)
    else mret (stringp, e).

Definition strtok_r (s delim holder : Z) : M mem (Z * Z) :=
  loop (λ holder,
    '(s, holder) ← strsep holder delim;
    if negb (s =? NULL) then
      x ← loadb s;
      if x =? 0 then mret (inl holder) else mret (inr (s, holder))
    else mret (inr (s, holder))) (if negb (s =? NULL) then s else holder).

Definition strtok (s delim holder : Z) : M mem (Z * Z) := strtok_r s delim holder.

Definition strstr (haystack needle : Z) : M mem Z :=
  n ← strlen haystack; k ← strlen needle; memmem haystack n needle k.

(** The two stubs of string.h. *)
Definition strcoll (s1 s2 : Z) : M mem Z := strcmp s1 s2.
Definition strxfrm (dest src n : Z) : M mem Z := strncpy dest src n;; strlen src.

(** * Reference functions on lists *)

(** The length of the longest prefix whose bytes satisfy [P]. *)
Fixpoint span_len (P : Z → bool) (l : list Z) : nat :=
  match l with
  | [] => O
  | b :: l' => if P b then S (span_len P l') else O
  end.

Definition in_set (ds : list Z) (b : Z) : bool := bool_decide (b ∈ ds).

(** Comparison of NUL-terminated strings through a folding [f]: the first
    difference, the end of a string counting as 0. *)
Fixpoint str_diff (f : Z → Z) (l1 l2 : list Z) : Z :=
  match l1, l2 with
  | [], [] => 0
  | [], b :: _ => f 0 - f b
  | a :: _, [] => f a - f 0
  | a :: l1', b :: l2' => if f a - f b =? 0 then str_diff f l1' l2' else f a - f b
  end.

(** * Lemmas: scanning and copying *)
Section Scan.
Implicit Types (m : mem) (l : list Z).

(** A byte of a C string, or its terminator. *)
Lemma cstr_step m s l i :
  cstr m s l → (i ≤ length l)%nat →
  ∃ b, m !! (s + Z.of_nat i) = Some b ∧
    ((b = 0 ∧ i = length l) ∨ (b ≠ 0 ∧ (i < length l)%nat ∧ l !! i = Some b)).
Proof.
  intros Hs Hi. destruct (decide (i = length l)) as [->|].
  - exists 0. split; [by apply cstr_end|auto].
  - destruct (lookup_lt_is_Some_2 l i ltac:(lia)) as [b Hb].
    destruct (cstr_lookup _ _ _ _ _ Hs Hb). exists b. split; [done|]. right.
    split; [done|]. split; [lia|done].
Qed.

Lemma strlen_spec m s l :
  cstr m s l → ZL l < 2 ^ 32 → wp (strlen s) (λ r m', r = ZL l ∧ m' = m) m.
Proof.
  intros Hs Hn.
  apply wp_loop with
    (I := λ ss m', m' = m ∧ ∃ i : nat, ss = s + Z.of_nat i ∧ (i ≤ length l)%nat)
    (f := λ ss _, s + ZL l - ss); [|lia|].
  { split; [done|]. exists 0%nat. lia. }
  intros ss m' (-> & i & -> & Hi). split; [lia|].
  destruct (cstr_step m s l i Hs Hi) as (b & Hb & [[-> ->]|(Hnz & Hlt & _)]);
    apply wp_bind; (eapply wp_loadb; [done|]).
  - apply wp_ret. split; [lia|done].
  - destruct (Z.eqb_spec b 0); [done|]. apply wp_ret. split; [|lia]. split; [done|].
    exists (S i). lia.
Qed.

Lemma strnlen_spec m s l n :
  cstr m s l → ZL l < 2 ^ 32 → 0 ≤ n < 2 ^ 32 →
  wp (strnlen s n) (λ r m', r = Z.min n (ZL l) ∧ m' = m) m.
Proof.
  intros Hs Hl Hn.
  apply wp_loop with
    (I := λ '(ss, k) m', m' = m ∧ ∃ i : nat, ss = s + Z.of_nat i ∧ (i ≤ length l)%nat ∧
            k = n - Z.of_nat i ∧ 0 ≤ k)
    (f := λ '(_, k) _, k); [|lia|].
  { split; [done|]. exists 0%nat. lia. }
  intros [ss k] m' (-> & i & -> & Hi & -> & Hk). split; [lia|].
  destruct (Z.gtb_spec (n - Z.of_nat i) 0); [|apply wp_ret; split; [lia|done]].
  destruct (cstr_step m s l i Hs Hi) as (b & Hb & [[-> ->]|(Hnz & Hlt & _)]);
    apply wp_bind; (eapply wp_loadb; [done|]).
  - apply wp_ret. split; [lia|done].
  - destruct (Z.eqb_spec b 0); [done|]. apply wp_ret. split; [|lia]. split; [done|].
    exists (S i). lia.
Qed.

Lemma strchr_spec m s c l :
  cstr m s l → ZL l < 2 ^ 32 → 
  wp (strchr s c) (λ r m', r = ptr_at s (first_idx (u8 c) (l ++ [0])) ∧ m' = m) m.
Proof.
  intros Hs Hn.
  apply wp_loop with
    (I := λ p m', m' = m ∧ ∃ k, cstr m p k ∧ (length k ≤ length l)%nat ∧ p = s + ZL l - ZL k ∧
            ptr_at p (first_idx (u8 c) (k ++ [0])) = ptr_at s (first_idx (u8 c) (l ++ [0])))
    (f := λ p _, s + ZL l - p); [|lia|].
  { split; [done|]. exists l. split_and!; (done || lia). }
  intros p m' (-> & k & Hk & Hle & -> & Heq). split; [lia|].
  destruct k as [|b k]; cbn [app first_idx length] in *.
  - apply cstr_nil in Hk. apply wp_bind. eapply wp_loadb; [done|].
    rewrite <- Heq. destruct (Z.eqb_spec 0 (u8 c)); apply wp_ret; (split; [cbn; lia|done]).
  - apply cstr_cons in Hk as (Hb & Hnz & Hk).
    apply wp_bind. eapply wp_loadb; [done|].
    destruct (Z.eqb_spec b (u8 c)); cbn [negb] in *.
    { apply wp_ret. rewrite <- Heq. split; [cbn; lia|done]. }
    destruct (Z.eqb_spec b 0); [done|]. apply wp_ret. split; [|lia].
    split; [done|]. exists k. split_and!; [|lia|lia|].
    + by replace (s + ZL l - Z.of_nat (S (length k)) + 1) with (s + ZL l - ZL k) in * by lia.
    + rewrite <- Heq. destruct (first_idx (u8 c) (k ++ [0])); simpl; lia.
Qed.

Lemma strrchr_spec m s c l :
  cstr m s l → ZL l < 2 ^ 32 →
  wp (strrchr s c) (λ r m', r = ptr_at s (last_idx (u8 c) l) ∧ m' = m) m.
Proof.
  intros Hs Hn.
  apply wp_loop with
    (I := λ '(p, found) m', m' = m ∧ ∃ i : nat, p = s + Z.of_nat i ∧ (i ≤ length l)%nat ∧
            found = ptr_at s (last_idx (u8 c) (take i l)))
    (f := λ '(p, _) _, s + ZL l - p); [|lia|].
  { split; [done|]. exists 0%nat. simpl. split; [lia|]. split; [lia|done]. }
  intros [p found] m' (-> & i & -> & Hi & ->). split; [lia|].
  destruct (cstr_step m s l i Hs Hi) as (b & Hb & [[-> ->]|(Hnz & Hlt & Hli)]);
    apply wp_bind; (eapply wp_loadb; [done|]).
  - apply wp_ret. by rewrite firstn_all.
  - destruct (Z.eqb_spec b 0); [done|]. apply wp_ret. split; [|lia]. split; [done|].
    exists (S i). split; [lia|]. split; [lia|].
    rewrite (take_S_r _ _ b), last_idx_snoc, length_take_le by (done || lia).
    by destruct (b =? u8 c).
Qed.

Lemma cstr_copy m src l : cstr m src l → arr m src (l ++ [0]).
Proof. by intros [_ ?]. Qed.

Lemma lookup_snoc_0 l i b :
  nonzero l → (l ++ [0]) !! i = Some b → b = 0 ∧ i = length l ∨ b ≠ 0 ∧ l !! i = Some b.
Proof.
  intros Hnz [Hi|[Hle Hi]]%lookup_app_Some.
  - right. split; [|done]. by eapply Forall_lookup_1 in Hnz.
  - left. apply list_lookup_singleton_Some in Hi as [? ->]. split; [done|lia].
Qed.

Lemma strcpy_spec m dst src l :
  mem_wf m → cstr m src l → mapped m dst (ZL l + 1) → ZL l < 2 ^ 32 →
  copyable src dst (ZL l + 1) →
  wp (strcpy dst src) (λ r m', r = dst ∧ m' = mem_write m dst (l ++ [0])) m.
Proof.
  intros Hw Hs Hm Hn Hc. pose proof (cstr_copy _ _ _ Hs) as Ha. destruct Hs as [Hnz _].
  assert (ZL (l ++ [0]) = ZL l + 1) as Hl by (rewrite length_app; simpl; lia).
  rewrite <- Hl in Hm, Hc. apply wp_bind.
  apply wp_loop with
    (I := λ '(q, p) m', ∃ i : nat, q = dst + Z.of_nat i ∧ p = src + Z.of_nat i ∧
            (i ≤ length l)%nat ∧ m' = mem_write m dst (take i (l ++ [0])))
    (f := λ '(_, p) _, src + ZL l - p); [|lia|].
  { exists 0%nat. split_and!; simpl; (lia || done). }
  intros [q p] m' (i & -> & -> & Hi & ->). split; [lia|].
  destruct (lookup_lt_is_Some_2 (l ++ [0]) i ltac:(lia)) as [b Hb].
  apply wp_bind, wp_loadb with b; [by apply copy_load|].
  apply wp_bind, wp_storeb; [apply (copy_mapped _ _ _ (l ++ [0])); (done || lia)|].
  erewrite copy_store by done. 
  destruct (lookup_snoc_0 l i b Hnz Hb) as [[-> ->]|[Hnb Hb']]; [|destruct (Z.eqb_spec b 0); [done|]].
  - apply wp_ret, wp_ret. rewrite take_ge by lia. done.
  - apply lookup_lt_Some in Hb'. apply wp_ret. split; [|lia]. exists (S i). split_and!; (lia || done).
Qed.
End Scan.

Section Copies.
Implicit Types (m : mem) (l d : list Z).

(** One byte of a bounded copy, at any loop whose destination holds [take i k]. *)
Lemma wp_copy_byte {B} m dst src k i b (f : Z → M mem B) Q :
  mem_wf m → arr m src k → mapped m dst (ZL k) → copyable src dst (ZL k) → k !! i = Some b →
  wp (f b) Q (mem_write m dst (take (S i) k)) →
  wp (ch ← loadb (src + Z.of_nat i); storeb (dst + Z.of_nat i) ch;; f ch) Q
     (mem_write m dst (take i k)).
Proof.
  intros Hw Ha Hm Hc Hb HQ. pose proof (lookup_lt_Some _ _ _ Hb).
  apply wp_bind, wp_loadb with b; [by apply copy_load|].
  apply wp_bind, wp_storeb; [by eapply copy_mapped|]. by erewrite copy_store.
Qed.

(** What strncpy has copied, then padded, is the string resized to [n]. *)
Lemma pad_resize l (n i : nat) :
  (length l ≤ i)%nat ∨ i = n → (i ≤ S (length l))%nat → (i ≤ n)%nat →
  take i (take n (l ++ [0])) ++ replicate (n - i) 0 = resize n 0 l.
Proof.
  intros Hor Hi Hin. rewrite take_take, Nat.min_l, resize_spec by done.
  destruct (decide (i ≤ length l)%nat) as [Hle|].
  - rewrite take_app_le by done. destruct Hor; [|subst i].
    + assert (i = length l) as -> by lia. by rewrite firstn_all, (take_ge l n).
    + rewrite Nat.sub_diag. by replace (n - length l)%nat with 0%nat by lia.
  - assert (i = S (length l)) as -> by lia.
    rewrite take_ge by (rewrite length_app; simpl; lia). rewrite (take_ge l n) by lia.
    rewrite <- app_assoc. f_equal. change ([0] ++ ?x) with (0 :: x).
    by replace (n - length l)%nat with (S (n - S (length l))) by lia.
Qed.

Lemma strncpy_pad m dst l n (i : nat) :
  mapped m dst n → (length l ≤ i)%nat ∨ Z.of_nat i = n → (i ≤ S (length l))%nat →
  Z.of_nat i ≤ n < 2 ^ 32 →
  wp (memset (dst + Z.of_nat i) 0 (n - Z.of_nat i);; mret dst)
    (λ r m', r = dst ∧ m' = mem_write m dst (resize (Z.to_nat n) 0 l))
    (mem_write m dst (take i (take (Z.to_nat n) (l ++ [0])))).
Proof.
  intros Hm Hor Hi Hn. apply wp_bind. eapply wp_mono.
  { apply memset_spec; [|lia]. apply mapped_write, (mapped_sub _ dst n); (done || lia). }
  intros r m' [_ ->]. apply wp_ret. split; [done|].
  rewrite <- (pad_resize l _ i) by lia. rewrite mem_write_app. do 2 f_equal; [|f_equal; lia].
  rewrite !length_take, length_app. simpl. lia.
Qed.

Lemma strncpy_spec m dst src l n :
  mem_wf m → cstr m src l → mapped m dst n → 0 ≤ n < 2 ^ 32 →
  copyable src dst (ZL l + 1) →
  wp (strncpy dst src n) (λ r m', r = dst ∧ m' = mem_write m dst (resize (Z.to_nat n) 0 l)) m.
Proof.
  intros Hw Hs Hm Hn Hc. pose proof (cstr_copy _ _ _ Hs) as Ha. destruct Hs as [Hnz _].
  set (k := take (Z.to_nat n) (l ++ [0])).
  assert (ZL k = Z.min n (ZL l + 1)) as Hk
    by (unfold k; rewrite length_take, length_app; simpl; lia).
  assert (arr m src k) as Hak by (by apply arr_take).
  assert (copyable src dst (ZL k)) as Hck by (unfold copyable in *; lia).
  assert (mapped m dst (ZL k)) as Hmk by (apply (mapped_sub _ dst n); (done || lia)).
  apply wp_bind, wp_loop with
    (I := λ '(q, p, r) m', ∃ i : nat, q = dst + Z.of_nat i ∧ p = src + Z.of_nat i ∧
            r = n - Z.of_nat i ∧ (i ≤ length l)%nat ∧ Z.of_nat i ≤ n ∧
            m' = mem_write m dst (take i k))
    (f := λ '(_, _, r) _, r); [|lia|].
  { exists 0%nat. split_and!; simpl; (lia || done). }
  intros [[q p] r] m' (i & -> & -> & -> & Hi & Hin & ->). split; [lia|].
  destruct (Z.eqb_spec (n - Z.of_nat i) 0) as [E|E].
  { apply wp_ret. apply strncpy_pad; (done || lia). }
  destruct (lookup_lt_is_Some_2 k i ltac:(lia)) as [b Hb].
  apply (wp_copy_byte m dst src k i b); [done..|].
  apply lookup_take_Some in Hb as [Hb _].
  destruct (lookup_snoc_0 l i b Hnz Hb) as [[-> ->]|[Hnb Hb']].
  - apply wp_ret. cbn beta iota.
    replace (dst + ZL l + 1) with (dst + Z.of_nat (S (length l))) by lia.
    replace (n - ZL l - 1) with (n - Z.of_nat (S (length l))) by lia.
    apply strncpy_pad; (done || lia).
  - destruct (Z.eqb_spec b 0); [done|]. apply lookup_lt_Some in Hb'. apply wp_ret.
    split; [|lia]. exists (S i). split_and!; (lia || done).
Qed.

(** The scanning copy of strlcpy and strlcat: at most [size - 1 - bytes0] bytes
    are stored, all are counted. *)
Lemma bounded_copy m q0 src l bytes0 size :
  mem_wf m → cstr m src l → 0 ≤ bytes0 → bytes0 + ZL l < 2 ^ 33 →
  let k := take (Z.to_nat (size - 1 - bytes0)) l in
  mapped m q0 (ZL k) → q0 + ZL k ≤ src ∨ src + ZL l + 1 ≤ q0 →
  wp (loop (λ '(q, p, bytes),
      ch ← loadb p;
      if ch =? 0 then mret (inr (q, bytes))
      else if bytes + 1 <? size then storeb q ch;; mret (inl (q + 1, p + 1, bytes + 1))
           else mret (inl (q, p + 1, bytes + 1))) (q0, src, bytes0))
    (λ '(q, bytes) m', q = q0 + ZL k ∧ bytes = bytes0 + ZL l ∧ m' = mem_write m q0 k) m.
Proof.
  intros Hw Hs H0 Hl k Hm Hd.
  assert (ZL k = Z.max 0 (Z.min (size - 1 - bytes0) (ZL l))) as Hk
    by (unfold k; rewrite length_take; lia).
  apply wp_loop with
    (I := λ '(q, p, bytes) m', ∃ i : nat, q = q0 + ZL (take i k) ∧ p = src + Z.of_nat i ∧
            bytes = bytes0 + Z.of_nat i ∧ (i ≤ length l)%nat ∧ m' = mem_write m q0 (take i k))
    (f := λ '(_, p, _) _, src + ZL l - p); [|lia|].
  { exists 0%nat. split_and!; simpl; (lia || done). }
  intros [[q p] bytes] m' (i & -> & -> & -> & Hi & ->). split; [lia|].
  destruct (cstr_step m src l i Hs Hi) as (b & Hb & Hcase).
  apply wp_bind, wp_loadb with b.
  { rewrite mem_write_lookup_out; [done|]. rewrite length_take. lia. }
  destruct Hcase as [[-> ->]|(Hnz & Hlt & Hlb)].
  { rewrite Z.eqb_refl. apply wp_ret. split_and!; [|done|]; rewrite take_ge by lia; done. }
  destruct (Z.eqb_spec b 0); [done|].
  destruct (Z.ltb_spec (bytes0 + Z.of_nat i + 1) size).
  - assert (k !! i = Some b) as Hki by (unfold k; rewrite lookup_take_lt; [done|lia]).
    apply wp_bind, wp_storeb.
    { apply (mapped_write _ q0 (ZL k)); [done|]. rewrite length_take. lia. }
    rewrite u8_small by (by eapply Hw). rewrite <- mem_write_snoc, <- take_S_r by done.
    apply wp_ret. split; [|lia]. exists (S i). split_and!; try lia; [|done].
    rewrite !length_take. lia.
  - apply wp_ret. split; [|lia]. exists (S i). rewrite !(take_ge k) by lia.
    split_and!; (lia || done).
Qed.

Lemma strlcpy_spec m dst src l size :
  mem_wf m → cstr m src l → ZL l < 2 ^ 32 → mapped m dst size → 0 ≤ size < 2 ^ 32 →
  dst + size ≤ src ∨ src + ZL l + 1 ≤ dst →
  wp (strlcpy dst src size)
    (λ r m', r = ZL l ∧
       m' = if size =? 0 then m
            else mem_write m dst (take (Z.to_nat (size - 1)) l ++ [0])) m.
Proof.
  intros Hw Hs Hl Hm Hsz Hd.
  assert (∀ n, ZL (take n l) ≤ ZL l ∧ ZL (take n l) ≤ Z.of_nat n) as Htl
    by (intros n; rewrite length_take; lia).
  pose proof (Htl (Z.to_nat (size - 1 - 0))).
  apply wp_bind. eapply wp_mono.
  { apply (bounded_copy m dst src l 0 size); [done..|lia|lia| |lia].
    destruct (Z.eqb_spec size 0) as [->|]; [intros x Hx; simpl in Hx; lia|].
    apply (mapped_sub _ dst size); [done|lia..]. }
  intros [q bytes] m' (-> & -> & ->). rewrite Z.sub_0_r.
  destruct (Z.eqb_spec size 0) as [->|]; cbn [negb when]; apply wp_bind.
  - apply wp_ret, wp_ret. split; [lia|done].
  - apply wp_storeb. { apply (mapped_write _ dst size); [done|]. rewrite Z.sub_0_r in *. lia. }
    apply wp_ret. split; [lia|]. by rewrite mem_write_snoc.
Qed.
End Copies.

Section Concat.
Implicit Types (m : mem) (l d : list Z).

Lemma nonzero_first_idx l : nonzero l → first_idx 0 (l ++ [0]) = Some (length l).
Proof.
  intros Hnz. apply first_idx_Some. split.
  - by apply list_lookup_middle.
  - intros j Hj. rewrite lookup_app_l by done. intros Hl.
    by apply (Forall_lookup_1 _ _ _ _ Hnz) in Hl.
Qed.

(** [strchr(s, 0)] is the end of the string. *)
Lemma strchr_end m s l (Q : Z → mem → Prop) :
  cstr m s l → ZL l < 2 ^ 32 → Q (s + ZL l) m → wp (strchr s 0) Q m.
Proof.
  intros Hs Hl HQ. eapply wp_mono; [by eapply strchr_spec|].
  change (u8 0) with 0. intros r m' [-> ->].
  rewrite nonzero_first_idx by apply Hs. done.
Qed.

Lemma strcat_spec m dst src d l :
  mem_wf m → cstr m dst d → cstr m src l → ZL d < 2 ^ 32 → ZL l < 2 ^ 32 →
  mapped m dst (ZL d + ZL l + 1) → copyable src (dst + ZL d) (ZL l + 1) →
  wp (strcat dst src) (λ r m', r = dst ∧ m' = mem_write m (dst + ZL d) (l ++ [0])) m.
Proof.
  intros Hw Hd Hs Hdl Hll Hm Hc. apply wp_bind. apply (strchr_end m dst d); [done..|].
  apply wp_bind. eapply wp_mono.
  { apply (strcpy_spec m _ src l); [done..| |done|done].
    apply (mapped_sub _ dst (ZL d + ZL l + 1)); [done|lia..]. }
  intros r m' [-> ->]. by apply wp_ret.
Qed.

Lemma strncat_spec m dst src d l n :
  mem_wf m → cstr m dst d → cstr m src l → ZL d < 2 ^ 32 → 0 ≤ n < 2 ^ 32 →
  mapped m dst (ZL d + Z.min n (ZL l) + 1) → copyable src (dst + ZL d) (ZL l + 1) →
  wp (strncat dst src n)
    (λ r m', r = dst ∧ m' = mem_write m (dst + ZL d) (take (Z.to_nat n) l ++ [0])) m.
Proof.
  intros Hw Hd Hs Hdl Hn Hm Hc. apply wp_bind. apply (strchr_end m dst d); [done..|].
  pose proof (cstr_copy _ _ _ Hs) as Ha. destruct Hs as [Hnz _].
  set (q0 := dst + ZL d). set (k := take (Z.to_nat n) (l ++ [0])).
  assert (ZL k = Z.min n (ZL l + 1)) as Hk
    by (unfold k; rewrite length_take, length_app; simpl; lia).
  assert (arr m src k) as Hak by (by apply arr_take).
  assert (copyable src q0 (ZL k)) as Hck by (unfold copyable in *; lia).
  assert (mapped m q0 (ZL k)) as Hmk by (apply (mapped_sub _ dst _ _ _ Hm); lia).
  apply wp_bind, wp_loop with
    (I := λ '(q, p, r) m', ∃ i : nat, q = q0 + Z.of_nat i ∧ p = src + Z.of_nat i ∧
            r = n - Z.of_nat i ∧ (i ≤ length l)%nat ∧ Z.of_nat i ≤ n ∧
            m' = mem_write m q0 (take i k))
    (f := λ '(_, _, r) _, r); [|lia|].
  { exists 0%nat. split_and!; simpl; (lia || done). }
  intros [[q p] r] m' (i & -> & -> & -> & Hi & Hin & ->). split; [lia|].
  destruct (Z.eqb_spec (n - Z.of_nat i) 0) as [E|E].
  { apply wp_ret. cbn beta iota. apply wp_bind, wp_storeb.
    { apply (mapped_write _ dst _ _ _ Hm). lia. }
    apply wp_ret. split; [done|]. assert (i = Z.to_nat n) as -> by lia.
    rewrite take_ge by lia. unfold k. rewrite take_app_le by lia.
    rewrite mem_write_snoc, length_take. do 2 f_equal. lia. }
  destruct (lookup_lt_is_Some_2 k i ltac:(lia)) as [b Hb].
  apply (wp_copy_byte m q0 src k i b); [done..|].
  apply lookup_take_Some in Hb as [Hb _].
  destruct (lookup_snoc_0 l i b Hnz Hb) as [[-> ->]|[Hnb Hb']].
  - apply wp_ret, wp_ret. split; [done|]. unfold k. rewrite take_take, take_ge.
    + by rewrite (take_ge l) by lia.
    + rewrite length_app. cbn [length]. lia.
  - destruct (Z.eqb_spec b 0); [done|]. apply lookup_lt_Some in Hb'. apply wp_ret.
    split; [|lia]. exists (S i). split_and!; (lia || done).
Qed.

(** strlcat's search for the end of the destination stops after [size] bytes. *)
Lemma strlcat_scan m dst d size :
  cstr m dst d → ZL d < 2 ^ 32 → 0 ≤ size < 2 ^ 32 →
  wp (loop (λ '(q, bytes),
      if bytes <? size then
        c ← loadb q;
        if c =? 0 then mret (inr (q, bytes)) else mret (inl (q + 1, bytes + 1))
      else mret (inr (q, bytes))) (dst, 0))
    (λ '(q, bytes) m', q = dst + bytes ∧ bytes = Z.min size (ZL d) ∧ m' = m) m.
Proof.
  intros Hd Hl Hsz.
  apply wp_loop with
    (I := λ '(q, bytes) m', m' = m ∧ ∃ i : nat, q = dst + Z.of_nat i ∧ bytes = Z.of_nat i ∧
            (i ≤ length d)%nat ∧ Z.of_nat i ≤ size)
    (f := λ '(_, bytes) _, size - bytes); [|lia|].
  { split; [done|]. exists 0%nat. split_and!; (lia || done). }
  intros [q bytes] m' (-> & i & -> & -> & Hi & Hs). split; [lia|].
  destruct (Z.ltb_spec (Z.of_nat i) size); [|apply wp_ret; split_and!; (lia || done)].
  destruct (cstr_step m dst d i Hd Hi) as (b & Hb & [[-> ->]|(Hnz & Hlt & _)]);
    apply wp_bind; (eapply wp_loadb; [done|]).
  - apply wp_ret. split_and!; (lia || done).
  - destruct (Z.eqb_spec b 0); [done|]. apply wp_ret. split; [|lia]. split; [done|].
    exists (S i). split_and!; (lia || done).
Qed.

Lemma strlcat_spec m dst src d l size :
  mem_wf m → cstr m dst d → cstr m src l → ZL d < 2 ^ 32 → ZL l < 2 ^ 32 →
  mapped m dst size → 0 ≤ size < 2 ^ 32 →
  dst + size ≤ src ∨ src + ZL l + 1 ≤ dst →
  wp (strlcat dst src size)
    (λ r m', r = Z.min size (ZL d) + ZL l ∧
       m' = if size <=? ZL d then m
            else mem_write m (dst + ZL d) (take (Z.to_nat (size - 1 - ZL d)) l ++ [0])) m.
Proof.
  intros Hw Hd Hs Hdl Hll Hm Hsz Hov. apply wp_bind. eapply wp_mono; [by apply strlcat_scan|].
  intros [q bytes] m' (-> & -> & ->). cbn beta iota.
  destruct (Z.leb_spec size (ZL d)); destruct (Z.eqb_spec (Z.min size (ZL d)) size); try lia.
  { apply wp_bind. eapply wp_mono; [by apply (strlen_spec m src l)|].
    intros r m' [-> ->]. by apply wp_ret. }
  rewrite Z.min_r by lia.
  assert (∀ n, ZL (take n l) ≤ ZL l ∧ ZL (take n l) ≤ Z.of_nat n) as Htl
    by (intros k; rewrite length_take; lia).
  pose proof (Htl (Z.to_nat (size - 1 - ZL d))).
  apply wp_bind. eapply wp_mono.
  { apply (bounded_copy m (dst + ZL d) src l (ZL d) size); [done..|lia|lia| |lia].
    apply (mapped_sub _ dst size); [done|lia..]. }
  intros [q bytes] m' (-> & -> & ->). cbn beta iota.
  apply wp_bind, wp_storeb. { apply (mapped_write _ dst _ _ _ Hm). lia. }
  apply wp_ret. split; [done|]. by rewrite mem_write_snoc.
Qed.
End Concat.

Section Compare.
Implicit Types (m : mem) (l : list Z).

(** The comparing loops of strcmp and strcasecmp, through [f]. *)
Lemma str_diff_loop (f : Z → Z) m s1 s2 l1 l2 :
  (∀ b, b ≠ 0 → f b ≠ f 0) → cstr m s1 l1 → cstr m s2 l2 → ZL l1 < 2 ^ 32 →
  wp (loop (λ '(c1, c2),
      ch ← loadb c1; y ← loadb c2;
      let d := f ch - f y in
      if negb (d =? 0) || (ch =? 0) then mret (inr d) else mret (inl (c1 + 1, c2 + 1)))
      (s1, s2)) (λ r m', r = str_diff f l1 l2 ∧ m' = m) m.
Proof.
  intros Hf H1 H2 Hl.
  apply wp_loop with
    (I := λ '(c1, c2) m', m' = m ∧ ∃ k1 k2, c1 = s1 + ZL l1 - ZL k1 ∧ (length k1 ≤ length l1)%nat ∧
            cstr m c1 k1 ∧ cstr m c2 k2 ∧ str_diff f k1 k2 = str_diff f l1 l2)
    (f := λ '(c1, _) _, s1 + ZL l1 - c1); [|lia|].
  { split; [done|]. exists l1, l2. split_and!; (lia || done). }
  intros [c1 c2] m' (-> & k1 & k2 & -> & Hle & Hk1 & Hk2 & Heq). split; [lia|].
  destruct k1 as [|a k1], k2 as [|b k2]; cbn [length str_diff] in *;
    rewrite ?cstr_nil, ?cstr_cons in Hk1; rewrite ?cstr_nil, ?cstr_cons in Hk2;
    rewrite <- Heq; clear Heq.
  - do 2 (apply wp_bind; eapply wp_loadb; [done|]). rewrite Z.sub_diag. by apply wp_ret.
  - destruct Hk2 as (? & Hb & _). do 2 (apply wp_bind; eapply wp_loadb; [done|]).
    rewrite orb_true_r. by apply wp_ret.
  - destruct Hk1 as (? & Ha & _). do 2 (apply wp_bind; eapply wp_loadb; [done|]).
    pose proof (Hf a Ha). destruct (Z.eqb_spec (f a - f 0) 0); [lia|]. by apply wp_ret.
  - destruct Hk1 as (? & Ha & Hk1), Hk2 as (? & Hb & Hk2).
    do 2 (apply wp_bind; eapply wp_loadb; [done|]).
    destruct (Z.eqb_spec a 0); [done|]. rewrite orb_false_r.
    destruct (Z.eqb_spec (f a - f b) 0); cbn [negb]; apply wp_ret; [|done].
    split; [|lia]. split; [done|]. exists k1, k2. split_and!; (lia || done).
Qed.

Lemma strcmp_spec m s1 s2 l1 l2 :
  cstr m s1 l1 → cstr m s2 l2 → ZL l1 < 2 ^ 32 →
  wp (strcmp s1 s2) (λ r m', r = str_diff id l1 l2 ∧ m' = m) m.
Proof. apply (str_diff_loop id). done. Qed.

(** The bounded loops of strncmp and strncasecmp. *)
Lemma strn_diff_loop (f : Z → Z) m s1 s2 l1 l2 n :
  (∀ b, b ≠ 0 → f b ≠ f 0) → cstr m s1 l1 → cstr m s2 l2 → 0 ≤ n < 2 ^ 32 →
  wp (loop (λ '(c1, c2, n, d),
    if n =? 0 then mret (inr d)
    else ch ← loadb c1; y ← loadb c2;
         let d := f ch - f y in
         if negb (d =? 0) || (ch =? 0) then mret (inr d)
         else mret (inl (c1 + 1, c2 + 1, n - 1, d))) (s1, s2, n, 0))
   (λ r m', r = str_diff f (take (Z.to_nat n) l1) (take (Z.to_nat n) l2) ∧ m' = m) m.
Proof.
  intros Hf H1 H2 Hn. set (R := str_diff f (take (Z.to_nat n) l1) (take (Z.to_nat n) l2)).
  apply wp_loop with
    (I := λ '(c1, c2, k, d) m', m' = m ∧ 0 ≤ k ∧ d = 0 ∧ ∃ k1 k2,
            cstr m c1 k1 ∧ cstr m c2 k2 ∧
            str_diff f (take (Z.to_nat k) k1) (take (Z.to_nat k) k2) = R)
    (f := λ '(_, _, k, _) _, k); [|lia|].
  { split; [done|]. split; [lia|]. split; [done|]. by exists l1, l2. }
  intros [[[c1 c2] k] d] m' (-> & Hk & -> & k1 & k2 & Hk1 & Hk2 & <-). split; [lia|].
  destruct (Z.eqb_spec k 0) as [->|]; [by apply wp_ret|].
  assert (Z.to_nat k = S (Z.to_nat (k - 1))) as -> by lia.
  destruct k1 as [|a k1], k2 as [|b k2]; cbn [length str_diff firstn] in *;
    rewrite ?cstr_nil, ?cstr_cons in Hk1; rewrite ?cstr_nil, ?cstr_cons in Hk2.
  - do 2 (apply wp_bind; eapply wp_loadb; [done|]). rewrite Z.sub_diag. by apply wp_ret.
  - destruct Hk2 as (? & Hb & _). do 2 (apply wp_bind; eapply wp_loadb; [done|]).
    rewrite orb_true_r. by apply wp_ret.
  - destruct Hk1 as (? & Ha & _). do 2 (apply wp_bind; eapply wp_loadb; [done|]).
    pose proof (Hf a Ha). destruct (Z.eqb_spec (f a - f 0) 0); [lia|]. by apply wp_ret.
  - destruct Hk1 as (? & Ha & Hk1), Hk2 as (? & Hb & Hk2).
    do 2 (apply wp_bind; eapply wp_loadb; [done|]).
    destruct (Z.eqb_spec a 0); [done|]. rewrite orb_false_r.
    destruct (Z.eqb_spec (f a - f b) 0) as [E|]; cbn [negb]; apply wp_ret; [|done].
    split; [|lia]. split_and!; [done|lia|done|]. by exists k1, k2.
Qed.
End Compare.

(** * Character sets and tokens *)
Section Sets.
Implicit Types (m : mem) (l ds : list Z).

Lemma find_in_spec m p s2 ds b :
  m !! p = Some b → cstr m s2 ds → ZL ds < 2 ^ 32 →
  wp (find_in p s2) (λ c m', m' = m ∧ ∃ y, m !! c = Some y ∧ (y = 0 ↔ b ∉ ds)) m.
Proof.
  intros Hp Hs Hl.
  apply wp_loop with
    (I := λ c m', m' = m ∧ ∃ k, c = s2 + ZL ds - ZL k ∧ (length k ≤ length ds)%nat ∧
            cstr m c k ∧ (b ∈ k ↔ b ∈ ds))
    (f := λ c _, s2 + ZL ds - c); [|lia|].
  { split; [done|]. exists ds. split_and!; (lia || done). }
  intros c m' (-> & k & -> & Hle & Hk & Hin). split; [lia|].
  destruct k as [|y k]; cbn [length] in *.
  - apply cstr_nil in Hk. apply wp_bind. eapply wp_loadb; [done|]. apply wp_ret.
    split; [done|]. exists 0. split; [done|]. split; [|done]. intros _. rewrite <- Hin.
    apply not_elem_of_nil.
  - apply cstr_cons in Hk as (Hy & Hnz & Hk). apply wp_bind. eapply wp_loadb; [done|].
    destruct (Z.eqb_spec y 0); [done|]. apply wp_bind. eapply wp_loadb; [done|].
    rewrite elem_of_cons in Hin.
    destruct (Z.eqb_spec b y) as [->|]; apply wp_ret.
    + split; [done|]. exists y. split; [done|]. split; [done|]. tauto.
    + split; [|lia]. split; [done|]. exists k.
      split_and!; [lia|lia| |tauto].
      by replace (s2 + ZL ds - Z.of_nat (S (length k)) + 1) with (s2 + ZL ds - ZL k) in * by lia.
Qed.

Lemma span_len_le P l : (span_len P l ≤ length l)%nat.
Proof. induction l as [|b l IH]; simpl; [lia|]. destruct (P b); lia. Qed.

(** A loop that walks over the prefix of the bytes satisfying [P] (tested
    through [find_in]). *)
Lemma wp_span_loop {R} (P : Z → bool) (g : Z → R) (body : Z → M mem (Z + R)) m s l Q :
  cstr m s l → ZL l < 2 ^ 32 →
  (∀ p b (Q' : Z + R → mem → Prop), m !! p = Some b → b ≠ 0 → P b = true →
     Q' (inl (p + 1)) m → wp (body p) Q' m) →
  (∀ (p b : Z), m !! p = Some b → (b = 0 ∨ P b = false) → p = s + Z.of_nat (span_len P l) →
     (b = 0 → span_len P l = length l) → (b ≠ 0 → (span_len P l < length l)%nat) →
     wp (body p) (λ r m', match r with inr v => Q v m' | inl _ => False end) m) →
  wp (loop body s) Q m.
Proof.
  intros Hs Hl Hgo Hstop.
  apply wp_loop with
    (I := λ p m', m' = m ∧ ∃ k, p = s + ZL l - ZL k ∧ (length k ≤ length l)%nat ∧
            cstr m p k ∧ (length l - length k + span_len P k = span_len P l)%nat)
    (f := λ p _, s + ZL l - p); [|lia|].
  { split; [done|]. exists l. split_and!; (lia || done). }
  intros p m' (-> & k & -> & Hle & Hk & Heq). split; [lia|].
  destruct k as [|b k]; cbn [length span_len] in *.
  - apply cstr_nil in Hk. eapply wp_mono.
    + apply (Hstop _ 0); [done|by left|lia|lia|lia].
    + by intros [|].
  - apply cstr_cons in Hk as (Hb & Hnz & Hk). destruct (P b) eqn:E.
    + apply (Hgo _ b); [done..|]. split; [|lia]. split; [done|]. exists k. split_and!; try lia.
      by replace (s + ZL l - Z.of_nat (S (length k)) + 1) with (s + ZL l - ZL k) in * by lia.
    + eapply wp_mono; [apply (Hstop _ b); [done|by right|lia|lia|]|].
      * pose proof (span_len_le P l). lia.
      * by intros [|].
Qed.

Lemma strspn_spec m s1 s2 l ds :
  cstr m s1 l → cstr m s2 ds → ZL l < 2 ^ 32 → ZL ds < 2 ^ 32 →
  wp (strspn s1 s2) (λ r m', r = Z.of_nat (span_len (in_set ds) l) ∧ m' = m) m.
Proof.
  intros H1 H2 Hl Hd. eapply (wp_span_loop (in_set ds) id); [done|done| |].
  - intros p b Q' Hp Hnz Hin HQ. apply bool_decide_eq_true in Hin.
    apply wp_bind. eapply wp_loadb; [done|]. destruct (Z.eqb_spec b 0); [done|].
    apply wp_bind. eapply wp_mono; [by eapply find_in_spec|].
    intros c m' (-> & y & Hy & Hiff). apply wp_bind. eapply wp_loadb; [done|].
    destruct (Z.eqb_spec y 0); [tauto|]. by apply wp_ret.
  - intros p b Hp Hb -> _ _. apply wp_bind. eapply wp_loadb; [done|].
    destruct (Z.eqb_spec b 0); [apply wp_ret; split; [lia|done]|].
    destruct Hb as [?|Hb]; [done|]. apply bool_decide_eq_false in Hb.
    apply wp_bind. eapply wp_mono; [by eapply find_in_spec|].
    intros c m' (-> & y & Hy & Hiff). apply wp_bind. eapply wp_loadb; [done|].
    destruct (Z.eqb_spec y 0); [|tauto]. apply wp_ret. split; [lia|done].
Qed.

Lemma strcspn_spec m s1 s2 l ds :
  cstr m s1 l → cstr m s2 ds → ZL l < 2 ^ 32 → ZL ds < 2 ^ 32 →
  wp (strcspn s1 s2) (λ r m', r = Z.of_nat (span_len (negb ∘ in_set ds) l) ∧ m' = m) m.
Proof.
  intros H1 H2 Hl Hd. eapply (wp_span_loop (negb ∘ in_set ds) id); [done|done| |].
  - intros p b Q' Hp Hnz Hin HQ. apply negb_true_iff, bool_decide_eq_false in Hin.
    apply wp_bind. eapply wp_loadb; [done|]. destruct (Z.eqb_spec b 0); [done|].
    apply wp_bind. eapply wp_mono; [by eapply find_in_spec|].
    intros c m' (-> & y & Hy & Hiff). apply wp_bind. eapply wp_loadb; [done|].
    destruct (Z.eqb_spec y 0); cbn [negb]; [|tauto]. by apply wp_ret.
  - intros p b Hp Hb -> _ _. apply wp_bind. eapply wp_loadb; [done|].
    destruct (Z.eqb_spec b 0); [apply wp_ret; split; [lia|done]|].
    destruct Hb as [?|Hb]; [done|]. apply negb_false_iff, bool_decide_eq_true in Hb.
    apply wp_bind. eapply wp_mono; [by eapply find_in_spec|].
    intros c m' (-> & y & Hy & Hiff). apply wp_bind. eapply wp_loadb; [done|].
    destruct (Z.eqb_spec y 0); cbn [negb]; [tauto|]. apply wp_ret. split; [lia|done].
Qed.

(** strpbrk answers the first byte of the set, NULL if there is none. *)
Definition pbrk (ds : list Z) (s : Z) (l : list Z) : Z :=
  let n := span_len (negb ∘ in_set ds) l in
  if bool_decide (n < length l)%nat then s + Z.of_nat n else NULL.
End Sets.

Section Tokens.
Implicit Types (m : mem) (l ds : list Z).

Lemma strpbrk_spec m s1 s2 l ds :
  cstr m s1 l → cstr m s2 ds → ZL l < 2 ^ 32 → ZL ds < 2 ^ 32 →
  wp (strpbrk s1 s2) (λ r m', r = pbrk ds s1 l ∧ m' = m) m.
Proof.
  intros H1 H2 Hl Hd. unfold strpbrk, pbrk. set (P := negb ∘ in_set ds).
  destruct l as [|a l0] eqn:El.
  { apply cstr_nil in H1. apply wp_bind. eapply wp_loadb; [done|]. by apply wp_ret. }
  pose proof H1 as (Ha & Hnz & _)%cstr_cons. rewrite <- El in *.
  apply wp_bind. eapply wp_loadb; [done|]. destruct (Z.eqb_spec a 0); [done|].
  apply wp_bind, wp_loop with
    (I := λ '(p, c) m', m' = m ∧ ∃ k, p = s1 + ZL l - ZL k ∧ (length k ≤ length l)%nat ∧
            cstr m p k ∧ (length l - length k + span_len P k = span_len P l)%nat ∧
            (k = [] → m !! c = Some 0))
    (f := λ '(p, _) _, s1 + ZL l - p); [|lia|].
  { split; [done|]. exists l. split_and!; try (lia || done). by subst l. }
  intros [p c] m' (-> & k & -> & Hle & Hk & Heq & Hc). split; [lia|].
  destruct k as [|b k]; cbn [length span_len] in *.
  - apply cstr_nil in Hk. apply wp_bind. eapply wp_loadb; [done|]. apply wp_ret. cbn beta iota.
    apply wp_bind, wp_loadb with 0; [auto|]. apply wp_ret. split; [|done].
    rewrite bool_decide_eq_false_2 by lia. done.
  - apply cstr_cons in Hk as (Hb & Hbz & Hk). apply wp_bind. eapply wp_loadb; [done|].
    destruct (Z.eqb_spec b 0); [done|].
    apply wp_bind. eapply wp_mono; [by eapply find_in_spec|].
    intros c' m' (-> & y & Hy & Hiff). apply wp_bind. eapply wp_loadb; [done|].
    unfold P, in_set in *. cbn [compose] in *.
    destruct (Z.eqb_spec y 0) as [->|Hyz]; cbn [negb].
    + rewrite bool_decide_eq_false_2 in Heq by tauto. apply wp_ret. split; [|lia].
      split; [done|]. exists k. split_and!; [lia|lia| |cbn [negb] in Heq; lia|done].
      by replace (s1 + ZL l - Z.of_nat (S (length k)) + 1) with (s1 + ZL l - ZL k) in * by lia.
    + rewrite bool_decide_eq_true_2 in Heq
        by (destruct (decide (b ∈ ds)); [done|tauto]).
      apply wp_ret. cbn beta iota. apply wp_bind. eapply wp_loadb; [done|].
      destruct (Z.eqb_spec y 0); [done|]. apply wp_ret. split; [|done]. cbn [negb] in Heq.
      rewrite bool_decide_eq_true_2 by lia. lia.
Qed.

Lemma span_len_stop P l b : l !! span_len P l = Some b → P b = false.
Proof.
  induction l as [|c l IH]; simpl; [done|]. destruct (P c) eqn:E; [by apply IH|].
  by intros [= ->].
Qed.

(** One call of strsep on the string [l] at [s]: the token ends at the first
    byte of [ds], which becomes NUL. *)
Lemma strsep_spec m s delim l ds :
  cstr m s l → cstr m delim ds → ZL l < 2 ^ 32 → ZL ds < 2 ^ 32 → 0 < s →
  let n := span_len (negb ∘ in_set ds) l in
  wp (strsep s delim)
    (λ '(r, s') m', r = s ∧
      if bool_decide (n < length l)%nat
      then s' = s + Z.of_nat n + 1 ∧ m' = <[s + Z.of_nat n := 0]> m
      else s' = NULL ∧ m' = m) m.
Proof.
  intros Hs Hd Hl Hdl Hs0 n. unfold strsep, NULL.
  destruct (Z.eqb_spec s 0); [lia|].
  apply wp_bind. eapply wp_mono; [by eapply strpbrk_spec|].
  intros e m' [-> ->]. unfold pbrk. fold n. case_bool_decide as Hn.
  - destruct (Z.eqb_spec (s + Z.of_nat n) 0); [lia|]. cbn [negb].
    apply wp_bind, wp_storeb.
    { destruct (lookup_lt_is_Some_2 l n Hn) as [b Hb].
      destruct (cstr_lookup _ _ _ _ _ Hs Hb). eauto. }
    by apply wp_ret.
  - by apply wp_ret.
Qed.
End Tokens.

(** What strtok_r does with a string: the number of leading delimiters, the
    token, and whether a delimiter follows it. *)
Definition lead (ds l : list Z) : nat := span_len (in_set ds) l.
Definition tok_len (ds l : list Z) : nat := span_len (negb ∘ in_set ds) (drop (lead ds l) l).

Section Tok.
Implicit Types (m : mem) (l ds : list Z).

Lemma span_len_take P l i b : (i < span_len P l)%nat → l !! i = Some b → P b = true.
Proof.
  revert i. induction l as [|c l IH]; simpl; intros i Hi; [lia|].
  destruct (P c) eqn:E; [|lia]. destruct i as [|i]; simpl; [by intros [= ->]|].
  apply IH. lia.
Qed.

Lemma span_len_drop P l i : (i ≤ span_len P l)%nat → span_len P (drop i l) = (span_len P l - i)%nat.
Proof.
  revert i. induction l as [|c l IH]; intros i Hi; simpl in *.
  { by rewrite drop_nil. }
  destruct i as [|i]; simpl; [lia|]. destruct (P c); [|lia]. apply IH. lia.
Qed.

(** Cutting the leading bytes of a string off, or ending it early. *)
Lemma cstr_write_drop m s l i :
  cstr m s l → (i ≤ length l)%nat →
  cstr (mem_write m s (replicate i 0)) (s + Z.of_nat i) (drop i l).
Proof.
  intros Hs Hi. destruct (cstr_drop m s l i Hi Hs) as [Hnz Ha]. split; [done|].
  apply mem_write_arr_out; [right; rewrite length_replicate; lia|done].
Qed.

Lemma cstr_frame_write m s l a k :
  cstr m s l → s + ZL l + 1 ≤ a ∨ a + ZL k ≤ s → cstr (mem_write m a k) s l.
Proof.
  intros [Hnz Ha] Hd. split; [done|]. apply mem_write_arr_out; [|done].
  rewrite length_app. simpl. lia.
Qed.

Lemma cstr_cut m s l n :
  cstr m s l → (n ≤ length l)%nat → cstr (<[s + Z.of_nat n := 0]> m) s (take n l).
Proof.
  intros [Hnz Ha] Hn. split; [by apply Forall_take|].
  rewrite arr_app. split.
  - apply (mem_write_arr_out m (s + Z.of_nat n) [0]).
    + rewrite length_take. lia.
    + apply arr_take. rewrite arr_app in Ha. tauto.
  - rewrite length_take_le by done. simpl. by rewrite lookup_insert_eq.
Qed.

(** The memory, the answered pointer and the new holder of strtok_r. *)
Definition tok_mem (ds l : list Z) (s : Z) (m : mem) : mem :=
  let k := lead ds l in
  let m1 := mem_write m s (replicate k 0) in
  if bool_decide (k + tok_len ds l < length l)%nat
  then <[s + Z.of_nat (k + tok_len ds l) := 0]> m1 else m1.
Definition tok_ret (ds l : list Z) (s : Z) : Z :=
  if bool_decide (lead ds l < length l)%nat then s + Z.of_nat (lead ds l) else NULL.
Definition tok_holder (ds l : list Z) (s : Z) : Z :=
  if bool_decide (lead ds l + tok_len ds l < length l)%nat
  then s + Z.of_nat (lead ds l + tok_len ds l) + 1 else NULL.

Section OneString.
Variables (m : mem) (s delim : Z) (l ds : list Z).
Hypothesis Hs : cstr m s l.
Hypothesis Hd : cstr m delim ds.
Hypothesis Hl : ZL l < 2 ^ 32.
Hypothesis Hdl : ZL ds < 2 ^ 32.
Hypothesis Hs0 : 0 < s.
Hypothesis Hapart : delim + ZL ds + 1 ≤ s ∨ s + ZL l + 1 ≤ delim.

(** The state of the loop: [i] leading delimiters are gone, or everything is. *)
Definition tok_inv (holder : Z) (m' : mem) : Prop :=
  (∃ i : nat, holder = s + Z.of_nat i ∧ (i ≤ lead ds l)%nat ∧
     m' = mem_write m s (replicate i 0)) ∨
  (holder = NULL ∧ lead ds l = length l ∧ m' = mem_write m s (replicate (length l) 0)).

Lemma strsep_at (i : nat) (Q : Z * Z → mem → Prop) :
  (i ≤ lead ds l)%nat →
  let n := span_len (negb ∘ in_set ds) (drop i l) in
  let m1 := mem_write m s (replicate i 0) in
  (if bool_decide (i + n < length l)%nat
   then Q (s + Z.of_nat i, s + Z.of_nat (i + n) + 1) (<[s + Z.of_nat (i + n) := 0]> m1)
   else Q (s + Z.of_nat i, NULL) m1) →
  wp (strsep (s + Z.of_nat i) delim) Q m1.
Proof.
  intros Hi n m1 HQ. pose proof (span_len_le (in_set ds) l) as Hle. fold (lead ds l) in Hle.
  eapply wp_mono.
  { apply (strsep_spec m1 _ _ (drop i l) ds); [apply cstr_write_drop; (done || lia)| | |done|lia].
    - apply cstr_frame_write; [done|]. rewrite length_replicate. lia.
    - rewrite length_drop. lia. }
  intros [r h] m' [-> H]. fold n in H. rewrite length_drop in H.
  repeat case_bool_decide; try lia; destruct H as [-> ->].
  - by replace (s + Z.of_nat i + Z.of_nat n) with (s + Z.of_nat (i + n)) by lia.
  - done.
Qed.

Lemma lead_byte (i : nat) : (i < lead ds l)%nat →
  span_len (negb ∘ in_set ds) (drop i l) = 0%nat ∧ (i < length l)%nat.
Proof.
  intros Hi. pose proof (span_len_le (in_set ds) l) as Hle. fold (lead ds l) in Hle.
  destruct (lookup_lt_is_Some_2 l i ltac:(lia)) as [b Hb].
  rewrite (drop_S l b i Hb). simpl. rewrite (span_len_take _ _ _ _ Hi Hb). split; [done|lia].
Qed.

Lemma strtok_r_spec s0 holder :
  (if s0 =? NULL then holder else s0) = s →
  wp (strtok_r s0 delim holder)
    (λ '(r, h) m', r = tok_ret ds l s ∧ h = tok_holder ds l s ∧ m' = tok_mem ds l s m) m.
Proof.
  intros E. pose proof (span_len_le (in_set ds) l) as Hle. fold (lead ds l) in Hle.
  unfold strtok_r. replace (if negb (s0 =? NULL) then s0 else holder) with s
    by (by destruct (s0 =? NULL)).
  apply wp_loop with (I := tok_inv)
    (f := λ h _, if h =? NULL then 0 else s + ZL l + 1 - h).
  { left. exists 0%nat. split_and!; simpl; (lia || done). }
  { unfold NULL. destruct (s =? 0); lia. }
  intros h m' [(i & -> & Hi & ->)|(-> & Hall & ->)]; unfold NULL in *.
  2: { split; [done|]. apply wp_bind, wp_ret. cbn. apply wp_ret.
       unfold tok_ret, tok_holder, tok_mem. cbv zeta. rewrite Hall.
       rewrite !bool_decide_eq_false_2 by lia. done. }
  destruct (Z.eqb_spec (s + Z.of_nat i) 0); [lia|]. split; [lia|].
  apply wp_bind, strsep_at; [done|]. cbv zeta.
  destruct (decide (i < lead ds l)%nat) as [Hlt|].
  - (* a leading delimiter *)
    destruct (lead_byte i Hlt) as [-> Hil]. rewrite Nat.add_0_r, bool_decide_eq_true_2 by done.
    destruct (Z.eqb_spec (s + Z.of_nat i) 0); [lia|]. cbn [negb].
    apply wp_bind, wp_loadb with 0; [by rewrite lookup_insert_eq|]. apply wp_ret.
    destruct (Z.eqb_spec (s + Z.of_nat i + 1) 0); [lia|]. split; [|lia].
    left. exists (S i). split_and!; [lia|lia|].
    by rewrite replicate_S_end, mem_write_snoc, length_replicate.
  - (* the token, or the end of the string *)
    assert (i = lead ds l) as -> by lia. change (span_len _ (drop (lead ds l) l)) with (tok_len ds l).
    destruct (decide (lead ds l = length l)) as [Hall|Hne].
    + rewrite bool_decide_eq_false_2 by lia.
      destruct (Z.eqb_spec (s + Z.of_nat (lead ds l)) 0); [lia|]. cbn [negb].
      apply wp_bind, wp_loadb with 0.
      { rewrite mem_write_lookup_out by (rewrite length_replicate; lia).
        rewrite Hall. by apply cstr_end. }
      apply wp_ret. cbn. split; [|lia]. right. by rewrite Hall.
    + destruct (lookup_lt_is_Some_2 l (lead ds l) ltac:(lia)) as [b Hb].
      destruct (cstr_lookup _ _ _ _ _ Hs Hb) as [Hmb Hnz].
      pose proof (span_len_stop _ _ _ Hb) as Hnb.
      assert (0 < tok_len ds l)%nat as Hpos.
      { unfold tok_len. rewrite (drop_S l b _ Hb). simpl. rewrite Hnb. simpl. lia. }
      assert (tok_ret ds l s = s + Z.of_nat (lead ds l)) as Hret
        by (unfold tok_ret; rewrite bool_decide_eq_true_2; [done|lia]).
      unfold tok_holder, tok_mem. case_bool_decide;
        (destruct (Z.eqb_spec (s + Z.of_nat (lead ds l)) 0); [lia|]; cbn [negb];
         apply wp_bind, wp_loadb with b;
         [rewrite ?lookup_insert_ne, mem_write_lookup_out by (rewrite ?length_replicate; lia); done|];
         destruct (Z.eqb_spec b 0); [done|]; by apply wp_ret).
Qed.
End OneString.
End Tok.

Lemma strstr_spec m h nd x y :
  cstr m h y → cstr m nd x → ZL y < 2 ^ 32 → ZL x < 2 ^ 32 →
  wp (strstr h nd)
    (λ r m', m' = m ∧ if bool_decide (x = []) then r = NULL else first_occurrence x y h r) m.
Proof.
  intros Hy Hx Hly Hlx. apply wp_bind. eapply wp_mono; [by apply (strlen_spec m h y)|].
  intros n m' [-> ->]. apply wp_bind. eapply wp_mono; [by apply (strlen_spec m nd x)|].
  intros k m' [-> ->]. case_bool_decide as E.
  - subst x. eapply wp_eq; [apply memmem_empty|done].
  - eapply wp_mono; [by apply memmem_spec; [apply cstr_arr|apply cstr_arr|..]|]. by intros r m' [? ->].
Qed.

(** * Properties *)

(** C2 strstr answers the address of the first occurrence of a non-empty needle
    in the haystack, NULL exactly when there is none, whatever the contents of
    the two strings (the two shifts of the Not-So-Naive search skip no match);
    for an empty needle it answers NULL, where the C library's strstr answers the
    haystack; memory is not changed. *)
Theorem strstr_first_occurrence (m : mem) (h nd : Z) (x y : list Z) :
  cstr m h y → cstr m nd x → ZL y < 2 ^ 32 → ZL x < 2 ^ 32 →
  ∃ r, strstr h nd m = Ret (r, m) ∧
    (x ≠ [] →
     (∃ j : nat, r = h + Z.of_nat j ∧ occurs x y j ∧ ∀ i : nat, (i < j)%nat → ¬ occurs x y i) ∨
     (r = NULL ∧ ∀ j : nat, ¬ occurs x y j)) ∧
    (x = [] → r = NULL).
Proof.
  intros Hy Hx Hly Hlx.
  destruct (wp_inv _ _ _ (strstr_spec m h nd x y Hy Hx Hly Hlx)) as (r & m' & HR & -> & HQ).
  exists r. split; [done|]. split; [intros Hne; by rewrite bool_decide_eq_false_2 in HQ|].
  intros ->. by rewrite bool_decide_eq_true_2 in HQ.
Qed.

(** C3 strlcpy and strlcat never write outside the [size] bytes of the
    destination: strlcpy stores at most [size - 1] bytes of the source and a NUL,
    strlcat appends what still fits and a NUL, or changes nothing when the
    destination string fills the buffer; both return the length of the string
    they tried to make. *)
Theorem strlcpy_strlcat_bounded (m : mem) (dst src : Z) (d l : list Z) (size : Z) :
  mem_wf m → cstr m dst d → cstr m src l → ZL d < 2 ^ 32 → ZL l < 2 ^ 32 →
  mapped m dst size → 0 ≤ size < 2 ^ 32 →
  dst + size ≤ src ∨ src + ZL l + 1 ≤ dst →
  ∃ m1 m2, strlcpy dst src size m = Ret (ZL l, m1) ∧
    strlcat dst src size m = Ret (Z.min size (ZL d) + ZL l, m2) ∧
    (∀ x, x < dst ∨ dst + size ≤ x → m1 !! x = m !! x ∧ m2 !! x = m !! x) ∧
    (0 < size → cstr m1 dst (take (Z.to_nat (size - 1)) l)) ∧
    (ZL d < size → cstr m2 dst (take (Z.to_nat (size - 1)) (d ++ l))) ∧
    (size ≤ ZL d → m2 = m).
Proof.
  intros Hw Hd Hs Hdl Hll Hm Hsz Hov.
  pose proof (strlcpy_spec m dst src l size Hw Hs Hll Hm Hsz Hov) as H1.
  pose proof (strlcat_spec m dst src d l size Hw Hd Hs Hdl Hll Hm Hsz Hov) as H2.
  apply wp_Ret in H1. apply wp_Ret in H2. eexists _, _. split; [done|]. split; [done|].
  clear H1 H2. assert (nonzero l) as Hnl by apply Hs.
  assert (∀ n : nat, Z.of_nat (length (take n l)) ≤ Z.of_nat n) as Htl
    by (intros n; rewrite length_take; lia).
  split_and!.
  - intros x Hx.
    split; [destruct (Z.eqb_spec size 0)|destruct (Z.leb_spec size (ZL d))]; try done;
      apply mem_write_lookup_out; rewrite length_app; simpl.
    + specialize (Htl (Z.to_nat (size - 1))). lia.
    + specialize (Htl (Z.to_nat (size - 1 - ZL d))). lia.
  - intros Hp. destruct (Z.eqb_spec size 0); [lia|].
    split; [by apply Forall_take|apply mem_write_arr].
  - intros Hp. destruct (Z.leb_spec size (ZL d)); [lia|].
    rewrite take_app_ge by lia. split.
    + apply Forall_app. split; [apply Hd|by apply Forall_take].
    + rewrite <- app_assoc, arr_app. split; [apply mem_write_arr_out; [lia|by apply cstr_arr]|].
      replace (Z.to_nat (size - 1) - length d)%nat with (Z.to_nat (size - 1 - ZL d)) by lia.
      apply mem_write_arr.
  - intros Hp. by destruct (Z.leb_spec size (ZL d)); [|lia].
Qed.

(** [d] is a correct three-way comparison of [l1] and [l2]: after their longest
    common prefix, the difference of the next bytes, the end counting as 0. *)
Definition cmp_result (l1 l2 : list Z) (d : Z) : Prop :=
  ∃ p t1 t2, l1 = p ++ t1 ∧ l2 = p ++ t2 ∧ d = hd 0 t1 - hd 0 t2 ∧ (d = 0 ↔ l1 = l2).

Lemma str_diff_result l1 l2 : nonzero l1 → nonzero l2 → cmp_result l1 l2 (str_diff id l1 l2).
Proof.
  intros H1. revert l2. induction H1 as [|a l1 Ha _ IH]; intros l2 H2;
    (destruct H2 as [|b l2 Hb H2]; cbn [str_diff]; unfold id in *).
  - by exists [], [], [].
  - exists [], [], (b :: l2). split_and!; [done..|]. split; [lia|done].
  - exists [], (a :: l1), []. split_and!; [done..|]. split; [lia|done].
  - destruct (Z.eqb_spec (a - b) 0) as [E|E].
    + destruct (IH l2 H2) as (p & t1 & t2 & -> & -> & Hd & Hiff).
      exists (a :: p), t1, t2. assert (a = b) as -> by lia. split_and!; [done..|].
      rewrite Hiff. split; congruence.
    + exists [], (a :: l1), (b :: l2). split_and!; [done..|]. split; [lia|]. intros [=]. lia.
Qed.

Lemma str_diff_map f l1 l2 : f 0 = 0 → str_diff f l1 l2 = str_diff id (map f l1) (map f l2).
Proof.
  intros Hf. revert l2. induction l1 as [|a l1 IH]; intros [|b l2]; simpl;
    rewrite ?Hf; unfold id; try done. by rewrite IH.
Qed.

Lemma toupper_nonzero b : b ≠ 0 → toupper b ≠ 0.
Proof.
  intros Hb. unfold toupper, islower.
  destruct (Z.leb_spec 97 b), (Z.leb_spec b 122); simpl; try done.
  pose proof (Z_range_forallb (λ x, negb (Z.land x (Z.lnot 32) =? 0)) 97 26 eq_refl b
    ltac:(lia)) as H'. simpl in H'. by destruct (Z.eqb_spec (Z.land b (Z.lnot 32)) 0).
Qed.

Lemma nonzero_toupper l : nonzero l → nonzero (map toupper l).
Proof. intros H. apply Forall_map. eapply Forall_impl; [done|]. intros b. apply toupper_nonzero. Qed.

Lemma nonzero_take l n : nonzero l → nonzero (take n l).
Proof. apply Forall_take. Qed.

(** C4 strcmp, strncmp, strcasecmp and strncasecmp leave memory unchanged and
    return the difference of the first bytes that differ (of the whole strings,
    of their first [n] bytes, and the same after folding to upper case), which
    is 0 exactly when the compared sequences are equal. *)
Theorem str_comparisons (m : mem) (s1 s2 : Z) (l1 l2 : list Z) (n : Z) :
  cstr m s1 l1 → cstr m s2 l2 → ZL l1 < 2 ^ 32 → 0 ≤ n < 2 ^ 32 →
  let k := Z.to_nat n in
  ∃ d1 d2 d3 d4,
    strcmp s1 s2 m = Ret (d1, m) ∧ cmp_result l1 l2 d1 ∧
    strncmp s1 s2 n m = Ret (d2, m) ∧ cmp_result (take k l1) (take k l2) d2 ∧
    strcasecmp s1 s2 m = Ret (d3, m) ∧ cmp_result (map toupper l1) (map toupper l2) d3 ∧
    strncasecmp s1 s2 n m = Ret (d4, m) ∧
      cmp_result (map toupper (take k l1)) (map toupper (take k l2)) d4.
Proof.
  intros H1 H2 Hl Hn k. pose proof H1 as [Hn1 _]. pose proof H2 as [Hn2 _].
  assert (∀ b, b ≠ 0 → toupper b ≠ toupper 0) as Hf by apply toupper_nonzero.
  exists (str_diff id l1 l2), (str_diff id (take k l1) (take k l2)),
    (str_diff toupper l1 l2), (str_diff toupper (take k l1) (take k l2)).
  split; [by apply wp_Ret, strcmp_spec|]. split; [by apply str_diff_result|].
  split; [by apply wp_Ret, (strn_diff_loop id)|].
  split; [by apply str_diff_result; apply nonzero_take|].
  split; [by apply wp_Ret, (str_diff_loop toupper)|].
  split; [rewrite str_diff_map by done; by apply str_diff_result; apply nonzero_toupper|].
  split; [by apply wp_Ret, (strn_diff_loop toupper)|].
  rewrite str_diff_map by done.
  by apply str_diff_result; apply nonzero_toupper, nonzero_take.
Qed.

Lemma lead_le ds l : (lead ds l ≤ length l)%nat.
Proof. apply span_len_le. Qed.

Lemma tok_len_le ds l : (lead ds l + tok_len ds l ≤ length l)%nat.
Proof.
  unfold tok_len. pose proof (lead_le ds l).
  pose proof (span_len_le (negb ∘ in_set ds) (drop (lead ds l) l)) as Hle.
  rewrite length_drop in Hle. lia.
Qed.

Lemma span_len_Forall P l : Forall (λ b, P b = true) (take (span_len P l) l).
Proof.
  induction l as [|b l IH]; simpl; [constructor|].
  destruct (P b) eqn:E; simpl; by constructor.
Qed.

Lemma lead_Forall ds l : Forall (λ b, b ∈ ds) (take (lead ds l) l).
Proof.
  eapply Forall_impl; [apply span_len_Forall|]. intros b Hb. by apply bool_decide_eq_true in Hb.
Qed.

Lemma lead_all ds l : lead ds l = length l → Forall (λ b, b ∈ ds) l.
Proof. intros E. rewrite <- (firstn_all l), <- E. apply lead_Forall. Qed.

Lemma tok_all ds l s : lead ds l = length l → tok_ret ds l s = NULL ∧ tok_holder ds l s = NULL.
Proof.
  intros E. unfold tok_ret, tok_holder. rewrite !bool_decide_eq_false_2 by lia. done.
Qed.

Lemma tok_some m ds l s :
  cstr m s l → lead ds l ≠ length l → 
  ∃ pre tok rest, l = pre ++ tok ++ rest ∧ Forall (λ b, b ∈ ds) pre ∧
    tok ≠ [] ∧ Forall (λ b, b ∉ ds) tok ∧ tok_ret ds l s = s + ZL pre ∧
    cstr (tok_mem ds l s m) (tok_ret ds l s) tok ∧
    ((rest = [] ∧ tok_holder ds l s = NULL) ∨
     ∃ c rest', rest = c :: rest' ∧ c ∈ ds ∧ tok_holder ds l s = tok_ret ds l s + ZL tok + 1 ∧
       cstr (tok_mem ds l s m) (tok_holder ds l s) rest').
Proof.
  intros Hs Hne. pose proof (lead_le ds l) as Hk. pose proof (tok_len_le ds l) as Hn.
  destruct (lookup_lt_is_Some_2 l (lead ds l) ltac:(lia)) as [b0 Hb0].
  pose proof (span_len_stop _ _ _ Hb0) as Hstop.
  set (k := lead ds l) in *. set (n := tok_len ds l) in *.
  assert (0 < n)%nat as Hpos.
  { subst n. unfold tok_len. fold k. rewrite (drop_S l b0 _ Hb0). simpl.
    rewrite Hstop. simpl. lia. }
  assert (length (take k l) = k) as Hlk by (rewrite length_take; lia).
  assert (length (take n (drop k l)) = n) as Hln by (rewrite length_take, length_drop; lia).
  assert (tok_ret ds l s = s + Z.of_nat k) as Hret
    by (unfold tok_ret; fold k; rewrite bool_decide_eq_true_2; [done|lia]).
  exists (take k l), (take n (drop k l)), (drop n (drop k l)).
  split; [by rewrite !take_drop|]. split; [apply lead_Forall|].
  split; [intros E; rewrite E in Hln; simpl in Hln; lia|]. split.
  { eapply Forall_impl; [apply span_len_Forall|]. intros b Hb.
    by apply negb_true_iff, bool_decide_eq_false in Hb. }
  split; [by rewrite Hlk|]. rewrite Hret, Hln.
  pose proof (cstr_write_drop m s l k Hs Hk) as Hcut.
  unfold tok_mem, tok_holder. fold k n. case_bool_decide as Hrest.
  - split.
    + replace (s + Z.of_nat (k + n)) with (s + Z.of_nat k + Z.of_nat n) by lia.
      apply cstr_cut; [done|rewrite length_drop; lia].
    + right. destruct (lookup_lt_is_Some_2 (drop k l) n) as [c Hc]; [rewrite length_drop; lia|].
      exists c, (drop (S n) (drop k l)).
      split; [by apply drop_S|]. split.
      { apply span_len_stop, negb_false_iff, bool_decide_eq_true in Hc. done. }
      split; [lia|].
      replace (s + Z.of_nat (k + n) + 1) with (s + Z.of_nat k + Z.of_nat (S n)) by lia.
      apply (cstr_frame_write _ _ _ (s + Z.of_nat (k + n)) [0]); [|simpl; lia].
      apply cstr_drop; [rewrite length_drop; lia|done].
  - assert (drop n (drop k l) = []) as E
      by (apply drop_ge; rewrite length_drop; lia).
    split; [|by left]. by rewrite take_ge by (rewrite length_drop; lia).
Qed.

(** C4 One call of strtok_r (and strtok), on a new string or continuing from the
    holder: it answers NULL when only delimiters are left; otherwise the string
    is delimiters, then a non-empty token without delimiters, then either its
    end (the holder becomes NULL) or a delimiter and a rest; the answer points
    to the token, now a C string of its own, and the holder to the rest, which is
    still a C string. *)
Theorem strtok_r_token (m : mem) (s0 delim holder s : Z) (l ds : list Z) :
  cstr m s l → cstr m delim ds → ZL l < 2 ^ 32 → ZL ds < 2 ^ 32 → 0 < s →
  delim + ZL ds + 1 ≤ s ∨ s + ZL l + 1 ≤ delim →
  (if s0 =? NULL then holder else s0) = s →
  ∃ r h m', strtok_r s0 delim holder m = Ret ((r, h), m') ∧
    strtok s0 delim holder m = Ret ((r, h), m') ∧
    ((r = NULL ∧ h = NULL ∧ Forall (λ b, b ∈ ds) l) ∨
     ∃ pre tok rest, l = pre ++ tok ++ rest ∧ Forall (λ b, b ∈ ds) pre ∧
       tok ≠ [] ∧ Forall (λ b, b ∉ ds) tok ∧ r = s + ZL pre ∧ cstr m' r tok ∧
       ((rest = [] ∧ h = NULL) ∨
        ∃ c rest', rest = c :: rest' ∧ c ∈ ds ∧ h = r + ZL tok + 1 ∧ cstr m' h rest')).
Proof.
  intros Hs Hd Hl Hdl Hs0 Hap E.
  destruct (wp_inv _ _ _ (strtok_r_spec m s delim l ds Hs Hd Hl Hdl Hs0 Hap s0 holder E))
    as ([r h] & m' & HR & -> & -> & ->).
  eexists _, _, _. split; [done|]. split; [done|]. clear HR.
  destruct (decide (lead ds l = length l)) as [Hall|Hne]; [left|right].
  - destruct (tok_all ds l s Hall) as [-> ->]. split_and!; [done..|].
    by apply lead_all.
  - by apply tok_some.
Qed.

Lemma last_idx_Some c l i :
  last_idx c l = Some i ↔ l !! i = Some c ∧ ∀ j, (i < j)%nat → l !! j ≠ Some c.
Proof.
  revert i. induction l as [|b l IH] using rev_ind; intros i.
  { simpl. rewrite lookup_nil. split; [done|]. by intros [? _]. }
  rewrite last_idx_snoc. destruct (Z.eqb_spec b c) as [->|Hne].
  - split.
    + intros [= <-]. split; [by apply list_lookup_middle|].
      intros j Hj. rewrite lookup_ge_None_2; [done|]. rewrite length_app. simpl. lia.
    + intros [Hi Hj]. destruct (decide (i < length l)%nat).
      * exfalso. apply (Hj (length l)); [done|]. by apply list_lookup_middle.
      * apply lookup_lt_Some in Hi. rewrite length_app in Hi. simpl in Hi. f_equal. lia.
  - rewrite IH. split.
    + intros [Hi Hj]. split; [by apply lookup_app_l_Some|]. intros j Hlt.
      intros [Hl|[_ Hl]]%lookup_app_Some; [by apply (Hj j)|].
      apply list_lookup_singleton_Some in Hl as [_ ?]. congruence.
    + intros [Hi Hj]. apply lookup_app_Some in Hi as [Hi|[_ Hi]].
      * split; [done|]. intros j Hlt Hl. apply (Hj j Hlt). by apply lookup_app_l_Some.
      * apply list_lookup_singleton_Some in Hi as [_ ?]. congruence.
Qed.

Lemma last_idx_None c l : last_idx c l = None ↔ c ∉ l.
Proof.
  induction l as [|b l IH] using rev_ind; [split; [intros _; apply not_elem_of_nil|done]|].
  rewrite last_idx_snoc, not_elem_of_app, list_elem_of_singleton.
  destruct (Z.eqb_spec b c) as [->|Hne]; [split; [done|tauto]|].
  rewrite IH. split; [|tauto]. intros ?. split; congruence.
Qed.

(** [r] is the address, counted from [s], of the first (last) position of [l]
    that holds [c]; NULL when there is none. *)
Definition found_first (c : Z) (l : list Z) (s r : Z) : Prop :=
  (r = NULL ∧ c ∉ l) ∨
  ∃ i : nat, r = s + Z.of_nat i ∧ l !! i = Some c ∧ ∀ j, (j < i)%nat → l !! j ≠ Some c.
Definition found_last (c : Z) (l : list Z) (s r : Z) : Prop :=
  (r = NULL ∧ c ∉ l) ∨
  ∃ i : nat, r = s + Z.of_nat i ∧ l !! i = Some c ∧ ∀ j, (i < j)%nat → l !! j ≠ Some c.

Lemma found_first_idx c l s : found_first c l s (ptr_at s (first_idx c l)).
Proof.
  destruct (first_idx c l) as [i|] eqn:E.
  - right. exists i. split; [done|]. by apply first_idx_Some.
  - left. split; [done|]. by apply first_idx_None.
Qed.

Lemma found_last_idx c l s : found_last c l s (ptr_at s (last_idx c l)).
Proof.
  destruct (last_idx c l) as [i|] eqn:E.
  - right. exists i. split; [done|]. by apply last_idx_Some.
  - left. split; [done|]. by apply last_idx_None.
Qed.

(** C5 The searches on a string and on a block: strlen and strnlen measure it;
    strchr answers the first occurrence of a byte, the terminator included,
    memchr the same on a block; strrchr and memrchr the last occurrence, but
    strrchr, unlike strchr, never finds the terminator: for the NUL byte it
    answers NULL.  None of them changes memory. *)
Theorem str_searches (m : mem) (s c n : Z) (l : list Z) :
  cstr m s l → ZL l < 2 ^ 32 → 0 ≤ n < 2 ^ 32 →
  ∃ r1 r2 r3 r4,
    strlen s m = Ret (ZL l, m) ∧ strnlen s n m = Ret (Z.min n (ZL l), m) ∧
    strchr s c m = Ret (r1, m) ∧ found_first (u8 c) (l ++ [0]) s r1 ∧
    memchr s c (ZL l) m = Ret (r2, m) ∧ found_first (u8 c) l s r2 ∧
    strrchr s c m = Ret (r3, m) ∧ found_last (u8 c) l s r3 ∧
    memrchr s c (ZL l) m = Ret (r4, m) ∧ found_last (u8 c) l s r4 ∧
    strchr s 0 m = Ret (s + ZL l, m) ∧ strrchr s 0 m = Ret (NULL, m).
Proof.
  intros Hs Hl Hn. pose proof (cstr_arr _ _ _ Hs) as Ha.
  eexists _, _, _, _.
  split; [by apply wp_Ret, strlen_spec|]. split; [by apply wp_Ret, strnlen_spec|].
  split; [by eapply wp_Ret, strchr_spec|]. split; [apply found_first_idx|].
  split; [by apply wp_Ret, memchr_spec|]. split; [apply found_first_idx|].
  split; [by eapply wp_Ret, strrchr_spec|]. split; [apply found_last_idx|].
  split; [by apply wp_Ret, memrchr_spec|]. split; [apply found_last_idx|].
  split; [by apply wp_Ret, (strchr_end m s l)|].
  apply wp_Ret. eapply wp_mono; [by apply (strrchr_spec m s 0 l)|]. change (u8 0) with 0.
  intros r m' [-> ->]. split; [|done].
  assert (last_idx 0 l = None) as ->; [|done]. apply last_idx_None.
  intros [i Hi]%list_elem_of_lookup_1. by destruct (cstr_lookup _ _ _ _ _ Hs Hi).
Qed.

(** C7 strspn returns the length of the longest prefix inside a set of
    characters, strcspn of the longest prefix outside it, and strpbrk the
    address where the latter ends, NULL at the end of the string. *)
Theorem str_set_searches (m : mem) (s d : Z) (l ds : list Z) :
  cstr m s l → cstr m d ds → ZL l < 2 ^ 32 → ZL ds < 2 ^ 32 →
  ∃ i j : nat,
    strspn s d m = Ret (Z.of_nat i, m) ∧ Forall (λ b, b ∈ ds) (take i l) ∧
      (∀ b, l !! i = Some b → b ∉ ds) ∧
    strcspn s d m = Ret (Z.of_nat j, m) ∧ Forall (λ b, b ∉ ds) (take j l) ∧
      (∀ b, l !! j = Some b → b ∈ ds) ∧ (i ≤ length l ∧ j ≤ length l)%nat ∧
    strpbrk s d m =
      Ret (if bool_decide (j < length l)%nat then s + Z.of_nat j else NULL, m).
Proof.
  intros Hs Hd Hl Hdl.
  exists (span_len (in_set ds) l), (span_len (negb ∘ in_set ds) l).
  split; [by apply wp_Ret, strspn_spec|]. split; [apply lead_Forall|].
  split; [intros b Hb%span_len_stop; by apply bool_decide_eq_false in Hb|].
  split; [by apply wp_Ret, strcspn_spec|]. split.
  { eapply Forall_impl; [apply span_len_Forall|].
    intros b Hb. by apply negb_true_iff, bool_decide_eq_false in Hb. }
  split; [intros b Hb%span_len_stop; by apply negb_false_iff, bool_decide_eq_true in Hb|].
  split; [split; apply span_len_le|]. by apply wp_Ret, strpbrk_spec.
Qed.

Lemma cstr_snoc_write m a l : nonzero l → cstr (mem_write m a (l ++ [0])) a l.
Proof. intros Hnz. split; [done|apply mem_write_arr]. Qed.

(** C7 strcpy, strcat and strncat leave in the destination exactly the C string
    they promise (strncat at most [n] bytes of the source, always terminated);
    strncpy fills exactly [n] bytes with the source cut or padded by NULs; all
    return the destination, and no byte outside the written range changes. *)
Theorem str_copies (m : mem) (dst src : Z) (d l : list Z) (n : Z) :
  mem_wf m → cstr m dst d → cstr m src l → 0 ≤ n < 2 ^ 32 →
  let len := ZL d + Z.max n (ZL l) + 1 in
  len < 2 ^ 32 → mapped m dst len →
  dst + len ≤ src ∨ src + ZL l + 1 ≤ dst →
  ∃ m1 m2 m3 m4,
    strcpy dst src m = Ret (dst, m1) ∧ cstr m1 dst l ∧
    strcat dst src m = Ret (dst, m2) ∧ cstr m2 dst (d ++ l) ∧
    strncat dst src n m = Ret (dst, m3) ∧ cstr m3 dst (d ++ take (Z.to_nat n) l) ∧
    strncpy dst src n m = Ret (dst, m4) ∧ arr m4 dst (resize (Z.to_nat n) 0 l) ∧
    (∀ x, x < dst ∨ dst + len ≤ x →
       m1 !! x = m !! x ∧ m2 !! x = m !! x ∧ m3 !! x = m !! x) ∧
    (∀ x, x < dst ∨ dst + n ≤ x → m4 !! x = m !! x).
Proof.
  intros Hw Hd Hs Hn len Hlen Hm Hov. pose proof Hd as [Hnd _]. pose proof Hs as [Hnl _].
  assert (copyable src dst (ZL l + 1) ∧ copyable src (dst + ZL d) (ZL l + 1)) as [Hc1 Hc2]
    by (unfold copyable, len in *; lia).
  assert (∀ k, nonzero k → cstr (mem_write m (dst + ZL d) (k ++ [0])) dst (d ++ k)) as Happ.
  { intros k Hk. split; [by apply Forall_app|]. rewrite <- app_assoc, arr_app.
    split; [apply mem_write_arr_out; [lia|by apply cstr_arr]|apply mem_write_arr]. }
  assert (∀ k, ZL (take k l) ≤ ZL l) as Htl by (intros k; rewrite length_take; lia).
  exists (mem_write m dst (l ++ [0])), (mem_write m (dst + ZL d) (l ++ [0])),
    (mem_write m (dst + ZL d) (take (Z.to_nat n) l ++ [0])),
    (mem_write m dst (resize (Z.to_nat n) 0 l)).
  split; [apply wp_Ret, strcpy_spec; try done; [apply (mapped_sub _ dst len)|]; (done || lia)|].
  split; [by apply cstr_snoc_write|].
  split; [apply wp_Ret, (strcat_spec m dst src d l); try done; try lia;
          apply (mapped_sub _ dst len); (done || lia)|].
  split; [by apply Happ|].
  split; [apply wp_Ret, (strncat_spec m dst src d l n); try done; try lia;
          apply (mapped_sub _ dst len); (done || lia)|].
  split; [by apply Happ, nonzero_take|].
  split; [apply wp_Ret, (strncpy_spec m dst src l n); try done;
          apply (mapped_sub _ dst len); (done || lia)|].
  split; [apply mem_write_arr|]. split.
  - intros x Hx. specialize (Htl (Z.to_nat n)).
    split_and!; apply mem_write_lookup_out; rewrite length_app; simpl; lia.
  - intros x Hx. apply mem_write_lookup_out. rewrite length_resize. lia.
Qed.

(** ** Witnesses *)

(** "abcabd" at 256, "abd" at 263, ",;" at 267, " ,;x=" at 270, and room. *)
Definition str_mem : mem :=
  mem_at ([97; 98; 99; 97; 98; 100; 0; 97; 98; 100; 0; 44; 59; 0; 44; 59; 120; 61; 59; 121; 0]
          ++ replicate 40 7).

Lemma str_mem_wf : mem_wf str_mem.
Proof. apply mem_at_wf. bytes_ok. Qed.

Lemma strstr_first_occurrence_witness :
  (∃ r, strstr 256 263 str_mem = Ret (r, str_mem) ∧
    ([97; 98; 100] ≠ [] →
     (∃ j : nat, r = 256 + Z.of_nat j ∧ occurs [97; 98; 100] [97; 98; 99; 97; 98; 100] j ∧
        ∀ i : nat, (i < j)%nat → ¬ occurs [97; 98; 100] [97; 98; 99; 97; 98; 100] i) ∨
     (r = NULL ∧ ∀ j : nat, ¬ occurs [97; 98; 100] [97; 98; 99; 97; 98; 100] j)) ∧
    ([97; 98; 100] = [] → r = NULL)) ∧
  strstr 256 262 str_mem = Ret (NULL, str_mem).
Proof.
  split.
  - apply (strstr_first_occurrence str_mem 256 263 [97; 98; 100] [97; 98; 99; 97; 98; 100]);
      [cstr_ok|cstr_ok|simpl; lia|simpl; lia].
  - destruct (strstr_first_occurrence str_mem 256 262 [] [97; 98; 99; 97; 98; 100]) as (r & E & _ & Hr);
      [cstr_ok|cstr_ok|simpl; lia|simpl; lia|]. rewrite E. do 2 f_equal. by apply Hr.
Defined.

Lemma strlcpy_strlcat_bounded_witness :
  ∃ m1 m2, strlcpy 263 256 6 str_mem = Ret (6, m1) ∧
    strlcat 263 256 6 str_mem = Ret (Z.min 6 3 + 6, m2) ∧
    (∀ x, x < 263 ∨ 263 + 6 ≤ x → m1 !! x = str_mem !! x ∧ m2 !! x = str_mem !! x) ∧
    (0 < 6 → cstr m1 263 [97; 98; 99; 97; 98]) ∧
    (3 < 6 → cstr m2 263 [97; 98; 100; 97; 98]) ∧
    (6 ≤ 3 → m2 = str_mem).
Proof.
  apply (strlcpy_strlcat_bounded str_mem 263 256 [97; 98; 100] [97; 98; 99; 97; 98; 100] 6);
    [apply str_mem_wf|cstr_ok|cstr_ok|simpl; lia|simpl; lia
    |apply mem_at_mapped; simpl; lia|lia|simpl; lia].
Defined.

Lemma str_comparisons_witness :
  let l1 := [97; 98; 99; 97; 98; 100] in let l2 := [97; 98; 100] in
  let k := Z.to_nat 2 in
  ∃ d1 d2 d3 d4,
    strcmp 256 263 str_mem = Ret (d1, str_mem) ∧ cmp_result l1 l2 d1 ∧
    strncmp 256 263 2 str_mem = Ret (d2, str_mem) ∧ cmp_result (take k l1) (take k l2) d2 ∧
    strcasecmp 256 263 str_mem = Ret (d3, str_mem) ∧
      cmp_result (map toupper l1) (map toupper l2) d3 ∧
    strncasecmp 256 263 2 str_mem = Ret (d4, str_mem) ∧
      cmp_result (map toupper (take k l1)) (map toupper (take k l2)) d4.
Proof.
  apply (str_comparisons str_mem 256 263); [cstr_ok|cstr_ok|simpl; lia|lia].
Defined.

Lemma strtok_r_token_witness :
  let l := [44; 59; 120; 61; 59; 121] in let ds := [44; 59] in
  ∃ r h m', strtok_r 270 267 0 str_mem = Ret ((r, h), m') ∧
    strtok 270 267 0 str_mem = Ret ((r, h), m') ∧
    ((r = NULL ∧ h = NULL ∧ Forall (λ b, b ∈ ds) l) ∨
     ∃ pre tok rest, l = pre ++ tok ++ rest ∧ Forall (λ b, b ∈ ds) pre ∧
       tok ≠ [] ∧ Forall (λ b, b ∉ ds) tok ∧ r = 270 + ZL pre ∧ cstr m' r tok ∧
       ((rest = [] ∧ h = NULL) ∨
        ∃ c rest', rest = c :: rest' ∧ c ∈ ds ∧ h = r + ZL tok + 1 ∧ cstr m' h rest')).
Proof.
  apply (strtok_r_token str_mem 270 267 0 270 [44; 59; 120; 61; 59; 121] [44; 59]);
    [cstr_ok|cstr_ok|simpl; lia|simpl; lia|lia|simpl; lia|done].
Defined.

Lemma str_searches_witness :
  let l := [97; 98; 99; 97; 98; 100] in
  ∃ r1 r2 r3 r4,
    strlen 256 str_mem = Ret (6, str_mem) ∧ strnlen 256 4 str_mem = Ret (Z.min 4 6, str_mem) ∧
    strchr 256 98 str_mem = Ret (r1, str_mem) ∧ found_first (u8 98) (l ++ [0]) 256 r1 ∧
    memchr 256 98 6 str_mem = Ret (r2, str_mem) ∧ found_first (u8 98) l 256 r2 ∧
    strrchr 256 98 str_mem = Ret (r3, str_mem) ∧ found_last (u8 98) l 256 r3 ∧
    memrchr 256 98 6 str_mem = Ret (r4, str_mem) ∧ found_last (u8 98) l 256 r4 ∧
    strchr 256 0 str_mem = Ret (256 + 6, str_mem) ∧ strrchr 256 0 str_mem = Ret (NULL, str_mem).
Proof.
  apply (str_searches str_mem 256 98 4 [97; 98; 99; 97; 98; 100]); [cstr_ok|simpl; lia|lia].
Defined.

Lemma str_set_searches_witness :
  let l := [44; 59; 120; 61; 59; 121] in let ds := [44; 59] in
  ∃ i j : nat,
    strspn 270 267 str_mem = Ret (Z.of_nat i, str_mem) ∧ Forall (λ b, b ∈ ds) (take i l) ∧
      (∀ b, l !! i = Some b → b ∉ ds) ∧
    strcspn 270 267 str_mem = Ret (Z.of_nat j, str_mem) ∧ Forall (λ b, b ∉ ds) (take j l) ∧
      (∀ b, l !! j = Some b → b ∈ ds) ∧ (i ≤ length l ∧ j ≤ length l)%nat ∧
    strpbrk 270 267 str_mem =
      Ret (if bool_decide (j < length l)%nat then 270 + Z.of_nat j else NULL, str_mem).
Proof.
  apply (str_set_searches str_mem 270 267 [44; 59; 120; 61; 59; 121] [44; 59]);
    [cstr_ok|cstr_ok|simpl; lia|simpl; lia].
Defined.

Lemma str_copies_witness :
  let len := 6 + Z.max 2 3 + 1 in
  let m0 := mem_at ([97; 98; 99; 97; 98; 100; 0] ++ replicate 40 7 ++ [97; 98; 100; 0]) in
  ∃ m1 m2 m3 m4,
    strcpy 256 303 m0 = Ret (256, m1) ∧ cstr m1 256 [97; 98; 100] ∧
    strcat 256 303 m0 = Ret (256, m2) ∧ cstr m2 256 ([97; 98; 99; 97; 98; 100] ++ [97; 98; 100]) ∧
    strncat 256 303 2 m0 = Ret (256, m3) ∧
      cstr m3 256 ([97; 98; 99; 97; 98; 100] ++ take (Z.to_nat 2) [97; 98; 100]) ∧
    strncpy 256 303 2 m0 = Ret (256, m4) ∧ arr m4 256 (resize (Z.to_nat 2) 0 [97; 98; 100]) ∧
    (∀ x, x < 256 ∨ 256 + len ≤ x →
       m1 !! x = m0 !! x ∧ m2 !! x = m0 !! x ∧ m3 !! x = m0 !! x) ∧
    (∀ x, x < 256 ∨ 256 + 2 ≤ x → m4 !! x = m0 !! x).
Proof.
  apply (str_copies _ 256 303 [97; 98; 99; 97; 98; 100] [97; 98; 100] 2);
    [apply mem_at_wf; bytes_ok|cstr_ok|cstr_ok|lia|simpl; lia
    |apply mem_at_mapped; simpl; lia|simpl; lia].
Defined.
