(* ===== verification/DList.v ===== *)
(** Circular doubly linked lists: the shape of the two chains of
    sw/sys-libs/libc/malloc.c.  A chain is given by its [next] and [prev]
    functions from node addresses to node addresses; [ring n p h l] says that the
    nodes [l] hang between the head node [h] and itself.  The lemmas are the three
    pointer updates of the allocator: insert, remove and replace a node. *)
From S2P Require Import Prelude.
From stdpp Require Import base list sets.
From Stdlib Require Import ZArith Lia.

#[local] Open Scope Z_scope.

(** [seg n p s l e]: from [s] through the nodes [l] to [e]. *)
Fixpoint seg (n p : Z → Z) (s : Z) (l : list Z) (e : Z) : Prop :=
  match l with
  | [] => n s = e ∧ p e = s
  | z :: l' => n s = z ∧ p z = s ∧ seg n p z l' e
  end.

Definition ring (n p : Z → Z) (h : Z) (l : list Z) : Prop := seg n p h l h.

Definition lastn (s : Z) (l : list Z) : Z := default s (last l).
Definition firstn_or (l : list Z) (e : Z) : Z := default e (head l).

Section Dlist.
Implicit Types (n p : Z → Z) (l : list Z).

Lemma lastn_cons s z l : lastn s (z :: l) = lastn z l.
Proof. unfold lastn. rewrite last_cons. by destruct (last l). Qed.

Lemma lastn_snoc s l z : lastn s (l ++ [z]) = z.
Proof. unfold lastn. by rewrite last_snoc. Qed.

Lemma lastn_elem s l : lastn s l ∈ s :: l.
Proof.
  revert s. induction l as [|z l IH]; intros s; [apply list_elem_of_here|].
  rewrite lastn_cons. apply list_elem_of_further, IH.
Qed.

Lemma firstn_or_elem l e : firstn_or l e ∈ l ++ [e].
Proof. destruct l as [|z l]; unfold firstn_or; simpl; constructor. Qed.

Lemma seg_app n p s l1 z l2 e :
  seg n p s (l1 ++ z :: l2) e ↔ seg n p s l1 z ∧ seg n p z l2 e.
Proof. revert s. induction l1 as [|y l1 IH]; intros s; simpl; [tauto|]. rewrite IH. tauto. Qed.

Lemma seg_ext n p n' p' s l e :
  seg n p s l e → (∀ a, a ∈ s :: l → n' a = n a) → (∀ a, a ∈ l ++ [e] → p' a = p a) →
  seg n' p' s l e.
Proof.
  revert s. induction l as [|z l IH]; intros s; simpl.
  - intros [? ?] Hn Hp. rewrite Hn, Hp by constructor. done.
  - intros (? & ? & Hs) Hn Hp. rewrite Hn, Hp by constructor. split_and!; [done..|].
    apply IH; [done| |]; intros a Ha; [apply Hn|apply Hp]; by constructor.
Qed.

(** The neighbours across a cut of the segment. *)
Lemma seg_cut n p s l1 l2 e :
  seg n p s (l1 ++ l2) e → n (lastn s l1) = firstn_or l2 e ∧ p (firstn_or l2 e) = lastn s l1.
Proof.
  revert s. induction l1 as [|z l1 IH]; intros s; simpl.
  - destruct l2; simpl; tauto.
  - intros (_ & _ & H). rewrite lastn_cons. by apply IH.
Qed.

Lemma seg_at n p s l1 x l2 e :
  seg n p s (l1 ++ x :: l2) e → p x = lastn s l1 ∧ n x = firstn_or l2 e.
Proof.
  intros H. split.
  - by apply seg_cut in H as [_ H].
  - replace (l1 ++ x :: l2) with ((l1 ++ [x]) ++ l2) in H by by rewrite <- app_assoc.
    apply seg_cut in H as [H _]. by rewrite lastn_snoc in H.
Qed.

Lemma firstn_or_out l1 l2 e a : NoDup (l1 ++ l2 ++ [e]) → a ∈ l1 → a ≠ firstn_or l2 e.
Proof.
  intros (_ & Hd & _)%NoDup_app Ha ->. apply (Hd _ Ha), firstn_or_elem.
Qed.

Lemma seg_insert n p n' p' s l1 x l2 e :
  seg n p s (l1 ++ l2) e →
  NoDup (s :: l1 ++ l2) → NoDup (l1 ++ l2 ++ [e]) →
  n' (lastn s l1) = x → p' x = lastn s l1 →
  n' x = firstn_or l2 e → p' (firstn_or l2 e) = x →
  (∀ a, a ∈ s :: l1 ++ l2 → a ≠ lastn s l1 → n' a = n a) →
  (∀ a, a ∈ l1 ++ l2 ++ [e] → a ≠ firstn_or l2 e → p' a = p a) →
  seg n' p' s (l1 ++ x :: l2) e.
Proof.
  revert s. induction l1 as [|z l1 IH]; intros s Hs Hnd1 Hnd2 Hn Hpx Hnx Hp Hn' Hp'; simpl in *.
  - split_and!; [done..|]. apply NoDup_cons in Hnd1 as [Hs1 _].
    destruct l2 as [|b l2]; simpl in *; [done|]. destruct Hs as (_ & _ & Hs).
    split_and!; [done..|]. apply NoDup_cons in Hnd2 as [Hb _].
    apply (seg_ext _ _ _ _ _ _ _ Hs).
    + intros a Ha. apply Hn'; [by constructor|]. intros ->. by apply Hs1.
    + intros a Ha. apply Hp'; [by constructor|]. unfold firstn_or. simpl. intros ->. by apply Hb.
  - rewrite lastn_cons in *. destruct Hs as (Hz & Hpz & Hs).
    pose proof Hnd1 as [Hs1 Hnd1']%NoDup_cons. pose proof Hnd2 as [Hz2 Hnd2']%NoDup_cons.
    split_and!.
    + rewrite Hn'; [done|constructor|]. intros E. apply Hs1. rewrite E.
      change (z :: l1 ++ l2) with ((z :: l1) ++ l2). apply elem_of_app. left. apply lastn_elem.
    + rewrite Hp'; [done|constructor|]. apply (firstn_or_out (z :: l1)); [done|constructor].
    + apply IH; try done; intros a Ha; [apply Hn'|apply Hp']; by constructor.
Qed.

Lemma seg_remove n p n' p' s l1 x l2 e :
  seg n p s (l1 ++ x :: l2) e →
  NoDup (s :: l1 ++ x :: l2) → NoDup (l1 ++ (x :: l2) ++ [e]) →
  n' (lastn s l1) = firstn_or l2 e → p' (firstn_or l2 e) = lastn s l1 →
  (∀ a, a ∈ s :: l1 ++ l2 → a ≠ lastn s l1 → n' a = n a) →
  (∀ a, a ∈ l1 ++ l2 ++ [e] → a ≠ firstn_or l2 e → p' a = p a) →
  seg n' p' s (l1 ++ l2) e.
Proof.
  revert s. induction l1 as [|z l1 IH]; intros s Hs Hnd1 Hnd2 Hn Hp Hn' Hp'; simpl in *.
  - apply NoDup_cons in Hnd1 as [Hs1 Hnd1]. destruct Hs as (_ & _ & Hs).
    destruct l2 as [|b l2]; simpl in *; [done|]. destruct Hs as (_ & _ & Hs).
    split_and!; [done..|]. apply NoDup_cons in Hnd2 as [_ [Hb _]%NoDup_cons].
    apply (seg_ext _ _ _ _ _ _ _ Hs).
    + intros a Ha. apply Hn'; [by constructor|]. intros ->. apply Hs1. by constructor.
    + intros a Ha. apply Hp'; [by constructor|]. unfold firstn_or. simpl. intros ->. by apply Hb.
  - rewrite lastn_cons in *. destruct Hs as (Hz & Hpz & Hs).
    pose proof Hnd1 as [Hs1 Hnd1']%NoDup_cons. pose proof Hnd2 as [Hz2 Hnd2']%NoDup_cons.
    split_and!.
    + rewrite Hn'; [done|constructor|]. intros E. apply Hs1. rewrite E.
      change (z :: l1 ++ x :: l2) with ((z :: l1) ++ x :: l2).
      apply elem_of_app. left. apply lastn_elem.
    + rewrite Hp'; [done|constructor|]. intros E. apply Hz2. rewrite E.
      pose proof (firstn_or_elem l2 e). set_solver.
    + apply IH; try done; intros a Ha; [apply Hn'|apply Hp']; by constructor.
Qed.

(** Putting [y] in the place of [x]. *)
Lemma seg_replace n p n' p' s l1 x y l2 e :
  seg n p s (l1 ++ x :: l2) e →
  NoDup (s :: l1 ++ x :: l2) → NoDup (l1 ++ (x :: l2) ++ [e]) →
  n' (lastn s l1) = y → p' y = lastn s l1 →
  n' y = firstn_or l2 e → p' (firstn_or l2 e) = y →
  (∀ a, a ∈ s :: l1 ++ l2 → a ≠ lastn s l1 → n' a = n a) →
  (∀ a, a ∈ l1 ++ l2 ++ [e] → a ≠ firstn_or l2 e → p' a = p a) →
  seg n' p' s (l1 ++ y :: l2) e.
Proof.
  intros Hs Hnd1 Hnd2 Hn Hpy Hny Hp Hn' Hp'.
  pose (n1 := λ a, if decide (a = lastn s l1) then firstn_or l2 e else n a).
  pose (p1 := λ a, if decide (a = firstn_or l2 e) then lastn s l1 else p a).
  assert (seg n1 p1 s (l1 ++ l2) e) as H1.
  { apply (seg_remove n p _ _ _ _ x); unfold n1, p1; try done; intros; by case_decide. }
  apply (seg_insert n1 p1); try done.
  - rewrite app_comm_cons in Hnd1. apply NoDup_app in Hnd1 as (? & Hd & [_ ?]%NoDup_cons).
    rewrite app_comm_cons. apply NoDup_app. split_and!; [done| |done].
    intros a Ha Hb. apply (Hd a Ha). by constructor.
  - apply NoDup_app in Hnd2 as (? & Hd & [_ ?]%NoDup_cons).
    apply NoDup_app. split_and!; [done| |done].
    intros a Ha Hb. apply (Hd a Ha). by constructor.
  - intros a Ha Hne. rewrite Hn' by done. unfold n1. by case_decide.
  - intros a Ha Hne. rewrite Hp' by done. unfold p1. by case_decide.
Qed.
End Dlist.

(** The same for rings, whose nodes are pairwise distinct. *)
Section Ring.
Implicit Types (n p : Z → Z) (l : list Z).

Lemma NoDup_ring h l : NoDup (h :: l) → NoDup (l ++ [h]).
Proof. intros H. by rewrite (Permutation_app_comm l [h]). Qed.

Lemma ring_ext n p n' p' h l :
  ring n p h l → (∀ a, a ∈ h :: l → n' a = n a) → (∀ a, a ∈ h :: l → p' a = p a) → ring n' p' h l.
Proof. intros H Hn Hp. apply (seg_ext _ _ _ _ _ _ _ H); [done|]. intros a Ha. apply Hp. set_solver. Qed.

Lemma ring_insert n p n' p' h l1 x l2 :
  ring n p h (l1 ++ l2) → NoDup (h :: l1 ++ l2) →
  n' (lastn h l1) = x → p' x = lastn h l1 →
  n' x = firstn_or l2 h → p' (firstn_or l2 h) = x →
  (∀ a, a ∈ h :: l1 ++ l2 → a ≠ lastn h l1 → n' a = n a) →
  (∀ a, a ∈ h :: l1 ++ l2 → a ≠ firstn_or l2 h → p' a = p a) →
  ring n' p' h (l1 ++ x :: l2).
Proof.
  intros Hr Hnd ???? Hn Hp. apply (seg_insert n p); try done.
  - rewrite app_assoc. by apply NoDup_ring.
  - intros a Ha. apply Hp. set_solver.
Qed.

Lemma ring_remove n p n' p' h l1 x l2 :
  ring n p h (l1 ++ x :: l2) → NoDup (h :: l1 ++ x :: l2) →
  n' (lastn h l1) = firstn_or l2 h → p' (firstn_or l2 h) = lastn h l1 →
  (∀ a, a ∈ h :: l1 ++ l2 → a ≠ lastn h l1 → n' a = n a) →
  (∀ a, a ∈ h :: l1 ++ l2 → a ≠ firstn_or l2 h → p' a = p a) →
  ring n' p' h (l1 ++ l2).
Proof.
  intros Hr Hnd ?? Hn Hp. apply (seg_remove n p _ _ _ _ x); try done.
  - rewrite app_assoc. by apply NoDup_ring.
  - intros a Ha. apply Hp. set_solver.
Qed.

Lemma ring_replace n p n' p' h l1 x y l2 :
  ring n p h (l1 ++ x :: l2) → NoDup (h :: l1 ++ x :: l2) →
  n' (lastn h l1) = y → p' y = lastn h l1 →
  n' y = firstn_or l2 h → p' (firstn_or l2 h) = y →
  (∀ a, a ∈ h :: l1 ++ l2 → a ≠ lastn h l1 → n' a = n a) →
  (∀ a, a ∈ h :: l1 ++ l2 → a ≠ firstn_or l2 h → p' a = p a) →
  ring n' p' h (l1 ++ y :: l2).
Proof.
  intros Hr Hnd ???? Hn Hp. apply (seg_replace n p _ _ _ _ x); try done.
  - rewrite app_assoc. by apply NoDup_ring.
  - intros a Ha. apply Hp. set_solver.
Qed.
End Ring.
