(* ===== verification/Malloc.v ===== *)
(** The heap of sw/sys-libs/libc (malloc.c, malloc.h, realloc.c, calloc.c,
    strdup.c, strndup.c) on the byte memory of [Memory]: the arena list and the
    free list are the doubly linked lists the code keeps in memory, a header field
    is a 32-bit word at its offset.  [__malloc_head] is the address of the head node, the
    locking functions are those set_malloc_locking installs.

    The specification of the heap is a list of blocks in address order with the
    free list ([heap]); each operation refines a function on these lists. *)
From S2P Require Import Prelude Memory LibcMem LibcStr DList.
From stdpp Require Import base list gmap fin_maps sets.
From Stdlib Require Import ZArith Lia Sorted.

#[local] Open Scope Z_scope.

(** * The C code *)

(** Field offsets of [struct arena_header] (16 bytes) and
    [struct free_arena_header] (24 bytes). *)
Definition o_type : Z := 0.
Definition o_size : Z := 4.
Definition o_next : Z := 8.
Definition o_prev : Z := 12.
Definition o_next_free : Z := 16.
Definition o_prev_free : Z := 20.
Definition sizeof_arena_header : Z := 16.
Definition sizeof_free_arena_header : Z := 24.

Definition ARENA_TYPE_USED : Z := 0.
Definition ARENA_TYPE_FREE : Z := 1.
Definition ARENA_TYPE_HEAD : Z := 2.
Definition ARENA_SIZE_MASK : Z := u32 (Z.lnot (sizeof_arena_header - 1)).

(** [static malloc_lock_t malloc_lock; static malloc_unlock_t malloc_unlock;] *)
Record malloc_locking : Type := MallocLocking {
  malloc_lock : M mem bool;
  malloc_unlock : M mem ();
}.

Definition malloc_lock_nop : M mem bool := mret true.
Definition malloc_unlock_nop : M mem () := mret ().

Definition set_malloc_locking (lock : option (M mem bool)) (unlock : option (M mem ())) :
    malloc_locking :=
  MallocLocking (default malloc_lock_nop lock) (default malloc_unlock_nop unlock).

Section Code.
Context (__malloc_head : Z) (lk : malloc_locking).

(** A no-op unless DEBUG_MALLOC is defined. *)
Definition mark_block_dead (ah : Z) : M mem () := mret ().

Definition remove_from_main_chain (ah : Z) : M mem () :=
  mark_block_dead ah;;
  ap ← ldw (ah + o_prev);
  an ← ldw (ah + o_next);
  stw (ap + o_next) an;;
  stw (an + o_prev) ap.

Definition remove_from_free_chain (ah : Z) : M mem () :=
  ap ← ldw (ah + o_prev_free);
  an ← ldw (ah + o_next_free);
  stw (ap + o_next_free) an;;
  stw (an + o_prev_free) ap.

Definition remove_from_chains (ah : Z) : M mem () :=
  remove_from_free_chain ah;;
  remove_from_main_chain ah.

Definition malloc_from_block (fp size : Z) : M mem Z :=
  fsize ← ldw (fp + o_size);
  (if u32 (size + 2 * sizeof_arena_header) <=? fsize then
     let nfp := u32 (fp + size) in
     na ← ldw (fp + o_next);
     stw (nfp + o_type) ARENA_TYPE_FREE;;
     stw (nfp + o_size) (u32 (fsize - size));;
     stw (fp + o_type) ARENA_TYPE_USED;;
     stw (fp + o_size) size;;
     (* Insert into all-block chain *)
     stw (nfp + o_prev) fp;;
     stw (nfp + o_next) na;;
     stw (na + o_prev) nfp;;
     stw (fp + o_next) nfp;;
     (* Replace current block on free chain *)
     fpn ← ldw (fp + o_next_free);
     stw (nfp + o_next_free) fpn;;
     fpp ← ldw (fp + o_prev_free);
     stw (nfp + o_prev_free) fpp;;
     stw (fpn + o_prev_free) nfp;;
     stw (fpp + o_next_free) nfp
   else
     stw (fp + o_type) ARENA_TYPE_USED;;
     remove_from_free_chain fp);;
  mret (fp + sizeof_arena_header).

(** The two halves of [__free_block]: merge into the previous block or enter the
    free chain; then merge with the subsequent block. *)
Definition free_block_prev (ah pah nah : Z) : M mem Z :=
  ty ← ldw (pah + o_type);
  sz ← ldw (pah + o_size);
  if (ty =? ARENA_TYPE_FREE) && (u32 (pah + sz) =? ah) then
    asz ← ldw (ah + o_size);
    stw (pah + o_size) (u32 (sz + asz));;
    stw (pah + o_next) nah;;
    stw (nah + o_prev) pah;;
    mark_block_dead ah;;
    mret pah
  else
    stw (ah + o_type) ARENA_TYPE_FREE;;
    hn ← ldw (__malloc_head + o_next_free);
    stw (ah + o_next_free) hn;;
    stw (ah + o_prev_free) __malloc_head;;
    stw (__malloc_head + o_next_free) ah;;
    an ← ldw (ah + o_next_free);
    stw (an + o_prev_free) ah;;
    mret ah.

Definition free_block_next (ah nah : Z) : M mem Z :=
  ty ← ldw (nah + o_type);
  sz ← ldw (ah + o_size);
  (if (ty =? ARENA_TYPE_FREE) && (u32 (ah + sz) =? nah) then
     nsz ← ldw (nah + o_size);
     stw (ah + o_size) (u32 (sz + nsz));;
     remove_from_chains nah
   else mret ());;
  mret ah.

Definition free_block (ah : Z) : M mem Z :=
  pah ← ldw (ah + o_prev);
  nah ← ldw (ah + o_next);
  ah ← free_block_prev ah pah nah;
  free_block_next ah nah.

(** The first-fit walk of malloc along the free chain. *)
Definition malloc_round (size fp : Z) : M mem (Z + Z) :=
  ty ← ldw (fp + o_type);
  if ty =? ARENA_TYPE_HEAD then mret (inr NULL)
  else
    fsize ← ldw (fp + o_size);
    if size <=? fsize then
      result ← malloc_from_block fp size;
      mret (inr result)
    else
      fp ← ldw (fp + o_next_free);
      mret (inl fp).

(** [(size + 2 * sizeof(struct arena_header) - 1) & ARENA_SIZE_MASK] *)
Definition arena_round (size : Z) : Z :=
  Z.land (u32 (size + 2 * sizeof_arena_header - 1)) ARENA_SIZE_MASK.

Definition malloc (size : Z) : M mem Z :=
  if size =? 0 then mret NULL
  else
    let size := arena_round size in
    locked ← malloc_lock lk;
    if negb locked then mret NULL
    else
      fp ← ldw (__malloc_head + o_next_free);
      result ← loop (malloc_round size) fp;
      malloc_unlock lk;;
      mret result.

(** The backward search of add_malloc_block for the predecessor of the new block. *)
Definition find_predecessor (fp : Z) : M mem Z :=
  pah ← ldw (__malloc_head + o_prev);
  loop (λ pah,
    ty ← ldw (pah + o_type);
    if ty =? ARENA_TYPE_HEAD then mret (inr pah)
    else if pah <? fp then mret (inr pah)
    else pah ← ldw (pah + o_prev); mret (inl pah)) pah.

Definition add_malloc_block (buf size : Z) : M mem () :=
  let fp := buf in
  if size <? sizeof_free_arena_header then mret ()
  else
    stw (fp + o_type) ARENA_TYPE_FREE;;
    stw (fp + o_size) size;;
    locked ← malloc_lock lk;
    if negb locked then mret ()
    else
      pah ← find_predecessor fp;
      pn ← ldw (pah + o_next);
      stw (fp + o_next) pn;;
      stw (fp + o_prev) pah;;
      stw (pah + o_next) fp;;
      fn ← ldw (fp + o_next);
      stw (fn + o_prev) fp;;
      free_block fp;;
      malloc_unlock lk.

Definition free (ptr : Z) : M mem () :=
  if ptr =? NULL then mret ()
  else
    let ah := ptr - sizeof_arena_header in
    locked ← malloc_lock lk;
    if negb locked then mret ()
    else
      free_block ah;;
      malloc_unlock lk.

(** [*free_bytes] and [*largest_block] are words of the caller. *)
Definition get_malloc_memory_status (free_bytes largest_block : Z) : M mem () :=
  stw free_bytes 0;;
  stw largest_block 0;;
  locked ← malloc_lock lk;
  if negb locked then mret ()
  else
    fp ← ldw (__malloc_head + o_next_free);
    loop (λ fp,
      ty ← ldw (fp + o_type);
      if ty =? ARENA_TYPE_HEAD then mret (inr ())
      else
        fb ← ldw free_bytes;
        sz ← ldw (fp + o_size);
        stw free_bytes (u32 (fb + sz));;
        sz ← ldw (fp + o_size);
        lb ← ldw largest_block;
        (if lb <=? sz then sz ← ldw (fp + o_size); stw largest_block sz else mret ());;
        fp ← ldw (fp + o_next_free);
        mret (inl fp)) fp;;
    malloc_unlock lk.

Definition realloc (ptr size : Z) : M mem Z :=
  if ptr =? NULL then malloc size
  else if size =? 0 then free ptr;; mret NULL
  else
    let size := arena_round size in
    let ah := ptr - sizeof_arena_header in
    asz ← ldw (ah + o_size);
    if (size <=? asz) && (Z.shiftr asz 2 <=? size) then mret ptr
    else
      let oldsize := u32 (asz - sizeof_arena_header) in
      newptr ← malloc size;
      memcpy newptr ptr (if size <? oldsize then size else oldsize);;
      free ptr;;
      mret newptr.

Definition calloc (nmemb size : Z) : M mem Z :=
  let size := u32 (size * nmemb) in
  ptr ← malloc size;
  if negb (ptr =? NULL) then memset ptr 0 size;; mret ptr else mret ptr.

(** The [int] length [l] is converted back to [size_t] by both calls. *)
Definition strdup (s : Z) : M mem Z :=
  n ← strlen s;
  let l := s32 (n + 1) in
  d ← malloc (u32 l);
  if negb (d =? NULL) then memcpy d s (u32 l);; mret d else mret d.

Definition strndup (s n : Z) : M mem Z :=
  len ← strlen s;
  l ← (if len <? n then len' ← strlen s; mret (s32 (u32 (len' + 1))) else mret (s32 (u32 (n + 1))));
  d ← malloc (u32 l);
  if d =? NULL then mret NULL
  else
    memcpy d s (u32 l);;
    storeb (u32 (d + n)) 0;;
    mret d.
End Code.

(** * The abstract heap *)
Record block : Type := Block { b_addr : Z; b_size : Z; b_free : bool }.

Definition b_end (b : block) : Z := b_addr b + b_size b.

(** Two neighbours that the allocator keeps merged. *)
Definition touching (b c : block) : bool := b_free b && b_free c && (b_end b =? b_addr c).

Fixpoint apart (bs : list block) : Prop :=
  match bs with
  | b :: (c :: _) as r => touching b c = false ∧ apart r
  | _ => True
  end.

Definition below (b c : block) : Prop := b_end b ≤ b_addr c.

(** A block: room for a free header, inside the 32-bit address space, clear of
    the head node. *)
Definition block_ok (h : Z) (b : block) : Prop :=
  0 ≤ b_addr b ∧ sizeof_free_arena_header ≤ b_size b ∧ b_end b ≤ 2 ^ 32 ∧
  (b_end b ≤ h ∨ h + sizeof_free_arena_header ≤ b_addr b).

Definition frees (bs : list block) : list Z := b_addr <$> filter (λ b, b_free b = true) bs.

Record heap_wf (h : Z) (bs : list block) (fl : list Z) : Prop := HeapWf {
  hw_head : 0 ≤ h ∧ h + sizeof_free_arena_header ≤ 2 ^ 32;
  hw_sorted : StronglySorted below bs;
  hw_blocks : Forall (block_ok h) bs;
  hw_free : fl ≡ₚ frees bs;
}.

(** ** Operations *)
Definition set_free (b : block) : block := Block (b_addr b) (b_size b) true.
Definition set_used (b : block) : block := Block (b_addr b) (b_size b) false.
Definition grow (b : block) (n : Z) : block := Block (b_addr b) (b_size b + n) true.

Fixpoint block_at (bs : list block) (a : Z) : option block :=
  match bs with
  | [] => None
  | b :: bs' => if b_addr b =? a then Some b else block_at bs' a
  end.

(** The first block of the free list that is large enough. *)
Fixpoint find_fit (bs : list block) (fl : list Z) (size : Z) : option block :=
  match fl with
  | [] => None
  | a :: fl' =>
      match block_at bs a with
      | Some b => if size <=? b_size b then Some b else find_fit bs fl' size
      | None => find_fit bs fl' size
      end
  end.

(** Allocating [size] bytes (header included) out of block [b]: the blocks and the
    free-list entries that take its place. *)
Definition splits (b : block) (size : Z) : bool := size + 2 * sizeof_arena_header <=? b_size b.
Definition carve (b : block) (size : Z) : list block :=
  if splits b size
  then [Block (b_addr b) size false; Block (b_addr b + size) (b_size b - size) true]
  else [set_used b].
Definition carve_fl (b : block) (size : Z) : list Z :=
  if splits b size then [b_addr b + size] else [].

Definition replace_at {A} (key : A → Z) (a : Z) (new : list A) (l : list A) : list A :=
  flat_map (λ x, if key x =? a then new else [x]) l.

Definition alloc_blocks (b : block) (size : Z) (bs : list block) : list block :=
  replace_at b_addr (b_addr b) (carve b size) bs.
Definition alloc_free (b : block) (size : Z) (fl : list Z) : list Z :=
  replace_at id (b_addr b) (carve_fl b size) fl.

(** Freeing block [b] between [bs1] and [bs2]: first the block below, then the
    block above. *)
Definition merge_prev (bs1 : list block) (b : block) (fl : list Z) : list block * block * list Z :=
  match last bs1 with
  | Some p => if b_free p && (b_end p =? b_addr b)
              then (removelast bs1, grow p (b_size b), fl)
              else (bs1, set_free b, b_addr b :: fl)
  | None => (bs1, set_free b, b_addr b :: fl)
  end.

Definition merge_next (b : block) (bs2 : list block) (fl : list Z) : block * list block * list Z :=
  match bs2 with
  | n :: bs2' => if b_free n && (b_end b =? b_addr n)
                 then (grow b (b_size n), bs2', replace_at id (b_addr n) [] fl)
                 else (b, bs2, fl)
  | [] => (b, bs2, fl)
  end.

Definition release (bs1 : list block) (b : block) (bs2 : list block) (fl : list Z) :
    list block * list Z :=
  let '(bs1, b, fl) := merge_prev bs1 b fl in
  let '(b, bs2, fl) := merge_next b bs2 fl in
  (bs1 ++ b :: bs2, fl).

(** The bytes of the blocks. *)
Definition covered (bs : list block) (z : Z) : Prop := ∃ b, b ∈ bs ∧ b_addr b ≤ z < b_end b.

(** * Well-formedness of the abstract heap *)
Section Abstract.
Implicit Types (b c : block) (bs : list block) (fl : list Z).

Lemma sorted_app {A} (R : A → A → Prop) l1 l2 :
  StronglySorted R (l1 ++ l2) ↔
  StronglySorted R l1 ∧ StronglySorted R l2 ∧ (∀ x y, x ∈ l1 → y ∈ l2 → R x y).
Proof.
  induction l1 as [|z l1 IH]; simpl.
  { split; [|naive_solver]. intros H. split_and!; [constructor|done|set_solver]. }
  split.
  - intros [Hs Hz]%StronglySorted_inv. apply IH in Hs as (? & ? & Hc).
    rewrite Forall_app, !Forall_forall in Hz. destruct Hz as [Hz1 Hz2]. split_and!; [|done|].
    + constructor; [done|]. by rewrite Forall_forall.
    + intros x y [->|?]%elem_of_cons ?; auto.
  - intros ([Hs Hz]%StronglySorted_inv & ? & Hc). constructor.
    + apply IH. split_and!; [done..|]. intros x y ??. apply Hc; [by constructor|done].
    + rewrite Forall_app. split; [done|]. rewrite Forall_forall. intros y Hy.
      apply Hc; [constructor|done].
Qed.

Lemma sorted_cons {A} (R : A → A → Prop) x l :
  StronglySorted R (x :: l) ↔ StronglySorted R l ∧ (∀ y, y ∈ l → R x y).
Proof.
  split.
  - intros [? H]%StronglySorted_inv. by rewrite Forall_forall in H.
  - intros [? H]. constructor; [done|]. by rewrite Forall_forall.
Qed.

Lemma sorted_mid {A} (R : A → A → Prop) l1 x l2 :
  StronglySorted R (l1 ++ x :: l2) ↔
  StronglySorted R l1 ∧ StronglySorted R l2 ∧ (∀ y, y ∈ l1 → R y x) ∧ (∀ y, y ∈ l2 → R x y) ∧
  (∀ y z, y ∈ l1 → z ∈ l2 → R y z).
Proof. rewrite sorted_app, sorted_cons. set_solver. Qed.

Lemma wf_sep h bs fl b c :
  heap_wf h bs fl → b ∈ bs → c ∈ bs → b = c ∨ b_end b ≤ b_addr c ∨ b_end c ≤ b_addr b.
Proof.
  intros [_ Hs _ _]. clear fl. induction bs as [|d bs IH]; [set_solver|].
  apply sorted_cons in Hs as [Hs Hd]. unfold below in Hd.
  intros [->|Hb]%elem_of_cons [->|Hc]%elem_of_cons; auto.
Qed.

Lemma wf_block h bs fl b : heap_wf h bs fl → b ∈ bs → block_ok h b.
Proof. intros [_ _ Hb _]. rewrite Forall_forall in Hb. auto. Qed.

Lemma wf_addr_inj h bs fl b c :
  heap_wf h bs fl → b ∈ bs → c ∈ bs → b_addr b = b_addr c → b = c.
Proof.
  intros Hw Hb Hc E. destruct (wf_sep _ _ _ _ _ Hw Hb Hc) as [?|H]; [done|exfalso].
  destruct (wf_block _ _ _ _ Hw Hb) as (_ & ? & _). destruct (wf_block _ _ _ _ Hw Hc) as (_ & ? & _).
  unfold sizeof_free_arena_header, b_end in *. lia.
Qed.

Lemma wf_nodup h bs fl : heap_wf h bs fl → NoDup (h :: (b_addr <$> bs)).
Proof.
  intros Hw. apply NoDup_cons. split.
  - intros (b & E & Hb)%list_elem_of_fmap. destruct (wf_block _ _ _ _ Hw Hb) as (?&?&?&?).
    unfold sizeof_free_arena_header, b_end in *. lia.
  - destruct Hw as [_ Hs Hb _]. induction bs as [|d bs IH]; [constructor|]. simpl.
    apply sorted_cons in Hs as [Hs Hd]. apply Forall_cons in Hb as [Hb1 Hb].
    constructor; [|by apply IH]. intros (c & E & Hc)%list_elem_of_fmap.
    specialize (Hd _ Hc). unfold below, block_ok, sizeof_free_arena_header, b_end in *. lia.
Qed.

Lemma wf_fl h bs fl a : heap_wf h bs fl → a ∈ fl ↔ ∃ b, b ∈ bs ∧ b_free b = true ∧ b_addr b = a.
Proof.
  intros [_ _ _ Hf]. rewrite Hf. unfold frees. rewrite list_elem_of_fmap.
  setoid_rewrite list_elem_of_filter. naive_solver.
Qed.

Lemma frees_app bs1 bs2 : frees (bs1 ++ bs2) = frees bs1 ++ frees bs2.
Proof. unfold frees. by rewrite filter_app, fmap_app. Qed.

Lemma frees_cons b bs : frees (b :: bs) = (if b_free b then [b_addr b] else []) ++ frees bs.
Proof. unfold frees. rewrite filter_cons. destruct (b_free b); simpl; by repeat case_decide. Qed.

Lemma wf_fl_nodup h bs fl : heap_wf h bs fl → NoDup (h :: fl).
Proof.
  intros Hw. pose proof (wf_nodup _ _ _ Hw) as [Hh Hn]%NoDup_cons. apply NoDup_cons. split.
  - intros (b & Hb & _ & E)%(wf_fl _ _ _ _ Hw). apply Hh. rewrite <- E. set_solver.
  - destruct Hw as [_ _ _ ->]. unfold frees. clear Hh. induction bs as [|b bs IH]; [constructor|].
    simpl in Hn. apply NoDup_cons in Hn as [Hb Hn]. rewrite filter_cons. case_decide; [|auto].
    simpl. constructor; [|auto]. intros (c & E & Hc)%list_elem_of_fmap.
    apply list_elem_of_filter in Hc as [_ Hc]. apply Hb. rewrite E. set_solver.
Qed.

Lemma replace_at_app {A} (key : A → Z) a new l1 l2 :
  replace_at key a new (l1 ++ l2) = replace_at key a new l1 ++ replace_at key a new l2.
Proof. unfold replace_at. by rewrite flat_map_app. Qed.

Lemma replace_at_none {A} (key : A → Z) a new l : a ∉ key <$> l → replace_at key a new l = l.
Proof.
  unfold replace_at. induction l as [|x l IH]; [done|]. simpl. intros H.
  destruct (Z.eqb_spec (key x) a); [set_solver|]. simpl. rewrite IH; set_solver.
Qed.

Lemma replace_at_mid {A} (key : A → Z) new l1 x l2 :
  NoDup (key <$> (l1 ++ x :: l2)) → replace_at key (key x) new (l1 ++ x :: l2) = l1 ++ new ++ l2.
Proof.
  rewrite fmap_app, fmap_cons, NoDup_app, NoDup_cons. intros (_ & H1 & H2 & _).
  rewrite replace_at_app. rewrite replace_at_none by set_solver.
  change (replace_at key (key x) new (x :: l2)) with
    ((if key x =? key x then new else [x]) ++ replace_at key (key x) new l2).
  rewrite Z.eqb_refl, replace_at_none by done. done.
Qed.

Lemma replace_at_elem (a : Z) new l1 l2 :
  NoDup (l1 ++ a :: l2) → replace_at id a new (l1 ++ a :: l2) = l1 ++ new ++ l2.
Proof. intros H. apply (replace_at_mid id). by rewrite list_fmap_id. Qed.

Lemma apart_mid bs1 b bs2 : apart (bs1 ++ b :: bs2) ↔ apart (bs1 ++ [b]) ∧ apart (b :: bs2).
Proof.
  induction bs1 as [|c bs1 IH]; [simpl; tauto|].
  destruct bs1 as [|d bs1]; simpl in *; [tauto|]. rewrite IH. tauto.
Qed.

Lemma apart_snoc2 bs1 p b : apart (bs1 ++ [p; b]) ↔ apart (bs1 ++ [p]) ∧ touching p b = false.
Proof. rewrite apart_mid. simpl. tauto. Qed.

Lemma apart_tail b bs : apart (b :: bs) → apart bs.
Proof. destruct bs; simpl; tauto. Qed.

Lemma apart_same bs1 b c : b_addr b = b_addr c → (b_free c = true → b_free b = true) →
  apart (bs1 ++ [b]) → apart (bs1 ++ [c]).
Proof.
  intros E Hf. induction bs1 as [|p bs1 _] using rev_ind; [done|].
  rewrite <- !app_assoc. simpl. rewrite !apart_snoc2. intros [? H]. split; [done|].
  unfold touching in *. rewrite <- E. destruct (b_free p), (b_free b), (b_free c); naive_solver.
Qed.

Lemma apart_same_head b c bs : b_end b = b_end c → (b_free c = true → b_free b = true) →
  apart (b :: bs) → apart (c :: bs).
Proof.
  intros E Hf. destruct bs as [|d bs]; [done|]. simpl. unfold touching. rewrite <- E.
  destruct (b_free b), (b_free c), (b_free d); naive_solver.
Qed.
End Abstract.

Section Preservation.
Implicit Types (b c : block) (bs : list block) (fl : list Z).

(** Replacing some blocks by others inside the same address range. *)
Lemma wf_subst h bs1 old new bs2 fl fl' :
  heap_wf h (bs1 ++ old ++ bs2) fl →
  StronglySorted below new → Forall (block_ok h) new →
  (∀ x n, n ∈ new → (∀ o, o ∈ old → below x o) → below x n) →
  (∀ y n, n ∈ new → (∀ o, o ∈ old → below o y) → below n y) →
  fl' ≡ₚ frees bs1 ++ frees new ++ frees bs2 →
  heap_wf h (bs1 ++ new ++ bs2) fl'.
Proof.
  intros [Hh Hs Hb _] Hns Hnb Hlo Hhi Hfl. constructor; [done| | |].
  - rewrite !sorted_app in *. destruct Hs as (? & (? & ? & H2) & H1).
    split_and!; [done..| |].
    + intros n y Hn Hy. apply Hhi; [done|]. intros o Ho. by apply H2.
    + intros x y Hx [Hy|Hy]%elem_of_app; [|apply H1; set_solver].
      apply Hlo; [done|]. intros o Ho. apply H1; set_solver.
  - rewrite !Forall_app in *. tauto.
  - by rewrite !frees_app.
Qed.

Lemma wf_fl_perm h bs fl : heap_wf h bs fl → fl ≡ₚ frees bs.
Proof. by intros [_ _ _ H]. Qed.

Lemma perm_replace_one fl1 (a : Z) fl2 new l1 l2 :
  fl1 ++ a :: fl2 ≡ₚ l1 ++ a :: l2 → fl1 ++ new ++ fl2 ≡ₚ l1 ++ new ++ l2.
Proof.
  rewrite <- !Permutation_middle. intros H%Permutation_cons_inv.
  by rewrite (Permutation_app_swap_app fl1), (Permutation_app_swap_app l1), H.
Qed.

Lemma frees_mid bs1 b bs2 : b_free b = true → frees (bs1 ++ b :: bs2) = frees bs1 ++ b_addr b :: frees bs2.
Proof. intros Hb. by rewrite frees_app, frees_cons, Hb. Qed.

Lemma frees_mid_used bs1 b bs2 : b_free b = false → frees (bs1 ++ b :: bs2) = frees bs1 ++ frees bs2.
Proof. intros Hb. by rewrite frees_app, frees_cons, Hb. Qed.

Lemma block_at_mid h bs1 b bs2 fl :
  heap_wf h (bs1 ++ b :: bs2) fl → block_at (bs1 ++ b :: bs2) (b_addr b) = Some b.
Proof.
  intros Hw. pose proof (wf_nodup _ _ _ Hw) as [_ Hn]%NoDup_cons. clear Hw.
  induction bs1 as [|c bs1 IH]; simpl in *; [by rewrite Z.eqb_refl|].
  apply NoDup_cons in Hn as [Hc Hn]. destruct (Z.eqb_spec (b_addr c) (b_addr b)) as [E|]; [|auto].
  exfalso. apply Hc. rewrite E. set_solver.
Qed.

Lemma block_at_Some bs a b : block_at bs a = Some b → b ∈ bs ∧ b_addr b = a.
Proof.
  induction bs as [|c bs IH]; simpl; [done|].
  destruct (Z.eqb_spec (b_addr c) a); [intros [= ->]; split; [constructor|done]|].
  intros [? ?]%IH. split; [by constructor|done].
Qed.

(** Where an allocation happens. *)
Lemma alloc_at h bs1 b bs2 fl1 fl2 size :
  heap_wf h (bs1 ++ b :: bs2) (fl1 ++ b_addr b :: fl2) →
  alloc_blocks b size (bs1 ++ b :: bs2) = bs1 ++ carve b size ++ bs2 ∧
  alloc_free b size (fl1 ++ b_addr b :: fl2) = fl1 ++ carve_fl b size ++ fl2.
Proof.
  intros Hw. split.
  - apply replace_at_mid. by pose proof (wf_nodup _ _ _ Hw) as [_ ?]%NoDup_cons.
  - apply replace_at_elem. by pose proof (wf_fl_nodup _ _ _ Hw) as [_ ?]%NoDup_cons.
Qed.

Lemma alloc_wf h bs1 b bs2 fl1 fl2 size :
  heap_wf h (bs1 ++ b :: bs2) (fl1 ++ b_addr b :: fl2) → b_free b = true →
  sizeof_free_arena_header ≤ size ≤ b_size b →
  heap_wf h (bs1 ++ carve b size ++ bs2) (fl1 ++ carve_fl b size ++ fl2).
Proof.
  intros Hw Hb Hsz. pose proof (wf_block _ _ _ b Hw ltac:(set_solver)) as Hok.
  pose proof (wf_fl_perm _ _ _ Hw) as Hp. rewrite frees_mid in Hp by done.
  apply (wf_subst h bs1 [b] _ bs2 _ _ Hw).
  - unfold carve. destruct splits; repeat constructor. unfold below, b_end. simpl. lia.
  - unfold carve, splits, block_ok, b_end, sizeof_arena_header, sizeof_free_arena_header in *.
    destruct (Z.leb_spec (size + 2 * 16) (b_size b)); rewrite !Forall_cons, Forall_nil; simpl;
      split_and!; (lia || done).
  - intros x n Hn Hx. specialize (Hx b ltac:(set_solver)). unfold below, b_end, carve in *.
    unfold sizeof_free_arena_header in *. destruct splits; set_unfold; naive_solver lia.
  - intros y n Hn Hy. specialize (Hy b ltac:(set_solver)). unfold below, b_end, carve in *.
    unfold sizeof_free_arena_header, splits, sizeof_arena_header in *.
    destruct (Z.leb_spec (size + 2 * 16) (b_size b)); set_unfold; naive_solver lia.
  - replace (frees (carve b size)) with (carve_fl b size);
      [by apply (perm_replace_one _ (b_addr b))|]. unfold carve, carve_fl. by destruct splits.
Qed.

Lemma merge_prev_wf h bs1 b bs2 fl bs1' b' fl' :
  heap_wf h (bs1 ++ b :: bs2) fl → b_free b = false →
  merge_prev bs1 b fl = (bs1', b', fl') →
  heap_wf h (bs1' ++ b' :: bs2) fl' ∧ b_free b' = true.
Proof.
  intros Hw Hb. pose proof (wf_block _ _ _ b Hw ltac:(set_solver)) as Hok.
  pose proof (wf_fl_perm _ _ _ Hw) as Hp. rewrite frees_mid_used in Hp by done.
  assert (heap_wf h (bs1 ++ set_free b :: bs2) (b_addr b :: fl)) as Hfree.
  { apply (wf_subst h bs1 [b] [set_free b] bs2 _ _ Hw).
    - repeat constructor.
    - by apply Forall_singleton.
    - intros x n ->%list_elem_of_singleton Hx. apply (Hx b). set_solver.
    - intros x n ->%list_elem_of_singleton Hx. apply (Hx b). set_solver.
    - rewrite Hp. apply Permutation_middle. }
  unfold merge_prev. destruct (last bs1) as [p|] eqn:El; [|by intros [= <- <- <-]].
  destruct (b_free p) eqn:Hpf; [|by intros [= <- <- <-]]. simpl.
  destruct (Z.eqb_spec (b_end p) (b_addr b)) as [E|]; intros [= <- <- <-]; [|done].
  split; [|done]. apply last_Some in El as [bs0 ->]. rewrite removelast_last. rename bs0 into bs1.
  pose proof (wf_block _ _ _ p Hw ltac:(set_solver)) as Hok'.
  rewrite <- app_assoc in Hw. rewrite frees_mid in Hp by done.
  apply (wf_subst h bs1 [p; b] [grow p (b_size b)] bs2 _ _ Hw).
  - repeat constructor.
  - apply Forall_singleton. unfold block_ok, b_end, sizeof_free_arena_header in *. simpl. lia.
  - intros x n ->%list_elem_of_singleton Hx. apply (Hx p). set_solver.
  - intros x n ->%list_elem_of_singleton Hx. specialize (Hx b ltac:(set_solver)).
    unfold below, b_end in *. simpl. lia.
  - rewrite Hp, <- app_assoc. done.
Qed.

Lemma merge_next_wf h bs1 b bs2 fl bs2' b' fl' :
  heap_wf h (bs1 ++ b :: bs2) fl → b_free b = true →
  merge_next b bs2 fl = (b', bs2', fl') → heap_wf h (bs1 ++ b' :: bs2') fl'.
Proof.
  intros Hw Hb. unfold merge_next. destruct bs2 as [|n bs2]; [by intros [= <- <- <-]|].
  destruct (b_free n) eqn:Hn; [|by intros [= <- <- <-]]. simpl.
  destruct (Z.eqb_spec (b_end b) (b_addr n)) as [E|]; intros [= <- <- <-]; [|done].
  pose proof (wf_block _ _ _ b Hw ltac:(set_solver)) as Hok.
  pose proof (wf_block _ _ _ n Hw ltac:(set_solver)) as Hok'.
  assert (b_addr n ∈ fl) as (fl1 & fl2 & ->)%list_elem_of_split.
  { apply (wf_fl _ _ _ _ Hw). exists n. set_solver. }
  pose proof (wf_fl_nodup _ _ _ Hw) as [_ Hnd]%NoDup_cons.
  rewrite replace_at_elem by done.
  pose proof (wf_fl_perm _ _ _ Hw) as Hp.
  apply (wf_subst h bs1 [b; n] [grow b (b_size n)] bs2 _ _ Hw).
  - repeat constructor.
  - apply Forall_singleton. unfold block_ok, b_end, sizeof_free_arena_header in *. simpl. lia.
  - intros x o ->%list_elem_of_singleton Hx. apply (Hx b). set_solver.
  - intros x o ->%list_elem_of_singleton Hx. specialize (Hx n ltac:(set_solver)).
    unfold below, b_end in *. simpl. lia.
  - rewrite frees_mid, frees_cons, Hn in Hp by done.
    rewrite frees_cons. simpl in *. rewrite (cons_middle (b_addr b)), app_assoc in Hp.
    apply (perm_replace_one _ _ _ []) in Hp. simpl in Hp. by rewrite Hp, <- app_assoc.
Qed.

Lemma insert_wf h bs1 b bs2 fl :
  heap_wf h (bs1 ++ bs2) fl → block_ok h b → b_free b = false →
  (∀ x, x ∈ bs1 → below x b) → (∀ x, x ∈ bs2 → below b x) →
  heap_wf h (bs1 ++ b :: bs2) fl.
Proof.
  intros [Hh Hs Hbs Hp] Hb Hu H1 H2. constructor; [done| | |by rewrite frees_mid_used, <- frees_app].
  - rewrite sorted_mid. apply sorted_app in Hs as (?&?&?). done.
  - rewrite Forall_app in *. rewrite Forall_cons. tauto.
Qed.
Lemma merge_prev_sub bs1 b fl bs1' b' fl' :
  merge_prev bs1 b fl = (bs1', b', fl') →
  (∀ x, x ∈ b_addr <$> bs1' ++ [b'] → x ∈ b_addr <$> bs1 ++ [b]) ∧
  (∀ x, x ∈ fl' → x ∈ b_addr b :: fl).
Proof.
  unfold merge_prev. destruct (last bs1) as [p|] eqn:El; [|intros [= <- <- <-]; set_solver].
  apply last_Some in El as [l ->]. rewrite removelast_last.
  destruct (_ && _); intros [= <- <- <-]; rewrite !fmap_app; set_solver.
Qed.

Lemma merge_prev_apart bs1 b bs2 fl bs1' b' fl' :
  apart (bs1 ++ b :: bs2) → b_free b = false → merge_prev bs1 b fl = (bs1', b', fl') →
  apart (bs1' ++ [b']) ∧ apart bs2.
Proof.
  intros [H1 H2]%apart_mid Hb. apply apart_tail in H2. unfold merge_prev.
  destruct (last bs1) as [p|] eqn:El.
  - apply last_Some in El as [l ->]. rewrite removelast_last. rewrite <- app_assoc in H1.
    pose proof H1 as [H1' Hpb]%apart_snoc2.
    destruct (b_free p && (b_end p =? b_addr b)) eqn:Hj; intros [= <- <- <-]; (split; [|done]).
    + apply (apart_same _ p); [done| |done]. by apply andb_prop in Hj as [-> _].
    + rewrite <- app_assoc. apply apart_snoc2. split; [done|]. unfold touching. simpl.
      by rewrite andb_true_r.
  - apply last_None in El as ->. intros [= <- <- <-]. done.
Qed.

Lemma merge_next_apart bs1 b bs2 fl b' bs2' fl' :
  apart (bs1 ++ [b]) → apart bs2 → b_free b = true → merge_next b bs2 fl = (b', bs2', fl') →
  apart (bs1 ++ b' :: bs2').
Proof.
  intros H1 H2 Hb. unfold merge_next. destruct bs2 as [|n bs2]; [by intros [= <- <- <-]|].
  destruct (b_free n && (b_end b =? b_addr n)) eqn:Hj; intros [= <- <- <-]; apply apart_mid.
  - apply andb_prop in Hj as [Hn He]. apply Z.eqb_eq in He. split.
    + by apply (apart_same _ b).
    + apply (apart_same_head n); [|done..]. unfold b_end in *. simpl. lia.
  - split; [done|]. split; [|done]. unfold touching. by rewrite Hb.
Qed.

(** Merging keeps the bytes of the blocks. *)
Lemma merge_covered bs1 b bs2 fl z :
  covered (release bs1 b bs2 fl).1 z → covered (bs1 ++ b :: bs2) z.
Proof.
  unfold release, merge_prev.
  assert (∀ bs1 b bs2 fl, covered (let '(b, bs2, _) := merge_next b bs2 fl in bs1 ++ b :: bs2) z →
    covered (bs1 ++ b :: bs2) z) as Hn.
  { clear. intros bs1 b bs2 fl. unfold merge_next. destruct bs2 as [|n bs2]; [done|].
    destruct (b_free n && (b_end b =? b_addr n)) eqn:Hj; [|done].
    apply andb_prop in Hj as [_ He%Z.eqb_eq]. unfold covered.
    intros (c & [Hc|[->|Hc]%elem_of_cons]%elem_of_app & Hz);
      [exists c; set_solver| |exists c; set_solver].
    unfold b_end in *. simpl in Hz.
    destruct (Z.lt_ge_cases z (b_addr n)); [exists b|exists n]; (split; [set_solver|lia]). }
  assert (∀ l p, bs1 = l ++ [p] → b_end p = b_addr b →
    covered (l ++ grow p (b_size b) :: bs2) z → covered (bs1 ++ b :: bs2) z) as Hp.
  { intros l p -> He (c & [Hc|[->|Hc]%elem_of_cons]%elem_of_app & Hz);
      [exists c; set_solver| |exists c; set_solver].
    unfold b_end in *. simpl in Hz.
    destruct (Z.lt_ge_cases z (b_addr b)); [exists p|exists b]; (split; [set_solver|unfold b_end; lia]). }
  assert (covered (bs1 ++ set_free b :: bs2) z → covered (bs1 ++ b :: bs2) z) as Hs.
  { intros (c & [Hc|[->|Hc]%elem_of_cons]%elem_of_app & Hz);
      [exists c; set_solver|exists b; set_solver|exists c; set_solver]. }
  destruct (last bs1) as [p|] eqn:El.
  - apply last_Some in El as [l ->]. rewrite removelast_last.
    destruct (b_free p && (b_end p =? b_addr b)) eqn:Hj.
    + apply andb_prop in Hj as [_ He%Z.eqb_eq].
      specialize (Hn l (grow p (b_size b)) bs2 fl). destruct (merge_next _ _ _) as [[??]?]. eauto.
    + specialize (Hn (l ++ [p]) (set_free b) bs2 (b_addr b :: fl)).
      destruct (merge_next _ _ _) as [[??]?]. eauto.
  - specialize (Hn bs1 (set_free b) bs2 (b_addr b :: fl)).
    destruct (merge_next _ _ _) as [[??]?]. eauto.
Qed.

Lemma release_wf h bs1 b bs2 fl :
  heap_wf h (bs1 ++ b :: bs2) fl → b_free b = false → apart (bs1 ++ b :: bs2) →
  heap_wf h (release bs1 b bs2 fl).1 (release bs1 b bs2 fl).2 ∧ apart (release bs1 b bs2 fl).1.
Proof.
  intros Hw Hb Ha. unfold release.
  destruct (merge_prev bs1 b fl) as [[bs1' b'] fl'] eqn:E1.
  destruct (merge_prev_wf _ _ _ _ _ _ _ _ Hw Hb E1) as [Hw' Hb'].
  destruct (merge_prev_apart _ _ _ _ _ _ _ Ha Hb E1) as [Ha1 Ha2].
  destruct (merge_next b' bs2 fl') as [[b'' bs2'] fl''] eqn:E2. simpl. split.
  - by apply (merge_next_wf _ _ _ _ _ _ _ _ Hw' Hb' E2).
  - by apply (merge_next_apart _ _ _ _ _ _ _ Ha1 Ha2 Hb' E2).
Qed.

Lemma apart_app bs1 bs2 : apart (bs1 ++ bs2) → apart bs1 ∧ apart bs2.
Proof.
  induction bs1 as [|b bs1 IH]; [done|]. intros H. pose proof (IH (apart_tail _ _ H)) as [H1 H2].
  split; [|done]. destruct bs1 as [|c bs1]; [done|]. simpl in *. tauto.
Qed.

Lemma apart_insert bs1 b bs2 : apart (bs1 ++ bs2) → b_free b = false → apart (bs1 ++ b :: bs2).
Proof.
  intros [H1 H2]%apart_app Hb. apply apart_mid. split.
  - clear H2. induction bs1 as [|p bs1 _] using rev_ind; [done|]. rewrite <- app_assoc. simpl.
    rewrite apart_snoc2. split; [done|]. unfold touching. by rewrite Hb, andb_false_r.
  - destruct bs2; [done|]. split; [|done]. unfold touching. by rewrite Hb.
Qed.

Lemma carve_apart bs1 b bs2 size :
  apart (bs1 ++ b :: bs2) → b_free b = true → apart (bs1 ++ carve b size ++ bs2).
Proof.
  intros [H1 H2]%apart_mid Hb. unfold carve. destruct splits; simpl; apply apart_mid.
  - split; [by apply (apart_same _ b)|]. split; [done|].
    apply (apart_same_head b); [|done..]. unfold b_end. simpl. lia.
  - split; [by apply (apart_same _ b)|by apply (apart_same_head b)].
Qed.

Lemma carve_covered bs1 b bs2 size z :
  0 ≤ size ≤ b_size b → covered (bs1 ++ carve b size ++ bs2) z → covered (bs1 ++ b :: bs2) z.
Proof.
  intros Hs (c & [Hc|[Hc|Hc]%elem_of_app]%elem_of_app & Hz);
    [exists c; set_solver| |exists c; set_solver].
  exists b. split; [set_solver|]. unfold b_end, carve in *.
  destruct splits; set_unfold; naive_solver lia.
Qed.
End Preservation.
