(* ===== verification/MallocChains.v ===== *)
(** The chains of the heap: how the C operations of [Malloc] on the headers follow
    the abstract merging of blocks.

    The header words are read through a [view]: a store from field offsets and
    nodes to words, with the memory outside the allocator's own bytes fixed.  Each
    C operation is followed on the store, where the chains are rings. *)
From stdpp Require Import base list gmap fin_maps sets.
From Stdlib Require Import ZArith Lia Sorted.
From S2P Require Import Prelude Memory LibcMem LibcStr DList Malloc.

#[local] Open Scope Z_scope.

(** * The header store *)
Definition fields : Type := Z → Z → Z.
Definition upd (s : fields) (i x v : Z) : fields :=
  λ j y, if (j =? i) && (y =? x) then v else s j y.

(** [N] lists the nodes, [F] those with a free header, [O] is the set of bytes the
    allocator may write, [m0] the memory it started from. *)
Record view (N F : list Z) (O : Z → Prop) (m0 : mem) (s : fields) (m : mem) : Prop := View {
  v_sep : ∀ x y, x ∈ N → y ∈ N → x = y ∨ x + 24 ≤ y ∨ y + 24 ≤ x;
  v_own : ∀ x z, x ∈ N → x ≤ z < x + 16 → O z;
  v_ownf : ∀ x z, x ∈ F → x ≤ z < x + 24 → O z;
  v_map : ∀ x, x ∈ N → mapped m x 24;
  v_val : ∀ x i, x ∈ N → i ∈ [0; 4; 8; 12; 16; 20] → rdw m (x + i) = s i x;
  v_frame : ∀ z, ¬ O z → m !! z = m0 !! z;
  v_dom : ∀ z, is_Some (m0 !! z) → is_Some (m !! z);
}.

Section View.
Context (N F : list Z) (O : Z → Prop) (m0 : mem).
Implicit Types (s : fields) (m : mem).

Lemma wp_ldf s m x i (Q : Z → mem → Prop) :
  view N F O m0 s m → x ∈ N → i ∈ [0; 4; 8; 12; 16; 20] → Q (s i x) m → wp (ldw (x + i)) Q m.
Proof.
  intros Hv Hx Hi HQ. apply wp_ldw.
  - apply (mapped_sub _ x 24); [by apply Hv|set_unfold; lia..].
  - by rewrite (v_val _ _ _ _ _ _ Hv).
Qed.

Lemma view_upd s m x i v :
  view N F O m0 s m → x ∈ N → i ∈ [0; 4; 8; 12; 16; 20] → is_u32 v → (i < 16 ∨ x ∈ F) →
  view N F O m0 (upd s i x v) (wrw m (x + i) v).
Proof.
  intros [Hsep Hown Hownf Hmap Hval Hfr Hdom] Hx Hi Hv Hf. constructor; [done..| | | |].
  - intros y Hy. by apply mapped_wrw, Hmap.
  - intros y j Hy Hj. unfold upd. destruct (Z.eqb_spec j i) as [->|Hne]; simpl.
    + destruct (Z.eqb_spec y x) as [->|Hne]; [by apply rdw_wrw_eq|].
      rewrite rdw_wrw_ne; [by apply Hval|].
      destruct (Hsep x y Hx Hy) as [|]; [congruence|set_unfold; lia].
    + rewrite rdw_wrw_ne; [by apply Hval|].
      destruct (Hsep x y Hx Hy) as [->|]; set_unfold; lia.
  - intros z Hz. rewrite wrw_lookup_ne; [by apply Hfr|].
    destruct (Z.lt_ge_cases z (x + i)); [by left|].
    destruct (Z.lt_ge_cases z (x + i + 4)); [|by right].
    exfalso. apply Hz. destruct Hf; [apply (Hown x)|apply (Hownf x)]; set_unfold; done || lia.
  - intros z Hz. pose proof (mapped_wrw m (x + i) v z 1) as Hm.
    apply Hm; [|lia]. intros y Hy. assert (y = z) as -> by lia. by apply Hdom.
Qed.

Lemma wp_stf s m x i v (Q : () → mem → Prop) :
  view N F O m0 s m → x ∈ N → i ∈ [0; 4; 8; 12; 16; 20] → is_u32 v → (i < 16 ∨ x ∈ F) →
  (∀ m', view N F O m0 (upd s i x v) m' → Q () m') → wp (stw (x + i) v) Q m.
Proof.
  intros Hv Hx Hi Hu Hf HQ. apply wp_stw.
  - apply (mapped_sub _ x 24); [by apply Hv|set_unfold; lia..].
  - apply HQ. by apply view_upd.
Qed.
End View.

(** * The chains and headers on the store *)
Record chains (h : Z) (s : fields) (bs : list block) (fl : list Z) : Prop := Chains {
  ch_main : ring (s o_next) (s o_prev) h (b_addr <$> bs);
  ch_free : ring (s o_next_free) (s o_prev_free) h fl;
  ch_head : s o_type h = ARENA_TYPE_HEAD;
}.

Definition type_of (b : block) : Z := if b_free b then ARENA_TYPE_FREE else ARENA_TYPE_USED.

Definition hdr (s : fields) (b : block) : Prop :=
  s o_size (b_addr b) = b_size b ∧ s o_type (b_addr b) = type_of b.

(** The bytes of the allocator: the head node, the headers of the used blocks and
    the free blocks. *)
Definition owned (h : Z) (bs : list block) (z : Z) : Prop :=
  h ≤ z < h + sizeof_free_arena_header ∨
  ∃ b, b ∈ bs ∧ b_addr b ≤ z < b_addr b + (if b_free b then b_size b else sizeof_arena_header).

(** The heap in memory. *)
Record heap_at (h : Z) (m : mem) (bs : list block) (fl : list Z) : Prop := HeapAt {
  ha_wf : heap_wf h bs fl;
  ha_apart : apart bs;
  ha_chains : chains h (λ i x, rdw m (x + i)) bs fl;
  ha_hdrs : Forall (hdr (λ i x, rdw m (x + i))) bs;
  ha_head : mapped m h sizeof_free_arena_header;
  ha_mapped : ∀ z, covered bs z → is_Some (m !! z);
}.

Ltac upd_simpl :=
  unfold upd, hdr, o_size, o_type, o_next, o_prev, o_next_free, o_prev_free in *;
  cbn [Z.eqb Pos.eqb andb] in *.
Ltac upd_case :=
  upd_simpl; repeat match goal with
  | |- context [Z.eqb ?a ?b] => destruct (Z.eqb_spec a b)
  end; subst; try done; try congruence.

(** Membership in a list of constants. *)
Ltac offs := by repeat constructor.

Section Chains.
Implicit Types (b c : block) (bs : list block) (fl : list Z) (s : fields).

(** Nodes whose fields agree. *)
Lemma hdr_ext s s' bs :
  Forall (hdr s) bs → (∀ b, b ∈ bs → s' o_size (b_addr b) = s o_size (b_addr b)) →
  (∀ b, b ∈ bs → s' o_type (b_addr b) = s o_type (b_addr b)) → Forall (hdr s') bs.
Proof.
  rewrite !Forall_forall. intros H Hs Ht b Hb. destruct (H b Hb) as [??].
  split; [by rewrite Hs|by rewrite Ht].
Qed.

Lemma chains_neighbours h s bs1 b bs2 fl :
  chains h s (bs1 ++ b :: bs2) fl →
  s o_prev (b_addr b) = lastn h (b_addr <$> bs1) ∧ s o_next (b_addr b) = firstn_or (b_addr <$> bs2) h.
Proof. intros [Hm _ _]. rewrite fmap_app in Hm. by apply seg_at in Hm. Qed.

Lemma chains_neighbours_free h s bs fl1 a fl2 :
  chains h s bs (fl1 ++ a :: fl2) →
  s o_prev_free a = lastn h fl1 ∧ s o_next_free a = firstn_or fl2 h.
Proof. intros [_ Hf _]. by apply seg_at in Hf. Qed.

Lemma chains_first h s bs fl : chains h s bs fl → s o_next_free h = firstn_or fl h.
Proof. intros [_ Hf _]. by apply (seg_cut _ _ h [] fl h) in Hf as [Hf _]. Qed.

Lemma nodes_u32 h bs fl x : heap_wf h bs fl → x ∈ h :: (b_addr <$> bs) → is_u32 x.
Proof.
  intros Hw [->|(b & -> & Hb)%list_elem_of_fmap]%elem_of_cons.
  - destruct Hw as [[] _ _ _]. unfold is_u32, sizeof_free_arena_header in *. lia.
  - destruct (wf_block _ _ _ _ Hw Hb) as (?&?&?&?).
    unfold is_u32, b_end, sizeof_free_arena_header in *. lia.
Qed.

Lemma size_u32 h bs fl b : heap_wf h bs fl → b ∈ bs → is_u32 (b_size b).
Proof.
  intros Hw Hb. pose proof (hw_head _ _ _ Hw) as Hh.
  destruct (wf_block _ _ _ _ Hw Hb) as (?&?&?&?).
  unfold is_u32, b_end, sizeof_free_arena_header in *. lia.
Qed.

Lemma fl_nodes h bs fl x : heap_wf h bs fl → x ∈ h :: fl → x ∈ h :: (b_addr <$> bs).
Proof.
  intros Hw [->|(b & Hb & _ & <-)%(wf_fl _ _ _ _ Hw)]%elem_of_cons; set_solver.
Qed.

Lemma lastn_node h l1 l2 : lastn h l1 ∈ h :: l1 ++ l2.
Proof. pose proof (lastn_elem h l1). set_solver. Qed.

Lemma first_node h l1 l2 : firstn_or l2 h ∈ h :: l1 ++ l2.
Proof. pose proof (firstn_or_elem l2 h). set_solver. Qed.

(** Taking a block off the main chain, or off the free chain. *)
Lemma main_remove h s s' bs1 b bs2 fl :
  chains h s (bs1 ++ b :: bs2) fl → NoDup (h :: (b_addr <$> bs1 ++ b :: bs2)) →
  let x := lastn h (b_addr <$> bs1) in let y := firstn_or (b_addr <$> bs2) h in
  s' o_next = upd s o_next x y o_next → s' o_prev = upd s o_prev y x o_prev →
  ring (s' o_next) (s' o_prev) h (b_addr <$> bs1 ++ bs2).
Proof.
  intros [Hm _ _] Hnd x y -> ->. rewrite fmap_app in *.
  apply (ring_remove _ _ _ _ _ _ _ _ Hm Hnd); subst x y; intros; upd_case.
Qed.

Lemma free_remove h s s' bs fl1 a fl2 :
  chains h s bs (fl1 ++ a :: fl2) → NoDup (h :: fl1 ++ a :: fl2) →
  let x := lastn h fl1 in let y := firstn_or fl2 h in
  s' o_next_free = upd s o_next_free x y o_next_free →
  s' o_prev_free = upd s o_prev_free y x o_prev_free →
  ring (s' o_next_free) (s' o_prev_free) h (fl1 ++ fl2).
Proof.
  intros [_ Hf _] Hnd x y -> ->.
  apply (ring_remove _ _ _ _ _ _ _ _ Hf Hnd); subst x y; intros; upd_case.
Qed.
Lemma contiguous_eq h b c bs fl :
  heap_wf h bs fl → b ∈ bs → c ∈ bs → b_addr b < b_addr c →
  (u32 (b_addr b + b_size b) =? b_addr c) = (b_end b =? b_addr c).
Proof.
  intros Hw Hb Hc Hlt. pose proof (hw_head _ _ _ Hw) as Hh.
  destruct (wf_block _ _ _ _ Hw Hb) as (?&?&?&?). destruct (wf_block _ _ _ _ Hw Hc) as (?&?&?&?).
  destruct (wf_sep _ _ _ _ _ Hw Hb Hc) as [->|[?|?]];
    unfold b_end, sizeof_free_arena_header in *; try lia.
  by rewrite u32_small by (unfold is_u32; lia).
Qed.

Lemma prev_below h b p bs1 bs2 fl : heap_wf h ((bs1 ++ [p]) ++ b :: bs2) fl → b_addr p < b_addr b.
Proof.
  intros Hw. pose proof (wf_block _ _ _ p Hw ltac:(set_solver)) as (?&?&?&?).
  destruct Hw as [_ Hs _ _]. apply sorted_mid in Hs as (_ & _ & Hp & _).
  specialize (Hp p ltac:(set_solver)). unfold below, b_end, sizeof_free_arena_header in *. lia.
Qed.

Lemma next_above h b n bs1 bs2 fl : heap_wf h (bs1 ++ b :: n :: bs2) fl → b_addr b < b_addr n.
Proof. intros Hw. apply (prev_below h n b bs1 bs2 fl). by rewrite <- app_assoc. Qed.

Lemma hdr_at s bs b : Forall (hdr s) bs → b ∈ bs → s o_size (b_addr b) = b_size b ∧ s o_type (b_addr b) = type_of b.
Proof. rewrite Forall_forall. intros H Hb. by apply H. Qed.

Lemma type_of_free b : (type_of b =? ARENA_TYPE_FREE) = b_free b.
Proof. unfold type_of. by destruct (b_free b). Qed.

(** A header update of one block leaves the headers of blocks elsewhere. *)
Lemma hdr_other s bs i x v :
  Forall (hdr s) bs → x ∉ b_addr <$> bs → Forall (hdr (upd s i x v)) bs.
Proof.
  intros H Hx. apply (hdr_ext _ _ _ H); intros c Hc; unfold upd;
    (destruct (Z.eqb_spec (b_addr c) x) as [<-|]; [exfalso; apply Hx; set_solver|by rewrite andb_false_r]).
Qed.

Lemma hdr_chain s bs i x v :
  Forall (hdr s) bs → i ∈ [8; 12; 16; 20] → Forall (hdr (upd s i x v)) bs.
Proof.
  intros H Hi. apply (hdr_ext _ _ _ H); intros c Hc; unfold upd;
    [destruct (Z.eqb_spec o_size i) as [<-|]|destruct (Z.eqb_spec o_type i) as [<-|]]; try done;
    set_unfold; unfold o_size, o_type in *; lia.
Qed.

Lemma nodup_drop (a : Z) l1 x l2 : NoDup (a :: l1 ++ x :: l2) → NoDup (l1 ++ l2).
Proof.
  intros [_ (? & Hd & [_ ?]%NoDup_cons)%NoDup_app]%NoDup_cons. apply NoDup_app.
  split_and!; [done| |done]. set_solver.
Qed.

Lemma grow_chain bs1 p n bs2 : b_addr <$> (bs1 ++ [p]) ++ bs2 = b_addr <$> bs1 ++ grow p n :: bs2.
Proof. by rewrite <- app_assoc, !fmap_app. Qed.

Lemma hdr_grow s bs1 p n bs2 :
  Forall (hdr s) ((bs1 ++ [p]) ++ bs2) → b_free p = true → NoDup (b_addr <$> (bs1 ++ [p]) ++ bs2) →
  Forall (hdr (upd s o_size (b_addr p) (b_size p + n))) (bs1 ++ grow p n :: bs2).
Proof.
  rewrite <- app_assoc, fmap_app, NoDup_app, fmap_app. simpl. rewrite NoDup_cons.
  intros H Hp (_ & Hd1 & Hd2 & _). rewrite !Forall_app, Forall_cons in *. destruct H as (H1 & [_ Ht] & H2).
  split_and!; [apply hdr_other; set_solver| |by apply hdr_other].
  unfold hdr, type_of in *. simpl. rewrite Hp in *. split; upd_case.
Qed.
End Chains.

(** One load, or one store, of a header field. *)
Ltac ldf Hv := apply wp_bind; eapply (wp_ldf _ _ _ _ _ _ _ _ _ Hv); [try assumption|offs|]; cbn beta.
(** A load whose value is known. *)
Ltac ldfv Hv v := ldf Hv; match type of Hv with view _ _ _ _ ?st _ =>
  match goal with |- context [st ?i ?x] => replace (st i x) with v by (symmetry; first [assumption | by upd_case]) end end.
Ltac stf Hv :=
  lazymatch goal with |- wp (mbind _ _) _ _ => apply wp_bind | _ => idtac end;
  eapply (wp_stf _ _ _ _ _ _ _ _ _ _ Hv); [try assumption|offs|try done|try (by left); right|];
  [..|clear Hv; intros ? Hv].

Section FreeBlock.
Implicit Types (b c : block) (bs : list block) (fl : list Z) (s : fields).
Context (h : Z) (N F : list Z) (O : Z → Prop) (m0 : mem).

(** The block enters the free chain at its head. *)
Lemma wp_push s m bs1 b bs2 fl (Q : Z → mem → Prop) :
  view N F O m0 s m → heap_wf h (bs1 ++ b :: bs2) fl → b_free b = false →
  chains h s (bs1 ++ b :: bs2) fl → Forall (hdr s) (bs1 ++ bs2) →
  s o_size (b_addr b) = b_size b →
  (∀ x, x ∈ h :: (b_addr <$> bs1 ++ b :: bs2) → x ∈ N) → (∀ x, x ∈ h :: b_addr b :: fl → x ∈ F) →
  (∀ m' s', view N F O m0 s' m' → chains h s' (bs1 ++ set_free b :: bs2) (b_addr b :: fl) →
     Forall (hdr s') (bs1 ++ set_free b :: bs2) → Q (b_addr b) m') →
  wp (let ah := b_addr b in
      stw (ah + o_type) ARENA_TYPE_FREE;;
      hn ← ldw (h + o_next_free);
      stw (ah + o_next_free) hn;;
      stw (ah + o_prev_free) h;;
      stw (h + o_next_free) ah;;
      an ← ldw (ah + o_next_free);
      stw (an + o_prev_free) ah;;
      mret ah) Q m.
Proof.
  intros Hv Hw Hu Hc Hh Hsz HN HF HQ. cbn zeta.
  pose proof (wf_nodup _ _ _ Hw) as Hnd. pose proof (wf_fl_nodup _ _ _ Hw) as Hnf.
  assert (b_addr b ∉ h :: fl) as Hbf.
  { intros [E|(c & Hcb & Hcf & E)%(wf_fl _ _ _ _ Hw)]%elem_of_cons.
    - apply NoDup_cons in Hnd as [Hnd _]. apply Hnd. rewrite <- E. set_solver.
    - apply (wf_addr_inj _ _ _ _ _ Hw) in E; [congruence|done|set_solver]. }
  assert (b_addr b ∈ N) as HbN by (apply HN; set_solver).
  assert (h ∈ N) as HhN by (apply HN; set_solver).
  assert (firstn_or fl h ∈ h :: fl) as Hfe by apply (first_node h []).
  assert (firstn_or fl h ∈ N) as HfN by (apply HN; by eapply fl_nodes).
  assert (b_addr b ≠ h) as Hbh by set_solver.
  pose proof (chains_first _ _ _ _ Hc) as Hfirst.
  assert (∀ x, x ∈ h :: (b_addr <$> bs1 ++ b :: bs2) → is_u32 x) as H32 by (intros; by eapply nodes_u32).
  stf Hv. ldf Hv. replace (upd _ _ _ _ o_next_free h) with (firstn_or fl h) by done.
  stf Hv; [apply H32; by eapply fl_nodes|apply HF; set_solver|].
  stf Hv; [apply H32; set_solver|apply HF; set_solver|].
  stf Hv; [apply H32; set_solver|apply HF; set_solver|].
  ldf Hv. match type of Hv with view _ _ _ _ ?st _ =>
    replace (st o_next_free (b_addr b)) with (firstn_or fl h) by (upd_case) end.
  stf Hv; [apply H32; set_solver|apply HF; set_solver|].
  apply wp_ret. eapply HQ; [exact Hv| |].
  - destruct Hc as [Hm Hf Hhd]. constructor.
    + rewrite !fmap_app in *. exact Hm.
    + apply (ring_insert _ _ _ _ h [] (b_addr b) fl Hf Hnf); unfold lastn; simpl last;
        cbn [default]; intros; upd_case; set_solver.
    + upd_case.
  - rewrite !Forall_app, Forall_cons in *. destruct Hh as [Hh1 Hh2].
    apply NoDup_cons in Hnd as [_ Hnd]. rewrite fmap_app, fmap_cons, NoDup_app, NoDup_cons in Hnd.
    destruct Hnd as (_ & Hd1 & Hd2 & _). split_and!.
    + apply (hdr_ext _ _ _ Hh1); intros c Hcb; upd_case. exfalso. apply (Hd1 (b_addr c)); set_solver.
    + split; simpl; upd_case.
    + apply (hdr_ext _ _ _ Hh2); intros c Hcb; upd_case. exfalso. apply Hd2. set_solver.
Qed.

(** The first half of __free_block. *)
Lemma wp_merge_prev s m bs1 b bs2 fl (Q : Z → mem → Prop) :
  view N F O m0 s m → heap_wf h (bs1 ++ b :: bs2) fl → b_free b = false →
  chains h s (bs1 ++ b :: bs2) fl → Forall (hdr s) (bs1 ++ bs2) →
  s o_size (b_addr b) = b_size b →
  (∀ x, x ∈ h :: (b_addr <$> bs1 ++ b :: bs2) → x ∈ N) → (∀ x, x ∈ h :: b_addr b :: fl → x ∈ F) →
  (∀ m' s' bs1' b' fl', merge_prev bs1 b fl = (bs1', b', fl') →
     view N F O m0 s' m' → chains h s' (bs1' ++ b' :: bs2) fl' →
     Forall (hdr s') (bs1' ++ b' :: bs2) → Q (b_addr b') m') →
  wp (free_block_prev h (b_addr b) (lastn h (b_addr <$> bs1)) (firstn_or (b_addr <$> bs2) h)) Q m.
Proof.
  intros Hv Hw Hu Hc Hh Hsz HN HF HQ.
  pose proof (wf_nodup _ _ _ Hw) as Hnd.
  assert (lastn h (b_addr <$> bs1) ∈ N) as HpN.
  { apply HN. rewrite fmap_app. apply lastn_node. }
  assert (firstn_or (b_addr <$> bs2) h ∈ N) as HnN.
  { apply HN. pose proof (first_node h (b_addr <$> bs1) (b_addr <$> bs2)). set_solver. }
  assert (b_addr b ∈ N) as HbN by (apply HN; set_solver).
  unfold free_block_prev. ldf Hv. ldf Hv.
  destruct (last bs1) as [p|] eqn:El; last first.
  { apply last_None in El as ->. unfold lastn at 1. simpl. rewrite (ch_head _ _ _ _ Hc).
    simpl. eapply (wp_push s m []); try done. intros m' s' ???.
    by apply (HQ m' s' [] (set_free b) (b_addr b :: fl)). }
  apply last_Some in El as [bs0 ->].
  assert (lastn h (b_addr <$> bs0 ++ [p]) = b_addr p) as El by (rewrite fmap_app; apply lastn_snoc).
  rewrite El in HpN |- *.
  destruct (hdr_at s _ p Hh ltac:(set_solver)) as [-> ->]. rewrite type_of_free.
  rewrite (contiguous_eq _ p b _ _ Hw) by (set_solver || by eapply prev_below).
  destruct (b_free p && (b_end p =? b_addr b)) eqn:Hj; last first.
  { eapply (wp_push s m (bs0 ++ [p])); try done. intros m' s' ???.
    apply (HQ m' s' (bs0 ++ [p]) (set_free b) (b_addr b :: fl)); try done.
    unfold merge_prev. by rewrite last_snoc, Hj. }
  pose proof Hj as [Hpf He]%andb_prop. apply Z.eqb_eq in He.
  assert (∀ x, x ∈ h :: (b_addr <$> (bs0 ++ [p]) ++ b :: bs2) → is_u32 x) as H32
    by (intros x Hx; exact (nodes_u32 _ _ _ _ Hw Hx)).
  destruct (merge_prev_wf _ _ _ _ _ (bs0) (grow p (b_size b)) fl Hw Hu) as [Hw' _].
  { unfold merge_prev. by rewrite last_snoc, Hj, removelast_last. }
  pose proof (size_u32 _ _ _ (grow p (b_size b)) Hw' ltac:(set_solver)) as Hs32. simpl in Hs32.
  ldf Hv. rewrite Hsz, (u32_small (b_size p + b_size b)) by done.
  stf Hv. stf Hv; [apply H32; pose proof (first_node h (b_addr <$> bs0 ++ [p]) (b_addr <$> bs2)); set_solver|].
  stf Hv; [apply H32; set_solver|]. apply wp_bind, wp_ret, wp_ret.
  eapply (HQ _ _ bs0 (grow p (b_size b)) fl);
    [by unfold merge_prev; rewrite last_snoc, Hj, removelast_last|exact Hv| |].
  - constructor; [|exact (ch_free _ _ _ _ Hc)|].
    + rewrite <- (grow_chain bs0 p (b_size b)). apply (main_remove h s _ _ b _ fl Hc Hnd); by rewrite El.
    + pose proof (ch_head _ _ _ _ Hc). upd_case.
  - apply hdr_chain; [|offs]. apply hdr_chain; [|offs]. apply hdr_grow; [done..|].
    rewrite fmap_app in *. by eapply nodup_drop.
Qed.

(** The second half of __free_block. *)
Lemma wp_merge_next s m bs1 b bs2 fl b' bs2' fl' (Q : Z → mem → Prop) :
  view N F O m0 s m → heap_wf h (bs1 ++ b :: bs2) fl → b_free b = true →
  chains h s (bs1 ++ b :: bs2) fl → Forall (hdr s) (bs1 ++ b :: bs2) →
  (∀ x, x ∈ h :: (b_addr <$> bs1 ++ b :: bs2) → x ∈ N) → (∀ x, x ∈ h :: fl → x ∈ F) →
  merge_next b bs2 fl = (b', bs2', fl') →
  (∀ m' s', view N F O m0 s' m' → chains h s' (bs1 ++ b' :: bs2') fl' →
     Forall (hdr s') (bs1 ++ b' :: bs2') → Q (b_addr b') m') →
  wp (free_block_next (b_addr b) (firstn_or (b_addr <$> bs2) h)) Q m.
Proof.
  intros Hv Hw Hu Hc Hh HN HF Hmn HQ.
  pose proof (wf_nodup _ _ _ Hw) as Hnd. pose proof (wf_fl_nodup _ _ _ Hw) as Hnf.
  assert (b_addr b ∈ N) as HbN by (apply HN; set_solver).
  assert (firstn_or (b_addr <$> bs2) h ∈ N) as HnN.
  { apply HN. pose proof (first_node h (b_addr <$> bs1) (b_addr <$> bs2)). set_solver. }
  unfold free_block_next. ldf Hv. ldf Hv.
  destruct (hdr_at s _ b Hh ltac:(set_solver)) as [Hbs _]. rewrite Hbs.
  unfold merge_next in Hmn. destruct bs2 as [|n bs2].
  { unfold firstn_or. simpl. rewrite (ch_head _ _ _ _ Hc). simpl. injection Hmn as <- <- <-.
    apply wp_bind, wp_ret, wp_ret. by eapply HQ. }
  unfold firstn_or in *. simpl fmap in *. simpl head in *. simpl default in *.
  destruct (hdr_at s _ n Hh ltac:(set_solver)) as [Hns Hnt]. rewrite Hnt, type_of_free.
  rewrite (contiguous_eq _ b n _ _ Hw) by (set_solver || by eapply next_above).
  destruct (b_free n && (b_end b =? b_addr n)) eqn:Hj; injection Hmn as <- <- <-; last first.
  { apply wp_bind, wp_ret, wp_ret. by eapply HQ. }
  pose proof (merge_next_wf _ _ _ (n :: bs2) fl _ _ _ Hw Hu ltac:(unfold merge_next; by rewrite Hj)) as Hw'.
  apply andb_prop in Hj as [Hnf' _].
  assert (b_addr n ∈ fl) as (fl1 & fl2 & ->)%list_elem_of_split.
  { apply (wf_fl _ _ _ _ Hw). exists n. set_solver. }
  pose proof Hnf as [_ Hnf1]%NoDup_cons. rewrite replace_at_elem in * by done. simpl app in *.
  assert (∀ x, x ∈ h :: (b_addr <$> bs1 ++ b :: n :: bs2) → is_u32 x) as H32
    by (intros x Hx; exact (nodes_u32 _ _ _ _ Hw Hx)).
  assert (∀ x, x ∈ h :: fl1 ++ fl2 → x ∈ h :: (b_addr <$> bs1 ++ b :: n :: bs2)) as Hfn.
  { intros x Hx. apply (fl_nodes _ _ _ _ Hw). set_solver. }
  pose proof (size_u32 _ _ _ (grow b (b_size n)) Hw' ltac:(set_solver)) as Hs32. simpl in Hs32.
  apply wp_bind. ldf Hv. rewrite Hns, (u32_small (b_size b + b_size n)) by done.
  stf Hv. unfold remove_from_chains, remove_from_free_chain, remove_from_main_chain.
  pose proof (chains_neighbours_free _ _ _ _ _ _ Hc) as [Hpf Hnxf].
  assert (chains h s ((bs1 ++ [b]) ++ n :: bs2) (fl1 ++ b_addr n :: fl2)) as Hc2
    by by rewrite <- app_assoc.
  pose proof (chains_neighbours _ _ _ _ _ _ Hc2) as [Hpn Hnn].
  assert (lastn h (b_addr <$> bs1 ++ [b]) = b_addr b) as El by (rewrite fmap_app; apply lastn_snoc).
  rewrite El in Hpn.
  assert (firstn_or (b_addr <$> bs2) h ∈ h :: (b_addr <$> bs1 ++ b :: n :: bs2)) as Hn2.
  { pose proof (first_node h (b_addr <$> bs1) (b_addr <$> bs2)). set_solver. }
  pose proof (lastn_node h fl1 fl2) as Hl1. pose proof (first_node h fl1 fl2) as Hl2.
  apply wp_bind. ldfv Hv (lastn h fl1). ldfv Hv (firstn_or fl2 h).
  stf Hv; [apply HN, Hfn, Hl1|apply H32, Hfn, Hl2|apply HF; set_solver|].
  stf Hv; [apply HN, Hfn, Hl2|apply H32, Hfn, Hl1|apply HF; set_solver|].
  apply wp_bind, wp_ret. ldfv Hv (b_addr b). ldfv Hv (firstn_or (b_addr <$> bs2) h).
  stf Hv; [by apply H32|]. stf Hv; [by apply HN|apply H32; set_solver|].
  apply wp_ret. eapply (HQ _ _ Hv).
  - constructor.
    + rewrite <- (grow_chain bs1 b (b_size n)).
      apply (main_remove h s _ _ n _ _ Hc2); [|by rewrite El..]. by rewrite <- app_assoc.
    + by apply (free_remove h s _ _ _ _ _ Hc Hnf).
    + pose proof (ch_head _ _ _ _ Hc). upd_case.
  - do 4 (apply hdr_chain; [|offs]). apply hdr_grow; [|done|].
    + rewrite <- app_assoc. simpl. rewrite !Forall_app, !Forall_cons in *. tauto.
    + rewrite (app_assoc bs1 [b] (n :: bs2) : bs1 ++ b :: n :: bs2 = _) in Hnd.
      rewrite fmap_app in *. by eapply nodup_drop.
Qed.

(** __free_block. *)
Lemma wp_free_block s m bs1 b bs2 fl (Q : Z → mem → Prop) :
  view N F O m0 s m → heap_wf h (bs1 ++ b :: bs2) fl → b_free b = false →
  chains h s (bs1 ++ b :: bs2) fl → Forall (hdr s) (bs1 ++ bs2) →
  s o_size (b_addr b) = b_size b →
  (∀ x, x ∈ h :: (b_addr <$> bs1 ++ b :: bs2) → x ∈ N) → (∀ x, x ∈ h :: b_addr b :: fl → x ∈ F) →
  (∀ r m' s', view N F O m0 s' m' →
     chains h s' (release bs1 b bs2 fl).1 (release bs1 b bs2 fl).2 →
     Forall (hdr s') (release bs1 b bs2 fl).1 → Q r m') →
  wp (free_block h (b_addr b)) Q m.
Proof.
  intros Hv Hw Hu Hc Hh Hsz HN HF HQ. unfold free_block.
  destruct (chains_neighbours _ _ _ _ _ _ Hc) as [Hpv Hnx].
  assert (b_addr b ∈ N) as HbN by (apply HN; set_solver).
  ldf Hv. ldf Hv. rewrite Hpv, Hnx. apply wp_bind.
  eapply wp_merge_prev; try done. intros m1 s1 bs1' b' fl' Hmp Hv1 Hc1 Hh1.
  destruct (merge_prev_wf _ _ _ _ _ _ _ _ Hw Hu Hmp) as [Hw' Hb'].
  destruct (merge_prev_sub _ _ _ _ _ _ Hmp) as [Hs1 Hs2].
  destruct (merge_next b' bs2 fl') as [[b'' bs2'] fl''] eqn:E2.
  apply (wp_merge_next s1 m1 bs1' b' bs2 fl' b'' bs2' fl''); try done.
  - intros x Hx. apply HN. specialize (Hs1 x). rewrite !fmap_app in *. set_solver.
  - intros x Hx. apply HF. specialize (Hs2 x). set_solver.
  - intros m2 s2 Hv2 Hc2 Hh2. eapply HQ; [exact Hv2|..]; unfold release; by rewrite Hmp, E2.
Qed.
End FreeBlock.
