(* ===== verification/MallocProof.v ===== *)
(** __free_block and the splitting branch of __malloc_from_block on a heap in
    memory ([heap_at]): from the memory to a view of the header words, along the
    stores of the code, and back to a heap. *)
From stdpp Require Import base list gmap fin_maps sets.
From Stdlib Require Import ZArith Lia Sorted.
From S2P Require Import Prelude Memory LibcMem LibcStr DList Malloc MallocChains.

#[local] Open Scope Z_scope.

(** * From the heap in memory to a view and back *)
Section HeapAt.
Implicit Types (b c : block) (bs : list block) (fl : list Z).

Lemma owned_head h bs z : h ≤ z < h + 24 → owned h bs z.
Proof. by left. Qed.

Lemma owned_hdr h bs b z : b ∈ bs → b_addr b ≤ z < b_addr b + 16 →
  24 ≤ b_size b → owned h bs z.
Proof.
  intros Hb Hz Hs. right. exists b. unfold sizeof_arena_header.
  destruct (b_free b); split; try done; lia.
Qed.

Lemma node_sep h bs fl x y : heap_wf h bs fl → x ∈ h :: (b_addr <$> bs) → y ∈ h :: (b_addr <$> bs) →
  x = y ∨ x + 24 ≤ y ∨ y + 24 ≤ x.
Proof.
  intros Hw Hx Hy.
  assert (∀ b, b ∈ bs → h + 24 ≤ b_addr b ∨ b_addr b + 24 ≤ h) as Hh.
  { intros b Hb. destruct (wf_block _ _ _ _ Hw Hb) as (?&?&?&?).
    unfold b_end, sizeof_free_arena_header in *. lia. }
  apply elem_of_cons in Hx as [->|(b & -> & Hb)%list_elem_of_fmap];
    apply elem_of_cons in Hy as [->|(c & -> & Hc)%list_elem_of_fmap]; auto.
  - destruct (Hh _ Hb); auto.
  - destruct (wf_sep _ _ _ _ _ Hw Hb Hc) as [->|H]; [by left|right].
    pose proof (wf_block _ _ _ _ Hw Hb) as (?&?&?&?). pose proof (wf_block _ _ _ _ Hw Hc) as (?&?&?&?).
    unfold b_end, sizeof_free_arena_header in *. lia.
Qed.

Lemma heap_mapped_node h m bs fl x : heap_at h m bs fl → x ∈ h :: (b_addr <$> bs) → mapped m x 24.
Proof.
  intros Ha [->|(b & -> & Hb)%list_elem_of_fmap]%elem_of_cons; [apply Ha|].
  intros z Hz. apply (ha_mapped _ _ _ _ Ha). exists b. split; [done|].
  destruct (wf_block _ _ _ _ (ha_wf _ _ _ _ Ha) Hb) as (?&?&?&?).
  unfold b_end, sizeof_free_arena_header in *. lia.
Qed.

(** [xs]: further nodes the operation writes. *)
Lemma view_init h m bs fl xs (O : Z → Prop) :
  heap_at h m bs fl →
  (∀ x, x ∈ xs → mapped m x 24 ∧ ∀ z, x ≤ z < x + 24 → O z) →
  (∀ x y, x ∈ xs → y ∈ h :: (b_addr <$> bs) ++ xs → x = y ∨ x + 24 ≤ y ∨ y + 24 ≤ x) →
  (∀ z, owned h bs z → O z) →
  view (h :: (b_addr <$> bs) ++ xs) (h :: xs ++ fl) O m (λ i x, rdw m (x + i)) m.
Proof.
  intros Ha Hxs Hsep HO. pose proof (ha_wf _ _ _ _ Ha) as Hw. constructor; try done.
  - intros x y Hx Hy. rewrite app_comm_cons in *.
    apply elem_of_app in Hx as [Hx|Hx]; [|by apply Hsep].
    apply elem_of_app in Hy as [Hy|Hy]; [by eapply node_sep|].
    destruct (Hsep y x Hy) as [->|]; [set_solver|by left|right; lia].
  - intros x z Hx Hz. rewrite app_comm_cons in *.
    apply elem_of_app in Hx as [[->|(b & -> & Hb)%list_elem_of_fmap]%elem_of_cons|Hx].
    + apply HO, owned_head. lia.
    + apply HO, (owned_hdr _ _ b); [done..|]. by apply (wf_block _ _ _ _ Hw).
    + apply Hxs in Hx as [_ Hx]. apply Hx. lia.
  - intros x z [->|[Hx|(b & Hb & Hf & <-)%(wf_fl _ _ _ _ Hw)]%elem_of_app]%elem_of_cons Hz.
    + by apply HO, owned_head.
    + apply Hxs in Hx as [_ Hx]. by apply Hx.
    + apply HO. right. exists b. rewrite Hf. split; [done|].
      destruct (wf_block _ _ _ _ Hw Hb) as (?&?&?&?). unfold sizeof_free_arena_header in *. lia.
  - intros x Hx. rewrite app_comm_cons in Hx. apply elem_of_app in Hx as [Hx|Hx].
    + by eapply heap_mapped_node.
    + by apply Hxs in Hx as [Hx _].
Qed.

(** The store describes the memory: the heap holds in it. *)
Lemma view_finish h m0 m N F O s bs fl :
  view N F O m0 s m → heap_wf h bs fl → apart bs → chains h s bs fl → Forall (hdr s) bs →
  (∀ x, x ∈ h :: (b_addr <$> bs) → x ∈ N) →
  (∀ z, covered bs z → is_Some (m0 !! z)) → heap_at h m bs fl.
Proof.
  intros Hv Hw Ha Hc Hh HN Hcov.
  assert (∀ x i, x ∈ h :: (b_addr <$> bs) → i ∈ [0; 4; 8; 12; 16; 20] → rdw m (x + i) = s i x) as Hval.
  { intros x i Hx Hi. apply (v_val _ _ _ _ _ _ Hv); auto. }
  assert (∀ x, x ∈ h :: fl → x ∈ h :: (b_addr <$> bs)) as Hfl by (intros; by eapply fl_nodes).
  constructor; [done..| | | |].
  - destruct Hc as [Hm Hf Hd]. constructor.
    + apply (ring_ext _ _ _ _ _ _ Hm); intros a Hin; (apply Hval; [done|offs]).
    + apply (ring_ext _ _ _ _ _ _ Hf); intros a Hin; (apply Hval; [by apply Hfl|offs]).
    + rewrite Hval; [done|set_solver|offs].
  - apply (hdr_ext s); [done|..]; intros c Hc'; (apply Hval; [set_solver|offs]).
  - apply (v_map _ _ _ _ _ _ Hv), HN. set_solver.
  - intros z Hz. apply (v_dom _ _ _ _ _ _ Hv). by apply Hcov.
Qed.

Lemma release_nodes h bs1 b bs2 fl :
  ∀ x, x ∈ h :: (b_addr <$> (release bs1 b bs2 fl).1) → x ∈ h :: (b_addr <$> bs1 ++ b :: bs2).
Proof.
  intros x. unfold release. destruct (merge_prev bs1 b fl) as [[bs1' b'] fl'] eqn:E1.
  apply merge_prev_sub in E1 as [E1 _]. specialize (E1 x). unfold merge_next.
  rewrite !fmap_app in *. destruct bs2 as [|n bs2]; simpl; [rewrite fmap_app; set_solver|].
  destruct (b_free n && _); simpl; rewrite fmap_app; set_solver.
Qed.

(** Freeing the block [b] of a heap: what __free_block does to the memory. *)
Lemma free_block_heap h m bs1 b bs2 fl :
  heap_at h m (bs1 ++ b :: bs2) fl → b_free b = false →
  wp (free_block h (b_addr b)) (λ _ m',
    heap_at h m' (release bs1 b bs2 fl).1 (release bs1 b bs2 fl).2 ∧
    (∀ z, ¬ owned h (bs1 ++ set_free b :: bs2) z → m' !! z = m !! z)) m.
Proof.
  intros Ha Hu. pose proof (ha_wf _ _ _ _ Ha) as Hw.
  pose proof (wf_block _ _ _ b Hw ltac:(set_solver)) as Hbk.
  destruct (release_wf h bs1 b bs2 fl Hw Hu (ha_apart _ _ _ _ Ha)) as [Hw' Ha'].
  pose proof (ha_hdrs _ _ _ _ Ha) as Hh.
  apply (wp_free_block h (h :: (b_addr <$> bs1 ++ b :: bs2) ++ [b_addr b])
    (h :: [b_addr b] ++ fl) (owned h (bs1 ++ set_free b :: bs2)) m (λ i x, rdw m (x + i)) m bs1 b bs2 fl);
    try done.
  - apply (view_init h m _ fl [b_addr b]); [done|..].
    + intros x ->%list_elem_of_singleton. split.
      { apply (heap_mapped_node _ _ _ _ _ Ha). set_solver. }
      intros z Hz. right. exists (set_free b). split; [set_solver|].
      unfold block_ok, sizeof_free_arena_header in *. simpl. lia.
    + intros x y ->%list_elem_of_singleton Hy. apply (node_sep _ _ _ _ _ Hw); set_solver.
    + intros z [Hz|(c & Hc & Hz)]; [by left|right].
      apply elem_of_app in Hc as [Hc|[->|Hc]%elem_of_cons]; [exists c; set_solver| |exists c; set_solver].
      exists (set_free b). split; [set_solver|]. rewrite Hu in Hz.
      unfold block_ok, sizeof_free_arena_header, sizeof_arena_header in *. simpl. lia.
  - apply Ha.
  - rewrite !Forall_app, Forall_cons in *. tauto.
  - apply (hdr_at _ _ b Hh). set_solver.
  - set_solver.
  - intros r m' s' Hv Hc' Hh'. split; [|by apply (v_frame _ _ _ _ _ _ Hv)].
    apply (view_finish _ _ _ _ _ _ _ _ _ Hv); try done.
    + intros x Hx%release_nodes. set_solver.
    + intros z Hz%merge_covered. by apply (ha_mapped _ _ _ _ Ha).
Qed.
End HeapAt.

(** * Allocation out of a block *)
Section Alloc.
Implicit Types (b c : block) (bs : list block) (fl : list Z).

Lemma nodup_mid (x : Z) l1 l2 : NoDup (l1 ++ x :: l2) → (x ∉ l1) ∧ (x ∉ l2).
Proof. intros (_ & H1 & [H2 _]%NoDup_cons)%NoDup_app. set_solver. Qed.

(** The words of a block that has to be split. *)
Lemma split_new_node h bs fl b size x :
  heap_wf h bs fl → b ∈ bs → 24 ≤ size → size + 24 ≤ b_size b → x ∈ h :: (b_addr <$> bs) →
  b_addr b + size + 24 ≤ x ∨ x + 24 ≤ b_addr b + size.
Proof.
  intros Hw Hb H1 H2 [->|(c & -> & Hc)%list_elem_of_fmap]%elem_of_cons;
    (pose proof (wf_block _ _ _ _ Hw Hb) as (?&?&?&?)); unfold b_end, sizeof_free_arena_header in *; [lia|].
  pose proof (wf_block _ _ _ _ Hw Hc) as (?&?&?&?).
  destruct (wf_sep _ _ _ _ _ Hw Hb Hc) as [->|?]; unfold b_end, sizeof_free_arena_header in *; lia.
Qed.

(** The stores of the splitting branch. *)
Lemma wp_split h N F O m0 s m bs1 b bs2 fl1 fl2 size (Q : () → mem → Prop) :
  let nfp := b_addr b + size in
  view N F O m0 s m → heap_wf h (bs1 ++ b :: bs2) (fl1 ++ b_addr b :: fl2) →
  chains h s (bs1 ++ b :: bs2) (fl1 ++ b_addr b :: fl2) → Forall (hdr s) (bs1 ++ b :: bs2) →
  (∀ x, x ∈ nfp :: h :: (b_addr <$> bs1 ++ b :: bs2) → x ∈ N ∧ is_u32 x) →
  (∀ x, x ∈ nfp :: h :: fl1 ++ fl2 → x ∈ F) →
  nfp ∉ h :: (b_addr <$> bs1 ++ b :: bs2) → is_u32 size → is_u32 (b_size b - size) →
  (∀ m' s', view N F O m0 s' m' →
     chains h s' (bs1 ++ [Block (b_addr b) size false; Block nfp (b_size b - size) true] ++ bs2)
       (fl1 ++ nfp :: fl2) →
     Forall (hdr s') (bs1 ++ [Block (b_addr b) size false; Block nfp (b_size b - size) true] ++ bs2) →
     Q () m') →
  wp (let fp := b_addr b in
      na ← ldw (fp + o_next);
      stw (nfp + o_type) ARENA_TYPE_FREE;;
      stw (nfp + o_size) (u32 (b_size b - size));;
      stw (fp + o_type) ARENA_TYPE_USED;;
      stw (fp + o_size) size;;
      stw (nfp + o_prev) fp;;
      stw (nfp + o_next) na;;
      stw (na + o_prev) nfp;;
      stw (fp + o_next) nfp;;
      fpn ← ldw (fp + o_next_free);
      stw (nfp + o_next_free) fpn;;
      fpp ← ldw (fp + o_prev_free);
      stw (nfp + o_prev_free) fpp;;
      stw (fpn + o_prev_free) nfp;;
      stw (fpp + o_next_free) nfp) Q m.
Proof.
  intros nfp. clearbody nfp. intros Hv Hw Hc Hh HN HF Hnew Hs1 Hs2 HQ. cbn zeta.
  pose proof (wf_nodup _ _ _ Hw) as Hnd. pose proof (wf_fl_nodup _ _ _ Hw) as Hnf.
  assert (h ≠ nfp) as Hhn by (intros ->; apply Hnew; constructor).
  assert (h ≠ b_addr b) as Hhb by (apply NoDup_cons in Hnd as [Hnd _]; set_solver).
  destruct (chains_neighbours _ _ _ _ _ _ Hc) as [_ Hnx].
  destruct (chains_neighbours_free _ _ _ _ _ _ Hc) as [Hpf Hnxf].
  destruct (HN nfp ltac:(set_solver)) as [HnN Hn32].
  destruct (HN (b_addr b) ltac:(set_solver)) as [HbN Hb32].
  assert (firstn_or (b_addr <$> bs2) h ∈ h :: (b_addr <$> bs1 ++ b :: bs2)) as Hna.
  { pose proof (first_node h (b_addr <$> bs1) (b_addr <$> bs2)). set_solver. }
  assert (nfp ≠ firstn_or (b_addr <$> bs2) h) as Hne2 by congruence.
  destruct (HN (firstn_or (b_addr <$> bs2) h) ltac:(set_solver)) as [HnaN Hna32].
  pose proof (lastn_node h fl1 fl2) as Hl1. pose proof (first_node h fl1 fl2) as Hl2.
  assert (∀ x, x ∈ h :: fl1 ++ fl2 → x ∈ h :: (b_addr <$> bs1 ++ b :: bs2)) as Hfn.
  { intros x Hx. apply (fl_nodes _ _ _ _ Hw). set_solver. }
  assert (∀ x, x ∈ h :: fl1 ++ fl2 → x ≠ nfp) as Hfne.
  { intros x Hx%Hfn ->. done. }
  destruct (HN (lastn h fl1) ltac:(set_solver)) as [Hp1 Hp2].
  destruct (HN (firstn_or fl2 h) ltac:(set_solver)) as [Hn1 Hn2].
  assert (nfp ≠ b_addr b) as Hne by set_solver.
  assert (nfp ∈ F) as HnF by (apply HF; set_solver).
  ldfv Hv (firstn_or (b_addr <$> bs2) h).
  stf Hv. rewrite (u32_small _ Hs2). do 7 stf Hv.
  ldfv Hv (firstn_or fl2 h). stf Hv; [done|]. ldfv Hv (lastn h fl1). stf Hv; [done|].
  stf Hv; [apply HF; set_solver|]. stf Hv; [apply HF; set_solver|].
  destruct Hc as [Hm Hf Hhd]. eapply (HQ _ _ Hv).
  - clear HQ Hv. constructor.
    + assert (b_addr <$> bs1 ++ b :: bs2 = (b_addr <$> bs1 ++ [b]) ++ (b_addr <$> bs2)) as E1.
      { rewrite cons_middle, app_assoc. apply fmap_app. }
      assert (lastn h (b_addr <$> bs1 ++ [b]) = b_addr b) as El.
      { rewrite fmap_app. apply lastn_snoc. }
      assert (b_addr <$> bs1 ++ [Block (b_addr b) size false; Block nfp (b_size b - size) true] ++ bs2
        = (b_addr <$> bs1 ++ [b]) ++ nfp :: (b_addr <$> bs2)) as E2.
      { rewrite !fmap_app. simpl. by rewrite <- app_assoc. }
      rewrite E1 in *. rewrite E2.
      apply (ring_insert _ _ _ _ _ _ _ _ Hm Hnd); rewrite ?El; clear - Hne Hnew Hne2; intros;
        upd_case.
    + pose proof (Hfne _ Hl1) as Hq1. pose proof (Hfne _ Hl2) as Hq2.
      apply (ring_replace _ _ _ _ _ _ _ _ _ Hf Hnf); clear - Hne Hfne Hq1 Hq2; intros;
        repeat match goal with H : _ ∈ _ |- _ => apply Hfne in H end; upd_case.
    + clear - Hhn Hhb Hhd. upd_case.
  - rewrite !Forall_app, !Forall_cons in *. destruct Hh as (Hh1 & Hb & Hh2).
    rewrite fmap_app in Hnd, Hnew. apply NoDup_cons in Hnd as [_ [Hd1 Hd2]%nodup_mid].
    assert ((nfp ∉ b_addr <$> bs1) ∧ (nfp ∉ b_addr <$> bs2)) as [Hd3 Hd4] by (clear - Hnew; set_solver).
    simpl fmap in Hd2. change (b_addr b ∉ b_addr <$> bs2) in Hd2.
    clear - Hh1 Hh2 Hb Hd1 Hd2 Hd3 Hd4 Hne.
    split_and!; first [by apply Forall_nil | by (split; unfold type_of; simpl; upd_case) |
      repeat (apply hdr_chain; [|offs]); repeat (apply hdr_other; [|assumption]); assumption].
Qed.
End Alloc.
