(* ===== verification/MallocSpec.v ===== *)
(** The heap operations refine the abstract heap: malloc, free, add_malloc_block,
    realloc, calloc, strdup, strndup and get_malloc_memory_status on a heap in
    memory ([heap_at]), for any locking functions that leave the memory alone. *)
From stdpp Require Import base list gmap fin_maps sets.
From Stdlib Require Import ZArith Lia Sorted.
From S2P Require Import Prelude Memory LibcMem LibcStr DList Malloc MallocChains MallocProof.

#[local] Open Scope Z_scope.

(** * Allocation out of a block *)
Section Alloc.
Implicit Types (b c : block) (bs : list block) (fl : list Z).

Lemma splits_small b size : splits b size = false → carve b size = [set_used b] ∧ carve_fl b size = [].
Proof. unfold carve, carve_fl. by intros ->. Qed.

(** What an allocation of [size] bytes out of [b] leaves. *)
Definition allocated (h : Z) (m : mem) bs1 b bs2 fl1 fl2 (size r : Z) (m' : mem) : Prop :=
  r = b_addr b + sizeof_arena_header ∧
  heap_at h m' (bs1 ++ carve b size ++ bs2) (fl1 ++ carve_fl b size ++ fl2) ∧
  (∀ z, ¬ owned h (bs1 ++ b :: bs2) z → m' !! z = m !! z).

Lemma wp_alloc_split h m bs1 b bs2 fl1 fl2 size :
  heap_at h m (bs1 ++ b :: bs2) (fl1 ++ b_addr b :: fl2) → b_free b = true →
  24 ≤ size ≤ b_size b → size + 2 * sizeof_arena_header < 2 ^ 32 → splits b size = true →
  wp (malloc_from_block (b_addr b) size) (allocated h m bs1 b bs2 fl1 fl2 size) m.
Proof.
  intros Ha Hbf Hsz H32 Hsp. pose proof (ha_wf _ _ _ _ Ha) as Hw.
  pose proof (wf_block _ _ _ b Hw ltac:(set_solver)) as Hbk.
  pose proof (size_u32 _ _ _ b Hw ltac:(set_solver)) as Hbs.
  pose proof Hsp as Hsp'%Z.leb_le. unfold sizeof_arena_header, is_u32 in *.
  assert (b_addr b + size + 24 ≤ 2 ^ 32) as Hend.
  { unfold block_ok, b_end, sizeof_free_arena_header in *. lia. }
  set (nfp := b_addr b + size).
  assert (∀ x, x ∈ h :: (b_addr <$> bs1 ++ b :: bs2) → nfp + 24 ≤ x ∨ x + 24 ≤ nfp) as Hsep.
  { intros x Hx. apply (split_new_node _ _ _ b size x Hw); (set_solver || lia). }
  assert (view (h :: (b_addr <$> bs1 ++ b :: bs2) ++ [nfp]) (h :: [nfp] ++ fl1 ++ b_addr b :: fl2)
    (owned h (bs1 ++ b :: bs2)) m (λ i x, rdw m (x + i)) m) as Hv.
  { apply view_init; [done|..|done].
    - intros x ->%list_elem_of_singleton. split; intros z Hz.
      + apply (ha_mapped _ _ _ _ Ha). exists b. unfold b_end. split; [set_solver|lia].
      + right. exists b. rewrite Hbf. split; [set_solver|lia].
    - intros x y ->%list_elem_of_singleton Hy. rewrite app_comm_cons in Hy.
      apply elem_of_app in Hy as [Hy| ->%list_elem_of_singleton]; [|by left].
      destruct (Hsep _ Hy); [right; by left|right; by right]. }
  unfold malloc_from_block. ldf Hv; [set_solver|].
  pose proof (ha_hdrs _ _ _ _ Ha) as Hh.
  destruct (hdr_at _ _ b Hh ltac:(set_solver)) as [-> _].
  unfold sizeof_arena_header in *. rewrite (u32_small (size + 2 * 16)) by (unfold is_u32; lia).
  rewrite (proj2 (Z.leb_le _ _) Hsp'). cbn zeta. rewrite (u32_small (b_addr b + size))
    by (unfold is_u32, block_ok in *; lia). fold nfp. apply wp_bind.
  assert (nfp ∉ h :: (b_addr <$> bs1 ++ b :: bs2)) as Hnew by (intros Hx%Hsep; lia).
  assert (carve b size = [Block (b_addr b) size false; Block nfp (b_size b - size) true]) as Ecv
    by (unfold carve; by rewrite Hsp).
  apply (wp_split h _ _ _ _ _ m bs1 b bs2 fl1 fl2 size _ Hv); fold nfp; try done.
  - apply Ha.
  - intros x [->|Hx]%elem_of_cons.
    + split; [set_solver|]. unfold is_u32, block_ok in *. lia.
    + split; [set_solver|]. by apply (nodes_u32 _ _ _ _ Hw).
  - set_solver.
  - unfold is_u32. lia.
  - unfold is_u32. lia.
  - intros m' s' Hv' Hc' Hh'. apply wp_ret. split; [done|].
    split; [|by apply (v_frame _ _ _ _ _ _ Hv')].
    pose proof (alloc_wf _ _ _ _ _ _ size Hw Hbf) as Hw'.
    unfold carve_fl in *. rewrite Hsp, Ecv in *. fold nfp in Hw' |- *.
    apply (view_finish _ _ _ _ _ _ _ _ _ Hv'); [by apply Hw'| |done..| |].
    + rewrite <- Ecv. apply carve_apart; [apply Ha|done].
    + intros x. rewrite !fmap_app, fmap_cons. simpl. set_solver.
    + intros z Hz. apply (ha_mapped _ _ _ _ Ha). rewrite <- Ecv in Hz. apply carve_covered in Hz; [done|lia].
Qed.

Lemma wp_alloc_whole h m bs1 b bs2 fl1 fl2 size :
  heap_at h m (bs1 ++ b :: bs2) (fl1 ++ b_addr b :: fl2) → b_free b = true →
  24 ≤ size ≤ b_size b → size + 2 * sizeof_arena_header < 2 ^ 32 → splits b size = false →
  wp (malloc_from_block (b_addr b) size) (allocated h m bs1 b bs2 fl1 fl2 size) m.
Proof.
  intros Ha Hbf Hsz H32 Hsp. pose proof (ha_wf _ _ _ _ Ha) as Hw.
  pose proof Hsp as Hsp'%Z.leb_gt. unfold sizeof_arena_header, is_u32 in *.
  assert (view (h :: (b_addr <$> bs1 ++ b :: bs2) ++ []) (h :: [] ++ fl1 ++ b_addr b :: fl2)
    (owned h (bs1 ++ b :: bs2)) m (λ i x, rdw m (x + i)) m) as Hv.
  { apply view_init; [done|..|done]; set_solver. }
  pose proof (ha_hdrs _ _ _ _ Ha) as Hh. pose proof (ha_chains _ _ _ _ Ha) as Hc.
  pose proof (wf_fl_nodup _ _ _ Hw) as Hnf. pose proof (wf_nodup _ _ _ Hw) as Hnd.
  destruct (chains_neighbours_free _ _ _ _ _ _ Hc) as [Hpf Hnxf].
  pose proof (lastn_node h fl1 fl2) as Hl1. pose proof (first_node h fl1 fl2) as Hl2.
  assert (∀ x, x ∈ h :: fl1 ++ fl2 → x ∈ h :: (b_addr <$> bs1 ++ b :: bs2)) as Hfn.
  { intros x Hx. apply (fl_nodes _ _ _ _ Hw). set_solver. }
  assert (∀ x, x ∈ h :: (b_addr <$> bs1 ++ b :: bs2) → x ∈ h :: (b_addr <$> bs1 ++ b :: bs2) ++ []) as HN
    by (intros x; by rewrite app_nil_r).
  assert (b_addr b ∈ h :: (b_addr <$> bs1 ++ b :: bs2) ++ []) as HbN by (apply HN; set_solver).
  unfold malloc_from_block. ldf Hv. destruct (hdr_at _ _ b Hh ltac:(set_solver)) as [-> _].
  unfold sizeof_arena_header in *. rewrite (u32_small (size + 2 * 16)) by (unfold is_u32; lia).
  rewrite (proj2 (Z.leb_gt _ _) Hsp'). apply wp_bind. stf Hv. unfold remove_from_free_chain.
  ldfv Hv (lastn h fl1). ldfv Hv (firstn_or fl2 h).
  stf Hv; [by apply HN, Hfn|by apply (nodes_u32 _ _ _ _ Hw), Hfn|set_solver|].
  stf Hv; [by apply HN, Hfn|by apply (nodes_u32 _ _ _ _ Hw), Hfn|set_solver|].
  apply wp_ret. split; [done|]. split; [|by apply (v_frame _ _ _ _ _ _ Hv)].
  pose proof (alloc_wf _ _ _ _ _ _ size Hw Hbf Hsz) as Hw'.
  pose proof (carve_apart bs1 b bs2 size (ha_apart _ _ _ _ Ha) Hbf) as Hap.
  destruct (splits_small b size Hsp) as [Ecv Ecf].
  rewrite Ecv, Ecf in *.
  apply (view_finish _ _ _ _ _ _ _ _ _ Hv); [done..| | | |].
  - constructor.
    + pose proof (ch_main _ _ _ _ Hc) as Hm. rewrite !fmap_app in *. exact Hm.
    + by apply (free_remove h _ _ _ _ _ _ Hc Hnf).
    + apply NoDup_cons in Hnd as [Hnd _]. pose proof (ch_head _ _ _ _ Hc) as Hhd. clear - Hhd Hnd.
      upd_case. exfalso. set_solver.
  - repeat (apply hdr_chain; [|offs]). rewrite !Forall_app, !Forall_cons in *.
    destruct Hh as (Hh1 & Hb & Hh2). rewrite fmap_app in Hnd.
    apply NoDup_cons in Hnd as [_ [Hd1 Hd2]%nodup_mid]. clear - Hh1 Hb Hh2 Hd1 Hd2.
    split_and!; first [by apply Forall_nil | by apply hdr_other |
      destruct Hb; split; unfold type_of; simpl; upd_case].
  - intros x. rewrite !fmap_app, fmap_cons. simpl. set_solver.
  - intros z Hz. apply (ha_mapped _ _ _ _ Ha). rewrite <- Ecv in Hz. apply carve_covered in Hz; [done|lia].
Qed.

Lemma wp_malloc_from_block h m bs1 b bs2 fl1 fl2 size :
  heap_at h m (bs1 ++ b :: bs2) (fl1 ++ b_addr b :: fl2) → b_free b = true →
  24 ≤ size ≤ b_size b → size + 2 * sizeof_arena_header < 2 ^ 32 →
  wp (malloc_from_block (b_addr b) size) (allocated h m bs1 b bs2 fl1 fl2 size) m.
Proof.
  intros. destruct (splits b size) eqn:E; [by apply wp_alloc_split|by apply wp_alloc_whole].
Qed.
End Alloc.

(** * The operations *)

(** Locking functions that answer [granted] and leave the memory alone. *)
Class Locking (lk : malloc_locking) (granted : mem → bool) : Prop := {
  lock_answers : ∀ m, malloc_lock lk m = Ret (granted m, m);
  unlock_answers : ∀ m, malloc_unlock lk m = Ret ((), m);
}.

#[export] Instance nop_locking : Locking (set_malloc_locking None None) (λ _, true).
Proof. by split. Qed.

(** malloc on the abstract heap: the block it takes its memory from. *)
Definition malloc_block (bs : list block) (fl : list Z) (size : Z) : option block :=
  if size =? 0 then None else find_fit bs fl (arena_round size).

(** The result [r] and the memory [m'] of an allocation of [size] bytes. *)
Definition malloc_post (h : Z) (m : mem) bs fl (size : Z) (granted : bool) (r : Z) (m' : mem) : Prop :=
  match (if granted then malloc_block bs fl size else None) with
  | None => r = NULL ∧ m' = m
  | Some b =>
      r = b_addr b + sizeof_arena_header ∧
      heap_at h m' (alloc_blocks b (arena_round size) bs) (alloc_free b (arena_round size) fl) ∧
      (∀ z, ¬ owned h bs z → m' !! z = m !! z)
  end.

Section Ops.
Context (h : Z) (lk : malloc_locking) (granted : mem → bool) `{!Locking lk granted}.
Implicit Types (b c : block) (bs : list block) (fl : list Z).

Lemma wp_lock (Q : bool → mem → Prop) m : Q (granted m) m → wp (malloc_lock lk) Q m.
Proof using Type*. intros HQ. unfold wp. by rewrite lock_answers. Qed.

Lemma wp_unlock (Q : () → mem → Prop) m : Q () m → wp (malloc_unlock lk) Q m.
Proof using Type*. intros HQ. unfold wp. by rewrite unlock_answers. Qed.
End Ops.

Section Rounding.
(** A size that the header and the rounding do not push over 2^32. *)
Lemma arena_round_spec size : 0 ≤ size < 2 ^ 32 - 63 →
  arena_round size = size + 31 - (size + 31) mod 16.
Proof.
  intros Hs. unfold arena_round, sizeof_arena_header. rewrite u32_small by (unfold is_u32; lia).
  change ARENA_SIZE_MASK with (2 ^ 32 - 2 ^ 4). rewrite land_mask_down by lia.
  change (2 ^ 4) with 16. replace (size + 2 * 16 - 1) with (size + 31) by lia. done.
Qed.

Lemma arena_round_bounds size : 0 < size < 2 ^ 32 - 63 →
  24 ≤ arena_round size ∧ size + 16 ≤ arena_round size ≤ size + 31 ∧ arena_round size mod 16 = 0.
Proof.
  intros Hs. rewrite arena_round_spec by lia.
  assert ((size + 31) mod 16 < 16) by (apply Z.mod_pos_bound; lia).
  assert (0 ≤ (size + 31) mod 16) by (apply Z.mod_pos_bound; lia).
  assert (size + 31 - (size + 31) mod 16 = 16 * ((size + 31) / 16)) as E
    by (pose proof (Z.div_mod (size + 31) 16); lia).
  split; [|split; [lia|rewrite E, Z.mul_comm; apply Z.mod_mul; lia]].
  assert (2 ≤ (size + 31) / 16) by (apply Z.div_le_lower_bound; lia). lia.
Qed.
End Rounding.

Section Malloc.
Context (h : Z) (lk : malloc_locking) (granted : mem → bool) `{!Locking lk granted}.
Implicit Types (b c : block) (bs : list block) (fl : list Z).

(** Distinct 32-bit words. *)
Lemma length_u32 (l : list Z) : NoDup l → (∀ x, x ∈ l → is_u32 x) → ZL l ≤ 2 ^ 32.
Proof.
  intros Hn Hl. assert (l ⊆+ seqZ 0 (2 ^ 32)) as Hs.
  { apply NoDup_submseteq; [done|]. intros x Hx. apply elem_of_seqZ. apply Hl in Hx. unfold is_u32 in Hx. lia. }
  apply submseteq_length in Hs. rewrite length_seqZ in Hs. lia.
Qed.

Lemma wf_fl_length bs fl : heap_wf h bs fl → ZL fl ≤ 2 ^ 32.
Proof.
  intros Hw. apply length_u32.
  - by pose proof (wf_fl_nodup _ _ _ Hw) as [_ ?]%NoDup_cons.
  - intros x Hx. apply (nodes_u32 _ _ _ _ Hw). apply (fl_nodes _ _ _ _ Hw). by constructor.
Qed.

Lemma block_at_in bs fl b : heap_wf h bs fl → b ∈ bs → block_at bs (b_addr b) = Some b.
Proof. intros Hw (bs1 & bs2 & ->)%list_elem_of_split. by eapply block_at_mid. Qed.

Lemma wf_fl_block bs fl a : heap_wf h bs fl → a ∈ fl →
  ∃ b, block_at bs a = Some b ∧ b ∈ bs ∧ b_free b = true ∧ b_addr b = a.
Proof.
  intros Hw (b & Hb & Hf & <-)%(wf_fl _ _ _ _ Hw). exists b. split; [by eapply block_at_in|done].
Qed.

(** The walk of malloc along the free chain is [find_fit]. *)
Lemma wp_malloc_walk m bs fl size :
  heap_at h m bs fl → 24 ≤ size → size + 2 * sizeof_arena_header < 2 ^ 32 →
  wp (loop (malloc_round size) (firstn_or fl h)) (λ r m',
    match find_fit bs fl size with
    | None => r = NULL ∧ m' = m
    | Some b => r = b_addr b + sizeof_arena_header ∧
        heap_at h m' (alloc_blocks b size bs) (alloc_free b size fl) ∧
        (∀ z, ¬ owned h bs z → m' !! z = m !! z)
    end) m.
Proof.
  intros Ha H24 H32. pose proof (ha_wf _ _ _ _ Ha) as Hw.
  assert (view (h :: (b_addr <$> bs) ++ []) (h :: [] ++ fl) (owned h bs) m (λ i x, rdw m (x + i)) m) as Hv.
  { apply view_init; [done|..|done]; set_solver. }
  pose proof (ha_hdrs _ _ _ _ Ha) as Hh. pose proof (ha_chains _ _ _ _ Ha) as Hc.
  apply (wp_loop_ix (λ n fp m', m' = m ∧ ∃ fl1 fl2, fl = fl1 ++ fl2 ∧ fp = firstn_or fl2 h ∧
    n = ZL fl2 ∧ find_fit bs fl size = find_fit bs fl2 size) _ _ (ZL fl)).
  { split; [done|]. by exists [], fl. }
  { pose proof (wf_fl_length _ _ Hw). lia. }
  intros n fp m' (-> & fl1 & fl2 & E & -> & -> & Hff). split; [lia|]. unfold malloc_round.
  destruct fl2 as [|a fl2].
  { unfold firstn_or. simpl. ldf Hv; [set_solver|]. rewrite (ch_head _ _ _ _ Hc). simpl.
    apply wp_ret. by rewrite Hff. }
  unfold firstn_or. simpl head. simpl default.
  destruct (wf_fl_block bs fl a Hw ltac:(set_solver)) as (b & Hba & Hb & Hbf & <-).
  destruct (hdr_at _ _ b Hh Hb) as [Hbs Hbt].
  ldf Hv; [set_solver|]. rewrite Hbt. unfold type_of. rewrite Hbf. simpl.
  ldf Hv; [set_solver|]. rewrite Hbs. simpl in Hff. rewrite Hba in Hff.
  destruct (Z.leb_spec size (b_size b)).
  - rewrite Hff. apply wp_bind.
    apply list_elem_of_split in Hb as (bs1 & bs2 & ->). subst fl.
    eapply wp_mono; [by apply wp_malloc_from_block|].
    intros r m' (-> & Ha' & Hfr). apply wp_ret.
    destruct (alloc_at _ _ _ _ _ _ size Hw) as [-> ->]. done.
  - ldf Hv; [set_solver|]. rewrite E in Hc. rewrite (proj2 (chains_neighbours_free _ _ _ _ _ _ Hc)).
    apply wp_ret. exists (ZL fl2). split; [simpl; lia|]. split; [done|].
    exists (fl1 ++ [b_addr b]), fl2. by rewrite <- app_assoc.
Qed.

Lemma wp_malloc m bs fl size :
  heap_at h m bs fl → 0 ≤ size < 2 ^ 32 - 63 →
  wp (malloc h lk size) (malloc_post h m bs fl size (granted m)) m.
Proof using Type*.
  intros Ha Hs. unfold malloc, malloc_post, malloc_block. destruct (Z.eqb_spec size 0).
  { apply wp_ret. by destruct (granted m). }
  cbn zeta. apply wp_bind, (wp_lock _ granted). destruct (granted m); simpl negb; cbn iota; [|by apply wp_ret].
  pose proof (arena_round_bounds size ltac:(lia)) as (? & ? & _).
  apply wp_bind, wp_ldw.
  { apply (mapped_sub _ h 24); [apply Ha|unfold o_next_free; lia..]. }
  rewrite (chains_first _ _ _ _ (ha_chains _ _ _ _ Ha) : rdw m (h + o_next_free) = _).
  apply wp_bind. eapply wp_mono.
  { apply (wp_malloc_walk m bs fl); [done..|]. unfold sizeof_arena_header. lia. }
  intros r m' Hr. apply wp_bind, (wp_unlock _ granted), wp_ret. done.
Qed.
End Malloc.

(** * Properties *)
Definition used (b : block) : bool := negb (b_free b).
Definition used_blocks (bs : list block) : list block := filter (λ b, b_free b = false) bs.
Definition free_bytes_of (bs : list block) : Z :=
  foldr Z.add 0 (b_size <$> filter (λ b, b_free b = true) bs).

Section Facts.
Implicit Types (b c : block) (bs : list block) (fl : list Z).

Lemma find_fit_Some h bs fl fl0 size b :
  heap_wf h bs fl0 → (∀ a, a ∈ fl → a ∈ fl0) → find_fit bs fl size = Some b →
  b ∈ bs ∧ b_free b = true ∧ size ≤ b_size b.
Proof.
  intros Hw Hfl. induction fl as [|a fl IH]; simpl; [done|].
  destruct (wf_fl_block h bs fl0 a Hw ltac:(set_solver)) as (c & -> & Hc & Hf & _).
  destruct (Z.leb_spec size (b_size c)); [by intros [= ->]|]. apply IH. set_solver.
Qed.

Lemma find_fit_None h bs fl fl0 size :
  heap_wf h bs fl0 → (∀ a, a ∈ fl → a ∈ fl0) → find_fit bs fl size = None →
  ∀ b, b ∈ bs → b_addr b ∈ fl → b_size b < size.
Proof.
  intros Hw Hfl. induction fl as [|a fl IH]; simpl; [set_solver|].
  destruct (wf_fl_block h bs fl0 a Hw ltac:(set_solver)) as (c & -> & Hc & Hf & <-).
  destruct (Z.leb_spec size (b_size c)); [done|]. intros Hn b Hb [E|Hin]%elem_of_cons.
  - by rewrite (wf_addr_inj _ _ _ _ _ Hw Hb Hc E).
  - apply IH; [set_solver|done..].
Qed.

Lemma carve_used b size : size ≤ b_size b →
  ∃ u, u ∈ carve b size ∧ b_free u = false ∧ b_addr u = b_addr b ∧ size ≤ b_size u.
Proof.
  intros H. unfold carve. destruct splits.
  - exists (Block (b_addr b) size false). split_and!; [constructor|done..].
  - exists (set_used b). split_and!; [constructor|done..].
Qed.

Lemma used_blocks_app bs1 bs2 : used_blocks (bs1 ++ bs2) = used_blocks bs1 ++ used_blocks bs2.
Proof. apply filter_app. Qed.

Lemma used_blocks_cons b bs :
  used_blocks (b :: bs) = (if b_free b then [] else [b]) ++ used_blocks bs.
Proof. unfold used_blocks. rewrite filter_cons. destruct (b_free b); by repeat case_decide. Qed.

Lemma free_bytes_app bs1 bs2 : free_bytes_of (bs1 ++ bs2) = free_bytes_of bs1 + free_bytes_of bs2.
Proof.
  unfold free_bytes_of. rewrite filter_app, fmap_app.
  induction (b_size <$> filter _ bs1) as [|x l IH]; simpl; lia.
Qed.

Lemma free_bytes_cons b bs :
  free_bytes_of (b :: bs) = (if b_free b then b_size b else 0) + free_bytes_of bs.
Proof.
  unfold free_bytes_of. rewrite filter_cons. destruct (b_free b); repeat case_decide; simpl; (done || lia).
Qed.

(** Freeing takes exactly the block out of the used ones and gives all its bytes
    to the free ones. *)
Lemma release_account bs1 b bs2 fl : b_free b = false →
  used_blocks (release bs1 b bs2 fl).1 = used_blocks bs1 ++ used_blocks bs2 ∧
  free_bytes_of (release bs1 b bs2 fl).1 = free_bytes_of (bs1 ++ b :: bs2) + b_size b.
Proof.
  intros Hb. unfold release.
  assert (∀ bs1 b bs2 fl, b_free b = true →
    let r := (let '(b, bs2, _) := merge_next b bs2 fl in bs1 ++ b :: bs2) in
    used_blocks r = used_blocks bs1 ++ used_blocks bs2 ∧
    free_bytes_of r = free_bytes_of bs1 + b_size b + free_bytes_of bs2) as Hn.
  { clear. intros bs1 b bs2 fl Hb. unfold merge_next. destruct bs2 as [|n bs2];
      [|destruct (b_free n) eqn:Hn; [destruct (b_end b =? b_addr n)|]]; simpl;
      rewrite !used_blocks_app, !free_bytes_app, !used_blocks_cons, !free_bytes_cons; simpl;
      rewrite ?Hb, ?Hn; simpl; (split; [done|lia]). }
  assert (∀ bs1 b bs2 fl, b_free b = true →
    used_blocks (let '(b, bs2, fl) := merge_next b bs2 fl in (bs1 ++ b :: bs2, fl)).1
      = used_blocks bs1 ++ used_blocks bs2 ∧
    free_bytes_of (let '(b, bs2, fl) := merge_next b bs2 fl in (bs1 ++ b :: bs2, fl)).1
      = free_bytes_of bs1 + b_size b + free_bytes_of bs2) as Hn'.
  { intros l c r f Hc. specialize (Hn l c r f Hc). by destruct (merge_next c r f) as [[??]?]. }
  rewrite free_bytes_app, free_bytes_cons, Hb. unfold merge_prev.
  destruct (last bs1) as [p|] eqn:El; [|edestruct Hn' as [-> ->]; [done|]; simpl; split; [done|lia]].
  apply last_Some in El as [l ->]. rewrite removelast_last.
  destruct (b_free p) eqn:Hp; [destruct (b_end p =? b_addr b)|]; simpl;
    (edestruct Hn' as [-> ->]; [done|]);
    rewrite ?used_blocks_app, ?free_bytes_app, ?used_blocks_cons, ?free_bytes_cons, ?Hp; simpl;
    rewrite ?app_nil_r; (split; [done|unfold free_bytes_of; simpl; lia]).
Qed.
End Facts.

(** C6 malloc refines the first-fit allocator on the abstract heap, for every
    size up to 2^32 - 64 and any locking functions: it always returns; it answers
    NULL and changes nothing when the size is 0, the lock is refused or no free block
    holds the rounded size, and only then; otherwise the first block of the free
    list that fits is carved up, the heap stays well formed, the result is the
    payload of a used block with room for [size] bytes, and no byte outside the
    allocator's own (in particular no payload of a used block) changes. *)
Theorem malloc_refines (h : Z) (lk : malloc_locking) (granted : mem → bool) (m : mem)
    (bs : list block) (fl : list Z) (size : Z) :
  Locking lk granted → heap_at h m bs fl → 0 ≤ size < 2 ^ 32 - 63 →
  ∃ r m', malloc h lk size m = Ret (r, m') ∧
    (if granted m && negb (size =? 0) then
       match find_fit bs fl (arena_round size) with
       | None => r = NULL ∧ m' = m ∧
           ∀ b, b ∈ bs → b_free b = true → b_size b < arena_round size
       | Some b =>
           let bs' := alloc_blocks b (arena_round size) bs in
           b ∈ bs ∧ b_free b = true ∧
           heap_at h m' bs' (alloc_free b (arena_round size) fl) ∧
           (∀ z, ¬ owned h bs z → m' !! z = m !! z) ∧
           ∃ u, u ∈ bs' ∧ b_free u = false ∧ r = b_addr u + sizeof_arena_header ∧
             r + size ≤ b_end u ∧ r ≠ NULL
       end
     else r = NULL ∧ m' = m).
Proof.
  intros Hlk Ha Hs. pose proof (ha_wf _ _ _ _ Ha) as Hw.
  apply (wp_inv (malloc h lk size)). eapply wp_mono; [by apply (wp_malloc h lk granted m bs fl size)|].
  intros r m'. unfold malloc_post, malloc_block.
  destruct (granted m); [|done]. destruct (Z.eqb_spec size 0); [done|]. simpl.
  destruct (arena_round_bounds size ltac:(lia)) as (? & ? & _).
  destruct (find_fit bs fl (arena_round size)) as [b|] eqn:Ef.
  - intros (-> & Ha' & Hfr). apply (find_fit_Some h bs fl fl) in Ef as (Hb & Hbf & Hbs); [|done..].
    split_and!; [done..|]. destruct (carve_used b _ Hbs) as (u & Hu & Huf & Hua & Hus). exists u.
    apply list_elem_of_split in Hb as (bs1 & bs2 & ->).
    assert (b_addr b ∈ fl) as (fl1 & fl2 & ->)%list_elem_of_split
      by (apply (wf_fl _ _ _ _ Hw); exists b; set_solver).
    pose proof (wf_block _ _ _ b Hw ltac:(set_solver)) as (? & _).
    destruct (alloc_at _ _ _ _ _ _ (arena_round size) Hw) as [-> _].
    unfold b_end, sizeof_arena_header, NULL. rewrite Hua. split_and!; [set_solver|done|done|lia|lia].
  - intros [-> ->]. split_and!; [done..|]. intros b Hb Hbf.
    apply (find_fit_None h bs fl fl _ Hw) with b in Ef; [done..|].
    apply (wf_fl _ _ _ _ Hw). by exists b.
Qed.

(** C7 free puts the block of a used pointer back, for any locking functions: it
    always returns; the heap stays well formed with the block merged into its free
    neighbours, exactly this block leaves the used ones and exactly its bytes join the
    free ones; no byte outside the allocator's own and the block changes.  free of
    NULL, and free when the lock is refused, change nothing. *)
Theorem free_refines (h : Z) (lk : malloc_locking) (granted : mem → bool) (m : mem)
    (bs1 : list block) (b : block) (bs2 : list block) (fl : list Z) :
  Locking lk granted → heap_at h m (bs1 ++ b :: bs2) fl → b_free b = false →
  free h lk NULL m = Ret ((), m) ∧
  ∃ m', free h lk (b_addr b + sizeof_arena_header) m = Ret ((), m') ∧
    (if granted m then
       let '(bs', fl') := release bs1 b bs2 fl in
       heap_at h m' bs' fl' ∧
       used_blocks bs' = used_blocks bs1 ++ used_blocks bs2 ∧
       free_bytes_of bs' = free_bytes_of (bs1 ++ b :: bs2) + b_size b ∧
       (∀ z, ¬ owned h (bs1 ++ set_free b :: bs2) z → m' !! z = m !! z)
     else m' = m).
Proof.
  intros Hlk Ha Hb. split; [done|].
  pose proof (wf_block _ _ _ b (ha_wf _ _ _ _ Ha) ltac:(set_solver)) as (? & _).
  assert (wp (free h lk (b_addr b + sizeof_arena_header)) (λ _ m', if granted m then
    heap_at h m' (release bs1 b bs2 fl).1 (release bs1 b bs2 fl).2 ∧
    (∀ z, ¬ owned h (bs1 ++ set_free b :: bs2) z → m' !! z = m !! z) else m' = m) m) as Hwp.
  { unfold free, NULL, sizeof_arena_header. destruct (Z.eqb_spec (b_addr b + 16) 0); [lia|].
    cbn zeta. apply wp_bind, (wp_lock _ granted). destruct (granted m); simpl; [|done].
    apply wp_bind. replace (b_addr b + 16 - 16) with (b_addr b) by lia.
    eapply wp_mono; [by apply (free_block_heap h m bs1 b bs2 fl)|].
    intros r m' Hm'. by apply (wp_unlock _ granted). }
  apply wp_inv in Hwp as ([] & m' & -> & Hm'). exists m'. split; [done|].
  destruct (granted m); [|done]. destruct (release_account bs1 b bs2 fl Hb) as [? ?].
  destruct (release bs1 b bs2 fl) as [bs' fl']. naive_solver.
Qed.
