(* ===== verification/MallocApi.v ===== *)
(** The rest of the heap interface: add_malloc_block, get_malloc_memory_status,
    realloc, calloc, strdup and strndup on a heap in memory. *)
From stdpp Require Import base list gmap fin_maps sets.
From Stdlib Require Import ZArith Lia Sorted.
From S2P Require Import Prelude Memory LibcMem LibcStr DList Malloc MallocChains MallocProof MallocSpec.

#[local] Open Scope Z_scope.

(** * Giving memory to the heap *)
Section AddBlock.
Context (h : Z) (lk : malloc_locking) (granted : mem → bool) `{!Locking lk granted}.
Implicit Types (b c : block) (bs : list block) (fl : list Z).

Lemma chains_other s bs fl i x v :
  chains h s bs fl → x ∉ h :: (b_addr <$> bs) → x ∉ fl → chains h (upd s i x v) bs fl.
Proof.
  intros [Hm Hf Hd] Hx Hxf.
  assert (∀ j a, a ≠ x → upd s i x v j a = s j a) as E.
  { intros j a Ha. unfold upd. destruct (Z.eqb_spec a x); [done|by rewrite andb_false_r]. }
  constructor.
  - apply (ring_ext _ _ _ _ _ _ Hm); intros a Ha; (apply E; intros ->; done).
  - apply (ring_ext _ _ _ _ _ _ Hf); intros a Ha; apply E; intros ->;
      (apply elem_of_cons in Ha as [->|]; [apply Hx; constructor|done]).
  - rewrite E; [done|]. intros ->. apply Hx. constructor.
Qed.

Lemma hdr_type_ne_head b : type_of b ≠ ARENA_TYPE_HEAD.
Proof. unfold type_of. by destruct (b_free b). Qed.

(** The backward search stops at the last block below [fp]. *)
Lemma wp_find_predecessor N F O m0 s m bs fl fp :
  view N F O m0 s m → heap_wf h bs fl → chains h s bs fl → Forall (hdr s) bs →
  (∀ x, x ∈ h :: (b_addr <$> bs) → x ∈ N) →
  wp (find_predecessor h fp) (λ r m', m' = m ∧ ∃ bs1 bs2,
    bs = bs1 ++ bs2 ∧ r = lastn h (b_addr <$> bs1) ∧
    (∀ b, b ∈ bs1 → b_addr b < fp) ∧ (∀ b, b ∈ bs2 → fp ≤ b_addr b)) m.
Proof.
  intros Hv Hw Hc Hh HN. unfold find_predecessor.
  assert (h ∈ N) as HhN by (apply HN; set_solver). ldf Hv.
  assert (s o_prev h = lastn h (b_addr <$> bs)) as ->.
  { pose proof (ch_main _ _ _ _ Hc) as Hm. unfold ring in Hm.
    rewrite <- (app_nil_r (b_addr <$> bs)) in Hm. by apply seg_cut in Hm as [_ Hm]. }
  apply (wp_loop_ix (λ n pah m', m' = m ∧ ∃ bs1 bs2, bs = bs1 ++ bs2 ∧ n = ZL bs1 ∧
    pah = lastn h (b_addr <$> bs1) ∧ (∀ b, b ∈ bs2 → fp ≤ b_addr b)) _ _ (ZL bs)).
  { split; [done|]. exists bs, []. rewrite app_nil_r. set_solver. }
  { pose proof (wf_nodup _ _ _ Hw) as [_ Hnd]%NoDup_cons.
    assert (ZL (b_addr <$> bs) ≤ 2 ^ 32) as Hl.
    { apply length_u32; [done|]. intros x Hx. apply (nodes_u32 _ _ _ _ Hw). by constructor. }
    rewrite length_fmap in Hl. lia. }
  intros n pah m' (-> & bs1 & bs2 & -> & -> & -> & Hge). split; [lia|].
  destruct (last bs1) as [p|] eqn:El; last first.
  { apply last_None in El as ->. unfold lastn. simpl. ldf Hv. rewrite (ch_head _ _ _ _ Hc). simpl.
    apply wp_ret. split; [done|]. exists [], bs2. set_solver. }
  apply last_Some in El as [l ->].
  assert (lastn h (b_addr <$> l ++ [p]) = b_addr p) as El by (rewrite fmap_app; apply lastn_snoc).
  assert (b_addr p ∈ N) as HpN by (apply HN; rewrite !fmap_app; set_solver).
  rewrite El. destruct (hdr_at _ _ p Hh ltac:(set_solver)) as [_ Hpt].
  ldf Hv. rewrite Hpt, (proj2 (Z.eqb_neq _ _) (hdr_type_ne_head p)).
  destruct (Z.ltb_spec (b_addr p) fp) as [Hlt|Hge'].
  - apply wp_ret. split; [done|]. exists (l ++ [p]), bs2. split_and!; [done..| |done].
    intros b [Hb| ->%list_elem_of_singleton]%elem_of_app; [|done].
    pose proof (hw_sorted _ _ _ Hw) as Hs. rewrite <- app_assoc in Hs.
    apply sorted_mid in Hs as (_ & _ & Hs & _). specialize (Hs b Hb).
    destruct (wf_block _ _ _ b Hw ltac:(set_solver)) as (_ & ? & _).
    unfold below, b_end, sizeof_free_arena_header in *. lia.
  - ldf Hv. rewrite <- app_assoc in Hc. rewrite (proj1 (chains_neighbours _ _ _ _ _ _ Hc)).
    apply wp_ret. exists (ZL l). split; [rewrite length_app; simpl; lia|]. split; [done|].
    exists l, (p :: bs2). rewrite <- app_assoc. split_and!; [done..|]. set_solver.
Qed.

(** Linking the new block between [bs1] and [bs2] in the main chain. *)
Lemma wp_link N F O m0 s m bs1 b bs2 fl (Q : mem → Prop) (k : M mem ()) :
  view N F O m0 s m → heap_wf h (bs1 ++ bs2) fl → chains h s (bs1 ++ bs2) fl →
  Forall (hdr s) (bs1 ++ bs2) → s o_size (b_addr b) = b_size b →
  (∀ x, x ∈ b_addr b :: h :: (b_addr <$> bs1 ++ bs2) → x ∈ N ∧ is_u32 x) →
  b_addr b ∉ h :: (b_addr <$> bs1 ++ bs2) →
  (∀ m' s', view N F O m0 s' m' → chains h s' (bs1 ++ b :: bs2) fl →
     Forall (hdr s') (bs1 ++ bs2) → s' o_size (b_addr b) = b_size b → wp k (λ _, Q) m') →
  wp (let fp := b_addr b in let pah := lastn h (b_addr <$> bs1) in
      pn ← ldw (pah + o_next);
      stw (fp + o_next) pn;;
      stw (fp + o_prev) pah;;
      stw (pah + o_next) fp;;
      fn ← ldw (fp + o_next);
      stw (fn + o_prev) fp;;
      k) (λ _, Q) m.
Proof.
  intros Hv Hw Hc Hh Hsz HN Hnew Hk. cbn zeta.
  pose proof (wf_nodup _ _ _ Hw) as Hnd. rewrite fmap_app in Hnd, Hnew.
  pose proof (lastn_node h (b_addr <$> bs1) (b_addr <$> bs2)) as Hp.
  pose proof (first_node h (b_addr <$> bs1) (b_addr <$> bs2)) as Hn.
  destruct Hc as [Hm Hf Hd]. rewrite fmap_app in Hm.
  pose proof (seg_cut _ _ _ _ _ _ Hm) as [Hpn _].
  assert (∀ x, x ∈ h :: (b_addr <$> bs1) ++ (b_addr <$> bs2) → x ∈ N ∧ is_u32 x) as HN'.
  { intros x Hx. apply HN. rewrite fmap_app. by constructor. }
  destruct (HN' _ Hp) as [HpN Hp32]. destruct (HN' _ Hn) as [HnN Hn32].
  destruct (HN (b_addr b) ltac:(constructor)) as [HbN Hb32].
  assert (lastn h (b_addr <$> bs1) ≠ b_addr b) as Hpb by (intros E; by rewrite E in Hp).
  assert (firstn_or (b_addr <$> bs2) h ≠ b_addr b) as Hnb by (intros E; by rewrite E in Hn).
  ldfv Hv (firstn_or (b_addr <$> bs2) h). stf Hv. stf Hv. stf Hv.
  ldfv Hv (firstn_or (b_addr <$> bs2) h). stf Hv.
  apply (Hk _ _ Hv).
  - constructor; [|exact Hf|].
    + rewrite fmap_app. simpl. apply (ring_insert _ _ _ _ _ _ _ _ Hm Hnd); clear - Hpb Hnb Hnew;
        intros; upd_case.
    + clear - Hd Hnew. upd_case.
  - by repeat (apply hdr_chain; [|offs]).
  - clear - Hsz. upd_case.
Qed.

Lemma wp_add m bs fl buf size :
  let nb := Block buf size false in let m1 := wrw (wrw m buf ARENA_TYPE_FREE) (buf + o_size) size in
  heap_at h m bs fl → block_ok h nb → (∀ c, c ∈ bs → below c nb ∨ below nb c) → mapped m buf size →
  wp (add_malloc_block h lk buf size) (λ _ m',
    (if granted m1 then
       ∃ bs1 bs2, bs = bs1 ++ bs2 ∧ (∀ c, c ∈ bs1 → below c nb) ∧ (∀ c, c ∈ bs2 → below nb c) ∧
         heap_at h m' (release bs1 nb bs2 fl).1 (release bs1 nb bs2 fl).2
     else m' = m1 ∧ heap_at h m' bs fl) ∧
    (∀ z, ¬ owned h bs z → ¬ buf ≤ z < buf + size → m' !! z = m !! z)) m.
Proof using Type*.
  intros nb m1 Ha Hok Hdis Hmap. pose proof (ha_wf _ _ _ _ Ha) as Hw.
  pose proof (size_u32) as Hsz32.
  assert (24 ≤ size ∧ 0 ≤ buf ∧ buf + size ≤ 2 ^ 32 ∧ (buf + size ≤ h ∨ h + 24 ≤ buf)) as Hnb.
  { unfold block_ok, b_end, sizeof_free_arena_header in Hok. simpl in Hok. lia. }
  pose proof (hw_head _ _ _ Hw) as Hhead. unfold sizeof_free_arena_header in Hhead.
  assert (∀ x, x ∈ h :: (b_addr <$> bs) → buf + 24 ≤ x ∨ x + 24 ≤ buf) as Hsep.
  { intros x [->|(c & -> & Hc)%list_elem_of_fmap]%elem_of_cons; [lia|].
    destruct (wf_block _ _ _ _ Hw Hc) as (?&?&?&?). specialize (Hdis c Hc).
    unfold below, b_end, sizeof_free_arena_header in *. simpl in *. lia. }
  assert (buf ∉ h :: (b_addr <$> bs)) as Hnew by (intros Hx%Hsep; lia).
  assert (buf ∉ fl) as Hnewf.
  { intros Hx. apply Hnew. apply (fl_nodes _ _ _ _ Hw). by constructor. }
  pose proof (view_init h m bs fl [buf] (λ z, owned h bs z ∨ buf ≤ z < buf + size) Ha) as Hv0.
  assert (view (h :: (b_addr <$> bs) ++ [buf]) (h :: [buf] ++ fl)
    (λ z, owned h bs z ∨ buf ≤ z < buf + size) m (λ i x, rdw m (x + i)) m) as Hv.
  { apply Hv0; [| |by left].
    - intros x ->%list_elem_of_singleton. split; [|right; lia].
      apply (mapped_sub _ buf size); [done|lia..].
    - intros x y ->%list_elem_of_singleton Hy. rewrite app_comm_cons in Hy.
      apply elem_of_app in Hy as [Hy| ->%list_elem_of_singleton]; [|by left].
      destruct (Hsep _ Hy); auto. }
  clear Hv0. unfold add_malloc_block. cbn zeta. unfold sizeof_free_arena_header.
  rewrite (proj2 (Z.ltb_ge size 24)) by lia.
  assert (buf ∈ h :: (b_addr <$> bs) ++ [buf]) as HbN by set_solver.
  apply (view_upd _ _ _ _ _ _ buf o_type ARENA_TYPE_FREE) in Hv; [|done|offs|done|by left].
  apply wp_bind, wp_stw; [apply (mapped_sub _ buf size); [done|unfold o_type; lia..]|].
  apply (view_upd _ _ _ _ _ _ buf o_size size) in Hv; [|done|offs|unfold is_u32; lia|by left].
  apply wp_bind, wp_stw; [apply mapped_wrw, (mapped_sub _ buf size); [done|unfold o_size; lia..]|].
  replace (buf + o_type) with buf in * by (unfold o_type; lia). fold m1 in Hv |- *.
  assert (chains h (upd (upd (λ i x, rdw m (x + i)) o_type buf ARENA_TYPE_FREE) o_size buf size) bs fl) as Hc.
  { apply chains_other; [|done..]. apply chains_other; [apply Ha|done..]. }
  assert (Forall (hdr (upd (upd (λ i x, rdw m (x + i)) o_type buf ARENA_TYPE_FREE) o_size buf size)) bs) as Hh.
  { apply hdr_other; [|set_solver]. apply hdr_other; [apply Ha|set_solver]. }
  assert (upd (upd (λ i x, rdw m (x + i)) o_type buf ARENA_TYPE_FREE) o_size buf size o_size buf = size) as Hbs
    by upd_case.
  revert Hv Hc Hh Hbs. generalize (upd (upd (λ i x, rdw m (x + i)) o_type buf ARENA_TYPE_FREE) o_size buf size).
  intros s Hv Hc Hh Hbs.
  assert (∀ x, x ∈ h :: (b_addr <$> bs) → x ∈ h :: (b_addr <$> bs) ++ [buf]) as HN by set_solver.
  apply wp_bind, (wp_lock _ granted). destruct (granted m1); simpl negb; cbn iota; last first.
  { apply wp_ret. split; [split; [done|]|].
    - apply (view_finish _ _ _ _ _ _ _ _ _ Hv); try done; apply Ha.
    - intros z Hz1 Hz2. apply (v_frame _ _ _ _ _ _ Hv). tauto. }
  apply wp_bind. eapply wp_mono; [by apply (wp_find_predecessor _ _ _ _ s m1 bs fl buf Hv)|].
  intros pah m' (-> & bs1 & bs2 & -> & -> & Hlt & Hge).
  assert (∀ c, c ∈ bs1 → below c nb) as Hb1.
  { intros c Hc'. specialize (Hlt c Hc'). destruct (Hdis c ltac:(set_solver)) as [|Hx]; [done|].
    destruct (wf_block _ _ _ c Hw ltac:(set_solver)) as (_ & ? & _).
    unfold below, b_end, sizeof_free_arena_header in *. simpl in *. lia. }
  assert (∀ c, c ∈ bs2 → below nb c) as Hb2.
  { intros c Hc'. specialize (Hge c Hc'). destruct (Hdis c ltac:(set_solver)) as [Hx|]; [|done].
    destruct (wf_block _ _ _ c Hw ltac:(set_solver)) as (_ & ? & _).
    unfold below, b_end, sizeof_free_arena_header in *. simpl in *. lia. }
  pose proof (insert_wf h bs1 nb bs2 fl Hw Hok eq_refl Hb1 Hb2) as Hw'.
  pose proof (apart_insert bs1 nb bs2 (ha_apart _ _ _ _ Ha) eq_refl) as Hap'.
  pose proof (release_wf h bs1 nb bs2 fl Hw' eq_refl Hap') as [Hw'' Hap''].
  apply (wp_link _ _ _ _ s m1 bs1 nb bs2 fl _ (free_block h buf;; malloc_unlock lk) Hv); try done.
  { intros x Hx. split; [change (b_addr nb) with buf in *; clear - Hx; set_solver|]. apply (nodes_u32 _ _ _ _ Hw').
    rewrite !fmap_app, fmap_cons in *. change (b_addr nb) with buf in *. clear - Hx. set_solver. }
  intros m' s' Hv' Hc' Hh' Hs'. apply wp_bind.
  apply (wp_free_block h _ _ _ _ s' m' bs1 nb bs2 fl _ Hv'); try done.
  - rewrite !fmap_app, fmap_cons. change (b_addr nb) with buf. clear. set_solver.
  - intros r m2 s2 Hv2 Hc2 Hh2. apply (wp_unlock _ granted). split.
    + exists bs1, bs2. split_and!; [done..|]. apply (view_finish _ _ _ _ _ _ _ _ _ Hv2); try done.
      * intros x Hx%release_nodes. rewrite !fmap_app, fmap_cons in *. change (b_addr nb) with buf in *. clear - Hx. set_solver.
      * intros z (c & [Hc3|[->|Hc3]%elem_of_cons]%elem_of_app & Hz)%merge_covered;
          [|by apply Hmap|]; apply (ha_mapped _ _ _ _ Ha); exists c; clear - Hc3 Hz; set_solver.
    + intros z Hz1 Hz2. apply (v_frame _ _ _ _ _ _ Hv2). tauto.
Qed.
End AddBlock.

(** * Using the heap: what a client may rely on *)
Section Client.
Context (h : Z).
Implicit Types (b c u : block) (bs : list block) (fl : list Z) (m : mem).

(** The payload of a used block is not the allocator's. *)
Lemma payload_not_owned bs fl u z :
  heap_wf h bs fl → u ∈ bs → b_free u = false →
  b_addr u + sizeof_arena_header ≤ z < b_end u → ¬ owned h bs z.
Proof.
  intros Hw Hu Hf Hz. unfold sizeof_arena_header in *.
  pose proof (wf_block _ _ _ _ Hw Hu) as (?&?&?&?). unfold b_end, sizeof_free_arena_header in *.
  intros [Hh|(c & Hc & Hcz)]; unfold sizeof_free_arena_header in *; [lia|].
  pose proof (wf_block _ _ _ _ Hw Hc) as (?&?&?&?). unfold sizeof_arena_header, sizeof_free_arena_header in *.
  destruct (wf_sep _ _ _ _ _ Hw Hu Hc) as [<-|?]; [rewrite Hf in Hcz; lia|].
  unfold b_end in *. destruct (b_free c); lia.
Qed.

Lemma rdw_agree m m' a : (∀ z, a ≤ z < a + 4 → m' !! z = m !! z) → rdw m' a = rdw m a.
Proof. intros H. unfold rdw. simpl. by rewrite !H by lia. Qed.

(** The heap does not depend on the bytes it does not own. *)
Lemma heap_at_frame m m' bs fl :
  heap_at h m bs fl → (∀ z, owned h bs z → m' !! z = m !! z) →
  (∀ z, is_Some (m !! z) → is_Some (m' !! z)) → heap_at h m' bs fl.
Proof.
  intros Ha Ho Hd. pose proof (ha_wf _ _ _ _ Ha) as Hw.
  assert (∀ x i, x ∈ h :: (b_addr <$> bs) → 0 ≤ i ≤ 12 → rdw m' (x + i) = rdw m (x + i)) as E1.
  { intros x i Hx Hi. apply rdw_agree. intros z Hz. apply Ho.
    apply elem_of_cons in Hx as [->|(b & -> & Hb)%list_elem_of_fmap]; [left; unfold sizeof_free_arena_header; lia|].
    apply (owned_hdr _ _ b); [done|lia|]. by apply (wf_block _ _ _ _ Hw). }
  assert (∀ x i, x ∈ h :: fl → 0 ≤ i ≤ 20 → rdw m' (x + i) = rdw m (x + i)) as E2.
  { intros x i Hx Hi. apply rdw_agree. intros z Hz. apply Ho.
    apply elem_of_cons in Hx as [->|(b & Hb & Hf & <-)%(wf_fl _ _ _ _ Hw)];
      [left; unfold sizeof_free_arena_header; lia|].
    right. exists b. rewrite Hf. split; [done|].
    destruct (wf_block _ _ _ _ Hw Hb) as (?&?&?&?). unfold sizeof_free_arena_header in *. lia. }
  destruct Ha as [_ Hap [Hm Hf Hh] Hhd Hhead Hmap]. constructor; [done..| | | |].
  - constructor.
    + apply (ring_ext _ _ _ _ _ _ Hm); intros a Hin; apply E1; [done|unfold o_next; lia|done|unfold o_prev; lia].
    + apply (ring_ext _ _ _ _ _ _ Hf); intros a Hin; apply E2;
        [done|unfold o_next_free; lia|done|unfold o_prev_free; lia].
    + rewrite E1; [done|constructor|unfold o_type; lia].
  - apply (hdr_ext _ _ _ Hhd); intros c Hc; apply E1; [set_solver|unfold o_size; lia|set_solver|unfold o_type; lia].
  - intros z Hz. apply Hd. by apply Hhead.
  - intros z Hz. apply Hd. by apply Hmap.
Qed.

(** Writing inside the payload of a used block. *)
Lemma heap_at_write m bs fl u a l :
  heap_at h m bs fl → u ∈ bs → b_free u = false →
  b_addr u + sizeof_arena_header ≤ a → a + ZL l ≤ b_end u → heap_at h (mem_write m a l) bs fl.
Proof.
  intros Ha Hu Hf H1 H2. apply (heap_at_frame m); [done|..].
  - intros z Hz. destruct (decide (a ≤ z < a + ZL l)); [|apply mem_write_lookup_out; lia].
    exfalso. apply (payload_not_owned _ _ u z (ha_wf _ _ _ _ Ha) Hu Hf); [lia|done].
  - intros z Hz. apply (mapped_write m z 1); [|lia]. intros y Hy. by replace y with z by lia.
Qed.

Lemma payload_mapped m bs fl u a n :
  heap_at h m bs fl → u ∈ bs → b_addr u ≤ a → a + n ≤ b_end u → mapped m a n.
Proof. intros Ha Hu H1 H2 z Hz. apply (ha_mapped _ _ _ _ Ha). exists u. split; [done|lia]. Qed.

(** What a successful allocation gives: block [u] of the new heap, carved out of
    free memory, with room for [size] bytes at [r]. *)
Definition malloc_got m bs (size r : Z) (m' : mem) bs' fl' u : Prop :=
  u ∈ bs' ∧ b_free u = false ∧ r = b_addr u + sizeof_arena_header ∧ r + size ≤ b_end u ∧ r ≠ NULL ∧
  heap_at h m' bs' fl' ∧ (∀ z, ¬ owned h bs z → m' !! z = m !! z) ∧
  (∀ c, c ∈ bs → b_free c = false → c ∈ bs' ∧ c ≠ u) ∧
  (∀ z, b_addr u ≤ z < b_end u → owned h bs z).

Lemma malloc_gives lk granted m bs fl size :
  Locking lk granted → heap_at h m bs fl → 0 ≤ size < 2 ^ 32 - 63 →
  wp (malloc h lk size) (λ r m',
    (r = NULL ∧ m' = m) ∨ ∃ bs' fl' u, malloc_got m bs size r m' bs' fl' u) m.
Proof.
  intros Hlk Ha Hs. pose proof (ha_wf _ _ _ _ Ha) as Hw.
  eapply wp_mono; [by apply (wp_malloc h lk granted m bs fl size)|].
  intros r m'. unfold malloc_post, malloc_block.
  destruct (granted m); [|by left]. destruct (Z.eqb_spec size 0); [by left|].
  destruct (arena_round_bounds size ltac:(lia)) as (? & ? & _).
  destruct (find_fit bs fl (arena_round size)) as [b|] eqn:Ef; [|by left].
  intros (-> & Ha' & Hfr). right.
  apply (find_fit_Some h bs fl fl) in Ef as (Hb & Hbf & Hbs); [|done..].
  pose proof (wf_block _ _ _ b Hw Hb) as (? & _).
  assert (b_addr b ∈ fl) as Hbfl by (apply (wf_fl _ _ _ _ Hw); by exists b).
  apply list_elem_of_split in Hb as (bs1 & bs2 & ->). apply list_elem_of_split in Hbfl as (fl1 & fl2 & ->).
  destruct (alloc_at _ _ _ _ _ _ (arena_round size) Hw) as [E1 E2]. rewrite E1, E2 in Ha'.
  destruct (carve_used b _ Hbs) as (u & Hu & Huf & Hua & Hus).
  exists (bs1 ++ carve b (arena_round size) ++ bs2), (fl1 ++ carve_fl b (arena_round size) ++ fl2), u.
  assert (b_end u ≤ b_end b) as Hub.
  { unfold carve in Hu. unfold b_end. destruct splits; set_unfold; destruct_or?; subst; simpl in *; (done || lia). }
  unfold malloc_got, sizeof_arena_header, NULL in *. rewrite Hua. split_and!.
  - set_solver.
  - done.
  - done.
  - unfold b_end. lia.
  - lia.
  - done.
  - done.
  - intros c Hc Hcf. split.
    + apply elem_of_app in Hc as [?|[->|?]%elem_of_cons]; [set_solver|congruence|set_solver].
    + intros ->. assert (u = b); [|congruence]. apply (wf_addr_inj _ _ _ _ _ Hw); [done|set_solver|done].
  - intros z Hz. right. exists b. rewrite Hbf. split; [set_solver|]. unfold b_end in *. lia.
Qed.
End Client.

(** * Properties *)

(** C8 add_malloc_block gives the heap a block of memory that overlaps neither the
    head node nor any block, for any locking functions: blocks smaller than a free
    header are ignored; otherwise the block joins the address-ordered blocks as if
    it had been allocated and freed, merged with its free neighbours, and no other
    byte outside the allocator's own changes.  When the lock is refused the heap
    stays as it was, with only the block's first two words written. *)
Theorem add_malloc_block_refines (h : Z) (lk : malloc_locking) (granted : mem → bool) (m : mem)
    (bs : list block) (fl : list Z) (buf size : Z) :
  let nb := Block buf size false in
  let m1 := wrw (wrw m buf ARENA_TYPE_FREE) (buf + o_size) size in
  Locking lk granted → heap_at h m bs fl →
  (size < sizeof_free_arena_header → add_malloc_block h lk buf size m = Ret ((), m)) ∧
  (block_ok h nb → (∀ c, c ∈ bs → below c nb ∨ below nb c) → mapped m buf size →
   ∃ m', add_malloc_block h lk buf size m = Ret ((), m') ∧
     (∀ z, ¬ owned h bs z → ¬ buf ≤ z < buf + size → m' !! z = m !! z) ∧
     if granted m1 then
       ∃ bs1 bs2, bs = bs1 ++ bs2 ∧ (∀ c, c ∈ bs1 → below c nb) ∧ (∀ c, c ∈ bs2 → below nb c) ∧
         let '(bs', fl') := release bs1 nb bs2 fl in
         heap_at h m' bs' fl' ∧ used_blocks bs' = used_blocks bs ∧
         free_bytes_of bs' = free_bytes_of bs + size
     else m' = m1 ∧ heap_at h m' bs fl).
Proof.
  intros nb m1 Hlk Ha. split.
  { intros Hs. unfold add_malloc_block. cbn zeta. by rewrite (proj2 (Z.ltb_lt _ _) Hs). }
  intros Hok Hdis Hmap. pose proof (wp_add h lk granted m bs fl buf size Ha Hok Hdis Hmap) as Hwp.
  apply wp_inv in Hwp as ([] & m' & Hrun & Hm' & Hfr). exists m'. split_and!; [done..|].
  destruct (granted _); [|done]. destruct Hm' as (bs1 & bs2 & -> & H1 & H2 & Hh).
  exists bs1, bs2. split_and!; [done..|].
  destruct (release_account bs1 nb bs2 fl eq_refl) as [Hu Hb].
  rewrite !free_bytes_app, free_bytes_cons in Hb. simpl in Hb.
  fold nb in Hh. destruct (release bs1 nb bs2 fl) as [bs' fl']. simpl in *.
  rewrite used_blocks_app, free_bytes_app. split_and!; [done..|lia].
Qed.

Section Copies.
Context (h : Z) (lk : malloc_locking) (granted : mem → bool) `{!Locking lk granted}.
Implicit Types (b c u : block) (bs : list block) (fl : list Z) (m : mem).

(** Filling the allocated bytes. *)
Lemma got_write m bs size r m1 bs' fl' u l :
  malloc_got h m bs size r m1 bs' fl' u → ZL l ≤ size →
  malloc_got h m bs size r (mem_write m1 r l) bs' fl' u.
Proof.
  intros (Hu & Hf & Hr & Hs & Hn & Ha & Hfr & Hc & Ho) Hl. unfold sizeof_arena_header in *.
  split_and!; try done.
  - apply (heap_at_write h m1 bs' fl' u); unfold sizeof_arena_header; (done || lia).
  - intros z Hz. rewrite mem_write_lookup_out; [by apply Hfr|].
    destruct (decide (z < r)); [by left|right]. destruct (decide (r + ZL l ≤ z)); [done|].
    exfalso. apply Hz, Ho. lia.
Qed.

Lemma got_mapped m bs size r m1 bs' fl' u n :
  malloc_got h m bs size r m1 bs' fl' u → n ≤ size → mapped m1 r n.
Proof.
  intros (Hu & Hf & Hr & Hs & Hn & Ha & _) Hl. unfold sizeof_arena_header in *.
  apply (payload_mapped h m1 bs' fl' u); (done || lia).
Qed.

Lemma got_arr m bs size r m1 bs' fl' u a l :
  malloc_got h m bs size r m1 bs' fl' u → (∀ z, a ≤ z < a + ZL l → ¬ owned h bs z) →
  arr m a l → arr m1 a l.
Proof.
  intros (_ & _ & _ & _ & _ & _ & Hfr & _) Ho. rewrite !arr_lookup. intros H i b Hi.
  pose proof (lookup_lt_Some _ _ _ Hi). rewrite Hfr; [by apply H|]. apply Ho. lia.
Qed.

Lemma got_copyable m bs size r m1 bs' fl' u a n :
  malloc_got h m bs size r m1 bs' fl' u → 0 < size → (∀ z, a ≤ z < a + n → ¬ owned h bs z) → copyable a r n.
Proof.
  intros (_ & _ & Hr & Hs & _ & _ & _ & _ & Ho) Hsz Hz. unfold copyable, sizeof_arena_header in *.
  destruct (decide (r ≤ a)); [by left|right]. destruct (decide (a + n ≤ r)); [done|].
  exfalso. apply (Hz r ltac:(lia)), Ho. lia.
Qed.

Lemma wp_calloc m bs fl nmemb size :
  let n := u32 (size * nmemb) in
  heap_at h m bs fl → n < 2 ^ 32 - 63 →
  wp (calloc h lk nmemb size) (λ r m', (r = NULL ∧ m' = m) ∨ ∃ bs' fl' u,
    malloc_got h m bs n r m' bs' fl' u ∧ arr m' r (replicate (Z.to_nat n) 0)) m.
Proof using Type*.
  intros n Ha Hn. unfold calloc. cbn zeta. fold n.
  assert (0 ≤ n < 2 ^ 32) by (apply (wrapu_range 32); lia).
  apply wp_bind. eapply wp_mono; [apply (malloc_gives h lk granted m bs fl n); (done || lia)|].
  intros r m1 [[-> ->]|(bs' & fl' & u & Hg)]; [by left|]. pose proof Hg as (_ & _ & _ & _ & Hr & _).
  unfold NULL in *. rewrite (proj2 (Z.eqb_neq r 0) Hr). simpl.
  apply wp_bind. eapply wp_mono.
  { apply memset_spec; [by eapply got_mapped|lia]. }
  intros _ m' [_ ->]. apply wp_ret. right. exists bs', fl', u. split; [|apply mem_write_arr].
  apply got_write; [done|]. rewrite length_replicate. lia.
Qed.

(** malloc, then copying the bytes [l] from [a] into the new block. *)
Lemma wp_malloc_copy m bs fl a l :
  heap_at h m bs fl → arr m a l → Forall is_byte l → 0 < ZL l < 2 ^ 32 - 63 →
  (∀ z, a ≤ z < a + ZL l → ¬ owned h bs z) →
  wp (malloc h lk (ZL l)) (λ r m1, (r = NULL ∧ m1 = m) ∨
    (r ≠ NULL ∧ wp (memcpy r a (ZL l)) (λ _ m', ∃ bs' fl' u,
       malloc_got h m bs (ZL l) r m' bs' fl' u ∧ arr m' r l) m1)) m.
Proof using Type*.
  intros Ha Harr Hl Hn Ho.
  eapply wp_mono; [apply (malloc_gives h lk granted m bs fl (ZL l)); (done || lia)|].
  intros r m1 [?|(bs' & fl' & u & Hg)]; [by left|right]. split; [apply Hg|].
  eapply wp_mono.
  { apply memcpy_spec; [done|by eapply got_arr|by eapply got_mapped|lia|eapply got_copyable; (done || lia)]. }
  intros _ m' [_ ->]. exists bs', fl', u. split; [by apply got_write|apply mem_write_arr].
Qed.

Lemma s32_pos x : 0 ≤ x < 2 ^ 31 → s32 x = x.
Proof. intros. apply wraps_small; lia. Qed.

Lemma cstr_bytes m s l : mem_wf m → cstr m s l → Forall is_byte (l ++ [0]).
Proof. intros Hw [_ Ha]. by eapply mem_wf_arr. Qed.

Lemma wp_strdup m bs fl s l :
  heap_at h m bs fl → mem_wf m → cstr m s l → ZL l + 1 < 2 ^ 31 →
  (∀ z, s ≤ z < s + ZL l + 1 → ¬ owned h bs z) →
  wp (strdup h lk s) (λ r m', (r = NULL ∧ m' = m) ∨ ∃ bs' fl' u,
    malloc_got h m bs (ZL l + 1) r m' bs' fl' u ∧ cstr m' r l) m.
Proof using Type*.
  intros Ha Hw Hs Hn Ho. assert (ZL (l ++ [0]) = ZL l + 1) as El by (rewrite length_app; simpl; lia).
  unfold strdup. apply wp_bind. eapply wp_mono; [apply (strlen_spec m s l Hs); lia|].
  intros _ m0 [-> ->]. rewrite s32_pos, u32_small by (unfold is_u32; lia). cbn zeta.
  rewrite <- El. apply wp_bind. eapply wp_mono.
  { apply (wp_malloc_copy m bs fl s (l ++ [0])); [done|apply Hs|by eapply cstr_bytes|lia|].
    intros z Hz. apply Ho. lia. }
  intros r m1 [[-> ->]|[Hr Hcp]]; [by left|]. unfold NULL in *. rewrite (proj2 (Z.eqb_neq r 0) Hr). simpl.
  apply wp_bind. eapply wp_mono; [exact Hcp|]. intros _ m' (bs' & fl' & u & Hg & Harr).
  apply wp_ret. right. exists bs', fl', u. split; [done|]. split; [apply Hs|done].
Qed.

Lemma got_end m bs size r m1 bs' fl' u :
  malloc_got h m bs size r m1 bs' fl' u → 0 < r ∧ r + size ≤ 2 ^ 32.
Proof.
  intros (Hu & _ & -> & Hs & _ & Ha & _). destruct (wf_block _ _ _ _ (ha_wf _ _ _ _ Ha) Hu) as (?&?&?&?).
  unfold sizeof_arena_header in *. lia.
Qed.

(** strndup of at most the whole string. *)
Lemma wp_strndup m bs fl s l n :
  heap_at h m bs fl → mem_wf m → cstr m s l → ZL l + 1 < 2 ^ 31 → 0 ≤ n ≤ ZL l →
  (∀ z, s ≤ z < s + ZL l + 1 → ¬ owned h bs z) →
  wp (strndup h lk s n) (λ r m', (r = NULL ∧ m' = m) ∨ ∃ bs' fl' u,
    malloc_got h m bs (n + 1) r m' bs' fl' u ∧ cstr m' r (take (Z.to_nat n) l)) m.
Proof using Type*.
  intros Ha Hw Hs Hlen Hn Ho. pose proof (cstr_bytes _ _ _ Hw Hs) as Hby.
  set (k := take (S (Z.to_nat n)) (l ++ [0])).
  assert (ZL k = n + 1) as Ek by (unfold k; rewrite length_take, length_app; cbn [length]; lia).
  assert (∃ v : Z, k = take (Z.to_nat n) l ++ [v]) as [v Hk].
  { destruct (lookup_lt_is_Some_2 (l ++ [0]) (Z.to_nat n)) as [v Hv]; [rewrite length_app; simpl; lia|].
    exists v. unfold k. rewrite (take_S_r _ _ v Hv). by rewrite take_app_le by lia. }
  unfold strndup. apply wp_bind. eapply wp_mono; [apply (strlen_spec m s l Hs); lia|].
  intros _ m0 [-> ->]. rewrite (proj2 (Z.ltb_ge (ZL l) n)) by lia. apply wp_bind, wp_ret.
  rewrite (u32_small (n + 1)) by (unfold is_u32; lia).
  rewrite s32_pos, u32_small by (unfold is_u32; lia). rewrite <- Ek.
  apply wp_bind. eapply wp_mono.
  { apply (wp_malloc_copy m bs fl s k); [done|apply arr_take, Hs|by apply Forall_take|lia|].
    intros z Hz. apply Ho. lia. }
  intros r m1 [[-> ->]|[Hr Hcp]]; [by left|]. unfold NULL in *. rewrite (proj2 (Z.eqb_neq r 0) Hr).
  apply wp_bind. eapply wp_mono; [exact Hcp|]. intros _ m' (bs' & fl' & u & Hg & Harr).
  pose proof (got_end _ _ _ _ _ _ _ _ Hg) as Hend. rewrite u32_small by (unfold is_u32; lia).
  apply wp_bind, wp_storeb. { apply (got_mapped _ _ _ _ _ _ _ _ _ Hg (Z.le_refl _)). lia. }
  apply wp_ret. right. exists bs', fl', u.
  assert (r + n = r + ZL (take (Z.to_nat n) l)) as En by (rewrite length_take; lia).
  rewrite Hk, arr_app in Harr. destruct Harr as [Harr _].
  assert (<[r + n := u8 0]> m' = mem_write m' r (take (Z.to_nat n) l ++ [0])) as ->.
  { rewrite mem_write_snoc, En, (mem_write_id _ _ _ Harr). done. }
  split.
  - apply got_write; [done|]. rewrite Hk, !length_app. simpl. lia.
  - split; [by apply Forall_take, Hs|apply mem_write_arr].
Qed.

(** strndup of more than the whole string: the copy is right, but the final store
    goes to [r + n]. *)
Lemma strndup_long m bs fl s l n :
  heap_at h m bs fl → mem_wf m → cstr m s l → ZL l + 1 < 2 ^ 31 → ZL l < n →
  (∀ z, s ≤ z < s + ZL l + 1 → ¬ owned h bs z) →
  strndup h lk s n m = Ret (NULL, m) ∨
  ∃ r m1 bs' fl' u, malloc_got h m bs (ZL l + 1) r m1 bs' fl' u ∧ cstr m1 r l ∧
    strndup h lk s n m = (storeb (u32 (r + n)) 0;; mret r) m1.
Proof using Type*.
  intros Ha Hw Hs Hlen Hn Ho.
  assert (ZL (l ++ [0]) = ZL l + 1) as El by (rewrite length_app; simpl; lia).
  assert (strlen s m = Ret (ZL l, m)) as Est by (apply wp_Ret, strlen_spec; (done || lia)).
  unfold strndup. cbv beta iota zeta delta [mbind M_bind mret M_ret].
  rewrite Est, (proj2 (Z.ltb_lt (ZL l) n)), Est by lia.
  rewrite (u32_small (ZL l + 1)) by (unfold is_u32; lia).
  rewrite s32_pos, u32_small by (unfold is_u32; lia). rewrite <- El.
  pose proof (wp_malloc_copy m bs fl s (l ++ [0]) Ha (proj2 Hs) (cstr_bytes _ _ _ Hw Hs)
    ltac:(lia) ltac:(intros; apply Ho; lia)) as Hm.
  apply wp_inv in Hm as (r & m1 & -> & [[-> ->]|[Hr Hcp]]); [by left|right].
  apply wp_inv in Hcp as (r' & m2 & Ecp & bs' & fl' & u & Hg & Harr).
  exists r, m2, bs', fl', u. split_and!; [done|split; [apply Hs|done]|].
  unfold NULL in *. by rewrite (proj2 (Z.eqb_neq r 0) Hr), Ecp.
Qed.
End Copies.

Section Realloc.
Context (h : Z) (lk : malloc_locking) (granted : mem → bool) `{!Locking lk granted}.
Implicit Types (b c u : block) (bs : list block) (fl : list Z) (m : mem).

Lemma owned_set_free bs1 b bs2 z :
  owned h (bs1 ++ set_free b :: bs2) z → owned h (bs1 ++ b :: bs2) z ∨ b_addr b ≤ z < b_end b.
Proof.
  intros [Hz|(c & Hc & Hz)]; [by left; left|].
  apply elem_of_app in Hc as [Hc|[->|Hc]%elem_of_cons];
    [left; right; exists c; set_solver|by right|left; right; exists c; set_solver].
Qed.

(** The copying half of realloc, once malloc has answered a block. *)
Lemma wp_realloc_move m bs b rs r m1 bs' fl' u l :
  mem_wf m → b ∈ bs → b_free b = false → sizeof_arena_header < b_size b →
  malloc_got h m bs rs r m1 bs' fl' u → 0 < rs →
  (∀ z, b_addr b + sizeof_arena_header ≤ z < b_end b → ¬ owned h bs z) →
  (∀ m, granted m = true) → 0 ≤ b_addr b → b_end b ≤ 2 ^ 32 →
  let n := Z.min rs (b_size b - sizeof_arena_header) in
  arr m (b_addr b + sizeof_arena_header) l → ZL l = n →
  wp (memcpy r (b_addr b + sizeof_arena_header) n;;
      free h lk (b_addr b + sizeof_arena_header);; mret r) (λ r' m', r' = r ∧ arr m' r l ∧
        ∃ bs1 bs2, bs' = bs1 ++ b :: bs2 ∧
          heap_at h m' (release bs1 b bs2 fl').1 (release bs1 b bs2 fl').2) m1.
Proof using Type*.
  intros Hw Hb Hbf Hbs Hg Hrs Ho Hgr Hba Hend n Harr Hl.
  unfold b_end, sizeof_arena_header in *.
  assert (n ≤ b_size b - 16 ∧ n ≤ rs) as [Hn1 Hn2] by lia. clearbody n. subst n.
  assert (arr m1 (b_addr b + 16) l) as Harr1.
  { eapply got_arr; [done| |done]. intros z Hz. apply Ho. lia. }
  apply wp_bind. eapply wp_mono.
  { apply memcpy_spec; [by eapply mem_wf_arr|done|by eapply got_mapped|lia|].
    eapply got_copyable; [done|lia|]. intros z Hz. apply Ho. lia. }
  intros _ m2 [_ ->]. pose proof (got_write h m bs rs r m1 bs' fl' u l Hg Hn2) as Hg2.
  destruct Hg2 as (Hu & Huf & Hr & Hus & _ & Ha2 & _ & Hkeep & _).
  destruct (Hkeep b Hb Hbf) as [Hb' Hbu].
  pose proof (ha_wf _ _ _ _ Ha2) as Hw2.
  apply list_elem_of_split in Hb' as (bs1 & bs2 & ->).
  apply wp_bind. pose proof (wf_block _ _ _ b Hw2 ltac:(set_solver)) as (? & _).
  unfold free, NULL, sizeof_arena_header. rewrite (proj2 (Z.eqb_neq (b_addr b + 16) 0)) by lia. cbn zeta.
  apply wp_bind, (wp_lock _ granted). rewrite Hgr. simpl. apply wp_bind.
  replace (b_addr b + 16 - 16) with (b_addr b) by lia.
  eapply wp_mono; [by apply (free_block_heap h _ bs1 b bs2 fl')|].
  intros r' m3 [Ha3 Hfr3]. apply (wp_unlock _ granted), wp_ret. split; [done|]. split.
  - pose proof (mem_write_arr m1 r l) as Hwr. rewrite arr_lookup in Hwr |- *. intros i v Hv.
    pose proof (lookup_lt_Some _ _ _ Hv). rewrite Hfr3; [by apply Hwr|]. unfold sizeof_arena_header in *.
    intros [Hz|Hz]%owned_set_free.
    + apply (payload_not_owned h _ _ u _ Hw2 Hu Huf) in Hz; [done|]. unfold sizeof_arena_header. lia.
    + assert (b ∈ bs1 ++ b :: bs2) as Hb2 by set_solver.
      destruct (wf_sep _ _ _ _ _ Hw2 Hu Hb2) as [?|?]; unfold b_end in *; [congruence|lia].
  - by exists bs1, bs2.
Qed.
End Realloc.

(** C8 realloc of a used block (locks granted): a size that fits the block and is
    not less than a quarter of it keeps the block and the memory as they are; NULL
    is malloc; otherwise, when malloc gives a block, the result is that block, holding
    the old payload up to the smaller of the two sizes, and the old block has been
    freed.  When malloc gives none, realloc copies to NULL, which faults if address 0
    is not mapped. *)
Theorem realloc_correct (h : Z) (lk : malloc_locking) (granted : mem → bool) (m : mem)
    (bs : list block) (fl : list Z) (b : block) (size : Z) (l : list Z) :
  let rs := arena_round size in
  let ptr := b_addr b + sizeof_arena_header in
  let n := Z.min rs (b_size b - sizeof_arena_header) in
  Locking lk granted → (∀ m, granted m = true) → mem_wf m → heap_at h m bs fl →
  b ∈ bs → b_free b = false → 0 < size < 2 ^ 32 - 96 → arr m ptr l → ZL l = n →
  realloc h lk NULL size m = malloc h lk size m ∧
  if (rs <=? b_size b) && (Z.shiftr (b_size b) 2 <=? rs) then realloc h lk ptr size m = Ret (ptr, m)
  else ∃ r m1, malloc h lk rs m = Ret (r, m1) ∧
    (r = NULL → m !! 0 = None → realloc h lk ptr size m = Fault) ∧
    (r ≠ NULL → ∃ m' bs' bs1 bs2 fl', realloc h lk ptr size m = Ret (r, m') ∧ arr m' r l ∧
       bs' = bs1 ++ b :: bs2 ∧ heap_at h m1 bs' fl' ∧
       heap_at h m' (release bs1 b bs2 fl').1 (release bs1 b bs2 fl').2).
Proof.
  intros rs ptr n Hlk Hgr Hw Ha Hb Hbf Hs Harr Hl. split; [done|].
  pose proof (ha_wf _ _ _ _ Ha) as Hwf. pose proof (wf_block _ _ _ _ Hwf Hb) as (?&?&?&_).
  pose proof (arena_round_bounds size ltac:(lia)) as (? & ? & _). fold rs in H2, H3.
  pose proof (ha_hdrs _ _ _ _ Ha) as Hh. destruct (hdr_at _ _ b Hh Hb) as [Hbs _].
  unfold b_end, sizeof_free_arena_header, sizeof_arena_header in *.
  assert (ldw (ptr - 16 + o_size) m = Ret (b_size b, m)) as Hld.
  { apply wp_Ret, wp_ldw; [|subst ptr; rewrite <- Hbs; split; [f_equal; unfold o_size; lia|done]].
    apply (payload_mapped h m bs fl b); unfold o_size, b_end; (done || lia). }
  unfold realloc, NULL, sizeof_arena_header. fold rs ptr. rewrite (proj2 (Z.eqb_neq ptr 0)) by lia.
  rewrite (proj2 (Z.eqb_neq size 0)) by lia. cbn zeta. unfold mbind, M_bind. rewrite Hld.
  destruct ((rs <=? b_size b) && (Z.shiftr (b_size b) 2 <=? rs)); [done|].
  rewrite (u32_small (b_size b - 16)) by (unfold is_u32; lia).
  replace (if rs <? b_size b - 16 then rs else b_size b - 16) with n
    by (subst n; destruct (Z.ltb_spec rs (b_size b - 16)); lia).
  pose proof (malloc_gives h lk granted m bs fl rs Hlk Ha ltac:(lia)) as Hm.
  apply wp_inv in Hm as (r & m1 & Em & Hm). rewrite Em. exists r, m1. split; [done|]. split.
  - intros -> Hz0. destruct Hm as [[_ ->]|(?&?&?&(_&_&_&_&?&_))]; [|done].
    destruct l as [|v l]; [simpl in Hl; lia|]. destruct Harr as [Hv _].
    by rewrite (memcpy_fault m 0 ptr n v) by (done || lia).
  - intros Hr. destruct Hm as [[? _]|(bs' & fl' & u & Hg)]; [done|].
    pose proof (wp_realloc_move h lk granted m bs b rs r m1 bs' fl' u l) as Hmv.
    unfold b_end, sizeof_arena_header in Hmv. fold ptr n in Hmv.
    assert (∀ z, ptr ≤ z < b_addr b + b_size b → ¬ owned h bs z) as Hno.
    { intros z Hz. by apply (payload_not_owned h bs fl b). }
    specialize (Hmv Hw Hb Hbf ltac:(lia) Hg ltac:(lia) Hno Hgr ltac:(lia) ltac:(lia) Harr Hl).
    apply wp_inv in Hmv as (r' & m' & Erun & -> & Harr' & bs1 & bs2 & -> & Ha').
    exists m', (bs1 ++ b :: bs2), bs1, bs2, fl'. unfold mbind, M_bind in Erun.
    split_and!; [exact Erun|done|done|apply Hg|done].
Qed.

(** C12 calloc, strdup and strndup (n at most the length), for any locking
    functions: each answers NULL with the memory as it was, or a block of the heap
    carved out of free memory (so no payload in use is touched) that holds zeros,
    the string, or its first n characters as a string of its own.  calloc allocates
    the product of its arguments modulo 2^32. *)
Theorem heap_copies (h : Z) (lk : malloc_locking) (granted : mem → bool) (m : mem)
    (bs : list block) (fl : list Z) (nmemb size s n : Z) (l : list Z) :
  Locking lk granted → heap_at h m bs fl → mem_wf m →
  cstr m s l → ZL l + 1 < 2 ^ 31 → 0 ≤ n ≤ ZL l → (∀ z, s ≤ z < s + ZL l + 1 → ¬ owned h bs z) →
  u32 (size * nmemb) < 2 ^ 32 - 63 →
  (∃ r m', calloc h lk nmemb size m = Ret (r, m') ∧ ((r = NULL ∧ m' = m) ∨ ∃ bs' fl' u,
     malloc_got h m bs (u32 (size * nmemb)) r m' bs' fl' u ∧
     arr m' r (replicate (Z.to_nat (u32 (size * nmemb))) 0))) ∧
  (∃ r m', strdup h lk s m = Ret (r, m') ∧ ((r = NULL ∧ m' = m) ∨ ∃ bs' fl' u,
     malloc_got h m bs (ZL l + 1) r m' bs' fl' u ∧ cstr m' r l)) ∧
  (∃ r m', strndup h lk s n m = Ret (r, m') ∧ ((r = NULL ∧ m' = m) ∨ ∃ bs' fl' u,
     malloc_got h m bs (n + 1) r m' bs' fl' u ∧ cstr m' r (take (Z.to_nat n) l))).
Proof.
  intros Hlk Ha Hw Hs Hl Hn Ho Hsz. split_and!.
  - apply (wp_inv (calloc h lk nmemb size)). by apply (wp_calloc h lk granted m bs fl).
  - apply (wp_inv (strdup h lk s)). by apply (wp_strdup h lk granted m bs fl).
  - apply (wp_inv (strndup h lk s n)). by apply (wp_strndup h lk granted m bs fl).
Qed.

(** C14 strndup with n above the string's length allocates and copies the string
    and its terminator, and then stores a zero n bytes into the block all the same:
    the store goes to r + n, past the bytes it asked for, whatever lies there. *)
Theorem strndup_overrun (h : Z) (lk : malloc_locking) (granted : mem → bool) (m : mem)
    (bs : list block) (fl : list Z) (s n : Z) (l : list Z) :
  Locking lk granted → heap_at h m bs fl → mem_wf m →
  cstr m s l → ZL l + 1 < 2 ^ 31 → ZL l < n → (∀ z, s ≤ z < s + ZL l + 1 → ¬ owned h bs z) →
  strndup h lk s n m = Ret (NULL, m) ∨
  ∃ r m1 bs' fl' u, malloc_got h m bs (ZL l + 1) r m1 bs' fl' u ∧ cstr m1 r l ∧
    strndup h lk s n m =
      match m1 !! u32 (r + n) with
      | Some _ => Ret (r, <[u32 (r + n) := 0]> m1)
      | None => Fault
      end.
Proof.
  intros Hlk Ha Hw Hs Hl Hn Ho.
  destruct (strndup_long h lk granted m bs fl s l n) as [?|(r & m1 & bs' & fl' & u & Hg & Hc & E)];
    [done..|by left|right].
  exists r, m1, bs', fl', u. split_and!; [done..|]. rewrite E. unfold mbind, M_bind, storeb.
  by destruct (m1 !! u32 (r + n)).
Qed.

Lemma arena_round_wraps size : 2 ^ 32 - 31 ≤ size < 2 ^ 32 - 15 → arena_round size = 0.
Proof.
  intros Hs. unfold arena_round, sizeof_arena_header.
  change ARENA_SIZE_MASK with (2 ^ 32 - 2 ^ 4).
  assert (u32 (size + 2 * 16 - 1) = size + 31 - 2 ^ 32) as ->.
  { unfold wrapu. replace (size + 2 * 16 - 1) with (size + 31 - 2 ^ 32 + 1 * 2 ^ 32) by lia.
    rewrite Z.mod_add by done. apply Z.mod_small. lia. }
  rewrite land_mask_down by lia. rewrite Z.mod_small; lia.
Qed.

(** __malloc_from_block with a size of 0 overwrites the header it reads. *)
Lemma wp_from_block_zero h m bs b fl :
  heap_at h m bs (b_addr b :: fl) → b ∈ bs → 32 ≤ b_size b →
  wp (malloc_from_block (b_addr b) 0) (λ r _, r = b_addr b + sizeof_arena_header) m.
Proof.
  intros Ha Hb Hsz. pose proof (ha_wf _ _ _ _ Ha) as Hw.
  assert (view (h :: (b_addr <$> bs) ++ []) (h :: [] ++ b_addr b :: fl)
    (owned h bs) m (λ i x, rdw m (x + i)) m) as Hv.
  { apply view_init; [done|..|done]; set_solver. }
  pose proof (ha_hdrs _ _ _ _ Ha) as Hh. pose proof (ha_chains _ _ _ _ Ha) as Hc.
  assert (∀ x, x ∈ h :: (b_addr <$> bs) → x ∈ h :: (b_addr <$> bs) ++ []) as HN
    by (intros x; by rewrite app_nil_r).
  assert (b_addr b ∈ h :: (b_addr <$> bs) ++ []) as HbN by (apply HN; set_solver).
  pose proof (nodes_u32 _ _ _ (b_addr b) Hw ltac:(set_solver)) as Hb32.
  pose proof (size_u32 _ _ _ _ Hw Hb) as Hs32.
  pose proof Hb as (bs1 & bs2 & Ebs)%list_elem_of_split.
  assert (rdw m (b_addr b + o_next) = firstn_or (b_addr <$> bs2) h) as Hnx.
  { rewrite Ebs in Hc. by destruct (chains_neighbours _ _ _ _ _ _ Hc) as [_ ?]. }
  destruct (chains_neighbours_free _ _ _ [] _ _ Hc) as [Hpf Hnf]. unfold lastn in Hpf. simpl in Hpf, Hnf.
  assert (firstn_or (b_addr <$> bs2) h ∈ h :: (b_addr <$> bs)) as Hn1.
  { pose proof (first_node h (b_addr <$> bs1) (b_addr <$> bs2)). rewrite Ebs, fmap_app, fmap_cons. set_solver. }
  assert (firstn_or fl h ∈ h :: b_addr b :: fl) as Hn2 by apply (first_node h [b_addr b] fl).
  pose proof (fl_nodes _ _ _ _ Hw Hn2) as Hn3.
  assert (∀ x, x ∈ h :: (b_addr <$> bs) → is_u32 x) as H32 by (intros x; by apply (nodes_u32 _ _ _ _ Hw)).
  assert (b_addr b ∈ h :: [] ++ b_addr b :: fl) as HbF by set_solver.
  unfold malloc_from_block. ldf Hv. destruct (hdr_at _ _ b Hh Hb) as [-> _].
  change (u32 (0 + 2 * sizeof_arena_header)) with 32. rewrite (proj2 (Z.leb_le 32 _)) by lia.
  rewrite Z.add_0_r, (u32_small (b_addr b)) by done. rewrite Z.sub_0_r, (u32_small (b_size b)) by done.
  cbn zeta. apply wp_bind. ldf Hv. rewrite Hnx.
  do 5 stf Hv. stf Hv; [by apply H32|]. stf Hv; [by apply HN|]. stf Hv.
  ldfv Hv (firstn_or fl h). stf Hv; [by apply H32|done|].
  apply wp_bind, (wp_ldf _ _ _ _ _ _ _ _ _ Hv); [done|offs|].
  assert (h ∈ h :: (b_addr <$> bs)) as HhN by constructor.
  match type of Hv with view _ _ _ _ ?st _ => replace (st o_prev_free (b_addr b)) with h by (symmetry; upd_case) end.
  stf Hv; [by apply H32|done|]. stf Hv; [by apply HN|done|].
  stf Hv; [by apply HN|by constructor|]. by apply wp_ret.
Qed.

(** C13 A request of 2^32 - 31 to 2^32 - 16 bytes wraps to a rounded size of 0, so
    malloc answers the payload of the first free block (of at least 32 bytes)
    although no block of the heap can hold the request. *)
Theorem malloc_size_wraps (h : Z) (lk : malloc_locking) (granted : mem → bool) (m : mem)
    (bs : list block) (b : block) (fl : list Z) (size : Z) :
  Locking lk granted → granted m = true → heap_at h m bs (b_addr b :: fl) →
  b ∈ bs → 32 ≤ b_size b → 2 ^ 32 - 31 ≤ size < 2 ^ 32 - 15 →
  arena_round size = 0 ∧ (∀ c, c ∈ bs → b_size c - sizeof_arena_header < size) ∧
  ∃ m', malloc h lk size m = Ret (b_addr b + sizeof_arena_header, m').
Proof.
  intros Hlk Hgr Ha Hb Hs32 Hs. pose proof (arena_round_wraps size Hs) as Er.
  pose proof (ha_wf _ _ _ _ Ha) as Hw. split; [done|]. split.
  { intros c Hc. pose proof (wf_block _ _ _ _ Hw Hc) as (?&?&?&?). pose proof (hw_head _ _ _ Hw).
    unfold b_end, sizeof_free_arena_header, sizeof_arena_header in *. lia. }
  assert (wp (malloc h lk size) (λ r _, r = b_addr b + sizeof_arena_header) m) as Hwp.
  { unfold malloc. rewrite (proj2 (Z.eqb_neq size 0)), Er by lia. cbn zeta.
    apply wp_bind, (wp_lock _ granted). rewrite Hgr. simpl. apply wp_bind, wp_ldw.
    { apply (mapped_sub _ h 24); [apply Ha|unfold o_next_free; lia..]. }
    rewrite (chains_first _ _ _ _ (ha_chains _ _ _ _ Ha) : rdw m (h + o_next_free) = _).
    apply wp_bind. apply (wp_loop_ix (λ n fp m', n = 0 ∧ fp = b_addr b ∧ m' = m) _ _ 0); [done..|].
    intros n fp m' (-> & -> & ->). split; [done|]. unfold malloc_round.
    assert (b_free b = true) as Hbf.
    { assert (b_addr b ∈ b_addr b :: fl) as (c & Hc & Hf & E)%(wf_fl _ _ _ _ Hw) by constructor.
      by rewrite <- (wf_addr_inj _ _ _ _ _ Hw Hc Hb E). }
    destruct (hdr_at _ _ b (ha_hdrs _ _ _ _ Ha) Hb) as [Hbs Hbt].
    assert (mapped m (b_addr b) 24) as Hm by (apply (heap_mapped_node _ _ _ _ _ Ha); set_solver).
    apply wp_bind, wp_ldw; [apply (mapped_sub _ (b_addr b) 24); [done|unfold o_type; lia..]|].
    rewrite Hbt. unfold type_of. rewrite Hbf. simpl.
    apply wp_bind, wp_ldw; [apply (mapped_sub _ (b_addr b) 24); [done|unfold o_size; lia..]|].
    rewrite Hbs, (proj2 (Z.leb_le 0 _)) by lia. apply wp_bind.
    eapply wp_mono; [by apply (wp_from_block_zero h m bs b fl)|]. intros r m1 ->.
    apply wp_ret. apply wp_bind, (wp_unlock _ granted). by apply wp_ret. }
  apply wp_inv in Hwp as (r & m' & -> & ->). by exists m'.
Qed.

(** * A concrete heap *)

(** The static initialiser of [__malloc_head] at address [h]. *)
Definition malloc_head_init (h : Z) (m : mem) : mem :=
  wrw (wrw (wrw (wrw (wrw (wrw m (h + o_type) ARENA_TYPE_HEAD) (h + o_size) 0)
    (h + o_next) h) (h + o_prev) h) (h + o_next_free) h) (h + o_prev_free) h.

Definition heap_lk : malloc_locking := set_malloc_locking None None.

(** 24 bytes at 256 for the head node, the string "abc" at 512, and 256 bytes at
    1024 given to the heap; then 40 bytes are allocated. *)
Definition heap_mem0 : mem :=
  malloc_head_init 256 (mem_write (mem_write (mem_write ∅ 256 (replicate 24 0)) 512 [97; 98; 99; 0])
    1024 (replicate 256 0)).
Definition heap_mem : mem :=
  match (add_malloc_block 256 heap_lk 1024 256;; malloc 256 heap_lk 40) heap_mem0 with
  | Ret (_, m) => m
  | _ => ∅
  end.
Definition heap_used : block := Block 1024 64 false.
Definition heap_rest : block := Block 1088 192 true.
Definition heap_blocks : list block := [heap_used; heap_rest].

Definition all_mapped (m : mem) (a : Z) (n : nat) : bool :=
  forallb (λ i, match m !! (a + Z.of_nat i) with Some _ => true | None => false end) (seq 0 n).

Lemma all_mapped_spec m a n : all_mapped m a n = true → mapped m a (Z.of_nat n).
Proof.
  unfold all_mapped. rewrite forallb_forall. intros H z Hz.
  specialize (H (Z.to_nat (z - a))). rewrite in_seq in H.
  replace (a + Z.of_nat (Z.to_nat (z - a))) with z in H by lia.
  destruct (m !! z); [done|]. discriminate H. lia.
Qed.

Definition all_bytes (m : mem) : bool :=
  forallb (λ '(_, b), (0 <=? b) && (b <? 256)) (map_to_list m).

Lemma all_bytes_spec m : all_bytes m = true → mem_wf m.
Proof.
  unfold all_bytes. rewrite forallb_forall. intros H x b Hx. unfold is_byte.
  specialize (H (x, b)). simpl in H. apply elem_of_map_to_list, list_elem_of_In in Hx.
  specialize (H Hx). lia.
Qed.

Ltac forall_ok :=
  rewrite ?Forall_cons, ?Forall_nil; unfold below, block_ok, b_end, sizeof_free_arena_header; simpl;
  try split_and!; (done || lia).
Ltac heap_wf_ok :=
  constructor; [unfold sizeof_free_arena_header; lia| |forall_ok|by vm_compute];
  repeat (apply SSorted_cons; [|forall_ok]); apply SSorted_nil.
Ltac heap_ok :=
  constructor; [heap_wf_ok|by vm_compute|constructor; vm_compute; try split_and!; reflexivity
    |rewrite ?Forall_cons, ?Forall_nil; try split_and!; vm_compute; done
    |apply (all_mapped_spec _ _ 24); vm_compute; reflexivity|].

Lemma heap_mem_ok : heap_at 256 heap_mem heap_blocks [1088].
Proof.
  unfold heap_blocks. heap_ok. intros z (b & Hb & Hz). apply (all_mapped_spec heap_mem 1024 256); [by vm_compute|].
  unfold b_end in *. set_unfold. destruct Hb as [->|[->|[]]]; simpl in Hz; lia.
Qed.

Lemma heap_mem0_ok : heap_at 256 heap_mem0 [] [].
Proof. heap_ok. intros z (b & Hb & _). set_solver. Qed.

(** * Witnesses *)
Definition result (o : outcome (Z * mem)) : Z := match o with Ret (r, _) => r | _ => 0 end.

Lemma malloc_refines_witness :
  ∃ r m', malloc 256 heap_lk 100 heap_mem = Ret (r, m') ∧
    heap_at 256 m' [heap_used; Block 1088 128 false; Block 1216 64 true] [1216].
Proof.
  destruct (malloc_refines 256 heap_lk (λ _, true) heap_mem heap_blocks [1088] 100 nop_locking
    heap_mem_ok ltac:(lia)) as (r & m' & E & H).
  exists r, m'. split; [exact E|]. destruct H as (_ & _ & H & _). exact H.
Defined.

Lemma free_refines_witness :
  ∃ m', free 256 heap_lk 1040 heap_mem = Ret ((), m') ∧ heap_at 256 m' [Block 1024 256 true] [1024].
Proof.
  destruct (free_refines 256 heap_lk (λ _, true) heap_mem [] heap_used [heap_rest] [1088] nop_locking
    heap_mem_ok eq_refl) as (_ & m' & E & H).
  exists m'. split; [exact E|]. destruct H as (H & _). exact H.
Defined.

Lemma add_malloc_block_refines_witness :
  ∃ m', add_malloc_block 256 heap_lk 1024 256 heap_mem0 = Ret ((), m') ∧
    heap_at 256 m' [Block 1024 256 true] [1024].
Proof.
  destruct (add_malloc_block_refines 256 heap_lk (λ _, true) heap_mem0 [] [] 1024 256 nop_locking
    heap_mem0_ok) as [_ H].
  destruct H as (m' & E & _ & bs1 & bs2 & Ebs & _ & _ & H).
  - unfold block_ok, b_end, sizeof_free_arena_header. simpl. lia.
  - set_solver.
  - apply (all_mapped_spec heap_mem0 1024 256). vm_compute. reflexivity.
  - exists m'. split; [exact E|]. destruct bs1; [|discriminate Ebs]. destruct bs2; [|discriminate Ebs].
    destruct H as [H _]. exact H.
Defined.

Lemma realloc_correct_witness :
  ∃ r m', realloc 256 heap_lk 1040 100 heap_mem = Ret (r, m') ∧ arr m' r ([0; 1; 0; 0; 0; 1; 0; 0] ++ replicate 40 0).
Proof.
  destruct (realloc_correct 256 heap_lk (λ _, true) heap_mem heap_blocks [1088] heap_used 100
    ([0; 1; 0; 0; 0; 1; 0; 0] ++ replicate 40 0)) as [_ H];
    [exact nop_locking|done|apply all_bytes_spec; vm_compute; reflexivity|exact heap_mem_ok|apply list_elem_of_here|
     done|lia|vm_compute; split_and!; reflexivity|reflexivity|].
  destruct H as (r & m1 & E & _ & H).
  assert (result (malloc 256 heap_lk 128 heap_mem) = 1104) as Er by (vm_compute; reflexivity).
  change (arena_round 100) with 128 in E. rewrite E in Er. simpl in Er. subst r.
  destruct H as (m' & bs' & bs1 & bs2 & fl' & E' & H & _); [done|]. exists 1104, m'. split; [exact E'|exact H].
Defined.

Lemma heap_copies_witness :
  ∃ r m', strdup 256 heap_lk 512 heap_mem = Ret (r, m') ∧ r = 1104 ∧ cstr m' r [97; 98; 99].
Proof.
  destruct (heap_copies 256 heap_lk (λ _, true) heap_mem heap_blocks [1088] 3 5 512 2 [97; 98; 99])
    as (_ & (r & m' & E & H) & _);
    [exact nop_locking|exact heap_mem_ok|apply all_bytes_spec; vm_compute; reflexivity|
     cstr_ok|simpl; lia|simpl; lia| |done|].
  - intros z Hz [Ho|(b & Hb & Ho)]; unfold sizeof_free_arena_header in *; simpl in Hz; [lia|].
    apply elem_of_cons in Hb as [->|[->|Hb]%elem_of_cons]; simpl in Ho; [lia|lia|by apply not_elem_of_nil in Hb].
  - assert (result (strdup 256 heap_lk 512 heap_mem) = 1104) as Er by (vm_compute; reflexivity).
    rewrite E in Er. simpl in Er. subst r. exists 1104, m'. split; [exact E|]. split; [reflexivity|].
    destruct H as [[H _]|(?&?&?&_&H)]; [discriminate H|exact H].
Defined.

Lemma strndup_overrun_witness :
  ∃ m1, strndup 256 heap_lk 512 50 heap_mem = Ret (1104, <[1154 := 0]> m1) ∧ cstr m1 1104 [97; 98; 99].
Proof.
  assert (result (strndup 256 heap_lk 512 50 heap_mem) = 1104) as Er by (vm_compute; reflexivity).
  destruct (strndup_overrun 256 heap_lk (λ _, true) heap_mem heap_blocks [1088] 512 50 [97; 98; 99])
    as [E|(r & m1 & bs' & fl' & u & Hg & Hc & E)];
    [exact nop_locking|exact heap_mem_ok|apply all_bytes_spec; vm_compute; reflexivity|
     cstr_ok|simpl; lia|simpl; lia| | |].
  - intros z Hz [Ho|(b & Hb & Ho)]; unfold sizeof_free_arena_header in *; simpl in Hz; [lia|].
    apply elem_of_cons in Hb as [->|[->|Hb]%elem_of_cons]; simpl in Ho; [lia|lia|by apply not_elem_of_nil in Hb].
  - rewrite E in Er. discriminate Er.
  - exists m1. rewrite E in Er |- *. destruct (m1 !! u32 (r + 50)); [|discriminate Er].
    simpl in Er. subst r. split; [reflexivity|exact Hc].
Defined.

Lemma malloc_size_wraps_witness :
  ∃ m', malloc 256 heap_lk (2 ^ 32 - 20) heap_mem = Ret (1104, m').
Proof.
  destruct (malloc_size_wraps 256 heap_lk (λ _, true) heap_mem heap_blocks heap_rest [] (2 ^ 32 - 20)
    nop_locking eq_refl heap_mem_ok) as (_ & _ & H); [set_solver|simpl; lia|lia|exact H].
Defined.
