(* ===== verification/ConsProd.v ===== *)
(** The single-producer single-consumer byte ring of
    sw/sys-libs/drivers/consprod.c: the operations as the code runs them on one CPU
    (interrupts arrive while a waiting call polls), the queue they implement, and
    [SpscStep], the two sides interleaved access by access. *)
From stdpp Require Import base list gmap fin_maps sets.
From Stdlib Require Import ZArith Lia.
From S2P Require Import Prelude Memory LibcMem.

#[local] Open Scope Z_scope.

(** * The C code *)
Record consprod_t : Type := Consprod {
  buffer_start : Z;
  buffer_end : Z;
  prod : Z;
  cons : Z;
}.

(** A ring and the memory its buffer lives in. *)
Record ring_state : Type := RingState {
  r_cp : consprod_t;
  r_mem : mem;
}.

Definition set_prod (p : Z) (s : ring_state) : ring_state :=
  let cp := r_cp s in RingState (Consprod (buffer_start cp) (buffer_end cp) p (cons cp)) (r_mem s).
Definition set_cons (c : Z) (s : ring_state) : ring_state :=
  let cp := r_cp s in RingState (Consprod (buffer_start cp) (buffer_end cp) (prod cp) c) (r_mem s).
Definition in_mem {A} (m : M mem A) : M ring_state A :=
  zoom r_mem (λ m' s, RingState (r_cp s) m') m.

Definition consprod_init (buf_start buf_end : Z) : consprod_t :=
  Consprod buf_start buf_end (buf_start + 1) buf_start.

Definition cp_ptr_next (cp : consprod_t) (ptr : Z) : Z :=
  let n := ptr + 1 in if n =? buffer_end cp then buffer_start cp else n.

(** The copying loops: they answer what is left, the number of bytes and the
    position in the caller's buffer. *)
Definition consume_loop (p x buf c : Z) : M ring_state (Z * Z) :=
  loop (λ '(x, buf, c),
    if (x =? 0) || (c =? p) then mret (inr (x, buf))
    else b ← in_mem (loadb c);
         in_mem (storeb buf b);;
         modify (set_cons c);;
         cp ← gets r_cp;
         mret (inl (x - 1, buf + 1, cp_ptr_next cp c))) (x, buf, c).

Definition produce_loop (c x buf p : Z) : M ring_state (Z * Z) :=
  loop (λ '(x, buf, p),
    if (x =? 0) || (p =? c) then mret (inr (x, buf))
    else b ← in_mem (loadb buf);
         cp ← gets r_cp;
         in_mem (storeb (prod cp) b);;
         modify (set_prod p);;
         mret (inl (x - 1, buf + 1, cp_ptr_next cp p))) (x, buf, p).

(** Whoever owns a ring: the driver keeps two of them in a larger state. *)
Class HasRing (S : Type) : Type := {
  ring_of : S → ring_state;
  with_ring : ring_state → S → S;
  ring_of_with : ∀ r s, ring_of (with_ring r s) = r;
}.
#[export] Instance ring_has_ring : HasRing ring_state :=
  {| ring_of r := r; with_ring r _ := r; ring_of_with _ _ := eq_refl |}.

Section Calls.
Context {T : Type} `{HasRing T}.

Definition cp_of (s : T) : consprod_t := r_cp (ring_of s).
Definition mem_of (s : T) : mem := r_mem (ring_of s).
Definition in_ring_state {A} (m : M ring_state A) : M T A := zoom ring_of with_ring m.

(** An interrupt that arrives while the code polls: what its handler does to the
    whole state. *)
Definition irq : Type := M T ().

(** [while (cp->prod == p) ;] and [while (cp->cons == c) ;]: every poll lets the
    next interrupt in; without one the loop never ends. *)
Fixpoint wait_while (busy : consprod_t → bool) (irqs : list irq) : M T (list irq) :=
  cp ← gets cp_of;
  if busy cp then
    match irqs with
    | [] => spin
    | i :: irqs' => i;; wait_while busy irqs'
    end
  else mret irqs.

(** The recursive calls after a wait: at most one per interrupt, so [fuel] is their
    number. *)
Fixpoint consume_rec (fuel : nat) (irqs : list irq) (buf len : Z) (wait : bool) :
    M T (Z * list irq) :=
  cp ← gets cp_of;
  let p := prod cp in
  let c := cp_ptr_next cp (cons cp) in
  '(x, buf) ← in_ring_state (consume_loop p len buf c);
  if 0 <? x then
    if wait then
      irqs ← wait_while (λ cp, prod cp =? p) irqs;
      match fuel with
      | O => spin
      | S fuel => consume_rec fuel irqs buf x wait
      end
    else mret (len - x, irqs)
  else mret (len, irqs).

Fixpoint produce_rec (fuel : nat) (irqs : list irq) (buf len : Z) (wait : bool) :
    M T (Z * list irq) :=
  cp ← gets cp_of;
  let p := cp_ptr_next cp (prod cp) in
  let c := cons cp in
  '(x, buf) ← in_ring_state (produce_loop c len buf p);
  if 0 <? x then
    if wait then
      irqs ← wait_while (λ cp, cons cp =? c) irqs;
      match fuel with
      | O => spin
      | S fuel => produce_rec fuel irqs buf x wait
      end
    else mret (len - x, irqs)
  else mret (len, irqs).

Definition consprod_consume (irqs : list irq) (buf len : Z) (wait : bool) :
    M T (Z * list irq) :=
  consume_rec (length irqs) irqs buf len wait.
Definition consprod_produce (irqs : list irq) (buf len : Z) (wait : bool) :
    M T (Z * list irq) :=
  produce_rec (length irqs) irqs buf len wait.
End Calls.
Arguments irq T : clear implicits.

(** * The queue in a ring *)
Section Queue.
Implicit Types (cp : consprod_t) (m : mem) (q l : list Z).

Definition ring_size cp : Z := buffer_end cp - buffer_start cp.
Definition capacity cp : Z := ring_size cp - 2.

(** The slot of the [i]-th byte in the queue. *)
Definition slot cp (i : Z) : Z :=
  buffer_start cp + (cons cp - buffer_start cp + 1 + i) mod ring_size cp.

Definition in_ring cp (a : Z) : Prop := buffer_start cp ≤ a < buffer_end cp.

Record queue cp m q : Prop := Queue {
  q_size : 2 ≤ ring_size cp < 2 ^ 32;
  q_cons : in_ring cp (cons cp);
  q_room : ZL q ≤ capacity cp;
  q_prod : prod cp = slot cp (ZL q);
  q_bytes : ∀ (i : nat) b, q !! i = Some b → m !! slot cp (Z.of_nat i) = Some b;
  q_mapped : mapped m (buffer_start cp) (ring_size cp);
  q_wf : Forall is_byte q;
}.

Lemma slot_in_ring cp i : 2 ≤ ring_size cp → in_ring cp (slot cp i).
Proof.
  intros H. unfold in_ring, slot, ring_size in *.
  pose proof (Z.mod_pos_bound (cons cp - buffer_start cp + 1 + i) (buffer_end cp - buffer_start cp)). lia.
Qed.

Lemma next_slot cp i : 2 ≤ ring_size cp → cp_ptr_next cp (slot cp i) = slot cp (i + 1).
Proof.
  intros H. unfold cp_ptr_next, slot. set (n := ring_size cp) in *.
  assert (buffer_end cp = buffer_start cp + n) as -> by (unfold n, ring_size; lia).
  set (a := cons cp - buffer_start cp + 1 + i).
  replace (cons cp - buffer_start cp + 1 + (i + 1)) with (a + 1) by lia.
  pose proof (Z.mod_pos_bound a n ltac:(lia)). rewrite <- (Zplus_mod_idemp_l a 1).
  destruct (Z.eqb_spec (buffer_start cp + a mod n + 1) (buffer_start cp + n)) as [E|E].
  - assert (a mod n + 1 = n) as -> by lia. rewrite Z.mod_same; lia.
  - rewrite (Z.mod_small (a mod n + 1)); lia.
Qed.

(** The last consumed slot is slot [-1]. *)
Lemma slot_cons cp : in_ring cp (cons cp) → slot cp (-1) = cons cp.
Proof.
  unfold in_ring, slot, ring_size. intros H. rewrite Z.mod_small; lia.
Qed.

Lemma slot_inj cp i j : 2 ≤ ring_size cp → slot cp i = slot cp j →
  - ring_size cp < i - j < ring_size cp → i = j.
Proof.
  unfold slot. set (n := ring_size cp). set (a := cons cp - buffer_start cp + 1). intros Hn E Hij.
  assert ((a + i) mod n = (a + j) mod n) as E' by lia.
  pose proof (Z.div_mod (a + i) n ltac:(lia)). pose proof (Z.div_mod (a + j) n ltac:(lia)).
  assert (i - j = n * ((a + i) / n - (a + j) / n)) as Ed by lia.
  destruct (Z.eq_dec ((a + i) / n) ((a + j) / n)); [lia|nia].
Qed.

Lemma slot_set_cons cp i : in_ring cp (cons cp) → 2 ≤ ring_size cp →
  slot (Consprod (buffer_start cp) (buffer_end cp) (prod cp) (slot cp 0)) i = slot cp (i + 1).
Proof.
  intros Hc Hn. unfold slot. simpl. unfold ring_size in *. simpl. f_equal.
  set (n := buffer_end cp - buffer_start cp) in *.
  replace (buffer_start cp + (cons cp - buffer_start cp + 1 + 0) mod n - buffer_start cp + 1 + i)
    with ((cons cp - buffer_start cp + 1) mod n + (1 + i)) by (rewrite Z.add_0_r; lia).
  rewrite Zplus_mod_idemp_l. f_equal. lia.
Qed.

Lemma queue_next_cons cp m q : queue cp m q → cp_ptr_next cp (cons cp) = slot cp 0.
Proof. intros [Hs Hc _ _ _ _ _]. rewrite <- (slot_cons cp Hc) at 1. by rewrite next_slot by lia. Qed.

(** A fresh ring is empty. *)
Lemma queue_init lo hi m : 2 ≤ hi - lo < 2 ^ 32 → mapped m lo (hi - lo) →
  queue (consprod_init lo hi) m [].
Proof.
  intros Hn Hm. unfold consprod_init. constructor; unfold capacity, slot, in_ring, ring_size; simpl;
    [lia|lia|lia|rewrite Z.mod_small; lia|done|done|done].
Qed.

(** Taking a byte. *)
Lemma queue_pop cp m b q :
  queue cp m (b :: q) →
  m !! slot cp 0 = Some b ∧
  queue (Consprod (buffer_start cp) (buffer_end cp) (prod cp) (slot cp 0)) m q.
Proof.
  intros [Hs Hc Hr Hp Hb Hm Hw]. apply Forall_cons in Hw as [_ Hw]. split; [by apply (Hb 0%nat)|].
  assert (∀ i, slot (Consprod (buffer_start cp) (buffer_end cp) (prod cp) (slot cp 0)) i = slot cp (i + 1))
    as E by (intros; apply slot_set_cons; [done|lia]).
  constructor; [done| | | | |done|done].
  - apply (slot_in_ring cp). lia.
  - simpl in Hr. unfold capacity, ring_size in *. simpl. lia.
  - rewrite E. simpl. rewrite Hp. f_equal. simpl. lia.
  - intros i c Hi. rewrite E, <- (Hb (S i) c Hi). do 2 f_equal. lia.
Qed.

(** Adding a byte: the slot of [prod] is free. *)
Lemma queue_push cp m q b :
  queue cp m q → ZL q < capacity cp → is_byte b →
  queue (Consprod (buffer_start cp) (buffer_end cp) (cp_ptr_next cp (prod cp)) (cons cp))
    (<[prod cp := b]> m) (q ++ [b]).
Proof.
  intros [Hs Hc Hr Hp Hb Hm Hw] Hcap Hbb. unfold capacity in Hcap.
  constructor; [done|done| | | | |].
  - rewrite length_app. unfold capacity, ring_size in *. simpl. lia.
  - change (slot _ ?i) with (slot cp i). simpl. rewrite Hp, next_slot by lia.
    rewrite length_app. f_equal. simpl. lia.
  - intros i c Hi. change (slot _ ?i) with (slot cp i). rewrite Hp.
    destruct (decide (i = length q)) as [->|Hne].
    + rewrite lookup_app_r, Nat.sub_diag in Hi by lia. injection Hi as ->. apply lookup_insert_eq.
    + pose proof (lookup_lt_Some _ _ _ Hi) as Hl. rewrite length_app in Hl. simpl in Hl.
      rewrite lookup_insert_ne.
      * apply Hb. by rewrite lookup_app_l in Hi by lia.
      * intros E. apply slot_inj in E; lia.
  - by apply mapped_insert.
  - apply Forall_app. by rewrite Forall_singleton.
Qed.

(** The tests of the two loops. *)
Lemma queue_empty_test cp m q : queue cp m q →
  (cp_ptr_next cp (cons cp) =? prod cp) = match q with [] => true | _ => false end.
Proof.
  intros [Hs Hc Hr Hp _ _ _]. rewrite <- (slot_cons cp Hc) at 1. rewrite next_slot, Hp by lia.
  destruct q as [|b q]; [by apply Z.eqb_eq|]. apply Z.eqb_neq. intros E.
  unfold capacity in Hr. apply slot_inj in E; simpl in *; lia.
Qed.

Lemma queue_full_test cp m q : queue cp m q →
  (cp_ptr_next cp (prod cp) =? cons cp) = (ZL q =? capacity cp).
Proof.
  intros [Hs Hc Hr Hp _ _ _]. rewrite Hp, next_slot by lia. rewrite <- (slot_cons cp Hc).
  unfold capacity in *. destruct (Z.eqb_spec (ZL q) (ring_size cp - 2)) as [E|E].
  - apply Z.eqb_eq. unfold slot. f_equal.
    replace (cons cp - buffer_start cp + 1 + (ZL q + 1))
      with (cons cp - buffer_start cp + 1 + -1 + 1 * ring_size cp) by lia.
    by rewrite Z.mod_add by lia.
  - apply Z.eqb_neq. intros E'. apply slot_inj in E'; lia.
Qed.

(** The queue does not see writes outside its buffer. *)
Lemma queue_frame cp m m' q :
  queue cp m q → (∀ a, in_ring cp a → m' !! a = m !! a) → queue cp m' q.
Proof.
  intros [Hs Hc Hr Hp Hb Hm Hw] Hf. constructor; [done..| | |done].
  - intros i b Hi. rewrite Hf; [by apply Hb|]. apply slot_in_ring. lia.
  - intros a Ha. rewrite Hf; [by apply Hm|]. unfold in_ring, ring_size in *. lia.
Qed.
End Queue.

(** * The copying loops *)
Section Loops.
Implicit Types (cp : consprod_t) (m : mem) (q l : list Z) (s : ring_state).

Lemma wp_in_load s a b (Q : Z → ring_state → Prop) :
  r_mem s !! a = Some b → Q b s → wp (in_mem (loadb a)) Q s.
Proof. intros H HQ. apply wp_zoom, wp_loadb with b; [done|]. by destruct s. Qed.

Lemma wp_in_store s a v (Q : () → ring_state → Prop) :
  is_Some (r_mem s !! a) → Q () (RingState (r_cp s) (<[a := u8 v]> (r_mem s))) →
  wp (in_mem (storeb a v)) Q s.
Proof. intros H HQ. by apply wp_zoom, wp_storeb. Qed.

(** The caller's buffer: mapped, and no part of the ring. *)
Definition outside cp (m : mem) (buf len : Z) : Prop :=
  mapped m buf len ∧ ∀ a, buf ≤ a < buf + len → ¬ in_ring cp a.

Definition same_buffer cp cp' : Prop :=
  buffer_start cp' = buffer_start cp ∧ buffer_end cp' = buffer_end cp.

Lemma same_buffer_in cp cp' a : same_buffer cp cp' → in_ring cp' a ↔ in_ring cp a.
Proof. intros [E1 E2]. unfold in_ring. by rewrite E1, E2. Qed.

Lemma same_buffer_trans cp1 cp2 cp3 :
  same_buffer cp1 cp2 → same_buffer cp2 cp3 → same_buffer cp1 cp3.
Proof. unfold same_buffer. intuition congruence. Qed.

Lemma same_buffer_capacity cp cp' : same_buffer cp cp' → capacity cp' = capacity cp.
Proof. intros [E1 E2]. unfold capacity, ring_size. by rewrite E1, E2. Qed.

Lemma queue_length cp m q : queue cp m q → ZL q < 2 ^ 32.
Proof. intros H. pose proof (q_room _ _ _ H). pose proof (q_size _ _ _ H). unfold capacity in *. lia. Qed.

Lemma take_S_lookup {A} (q : list A) (k : nat) : (k < length q)%nat →
  ∃ b, q !! k = Some b ∧ take (S k) q = take k q ++ [b] ∧ drop k q = b :: drop (S k) q.
Proof.
  intros H. destruct (lookup_lt_is_Some_2 q k H) as [b Hb]. exists b.
  split_and!; [done|by apply take_S_r|by apply drop_S].
Qed.

(** What a consuming loop has done: [k] bytes are in the caller's buffer. *)
Definition consumed cp m q (buf : Z) (k : nat) s : Prop :=
  r_mem s = mem_write m buf (take k q) ∧ queue (r_cp s) (r_mem s) (drop k q) ∧
  same_buffer cp (r_cp s) ∧ prod (r_cp s) = prod cp.

Lemma consume_loop_spec cp m q buf len :
  queue cp m q → outside cp m buf len → 0 ≤ len →
  wp (consume_loop (prod cp) len buf (cp_ptr_next cp (cons cp))) (λ r s,
    let k := Z.to_nat (Z.min len (ZL q)) in
    r = (len - Z.of_nat k, buf + Z.of_nat k) ∧ consumed cp m q buf k s) (RingState cp m).
Proof.
  intros Hq [Hmap Hout] Hlen. pose proof (queue_length _ _ _ Hq).
  apply (wp_loop_ix (λ n '(x, b, c) s, ∃ k : nat, n = ZL q - Z.of_nat k ∧ (k ≤ length q)%nat ∧
    Z.of_nat k ≤ len ∧ x = len - Z.of_nat k ∧ b = buf + Z.of_nat k ∧
    c = cp_ptr_next (r_cp s) (cons (r_cp s)) ∧ consumed cp m q buf k s) _ _ (ZL q)).
  { exists 0%nat. unfold consumed. rewrite drop_0. simpl. split_and!; try done; lia. }
  { lia. }
  intros n [[x b] c] s (k & -> & Hk & Hkl & -> & -> & -> & Hm & Hqs & Hsb & Hp). split; [lia|].
  rewrite <- Hp, (queue_empty_test _ _ _ Hqs).
  destruct (Z.eqb_spec (len - Z.of_nat k) 0).
  { apply wp_ret. replace (Z.to_nat (Z.min len (ZL q))) with k by lia. done. }
  destruct (decide (k = length q)) as [->|Hne].
  { rewrite drop_all. apply wp_ret. replace (Z.to_nat (Z.min len (ZL q))) with (length q) by lia. done. }
  destruct (take_S_lookup q k ltac:(lia)) as (v & Hv & Ht & Hd). rewrite Hd in *. simpl.
  destruct (queue_pop _ _ _ _ Hqs) as [Hb Hpop].
  rewrite (queue_next_cons _ _ _ Hqs).
  assert (is_byte v) as Hvb by (eapply Forall_lookup_1; [apply Hq|done]).
  assert (r_mem s !! (buf + Z.of_nat k) ≠ None) as Hmk.
  { rewrite Hm. apply not_eq_None_Some, (mapped_write _ buf len); [done|lia]. }
  apply wp_bind. eapply wp_in_load; [done|]. apply wp_bind, wp_in_store.
  { by apply not_eq_None_Some. }
  wp_pures. exists (ZL q - Z.of_nat (S k)). split; [lia|]. exists (S k).
  rewrite (u8_small v) by done. destruct s as [cp' m']. simpl in *.
  assert (<[buf + Z.of_nat k := v]> m' = mem_write m buf (take (S k) q)) as Em.
  { rewrite Ht, mem_write_snoc, <- Hm. do 2 f_equal. rewrite length_take. lia. }
  split_and!; [lia| |lia|lia|lia| |].
  { pose proof (lookup_lt_Some _ _ _ Hv). lia. }
  { done. }
  unfold consumed. cbn [r_cp r_mem set_cons]. split_and!; [done| |done|done].
  eapply queue_frame; [exact Hpop|]. intros a Ha. rewrite lookup_insert_ne; [done|].
  intros <-. apply (Hout (buf + Z.of_nat k)); [lia|]. by apply (same_buffer_in _ _ _ Hsb) in Ha.
Qed.

(** What a producing loop has done: [k] bytes have joined the queue. *)
Definition produced cp m q l (k : nat) s : Prop :=
  queue (r_cp s) (r_mem s) (q ++ take k l) ∧ same_buffer cp (r_cp s) ∧ cons (r_cp s) = cons cp ∧
  (∀ a, ¬ in_ring cp a → r_mem s !! a = m !! a).

Lemma produce_loop_spec cp m q buf l :
  queue cp m q → arr m buf l → (∀ a, buf ≤ a < buf + ZL l → ¬ in_ring cp a) → Forall is_byte l →
  wp (produce_loop (cons cp) (ZL l) buf (cp_ptr_next cp (prod cp))) (λ r s,
    let k := Z.to_nat (Z.min (ZL l) (capacity cp - ZL q)) in
    r = (ZL l - Z.of_nat k, buf + Z.of_nat k) ∧ produced cp m q l k s) (RingState cp m).
Proof.
  intros Hq Ha Hout Hlb. pose proof (q_room _ _ _ Hq). pose proof (q_size _ _ _ Hq) as Hsz.
  set (room := capacity cp - ZL q).
  apply (wp_loop_ix (λ n '(x, b, p) s, ∃ k : nat, n = room - Z.of_nat k ∧ Z.of_nat k ≤ room ∧
    (k ≤ length l)%nat ∧ x = ZL l - Z.of_nat k ∧ b = buf + Z.of_nat k ∧
    p = cp_ptr_next (r_cp s) (prod (r_cp s)) ∧ produced cp m q l k s) _ _ room).
  { exists 0%nat. unfold produced. rewrite take_0, app_nil_r. simpl. split_and!; try done; lia. }
  { unfold room, capacity in *. lia. }
  intros n [[x b] p] s (k & -> & Hk & Hkl & -> & -> & -> & Hqs & Hsb & Hcs & Hfr). split; [lia|].
  rewrite <- Hcs, (queue_full_test _ _ _ Hqs), (same_buffer_capacity _ _ Hsb).
  assert (ZL (q ++ take k l) = ZL q + Z.of_nat k) as El by (rewrite length_app, length_take; lia).
  destruct (Z.eqb_spec (ZL l - Z.of_nat k) 0).
  { apply wp_ret. replace (Z.to_nat (Z.min (ZL l) room)) with k by lia. done. }
  rewrite El. destruct (Z.eqb_spec (ZL q + Z.of_nat k) (capacity cp)).
  { apply wp_ret. replace (Z.to_nat (Z.min (ZL l) room)) with k by lia. done. }
  destruct (take_S_lookup l k ltac:(lia)) as (v & Hv & Ht & _). simpl.
  assert (is_byte v) as Hvb by (by eapply Forall_lookup_1).
  assert (r_mem s !! (buf + Z.of_nat k) = Some v) as Hld.
  { rewrite Hfr; [by eapply arr_lookup in Ha|]. apply Hout. lia. }
  assert (ZL (q ++ take k l) < capacity (r_cp s)) as Hroom
    by (rewrite (same_buffer_capacity _ _ Hsb); lia).
  pose proof (queue_push _ _ _ v Hqs Hroom Hvb) as Hpush.
  assert (in_ring (r_cp s) (prod (r_cp s))) as Hpin.
  { rewrite (q_prod _ _ _ Hqs). apply slot_in_ring, Hqs. }
  apply wp_bind. eapply wp_in_load; [done|]. wp_pures. apply wp_in_store.
  { apply (q_mapped _ _ _ Hqs). unfold in_ring, ring_size in *. lia. }
  wp_pures. exists (room - Z.of_nat (S k)). split; [lia|]. exists (S k).
  rewrite (u8_small v) by done. destruct s as [cp' m']. simpl in *.
  split_and!; try done; try lia; [].
  split_and!; [by rewrite Ht, app_assoc|done..|].
  intros a Hna. simpl. rewrite lookup_insert_ne; [by apply Hfr|].
  intros <-. apply Hna. by apply (same_buffer_in _ _ _ Hsb).
Qed.
End Loops.

(** * Calls that do not wait *)
Section NoWait.
Context {T : Type} `{HasRing T}.
Implicit Types (q l : list Z) (irqs : list (irq T)) (s : T).

Lemma wp_in_ring_state {A} (m : M ring_state A) Q s :
  wp m (λ a r, Q a (with_ring r s)) (ring_of s) → wp (in_ring_state m) Q s.
Proof. apply wp_zoom. Qed.

Lemma ring_eta r : r = RingState (r_cp r) (r_mem r).
Proof. by destruct r. Qed.

(** Both answers of a call that does not wait are [len - x]. *)
Lemma nowait_answer (x len : Z) irqs : 0 ≤ x →
  (if 0 <? x then mret (len - x, irqs) else mret (len, irqs)) =
  (mret (len - x, irqs) : M T (Z * list (irq T))).
Proof. intros. destruct (Z.ltb_spec 0 x); [done|]. do 2 f_equal. lia. Qed.

Lemma consume_nowait_spec s q irqs buf len :
  queue (cp_of s) (mem_of s) q → outside (cp_of s) (mem_of s) buf len → 0 ≤ len →
  wp (consprod_consume irqs buf len false) (λ '(r, irqs') s', ∃ ring,
    r = Z.min len (ZL q) ∧ irqs' = irqs ∧ s' = with_ring ring s ∧
    consumed (cp_of s) (mem_of s) q buf (Z.to_nat r) ring) s.
Proof.
  intros Hq Hout Hlen. set (k := Z.to_nat (Z.min len (ZL q))).
  unfold consprod_consume. destruct (length irqs); simpl; wp_pures; apply wp_in_ring_state;
    rewrite (ring_eta (ring_of s));
    (eapply wp_mono; [by apply consume_loop_spec|]); fold k; intros [x b] r [[= -> ->] Hc];
    rewrite nowait_answer by lia; apply wp_ret; cbn beta iota;
    replace (len - (len - Z.of_nat k)) with (Z.of_nat k) by lia;
    exists r; rewrite Nat2Z.id; (split; [lia|by split]).
Qed.

Lemma produce_nowait_spec s q irqs buf l :
  queue (cp_of s) (mem_of s) q → arr (mem_of s) buf l →
  (∀ a, buf ≤ a < buf + ZL l → ¬ in_ring (cp_of s) a) → Forall is_byte l →
  wp (consprod_produce irqs buf (ZL l) false) (λ '(r, irqs') s', ∃ ring,
    r = Z.min (ZL l) (capacity (cp_of s) - ZL q) ∧ irqs' = irqs ∧ s' = with_ring ring s ∧
    produced (cp_of s) (mem_of s) q l (Z.to_nat r) ring) s.
Proof.
  unfold cp_of, mem_of. intros Hq Ha Hout Hb.
  set (k := Z.to_nat (Z.min (ZL l) (capacity (r_cp (ring_of s)) - ZL q))).
  pose proof (q_room _ _ _ Hq) as Hr.
  unfold consprod_produce. destruct (length irqs); simpl; wp_pures; apply wp_in_ring_state;
    rewrite (ring_eta (ring_of s));
    (eapply wp_mono; [by apply produce_loop_spec|]); fold k; intros [x b] r [[= -> ->] Hc];
    rewrite nowait_answer by lia; apply wp_ret; cbn beta iota;
    replace (ZL l - (ZL l - Z.of_nat k)) with (Z.of_nat k) by lia; cbn [r_cp r_mem];
    exists r; rewrite Nat2Z.id; (split; [lia|by split]).
Qed.

(** A call that finds enough room returns at once, whether it may wait or not. *)
Lemma produce_room_spec s q irqs buf l wait :
  queue (cp_of s) (mem_of s) q → arr (mem_of s) buf l →
  (∀ a, buf ≤ a < buf + ZL l → ¬ in_ring (cp_of s) a) → Forall is_byte l →
  ZL l ≤ capacity (cp_of s) - ZL q →
  wp (consprod_produce irqs buf (ZL l) wait) (λ '(r, irqs') s', ∃ ring,
    r = ZL l ∧ irqs' = irqs ∧ s' = with_ring ring s ∧
    produced (cp_of s) (mem_of s) q l (length l) ring) s.
Proof.
  unfold cp_of, mem_of. intros Hq Ha Hout Hb Hroom.
  unfold consprod_produce. destruct (length irqs); simpl; wp_pures; apply wp_in_ring_state;
    rewrite (ring_eta (ring_of s));
    (eapply wp_mono; [by apply produce_loop_spec|]); rewrite Z.min_l, Nat2Z.id by done;
    intros [x b] r [[= -> ->] Hc]; rewrite Z.sub_diag; apply wp_ret; by exists r.
Qed.

(** C19 A call that does not wait treats the ring as a bounded queue: consuming takes
    the first [min len |q|] bytes in order into the caller's buffer and changes nothing
    else, producing appends the first [min len room] bytes of the caller's buffer and
    leaves everything outside the ring alone; both answer the number of bytes. *)
Theorem ring_without_wait s q irqs buf len l :
  queue (cp_of s) (mem_of s) q →
  (outside (cp_of s) (mem_of s) buf len → 0 ≤ len →
   wp (consprod_consume irqs buf len false) (λ '(r, irqs') s', ∃ ring,
     r = Z.min len (ZL q) ∧ irqs' = irqs ∧ s' = with_ring ring s ∧
     consumed (cp_of s) (mem_of s) q buf (Z.to_nat r) ring) s) ∧
  (arr (mem_of s) buf l → (∀ a, buf ≤ a < buf + ZL l → ¬ in_ring (cp_of s) a) →
   Forall is_byte l →
   wp (consprod_produce irqs buf (ZL l) false) (λ '(r, irqs') s', ∃ ring,
     r = Z.min (ZL l) (capacity (cp_of s) - ZL q) ∧ irqs' = irqs ∧ s' = with_ring ring s ∧
     produced (cp_of s) (mem_of s) q l (Z.to_nat r) ring) s).
Proof. intros Hq. split; intros; [by apply consume_nowait_spec|by apply produce_nowait_spec]. Qed.
End NoWait.

(** * Calls that wait *)
Section Wait.
Context {T : Type} `{HasRing T} (cp0 : consprod_t) (Inv : T → Prop) (lo hi : Z).
Context (Inv_ring : ∀ r s, Inv s →
  (∀ a, is_Some (mem_of s !! a) → is_Some (r_mem r !! a)) → Inv (with_ring r s)).
Implicit Types (cp : consprod_t) (m : mem) (q d : list Z) (irqs : list (irq T)) (s : T).

(** Bytes of the caller between [lo] and [hi] are kept. *)
Definition keeps s s' : Prop := ∀ a, lo ≤ a < hi → mem_of s' !! a = mem_of s !! a.

(** The ring at [cp0] holds the queue [q]; [Inv] is what the interrupt handlers rely on. *)
Definition holds q s : Prop :=
  Inv s ∧ queue (cp_of s) (mem_of s) q ∧ same_buffer cp0 (cp_of s).

(** An interrupt that puts the bytes [d] into the empty ring. *)
Definition delivers (i : irq T) d : Prop := ∀ s, holds [] s →
  wp i (λ _ s', holds d s' ∧ cons (cp_of s') = cons (cp_of s) ∧ keeps s s') s.

Lemma same_slot cp cp' i : same_buffer cp0 cp → same_buffer cp0 cp' → cons cp' = cons cp →
  slot cp' i = slot cp i.
Proof. intros [E1 E2] [E3 E4] E. unfold slot, ring_size. by rewrite E1, E2, E3, E4, E. Qed.

(** What the last of the recursive calls copies, when [len] bytes are asked for, the queue is [q] and each further
    call finds what the next interrupt with data brought. *)
Fixpoint last_piece (len : Z) q (ds : list (list Z)) : Z :=
  if len <=? ZL q then len
  else
    match ds with
    | [] => 0
    | d :: ds => last_piece (len - ZL q) d ds
    end.

Lemma last_piece_once len q ds : len ≤ ZL q → last_piece len q ds = len.
Proof. intros Hl. destruct ds; simpl; by rewrite (proj2 (Z.leb_le _ _) Hl). Qed.

Lemma last_piece_next len d ds : 0 < len → last_piece len [] (d :: ds) = last_piece len d ds.
Proof.
  intros Hl. cbn [last_piece length]. change (Z.of_nat 0) with 0. by rewrite (proj2 (Z.leb_gt _ _) Hl), Z.sub_0_r.
Qed.

Lemma last_piece_wait len q ds : ZL q < len → last_piece len q ds = last_piece (len - ZL q) [] ds.
Proof.
  intros Hl. destruct ds as [|d ds]; [|rewrite last_piece_next by lia]; cbn [last_piece length];
    by rewrite !(proj2 (Z.leb_gt _ _)) by lia.
Qed.

(** The interrupts still to come, and what they will bring. *)
Definition to_come irqs ds irqs' ds' : Prop :=
  Forall2 delivers irqs' ds' ∧ ∃ n, irqs' = drop n irqs ∧ ds' = drop n ds.

Lemma to_come_later irqs0 ds0 irqs1 ds1 irqs2 ds2 :
  to_come irqs0 ds0 irqs1 ds1 → to_come irqs1 ds1 irqs2 ds2 → to_come irqs0 ds0 irqs2 ds2.
Proof.
  intros [_ (n & -> & ->)] [HF (k & -> & ->)]. split; [done|]. exists (n + k)%nat. by rewrite !drop_drop.
Qed.

(** Polling ends with the first interrupt that delivers something. *)
Lemma wait_data irqs ds s :
  Forall2 delivers irqs ds → concat ds ≠ [] →
  holds [] s →
  wp (wait_while (λ cp, prod cp =? prod (cp_of s)) irqs) (λ irqs' s', ∃ d ds',
    to_come irqs ds irqs' ds' ∧ concat ds = d ++ concat ds' ∧ (length irqs' < length irqs)%nat ∧
    (∀ len, 0 < len → last_piece len [] ds = last_piece len d ds') ∧ holds d s' ∧ keeps s s') s.
Proof.
  intros HF Hne Hh. set (p := prod (cp_of s)).
  assert (p = slot (cp_of s) 0) as Hp by apply Hh. clearbody p.
  revert s Hh Hp. induction HF as [|i d irqs ds Hi HF IH]; intros s Hh Hp; [done|].
  simpl. wp_pures. assert (prod (cp_of s) = p) as -> by (rewrite Hp; apply Hh).
  rewrite Z.eqb_refl. apply wp_bind.
  eapply wp_mono; [by apply (Hi s)|]. intros _ s1 (Hh1 & Hc1 & Hk1).
  destruct d as [|b d].
  - eapply wp_mono; [apply IH; try done|].
    + rewrite Hp. symmetry. apply same_slot; [apply Hh|apply Hh1|done].
    + intros irqs' s' (d' & ds' & [? (n & ? & ?)] & ? & ? & Hlp & ? & Hk). exists d', ds'.
      split; [split; [done|by exists (S n)]|split; [done|split; [simpl; lia|split; [|split; [done|]]]]].
      * intros len Hlen. rewrite <- (Hlp len Hlen). by apply last_piece_next.
      * intros a Ha. rewrite Hk by done. by apply Hk1.
  - assert (prod (cp_of s1) ≠ p) as Hpp.
    { destruct Hh1 as (_ & Hq1 & Hb1).
      rewrite Hp, (q_prod _ _ _ Hq1), <- (same_slot _ _ 0 (proj2 (proj2 Hh)) Hb1) by done. intros E.
      pose proof (q_room _ _ _ Hq1). pose proof (q_size _ _ _ Hq1). unfold capacity in *.
      apply slot_inj in E; simpl in *; lia. }
    destruct irqs as [|i2 irqs]; simpl; wp_pures;
      (destruct (Z.eqb_spec (prod (cp_of s1)) p); [done|]); apply wp_ret;
      exists (b :: d), ds;
      (split; [split; [done|by exists 1%nat]|split; [done|split; [simpl; lia|split; [|by split]]]]);
      intros len Hlen; by apply last_piece_next.
Qed.

(** Without data polling never ends. *)
Lemma wait_nothing irqs ds s :
  Forall2 delivers irqs ds → concat ds = [] →
  holds [] s →
  wait_while (λ cp, prod cp =? prod (cp_of s)) irqs s = Spin.
Proof.
  intros HF Hne Hh. set (p := prod (cp_of s)).
  assert (p = slot (cp_of s) 0) as Hp by apply Hh. clearbody p.
  revert s Hh Hp. induction HF as [|i d irqs ds Hi HF IH]; intros s Hh Hp; simpl;
    unfold mbind, M_bind, gets; assert (prod (cp_of s) = p) as -> by (rewrite Hp; apply Hh);
    rewrite Z.eqb_refl; [done|].
  apply app_eq_nil in Hne as [-> Hne].
  destruct (wp_inv _ _ _ (Hi s Hh)) as ([] & s1 & -> & Hh1 & Hc1 & Hk1).
  apply IH; try done. rewrite Hp. symmetry. apply same_slot; [apply Hh|apply Hh1|done].
Qed.

(** A caller's buffer between [lo] and [hi], outside the ring. *)
Definition caller (buf len : Z) s : Prop :=
  mapped (mem_of s) buf len ∧ (∀ a, buf ≤ a < buf + len → ¬ in_ring cp0 a) ∧ lo ≤ buf ∧ buf + len ≤ hi.

Lemma caller_outside buf len s : same_buffer cp0 (cp_of s) → caller buf len s →
  outside (cp_of s) (mem_of s) buf len.
Proof.
  intros Hb (Hm & Ho & _). split; [done|]. intros a Ha Hin. apply (Ho a Ha).
  by apply (same_buffer_in _ _ _ Hb).
Qed.

Lemma caller_later buf len k s s1 s2 : caller buf len s → 0 ≤ k ≤ len →
  (∀ a, is_Some (mem_of s !! a) → is_Some (mem_of s1 !! a)) → keeps s1 s2 →
  caller (buf + k) (len - k) s2.
Proof.
  intros (Hm & Ho & Hl & Hh) Hk H1 H2. split; [|split; [|lia]].
  - intros a Ha. rewrite H2 by lia. apply H1, Hm. lia.
  - intros a Ha. apply Ho. lia.
Qed.

Lemma consume_rec_unfold fuel irqs buf len wait :
  consume_rec fuel irqs buf len wait =
    (cp ← gets cp_of;
     '(x, buf') ← in_ring_state (consume_loop (prod cp) len buf (cp_ptr_next cp (cons cp)));
     if 0 <? x then
       if wait then
         irqs' ← wait_while (λ cp', prod cp' =? prod cp) irqs;
         match fuel with O => spin | S fuel' => consume_rec fuel' irqs' buf' x wait end
       else mret (len - x, irqs)
     else mret (len, irqs)).
Proof. by destruct fuel. Qed.

Definition received q ds (irqs0 : list (irq T)) (buf len : Z) s : Z * list (irq T) → T → Prop :=
  λ '(r, irqs') s', ∃ rest ds',
    to_come irqs0 ds irqs' ds' ∧
    holds rest s' ∧
    arr (mem_of s') buf (take (Z.to_nat len) (q ++ concat ds)) ∧
    drop (Z.to_nat len) (q ++ concat ds) = rest ++ concat ds' ∧
    (∀ a, lo ≤ a < buf → mem_of s' !! a = mem_of s !! a) ∧
    (len ≤ ZL q → irqs' = irqs0) ∧ r = last_piece len q ds.

(** The first loop of a call: what it leaves. *)
Lemma first_loop s q buf len r1 : holds q s → caller buf len s → 0 ≤ len →
  consumed (cp_of s) (mem_of s) q buf (Z.to_nat (Z.min len (ZL q))) r1 →
  let s1 := with_ring r1 s in let k := Z.to_nat (Z.min len (ZL q)) in
  holds (drop k q) s1 ∧ prod (cp_of s1) = prod (cp_of s) ∧
  mem_of s1 = mem_write (mem_of s) buf (take k q) ∧
  (∀ a, is_Some (mem_of s !! a) → is_Some (mem_of s1 !! a)).
Proof.
  intros (HI & Hq & Hb) Hc H0 (Hm1 & Hq1 & Hb1 & Hp1) s1 k.
  assert (cp_of s1 = r_cp r1) as Ec by (unfold s1, cp_of; by rewrite ring_of_with).
  assert (mem_of s1 = r_mem r1) as Em by (unfold s1, mem_of; by rewrite ring_of_with).
  assert (∀ a, is_Some (mem_of s !! a) → is_Some (r_mem r1 !! a)) as Hd.
  { intros a Ha. rewrite Hm1. apply (mapped_write (mem_of s) a 1); [|lia].
    intros x Hx. by replace x with a by lia. }
  unfold holds. rewrite Ec, Em. split; [|by split].
  split; [by apply Inv_ring|]. split; [done|].
  unfold same_buffer in *. intuition congruence.
Qed.

Lemma consume_wait_spec fuel irqs ds q buf len s :
  Forall2 delivers irqs ds → (length irqs ≤ fuel)%nat →
  holds q s → caller buf len s →
  0 ≤ len ≤ ZL (q ++ concat ds) →
  wp (consume_rec fuel irqs buf len true) (received q ds irqs buf len s) s.
Proof.
  revert fuel ds q buf len s. induction irqs as [irqs IH] using (induction_ltof1 _ (@length (irq T))).
  unfold ltof in IH. intros fuel ds q buf len s HF Hfuel Hh Hc Hlen. rewrite consume_rec_unfold.
  destruct Hh as (HI & Hq & Hb).
  pose proof (consume_loop_spec _ _ _ _ _ Hq (caller_outside _ _ _ Hb Hc) ltac:(lia)) as Hloop.
  wp_pures. apply wp_in_ring_state. rewrite (ring_eta (ring_of s)).
  eapply wp_mono; [exact Hloop|]. intros [x b] r1 [[= -> ->] Hc1].
  apply first_loop in Hc1 as (Hh1 & Hp1 & Hm1 & Hd1); [|by split_and!|done|lia].
  set (s1 := with_ring r1 s) in *. clearbody s1.
  destruct (Z.le_gt_cases len (ZL q)) as [Hle|Hgt].
  { rewrite Z.min_l in * by done. rewrite Z2Nat.id by lia. replace (len - len) with 0 by lia.
    apply wp_ret. exists (drop (Z.to_nat len) q), ds.
    rewrite take_app_le, drop_app_le, last_piece_once by lia.
    split; [split; [done|by exists 0%nat]|split; [done|]]. split_and!; try done; try lia.
    - rewrite Hm1. apply (mem_write_arr (mem_of s)).
    - intros a Ha. rewrite Hm1. apply mem_write_lookup_out. lia. }
  rewrite Z.min_r in * by lia. rewrite Nat2Z.id in *. rewrite drop_all in Hh1.
  rewrite (proj2 (Z.ltb_lt 0 _)) by lia. apply wp_bind. rewrite <- Hp1.
  assert (concat ds ≠ []) as Hne by (intros E; rewrite E, app_nil_r in Hlen; lia).
  eapply wp_mono; [by apply (wait_data irqs ds)|].
  intros irqs2 s2 (d & ds2 & HT2 & Ed & Hlt & Hlp & Hh2 & Hk2).
  destruct fuel as [|fuel]; [lia|]. eapply wp_mono.
  { apply (IH irqs2 Hlt fuel ds2 d _ _ s2); try done; [apply HT2|lia| |rewrite <- Ed; rewrite length_app in Hlen; lia].
    apply (caller_later _ _ _ s s1); [done|lia|done|done]. }
  intros [r irqs3] s3 (rest & ds3 & HT3 & Hh3 & Ha3 & Hd3 & Hk3 & Hr1 & Hr2).
  exists rest, ds3. rewrite take_app_ge, drop_app_ge by lia. rewrite Ed in *.
  replace (Z.to_nat len - length q)%nat with (Z.to_nat (len - ZL q)) by lia.
  split; [by eapply to_come_later|split; [done|]]. split_and!; try done; [| |lia|rewrite last_piece_wait, Hlp by lia; exact Hr2].
  - apply arr_app. split; [|done]. apply arr_lookup. intros i v Hi.
    pose proof (lookup_lt_Some _ _ _ Hi) as Hil. destruct Hc as (_ & _ & Hl & Hh).
    rewrite Hk3, Hk2, Hm1, firstn_all by lia.
    by apply (proj1 (arr_lookup _ _ _) (mem_write_arr (mem_of s) buf q)).
  - intros a Ha. destruct Hc as (_ & _ & Hl & Hh). rewrite Hk3, Hk2, Hm1 by lia.
    apply mem_write_lookup_out. lia.
Qed.

(** If less than [len] bytes ever arrive the call does not return. *)
Lemma consume_wait_starved fuel irqs ds q buf len s :
  Forall2 delivers irqs ds → (length irqs ≤ fuel)%nat →
  holds q s → caller buf len s →
  0 ≤ len → ZL (q ++ concat ds) < len →
  consume_rec fuel irqs buf len true s = Spin.
Proof.
  revert fuel ds q buf len s. induction irqs as [irqs IH] using (induction_ltof1 _ (@length (irq T))).
  unfold ltof in IH. intros fuel ds q buf len s HF Hfuel Hh Hc H0 Hlen. rewrite consume_rec_unfold.
  destruct Hh as (HI & Hq & Hb).
  pose proof (consume_loop_spec _ _ _ _ _ Hq (caller_outside _ _ _ Hb Hc) H0) as Hloop.
  apply wp_inv in Hloop as ([x b] & r1 & Hloop & [= -> ->] & Hc1).
  unfold mbind at 1 2, M_bind at 1 2, gets, in_ring_state, zoom.
  change (RingState (cp_of s) (mem_of s)) with (RingState (r_cp (ring_of s)) (r_mem (ring_of s))) in Hloop.
  rewrite <- ring_eta in Hloop. rewrite Hloop.
  apply first_loop in Hc1 as (Hh1 & Hp1 & Hm1 & Hd1); [|by split_and!|done|lia].
  set (s1 := with_ring r1 s) in *. clearbody s1. rewrite length_app in Hlen.
  rewrite Z.min_r in * by lia. rewrite Nat2Z.id in *. rewrite drop_all in Hh1.
  rewrite (proj2 (Z.ltb_lt 0 _)) by lia. rewrite <- Hp1. unfold mbind, M_bind.
  destruct (decide (concat ds = [])) as [He|Hne]; [by rewrite (wait_nothing irqs ds)|].
  destruct (wp_inv _ _ _ (wait_data irqs ds s1 HF Hne Hh1))
    as (irqs2 & s2 & -> & d & ds2 & [HF2 _] & Ed & Hlt & _ & Hh2 & Hk2).
  destruct fuel as [|fuel]; [done|]. rewrite Ed, length_app in Hlen.
  apply (IH irqs2 Hlt fuel ds2 d); try done; [lia| |lia|rewrite length_app; lia].
  apply (caller_later _ _ _ s s1); [done|lia|done|done].
Qed.
End Wait.


(** * The two sides interleaved

    consprod.c has no lock: a producer and a consumer run at the same time (the main
    program and an interrupt handler), each between any two accesses of the other.
    One step below is one access to the shared ring: the program counters keep the
    local variables of consprod_produce and consprod_consume, stale copies of the
    other side's pointer included. *)
Module Spsc.
Inductive producer : Type :=
  | PIdle
  | PTest (l : list Z) (p c : Z) (wait : bool)
  | PStored (b : Z) (l : list Z) (p c : Z) (wait : bool)
  | PPoll (l : list Z) (c : Z).

Inductive consumer : Type :=
  | CIdle
  | CTest (x : nat) (p c : Z) (wait : bool)
  | CRead (b : Z) (x : nat) (p c : Z) (wait : bool)
  | CPoll (x : nat) (p : Z).

(** [sent] and [got] log the bytes published and taken so far. *)
Record state : Type := State {
  ring : consprod_t;
  memory : mem;
  producer_at : producer;
  consumer_at : consumer;
  sent : list Z;
  got : list Z;
}.

Definition publish_prod (cp : consprod_t) (p : Z) : consprod_t :=
  Consprod (buffer_start cp) (buffer_end cp) p (cons cp).
Definition publish_cons (cp : consprod_t) (c : Z) : consprod_t :=
  Consprod (buffer_start cp) (buffer_end cp) (prod cp) c.

Inductive p_step : state → state → Prop :=
  | p_call cp m k so go l wait : Forall is_byte l →
      p_step (State cp m PIdle k so go)
             (State cp m (PTest l (cp_ptr_next cp (prod cp)) (cons cp) wait) k so go)
  | p_done cp m k so go p c wait :
      p_step (State cp m (PTest [] p c wait) k so go) (State cp m PIdle k so go)
  | p_short cp m k so go b l c :
      p_step (State cp m (PTest (b :: l) c c false) k so go) (State cp m PIdle k so go)
  | p_full cp m k so go b l c :
      p_step (State cp m (PTest (b :: l) c c true) k so go)
             (State cp m (PPoll (b :: l) c) k so go)
  | p_store cp m k so go b l p c wait : p ≠ c →
      p_step (State cp m (PTest (b :: l) p c wait) k so go)
             (State cp (<[prod cp := b]> m) (PStored b l p c wait) k so go)
  | p_publish cp m k so go b l p c wait :
      p_step (State cp m (PStored b l p c wait) k so go)
             (State (publish_prod cp p) m (PTest l (cp_ptr_next cp p) c wait) k (so ++ [b]) go)
  | p_poll cp m k so go l : 
      p_step (State cp m (PPoll l (cons cp)) k so go) (State cp m (PPoll l (cons cp)) k so go)
  | p_again cp m k so go l c : cons cp ≠ c →
      p_step (State cp m (PPoll l c) k so go)
             (State cp m (PTest l (cp_ptr_next cp (prod cp)) (cons cp) true) k so go).

Inductive c_step : state → state → Prop :=
  | c_call cp m k so go x wait :
      c_step (State cp m k CIdle so go)
             (State cp m k (CTest x (prod cp) (cp_ptr_next cp (cons cp)) wait) so go)
  | c_done cp m k so go p c wait :
      c_step (State cp m k (CTest 0 p c wait) so go) (State cp m k CIdle so go)
  | c_short cp m k so go x c :
      c_step (State cp m k (CTest (S x) c c false) so go) (State cp m k CIdle so go)
  | c_empty cp m k so go x c :
      c_step (State cp m k (CTest (S x) c c true) so go) (State cp m k (CPoll (S x) c) so go)
  | c_load cp m k so go x p c wait b : c ≠ p → m !! c = Some b →
      c_step (State cp m k (CTest (S x) p c wait) so go)
             (State cp m k (CRead b x p c wait) so go)
  | c_publish cp m k so go b x p c wait :
      c_step (State cp m k (CRead b x p c wait) so go)
             (State (publish_cons cp c) m k (CTest x p (cp_ptr_next cp c) wait) so (go ++ [b]))
  | c_poll cp m k so go x :
      c_step (State cp m k (CPoll x (prod cp)) so go) (State cp m k (CPoll x (prod cp)) so go)
  | c_again cp m k so go x p : prod cp ≠ p →
      c_step (State cp m k (CPoll x p) so go)
             (State cp m k (CTest x (prod cp) (cp_ptr_next cp (cons cp)) true) so go).

Definition step (s t : state) : Prop := p_step s t ∨ c_step s t.

Definition start (lo hi : Z) (m : mem) : state :=
  State (consprod_init lo hi) m PIdle CIdle [] [].

(** ** The invariant: the ring holds what is sent and not yet taken, and a stale pointer
    errs on the safe side ([stale] is how far the consumer has moved past the producer's
    copy of [cons], [known] how many bytes the consumer's copy of [prod] shows). *)
Definition p_inv (cp : consprod_t) (m : mem) (q : list Z) (k : producer) : Prop :=
  let behind (c : Z) (room : Z → Prop) :=
    ∃ stale, 0 ≤ stale ∧ c = slot cp (-1 - stale) ∧ ZL q + stale ≤ capacity cp ∧ room (ZL q + stale) in
  match k with
  | PIdle => True
  | PTest l p c _ => Forall is_byte l ∧ p = cp_ptr_next cp (prod cp) ∧ behind c (λ _, True)
  | PStored b l p c _ =>
      is_byte b ∧ Forall is_byte l ∧ m !! prod cp = Some b ∧ p = cp_ptr_next cp (prod cp) ∧
      behind c (λ used, used < capacity cp)
  | PPoll l c => Forall is_byte l ∧ behind c (λ used, used = capacity cp)
  end.

Definition c_inv (cp : consprod_t) (q : list Z) (k : consumer) : Prop :=
  match k with
  | CIdle => True
  | CTest _ p c _ => c = slot cp 0 ∧ ∃ known, 0 ≤ known ≤ ZL q ∧ p = slot cp known
  | CRead b _ p c _ =>
      c = slot cp 0 ∧ (∃ known, 1 ≤ known ≤ ZL q ∧ p = slot cp known) ∧ head q = Some b
  | CPoll _ p => p = slot cp 0
  end.

Definition inv (lo hi : Z) (s : state) : Prop :=
  same_buffer (consprod_init lo hi) (ring s) ∧
  ∃ q, queue (ring s) (memory s) q ∧ sent s = got s ++ q ∧
       p_inv (ring s) (memory s) q (producer_at s) ∧ c_inv (ring s) q (consumer_at s).

Section Invariant.
Implicit Types (cp : consprod_t) (m : mem) (q l : list Z).

(** Storing in the free slot of [prod] disturbs nobody. *)
Lemma queue_store cp m q b : queue cp m q → queue cp (<[prod cp := b]> m) q.
Proof.
  intros [Hs Hc Hr Hp Hb Hm Hw]. constructor; [done..| |by apply mapped_insert|done].
  intros i v Hi. rewrite lookup_insert_ne; [by apply Hb|]. rewrite Hp. intros E.
  pose proof (lookup_lt_Some _ _ _ Hi). unfold capacity in *. apply slot_inj in E; lia.
Qed.

(** The free slots are those between the queue and the consumer. *)
Lemma free_test cp m q stale : queue cp m q → 0 ≤ stale → ZL q + stale ≤ capacity cp →
  cp_ptr_next cp (prod cp) = slot cp (-1 - stale) ↔ ZL q + stale = capacity cp.
Proof.
  intros [Hs Hc Hr Hp _ _ _] H0 Hle. rewrite Hp, next_slot by lia. unfold capacity in *. split.
  - intros E. destruct (Z.eq_dec (ZL q + stale) (ring_size cp - 2)); [done|].
    apply slot_inj in E; lia.
  - intros E. unfold slot. f_equal.
    replace (cons cp - buffer_start cp + 1 + (ZL q + 1))
      with (cons cp - buffer_start cp + 1 + (-1 - stale) + 1 * ring_size cp) by lia.
    by rewrite Z.mod_add by lia.
Qed.

Lemma p_inv_test cp m q l wait : queue cp m q → Forall is_byte l →
  p_inv cp m q (PTest l (cp_ptr_next cp (prod cp)) (cons cp) wait).
Proof.
  intros Hq Hl. split_and!; [done..|]. exists 0. rewrite Z.add_0_r.
  split_and!; [lia| |apply Hq|done]. by rewrite slot_cons by apply Hq.
Qed.

Lemma c_inv_test cp m q x wait : queue cp m q →
  c_inv cp q (CTest x (prod cp) (cp_ptr_next cp (cons cp)) wait).
Proof.
  intros Hq. split; [by eapply queue_next_cons|]. exists (ZL q). split; [lia|apply Hq].
Qed.

Local Ltac witness_queue q := exists q; split; [|split; [|split]].

Lemma p_step_inv lo hi s t : p_step s t → inv lo hi s → inv lo hi t.
Proof.
  destruct 1; intros (Hsb & q & Hq & Hs & HP & HC); simpl in *;
    (split; [done|]); simpl; try (witness_queue q; done).
  - witness_queue q; [done|done|exact (p_inv_test cp m q l wait Hq H)|done].
  - destruct HP as (Hl & Hp & stale & H0 & Hc & Hr & _). witness_queue q; [done|done| |done].
    split; [done|]. exists stale. split_and!; try done. eapply free_test; [done..|]. by rewrite <- Hp.
  - destruct HP as (Hl & -> & stale & H0 & -> & Hr & _). apply Forall_cons in Hl as [Hb Hl].
    witness_queue q; [by apply queue_store|done| |done].
    split_and!; [done|done|apply lookup_insert_eq|done|].
    exists stale. split_and!; [done..|]. rewrite (free_test cp m q) in H by done. lia.
  - destruct HP as (Hb & Hl & Hm & -> & stale & H0 & -> & Hr & Hroom).
    pose proof (queue_push cp m q b Hq ltac:(lia) Hb) as Hq'. rewrite insert_id in Hq' by done.
    witness_queue (q ++ [b]); [done|by rewrite Hs, app_assoc| |].
    + split; [done|]. split; [done|]. exists stale. rewrite length_app. simpl.
      split_and!; [done|done| |done]. change (capacity _) with (capacity cp). lia.
    + destruct k; try done; simpl in HC |- *; rewrite ?length_app; destruct HC as (? & HC).
      * split; [done|]. destruct HC as (known & ? & ->). exists known. split; [lia|done].
      * destruct HC as ((known & ? & ->) & Hh). split_and!; [done| |by destruct q].
        exists known. split; [lia|done].
  - destruct HP as (Hl & _). witness_queue q; [done|done|exact (p_inv_test cp m q l true Hq Hl)|done].
Qed.

(** Taking the oldest byte moves every slot by one, and the stale pointers with them. *)
Lemma p_inv_pop cp m b q k : queue cp m (b :: q) → p_inv cp m (b :: q) k →
  p_inv (publish_cons cp (slot cp 0)) m q k.
Proof.
  intros Hq. assert (∀ i, slot (publish_cons cp (slot cp 0)) i = slot cp (i + 1)) as E
    by (intros; apply slot_set_cons; apply Hq).
  assert (∀ c (P : Z → Prop),
    (∃ stale, 0 ≤ stale ∧ c = slot cp (-1 - stale) ∧ ZL (b :: q) + stale ≤ capacity cp ∧
      P (ZL (b :: q) + stale)) →
    ∃ stale, 0 ≤ stale ∧ c = slot (publish_cons cp (slot cp 0)) (-1 - stale) ∧
      ZL q + stale ≤ capacity cp ∧ P (ZL q + stale)) as Hb.
  { intros c P (stale & H0 & -> & Hr & HP). exists (stale + 1). rewrite E.
    replace (ZL (b :: q) + stale) with (ZL q + (stale + 1)) in * by (simpl; lia).
    split_and!; [lia|f_equal; lia|done|done]. }
  destruct k; [done|..]; cbn [p_inv].
  - intros (? & ? & HP). split_and!; [done..|]. exact (Hb c (λ _, True) HP).
  - intros (? & ? & ? & ? & HP). split_and!; [done..|].
    exact (Hb c (λ used, used < capacity cp) HP).
  - intros (? & HP). split; [done|]. exact (Hb c (λ used, used = capacity cp) HP).
Qed.

Lemma c_step_inv lo hi s t : c_step s t → inv lo hi s → inv lo hi t.
Proof.
  destruct 1; intros (Hsb & q & Hq & Hs & HP & HC); simpl in *;
    (split; [done|]); simpl; try (witness_queue q; done).
  - witness_queue q; [done..|]. exact (c_inv_test cp m q x wait Hq).
  - witness_queue q; [done..|]. by destruct HC as (-> & _).
  - destruct HC as (-> & known & Hk & ->). witness_queue q; [done..|].
    assert (known ≠ 0) by (intros ->; done).
    destruct q as [|v q]; [simpl in Hk; lia|]. destruct (queue_pop _ _ _ _ Hq) as [Hv _].
    split_and!; [done| |simpl; congruence]. exists known. split; [lia|done].
  - destruct HC as (-> & (known & Hk & ->) & Hh). destruct q as [|v q]; [done|]. injection Hh as ->.
    destruct (queue_pop _ _ _ _ Hq) as [_ Hq'].
    assert (∀ i, slot (publish_cons cp (slot cp 0)) i = slot cp (i + 1)) as E
      by (intros; apply slot_set_cons; apply Hq).
    witness_queue q; [done|by rewrite Hs, <- app_assoc|by apply (p_inv_pop cp m b)|].
    split; [by rewrite E, next_slot by apply Hq|]. exists (known - 1). rewrite E.
    simpl in Hk. split; [lia|f_equal; lia].
  - witness_queue q; [done..|]. exact (c_inv_test cp m q x true Hq).
Qed.

Lemma reachable_inv lo hi m s : 2 ≤ hi - lo < 2 ^ 32 → mapped m lo (hi - lo) →
  rtc step (start lo hi m) s → inv lo hi s.
Proof.
  intros Hn Hm. apply (rtc_ind_r (inv lo hi)).
  - split; [done|]. witness_queue ([] : list Z); [by apply queue_init|done..].
  - intros s1 s2 _ [H|H]; [by apply p_step_inv|by apply c_step_inv].
Qed.
End Invariant.

(** C9 However the accesses of a producer and a consumer interleave, the consumer takes
    exactly the bytes sent, in the order sent: what it has taken is a prefix, the ring
    holds the rest, never more than its capacity. *)
Theorem interleaving_is_fifo lo hi m s :
  2 ≤ hi - lo < 2 ^ 32 → mapped m lo (hi - lo) → rtc step (start lo hi m) s →
  ∃ q, sent s = got s ++ q ∧ ZL q ≤ hi - lo - 2 ∧
       ∀ i b, q !! i = Some b → memory s !! slot (ring s) (Z.of_nat i) = Some b.
Proof.
  intros Hn Hm Hr. destruct (reachable_inv _ _ _ _ Hn Hm Hr) as ([E1 E2] & q & Hq & Hs & _ & _).
  exists q. split; [done|]. split; [|apply Hq]. pose proof (q_room _ _ _ Hq).
  unfold capacity, ring_size in *. simpl in *. lia.
Qed.

(** ** Two calls at once

    Steps other than the start of a call and a poll that finds nothing new. *)
Definition working (s t : state) : Prop :=
  step s t ∧ s ≠ t ∧ (producer_at s = PIdle → producer_at t = PIdle) ∧ (consumer_at s = CIdle → consumer_at t = CIdle).

(** Both sides are in the middle of a call. *)
Definition both_busy (s : state) : Prop := producer_at s ≠ PIdle ∧ consumer_at s ≠ CIdle.

(** A bound on them: ten for each byte that is still to be moved; a copy of the other side's pointer that is
    out of date is worth another round of the poll. *)
Definition outdated (now copy : Z) : nat := if now =? copy then 0 else 2.
Definition p_left (cp : consprod_t) (k : producer) : nat :=
  match k with
  | PIdle => 0
  | PTest l _ c _ => 10 * length l + 2 + outdated (cons cp) c
  | PStored _ l _ c _ => 10 * length l + 6 + outdated (cons cp) c
  | PPoll l c => 10 * length l + 1 + outdated (cons cp) c
  end.
Definition c_left (cp : consprod_t) (k : consumer) : nat :=
  match k with
  | CIdle => 0
  | CTest x p _ _ => 10 * x + 2 + outdated (prod cp) p
  | CRead _ x p _ _ => 10 * x + 6 + outdated (prod cp) p
  | CPoll x p => 10 * x + 1 + outdated (prod cp) p
  end.
Definition work_left (s : state) : nat := p_left (ring s) (producer_at s) + c_left (ring s) (consumer_at s).

Lemma outdated_same a : outdated a a = 0%nat.
Proof. unfold outdated. by rewrite Z.eqb_refl. Qed.
Lemma outdated_moved a b : a ≠ b → outdated a b = 2%nat.
Proof. intros. unfold outdated. by rewrite (proj2 (Z.eqb_neq a b)). Qed.
Lemma outdated_most a b : (outdated a b ≤ 2)%nat.
Proof. unfold outdated. destruct (_ =? _); lia. Qed.

(** Publishing a pointer costs the other side at most one more round. *)
Lemma publish_prod_left cp p k : (c_left (publish_prod cp p) k ≤ c_left cp k + 2)%nat.
Proof. destruct k; cbn [c_left]; unfold outdated; repeat destruct (_ =? _); lia. Qed.
Lemma publish_cons_left cp c k : (p_left (publish_cons cp c) k ≤ p_left cp k + 2)%nat.
Proof. destruct k; cbn [p_left]; unfold outdated; repeat destruct (_ =? _); lia. Qed.

Lemma working_decreases s t : working s t → (work_left t < work_left s)%nat.
Proof.
  intros (Hst & Hne & Hp & Hc). unfold work_left.
  destruct Hst as [Hst|Hst]; destruct Hst; cbn [ring producer_at consumer_at] in *;
    try (by destruct Hne); try (by discriminate (Hp eq_refl)); try (by discriminate (Hc eq_refl));
    cbn [p_left c_left length]; rewrite ?outdated_same; try lia.
  - change (cons (publish_prod cp p)) with (cons cp). pose proof (publish_prod_left cp p k). lia.
  - rewrite outdated_moved by done. lia.
  - change (prod (publish_cons cp c)) with (prod cp). pose proof (publish_cons_left cp c k). lia.
  - rewrite outdated_moved by done. lia.
Qed.

Lemma working_steps n s t : nsteps working n s t → (n + work_left t ≤ work_left s)%nat.
Proof.
  induction 1 as [s|n s1 s2 s3 Hw _ IH]; [done|]. pose proof (working_decreases _ _ Hw). lia.
Qed.

(** In a reachable state only a poll of a current copy makes no progress, and then the other side can move. *)
Lemma p_progress cp m k so go kc : k ≠ PIdle → (∀ l, k ≠ PPoll l (cons cp)) →
  ∃ t, working (State cp m k kc so go) t.
Proof.
  intros Hk Hpoll. destruct k as [|l p c w|b l p c w|l c]; [done|..].
  - destruct l as [|b l].
    { eexists. split; [left; apply p_done|]. by split. }
    destruct (Z.eq_dec p c) as [->|Hpc].
    + destruct w; eexists; (split; [left; constructor|by split]).
    + eexists. split; [left; by apply p_store|by split].
  - eexists. split; [left; apply p_publish|by split].
  - assert (cons cp ≠ c) as Hc by (intros <-; by apply (Hpoll l)).
    eexists. split; [left; by apply p_again|by split].
Qed.

Lemma c_progress cp m q kp so go k : queue cp m q → c_inv cp q k → k ≠ CIdle → (∀ x, k ≠ CPoll x (prod cp)) →
  ∃ t, working (State cp m kp k so go) t.
Proof.
  intros Hq HC Hk Hpoll. destruct k as [|x p c w|b x p c w|x p]; [done|..].
  - destruct x as [|x].
    { eexists. split; [right; apply c_done|]. by split. }
    destruct (Z.eq_dec c p) as [->|Hpc].
    + destruct w; eexists; (split; [right; constructor|by split]).
    + destruct HC as (-> & known & Hkn & ->). assert (known ≠ 0) by (by intros ->).
      destruct q as [|v q]; [simpl in Hkn; lia|]. destruct (queue_pop _ _ _ _ Hq) as [Hv _].
      eexists. split; [right; by apply c_load|by split].
  - eexists. split; [right; apply c_publish|by split].
  - assert (prod cp ≠ p) as Hp by (intros <-; by apply (Hpoll x)).
    eexists. split; [right; by apply c_again|by split].
Qed.

Lemma not_both_polling cp m q l x : 1 ≤ capacity cp → queue cp m q → p_inv cp m q (PPoll l (cons cp)) →
  c_inv cp q (CPoll x (prod cp)) → False.
Proof.
  intros Hcap Hq (_ & stale & H0 & Hst & Hle & Hfull) HC. destruct Hq as [Hsz Hc Hroom Hp _ _ _]. simpl in HC.
  unfold capacity in *. rewrite <- (slot_cons _ Hc) in Hst. apply slot_inj in Hst; [|lia..].
  rewrite Hp in HC. apply slot_inj in HC; lia.
Qed.

Lemma p_polls k a : (∃ l, k = PPoll l a) ∨ ∀ l, k ≠ PPoll l a.
Proof. destruct k as [| | |l c]; try (by right). destruct (Z.eq_dec c a) as [->|]; [left; by exists l|right; congruence]. Qed.

Lemma busy_progress lo hi s : 3 ≤ hi - lo → inv lo hi s → both_busy s → ∃ t, working s t.
Proof.
  intros Hn ([E1 E2] & q & Hq & _ & HP & HC) [Hp Hc]. destruct s as [cp m kp kc so go]. cbn in *.
  assert (1 ≤ capacity cp) as Hcap by (unfold capacity, ring_size; rewrite E1, E2; lia).
  destruct (p_polls kp (cons cp)) as [[l ->]|Hnp]; [|by apply p_progress].
  apply (c_progress cp m q); [done..|]. intros x ->. by eapply (not_both_polling cp m q l x).
Qed.

(** C10 Two calls never wait for each other for ever.  From any reachable state in which a producer and a consumer are both
    in the middle of a call, the two sides take at most [work_left] steps, about ten for a byte that is still to be moved, polls that find nothing
    new not counted, before one of the calls returns; and as long as none has, one of the sides has such a step to take,
    also when both are in their polling loops with copies of the other's pointer. *)
Theorem no_deadlock lo hi m s n t :
  3 ≤ hi - lo < 2 ^ 32 → mapped m lo (hi - lo) → rtc step (start lo hi m) s → nsteps working n s t →
  (n ≤ work_left s)%nat ∧ (both_busy t → ∃ u, working t u).
Proof.
  intros Hn Hm Hr Hw. pose proof (working_steps _ _ _ Hw). split; [lia|].
  apply (busy_progress lo hi); [lia|]. eapply reachable_inv; [|exact Hm|]; [lia|]. etransitivity; [exact Hr|].
  apply (rtc_nsteps_2 n). clear - Hw. induction Hw as [|n s1 s2 s3 [H _] _ IH]; [constructor|by econstructor].
Qed.
End Spsc.

(** * Examples *)
Section Examples.
(** A six-byte ring at address 0 that holds the bytes 7 and 8, in 64 bytes of memory. *)
Definition ring_mem : mem := mem_write ∅ 0 ([0; 7; 8] ++ repeat 0 61).
Definition ring6 : consprod_t := Consprod 0 6 3 0.

Lemma ring_mem_mapped a n : 0 ≤ a → a + n ≤ 64 → mapped ring_mem a n.
Proof. apply (mapped_sub _ 0 64). apply (arr_mapped _ 0 ([0; 7; 8] ++ repeat 0 61)), mem_write_arr. Qed.

Lemma ring6_queue : queue ring6 ring_mem [7; 8].
Proof.
  constructor; try (vm_compute; by intuition congruence).
  - intros [|[|i]] b; intros [= <-]; reflexivity.
  - by apply ring_mem_mapped.
  - by repeat constructor.
Qed.

Lemma ring6_outside len : 0 ≤ len ≤ 20 → outside ring6 ring_mem 20 len.
Proof.
  intros. split; [apply ring_mem_mapped; lia|]. intros a Ha. unfold in_ring, ring6. simpl. lia.
Qed.

Definition six : ring_state := RingState ring6 ring_mem.

Lemma ring_without_wait_witness :
  wp (consprod_consume [] 20 5 false) (λ '(r, irqs') s', ∃ ring,
    r = 2 ∧ irqs' = [] ∧ s' = ring ∧ consumed ring6 ring_mem [7; 8] 20 (Z.to_nat r) ring) six ∧
  wp (consprod_produce [] 30 3 false) (λ '(r, irqs') s', ∃ ring,
    r = 2 ∧ irqs' = [] ∧ s' = ring ∧ produced ring6 ring_mem [7; 8] [0; 0; 0] (Z.to_nat r) ring) six.
Proof.
  split.
  - apply (@ring_without_wait ring_state ring_has_ring six [7; 8] [] 20 5 [] ring6_queue); [by apply ring6_outside|lia].
  - apply (@ring_without_wait ring_state ring_has_ring six [7; 8] [] 30 0 [0; 0; 0] ring6_queue).
    + apply arr_lookup. intros [|[|[|i]]] b; intros [= <-]; reflexivity.
    + intros a Ha. unfold in_ring, six, cp_of. simpl in *. lia.
    + by repeat constructor.
Defined.

(** An interrupt that receives the byte [b]. *)
Definition receive (b : Z) : irq ring_state :=
  cp ← gets r_cp;
  in_mem (storeb (prod cp) b);;
  modify (set_prod (cp_ptr_next cp (prod cp))).

Lemma receive_delivers cp0 lo hi b : 3 ≤ ring_size cp0 → is_byte b →
  (∀ a, lo ≤ a < hi → ¬ in_ring cp0 a) → delivers cp0 (λ _, True) lo hi (receive b) [b].
Proof.
  intros Hs Hb Ho s (_ & Hq & Hsb). unfold holds, keeps, cp_of, mem_of in *. simpl in *.
  assert (in_ring (r_cp s) (prod (r_cp s))) as Hin.
  { rewrite (q_prod _ _ _ Hq). apply slot_in_ring, Hq. }
  unfold receive. wp_pures. apply wp_in_store.
  { apply (q_mapped _ _ _ Hq). unfold in_ring, ring_size in *. lia. }
  wp_pures. rewrite u8_small by done. split; [split; [done|split; [|exact Hsb]]|split; [done|]].
  - apply (queue_push _ _ [] b Hq); [|done]. rewrite (same_buffer_capacity _ _ Hsb).
    unfold capacity. simpl. lia.
  - intros a Ha. simpl. apply lookup_insert_ne. intros <-. apply (Ho _ Ha).
    by apply (same_buffer_in _ _ _ Hsb).
Qed.


(** The three bytes arrive, but the call answers 1: the recursive call's count replaces
    the caller's. *)
Lemma waiting_read_short_count :
  match consprod_consume [receive 9] 20 3 true six with
  | Ret ((r, _), s) => r = 1 ∧ map (λ a, r_mem s !! a) [20; 21; 22] = [Some 7; Some 8; Some 9]
  | _ => False
  end.
Proof. vm_compute. done. Qed.

(** A run of the two sides: one byte sent and taken. *)
Lemma interleaving_is_fifo_witness :
  ∃ s, rtc Spsc.step (Spsc.start 0 6 ring_mem) s ∧ Spsc.sent s = [5] ∧ Spsc.got s = [5] ∧
       ∃ q, Spsc.sent s = Spsc.got s ++ q ∧ ZL q ≤ 6 - 0 - 2 ∧
         ∀ i b, q !! i = Some b → Spsc.memory s !! slot (Spsc.ring s) (Z.of_nat i) = Some b.
Proof.
  exists (Spsc.State (Consprod 0 6 2 1) (<[1 := 5]> ring_mem)
    (Spsc.PTest [] 3 0 false) (Spsc.CTest 0 2 2 false) [5] [5]).
  assert (rtc Spsc.step (Spsc.start 0 6 ring_mem) (Spsc.State (Consprod 0 6 2 1)
    (<[1 := 5]> ring_mem) (Spsc.PTest [] 3 0 false) (Spsc.CTest 0 2 2 false) [5] [5])) as Hr.
  { unfold Spsc.start.
    eapply rtc_l; [left; apply (Spsc.p_call _ _ _ _ _ [5] false); by repeat constructor|].
    eapply rtc_l; [left; by apply Spsc.p_store|]. eapply rtc_l; [left; by apply Spsc.p_publish|].
    eapply rtc_l; [right; apply (Spsc.c_call _ _ _ _ _ 1 false)|].
    eapply rtc_l; [right; by apply Spsc.c_load|]. eapply rtc_l; [right; by apply Spsc.c_publish|].
    apply rtc_refl. }
  split; [exact Hr|]. split; [done|]. split; [done|].
  apply (Spsc.interleaving_is_fifo 0 6 ring_mem); [lia|by apply ring_mem_mapped|exact Hr].
Defined.

(** A ring for one byte: the consumer asked for two bytes and polls with the old [prod], the producer sent one of
    its two and polls a full ring. *)
Definition both_polling : Spsc.state :=
  Spsc.State (Consprod 0 3 2 0) (<[1 := 5]> ring_mem) (Spsc.PPoll [6] 0) (Spsc.CPoll 2 1) [5] [].
Definition consumer_resumed : Spsc.state :=
  Spsc.State (Consprod 0 3 2 0) (<[1 := 5]> ring_mem) (Spsc.PPoll [6] 0) (Spsc.CTest 2 2 1 true) [5] [].

Lemma both_polling_reached : rtc Spsc.step (Spsc.start 0 3 ring_mem) both_polling.
Proof.
  unfold Spsc.start. eapply rtc_l; [right; apply (Spsc.c_call _ _ _ _ _ 2 true)|].
  eapply rtc_l; [right; by apply Spsc.c_empty|].
  eapply rtc_l; [left; apply (Spsc.p_call _ _ _ _ _ [5; 6] true); by repeat constructor|].
  eapply rtc_l; [left; by apply Spsc.p_store|]. eapply rtc_l; [left; by apply Spsc.p_publish|].
  eapply rtc_l; [left; by apply Spsc.p_full|]. apply rtc_refl.
Qed.

Lemma no_deadlock_witness :
  Spsc.both_busy both_polling ∧ Spsc.work_left both_polling = 34%nat ∧
  nsteps Spsc.working 1 both_polling consumer_resumed ∧ ∃ u, Spsc.working consumer_resumed u.
Proof.
  assert (nsteps Spsc.working 1 both_polling consumer_resumed) as Hw.
  { apply nsteps_once. split; [right; by apply Spsc.c_again|by split]. }
  destruct (Spsc.no_deadlock 0 3 ring_mem both_polling 1 consumer_resumed) as [_ H];
    [lia|by apply ring_mem_mapped|apply both_polling_reached|exact Hw|].
  split; [by split|]. split; [reflexivity|]. split; [exact Hw|]. by apply H.
Defined.
End Examples.
