(* ===== verification/Csr.v ===== *)
(** The control registers and the data-cache flush of sw/include/machine/csr.h and
    memctl.h: every access leaves an event in a log, and a read answers what the
    hardware presents. *)
From stdpp Require Import base list gmap fin_maps.
From Stdlib Require Import ZArith Lia Sorted.
From S2P Require Import Prelude Memory.

#[local] Open Scope Z_scope.

(** * constants.h *)
Definition CSR_REG_GPIO_DIR : Z := 0x881.
Definition CSR_REG_GPIO_OUT : Z := 0x882.
Definition CSR_REG_GPIO_INPUT : Z := 0xCC1.
Definition CSR_REG_TIMER_CTRL : Z := 0x884.
Definition CSR_REG_TIMER_VALUE : Z := 0xCC2.
Definition CSR_REG_CTR_CYCLE : Z := 0xC00.
Definition CSR_REG_CTR_INSTRET : Z := 0xC02.
Definition CSR_REG_IVECTOR_ADDR : Z := 0x9C1.
Definition CSR_REG_UART0_RX : Z := 0x888.
Definition CSR_REG_UART0_TX : Z := 0x889.
Definition CSR_REG_UART0_RX_BAUD : Z := 0x88A.
Definition CSR_REG_UART0_TX_BAUD : Z := 0x88B.
Definition INTR_ID_TIMER : Z := 1.
Definition INTR_ID_UART0_TX : Z := 2.
Definition INTR_ID_UART0_RX : Z := 3.
Definition BOOTCODE_UART0_RX_BUFFER_LOC : Z := 0x2000.
Definition BOOTCODE_UART0_TX_BUFFER_LOC : Z := 0x2000.
Definition UART0_TX_DRVBUF_START : Z := 0x100.
Definition UART0_RX_DRVBUF_START : Z := 0x200.
Definition UART0_RX_STREAMBUF_START : Z := 0x1000.
Definition UART0_RX_STREAMBUF_END : Z := 0x2000.
Definition UART0_TX_STREAMBUF_START : Z := 0x2000.
Definition UART0_TX_STREAMBUF_END : Z := 0x3000.
Definition SUMERU_CACHE_LINE_SIZE : Z := 16.
Definition SUMERU_CACHE_LINE_MASK : Z := 0xFFFFFFF0.
Definition UART_ENGINE_TIMER_TICKS : Z := 16384.

(** The [time] CSR behind the rdtime instruction. *)
Definition CSR_REG_TIME : Z := 0xC01.

(** * The machine's registers *)
Inductive event : Type :=
  | CsrWrite (reg v : Z)
  | FlushLine (line : Z).

(** [csr_in] is what the next read of each register answers. *)
Record csr_state : Type := Csr {
  csr_in : Z → Z;
  log : list event;
}.

Definition emit (e : event) : M csr_state () := modify (λ s, Csr (csr_in s) (log s ++ [e])).

(** [csrrw rd, reg, rs] and [csrrsi rd, reg, 0], which does not write. *)
Definition csrrw (reg v : Z) : M csr_state Z :=
  old ← gets (λ s, csr_in s reg);
  emit (CsrWrite reg v);;
  mret old.
Definition csrrsi0 (reg : Z) : M csr_state Z := gets (λ s, csr_in s reg).

(** * csr.h *)
Definition ivector_set_addr (x : Z) : M csr_state () := csrrw CSR_REG_IVECTOR_ADDR x;; mret ().
Definition uart0_set_tx (x : Z) : M csr_state () := csrrw CSR_REG_UART0_TX x;; mret ().
Definition uart0_get_tx : M csr_state Z := csrrw CSR_REG_UART0_TX 0x80000000.
Definition uart0_get_rx : M csr_state Z := csrrw CSR_REG_UART0_RX 0x80000000.
Definition uart0_set_rx_baud (x : Z) : M csr_state () := csrrw CSR_REG_UART0_RX_BAUD x;; mret ().
Definition uart0_set_tx_baud (x : Z) : M csr_state () := csrrw CSR_REG_UART0_TX_BAUD x;; mret ().
Definition uart0_set_rx (x : Z) : M csr_state () := csrrw CSR_REG_UART0_RX x;; mret ().
Definition timer_set (x : Z) : M csr_state () := csrrw CSR_REG_TIMER_CTRL x;; mret ().
Definition timer_get_count : M csr_state Z := csrrsi0 CSR_REG_TIMER_VALUE.
Definition gpio_set_dir (x : Z) : M csr_state () := csrrw CSR_REG_GPIO_DIR x;; mret ().
Definition gpio_set_out (x : Z) : M csr_state () := csrrw CSR_REG_GPIO_OUT x;; mret ().
Definition gpio_set_dummy (x : Z) : M csr_state () := csrrw 0 x;; mret ().
Definition rdtime : M csr_state Z := csrrsi0 CSR_REG_TIME.
Definition rdcycle : M csr_state Z := csrrsi0 CSR_REG_CTR_CYCLE.
Definition rdinstret : M csr_state Z := csrrsi0 CSR_REG_CTR_INSTRET.

(** * memctl.h *)
Definition flush_dcache_line (x : Z) : M csr_state () :=
  emit (FlushLine (Z.land (Z.lxor x 0x10000) SUMERU_CACHE_LINE_MASK)).

Definition flush_dcache_range (start stop : Z) : M csr_state () :=
  loop (λ start,
    if start <? stop then
      flush_dcache_line start;;
      mret (inl (u32 (start + SUMERU_CACHE_LINE_SIZE)))
    else mret (inr ())) (Z.land start SUMERU_CACHE_LINE_MASK).

(** * What a flush does *)
Lemma StronglySorted_map_seq (first step : Z) i n : 0 < step →
  StronglySorted Z.lt (map (λ i, first + step * Z.of_nat i) (seq i n)).
Proof.
  intros Hs. revert i. induction n as [|n IH]; intros i; simpl; [constructor|].
  constructor; [apply IH|]. apply Forall_forall. intros x.
  rewrite list_elem_of_fmap. intros (j & -> & Hj%elem_of_seq). nia.
Qed.

Section Flush.
Implicit Types (s : csr_state) (a start stop : Z).

(** The address the flush of the line of [a] puts on the bus. *)
Definition flush_tag a : Z := Z.land (Z.lxor a 0x10000) SUMERU_CACHE_LINE_MASK.
Definition lines_of start stop : list Z :=
  let first := start - start mod 16 in
  map (λ i, first + 16 * Z.of_nat i) (seq 0 (Z.to_nat ((stop - first + 15) / 16))).
Definition flushes start stop : list event :=
  map (λ a, FlushLine (flush_tag a)) (lines_of start stop).

Lemma line_mask a : is_u32 a → Z.land a SUMERU_CACHE_LINE_MASK = a - a mod 16.
Proof. apply (land_mask_down 32 4). lia. Qed.

Lemma flush_dcache_range_spec start stop s :
  is_u32 start → stop ≤ 2 ^ 32 - 16 →
  flush_dcache_range start stop s = Ret ((), Csr (csr_in s) (log s ++ flushes start stop)).
Proof.
  intros Hs He. apply wp_Ret. unfold flush_dcache_range. rewrite line_mask by done.
  set (first := start - start mod 16). set (n := Z.to_nat ((stop - first + 15) / 16)).
  assert (0 ≤ first) by (unfold first; pose proof (Z.mod_le start 16); unfold is_u32 in *; lia).
  apply (wp_loop_ix (λ k a t, ∃ i : nat, (i ≤ n)%nat ∧ k = Z.of_nat (n - i) ∧
    a = first + 16 * Z.of_nat i ∧ csr_in t = csr_in s ∧
    log t = log s ++ map (λ a, FlushLine (flush_tag a))
      (map (λ i, first + 16 * Z.of_nat i) (seq 0 i))) _ _ (Z.of_nat n)).
  { exists 0%nat. simpl. rewrite app_nil_r. split_and!; [lia|lia|lia|done|done]. }
  { unfold is_u32, n in *. pose proof (Z.div_lt_upper_bound (stop - first + 15) 16 (2 ^ 32)). lia. }
  intros k a t (i & Hi & -> & -> & Hin & Hlog). split; [lia|].
  assert (first + 16 * Z.of_nat i < stop ↔ (i < n)%nat) as Hiff.
  { unfold n. pose proof (Z.div_mod (stop - first + 15) 16 ltac:(lia)).
    pose proof (Z.mod_pos_bound (stop - first + 15) 16 ltac:(lia)). lia. }
  destruct (Z.ltb_spec (first + 16 * Z.of_nat i) stop).
  - unfold flush_dcache_line, emit. wp_pures. exists (Z.of_nat (n - S i)). split; [lia|].
    exists (S i). split_and!; [lia|lia| |done|].
    + rewrite u32_small; unfold is_u32, SUMERU_CACHE_LINE_SIZE in *; lia.
    + cbn [log]. rewrite Hlog, seq_S, !map_app, app_assoc. done.
  - apply wp_ret. assert (i = n) as -> by lia. split; [done|].
    destruct t as [i2 l2]. simpl in *. by rewrite Hin, Hlog.
Qed.

(** C22 flush_dcache_range flushes exactly the cache lines that hold a byte of the
    range, each once, in ascending order, and touches no register: the line of an
    aligned address is among those flushed exactly when it meets the range. *)
Theorem flush_covers_range start stop s :
  is_u32 start → start < stop ≤ 2 ^ 32 - 16 →
  flush_dcache_range start stop s = Ret ((), Csr (csr_in s) (log s ++ flushes start stop)) ∧
  (∀ line, line mod 16 = 0 → line ∈ lines_of start stop ↔ line < stop ∧ start < line + 16) ∧
  StronglySorted Z.lt (lines_of start stop).
Proof.
  intros Hs Hr. split; [apply flush_dcache_range_spec; [done|lia]|].
  unfold lines_of. set (first := start - start mod 16).
  pose proof (Z.mod_pos_bound start 16 ltac:(lia)) as Hmod.
  pose proof (Z.div_mod (stop - first + 15) 16 ltac:(lia)) as Hdiv.
  pose proof (Z.mod_pos_bound (stop - first + 15) 16 ltac:(lia)). split.
  - intros line Hl. rewrite list_elem_of_fmap. split.
    + intros (i & -> & Hi%elem_of_seq). lia.
    + intros Hm. exists (Z.to_nat ((line - first) / 16)).
      assert (first mod 16 = 0) as Hf by (unfold first; rewrite Zminus_mod_idemp_r, Z.sub_diag; done).
      pose proof (Z.div_mod line 16 ltac:(lia)). pose proof (Z.div_mod first 16 ltac:(lia)).
      assert ((line - first) mod 16 = 0) as Hd by (rewrite Zminus_mod, Hl, Hf; done).
      pose proof (Z.div_mod (line - first) 16 ltac:(lia)).
      split; [|apply elem_of_seq]; lia.
  - apply StronglySorted_map_seq. lia.
Qed.
End Flush.

Lemma flush_covers_range_witness :
  flush_dcache_range 0x205 0x222 (Csr (λ _, 0) []) =
    Ret ((), Csr (λ _, 0) ([] ++ flushes 0x205 0x222)) ∧
  (∀ line, line mod 16 = 0 → line ∈ lines_of 0x205 0x222 ↔ line < 0x222 ∧ 0x205 < line + 16) ∧
  StronglySorted Z.lt (lines_of 0x205 0x222).
Proof. apply (flush_covers_range 0x205 0x222 (Csr (λ _, 0) [])); [by vm_compute|lia]. Defined.
