(* ===== verification/Uart.v ===== *)
(** The interrupt-driven UART driver of sw/sys-libs/drivers (uart0.c and interrupts.c):
    the engine's start and stop, the blocking calls over the two rings of [ConsProd],
    and the interrupt handler that moves bytes between the rings and the buffers the
    hardware reads and writes. *)
From stdpp Require Import base list gmap fin_maps.
From Stdlib Require Import ZArith Lia.
From S2P Require Import Prelude Memory LibcMem ConsProd Csr.

#[local] Open Scope Z_scope.

Definition UART0_ENGINE_ON : Z := 1.
Definition UART0_RX_TIMER_ENABLE : Z := 2.

(** The globals of the driver, the memory and the control registers. *)
Record uart : Type := Uart {
  u_mem : mem;
  g_uart0_tx_cp : consprod_t;
  g_uart0_rx_cp : consprod_t;
  g_uart0_flags : Z;
  g_uart0_rx_lastpos : Z;
  s_uart0_tx_active : Z;
  u_csr : csr_state;
}.

Definition set_mem (m : mem) (u : uart) : uart :=
  Uart m (g_uart0_tx_cp u) (g_uart0_rx_cp u) (g_uart0_flags u) (g_uart0_rx_lastpos u)
    (s_uart0_tx_active u) (u_csr u).
Definition set_csr (c : csr_state) (u : uart) : uart :=
  Uart (u_mem u) (g_uart0_tx_cp u) (g_uart0_rx_cp u) (g_uart0_flags u) (g_uart0_rx_lastpos u)
    (s_uart0_tx_active u) c.
Definition set_flags (f : Z) (u : uart) : uart :=
  Uart (u_mem u) (g_uart0_tx_cp u) (g_uart0_rx_cp u) f (g_uart0_rx_lastpos u)
    (s_uart0_tx_active u) (u_csr u).
Definition set_lastpos (p : Z) (u : uart) : uart :=
  Uart (u_mem u) (g_uart0_tx_cp u) (g_uart0_rx_cp u) (g_uart0_flags u) p
    (s_uart0_tx_active u) (u_csr u).
Definition set_active (a : Z) (u : uart) : uart :=
  Uart (u_mem u) (g_uart0_tx_cp u) (g_uart0_rx_cp u) (g_uart0_flags u) (g_uart0_rx_lastpos u)
    a (u_csr u).

(** The two rings as instances of the interface of [ConsProd]. *)
#[refine] Definition tx_ring : HasRing uart :=
  {| ring_of u := RingState (g_uart0_tx_cp u) (u_mem u);
     with_ring r u := Uart (r_mem r) (r_cp r) (g_uart0_rx_cp u) (g_uart0_flags u)
       (g_uart0_rx_lastpos u) (s_uart0_tx_active u) (u_csr u) |}.
Proof. by intros []. Defined.
#[refine] Definition rx_ring : HasRing uart :=
  {| ring_of u := RingState (g_uart0_rx_cp u) (u_mem u);
     with_ring r u := Uart (r_mem r) (g_uart0_tx_cp u) (r_cp r) (g_uart0_flags u)
       (g_uart0_rx_lastpos u) (s_uart0_tx_active u) (u_csr u) |}.
Proof. by intros []. Defined.

Definition in_csr {A} (m : M csr_state A) : M uart A := zoom u_csr set_csr m.
Definition in_umem {A} (m : M mem A) : M uart A := zoom u_mem set_mem m.

(** * uart0.c *)
Definition uart0_start_engine : M uart () :=
  modify (λ u, Uart (u_mem u)
    (consprod_init UART0_TX_STREAMBUF_START UART0_TX_STREAMBUF_END)
    (consprod_init UART0_RX_STREAMBUF_START UART0_RX_STREAMBUF_END)
    UART0_ENGINE_ON 0 (s_uart0_tx_active u) (u_csr u));;
  in_csr (uart0_set_rx (Z.lor UART0_RX_DRVBUF_START 255));;
  in_csr (timer_set (Z.lor UART_ENGINE_TIMER_TICKS 0xf)).

Definition uart0_stop_engine : M uart () :=
  modify (set_flags 0);;
  in_csr (uart0_set_rx UART0_RX_DRVBUF_START).

Definition uart0_blocking_write (irqs : list (irq uart)) (buf len : Z) : M uart (Z * list (irq uart)) :=
  consprod_produce (H := tx_ring) irqs buf len true.
Definition uart0_blocking_read (irqs : list (irq uart)) (buf len : Z) : M uart (Z * list (irq uart)) :=
  consprod_consume (H := rx_ring) irqs buf len true.

Definition uart0_blocking_write_multiple (irqs : list (irq uart)) (buf len : Z) :
    M uart (Z * list (irq uart)) :=
  loop (λ '(w, irqs),
    if w <? len then
      let count := Z.min 255 (len - w) in
      r ← uart0_blocking_write irqs (buf + w) count;
      mret (inl (w + count, r.2))
    else mret (inr (w, irqs))) (0, irqs).

Definition uart0_blocking_read_multiple (irqs : list (irq uart)) (buf len : Z) :
    M uart (Z * list (irq uart)) :=
  loop (λ '(r, irqs),
    if r <? len then
      let count := Z.min 255 (len - r) in
      got ← uart0_blocking_read irqs (buf + r) count;
      mret (inl (r + count, got.2))
    else mret (inr (r, irqs))) (0, irqs).

(** * interrupts.c *)
Definition engine_on (u : uart) : bool := negb (Z.land (g_uart0_flags u) UART0_ENGINE_ON =? 0).

Definition process_rx_data (uart_intr : Z) : M uart () :=
  v ← in_csr uart0_get_rx;
  let pos := Z.land v 0xff in
  lastpos ← gets g_uart0_rx_lastpos;
  when (lastpos <? pos) (
    let len := pos - lastpos in
    let start := UART0_RX_DRVBUF_START + lastpos in
    in_csr (flush_dcache_range start (start + len));;
    consprod_produce (H := rx_ring) [] start len false;;
    modify (set_lastpos pos));;
  when (uart_intr =? 1) (
    on ← gets engine_on;
    if (on : bool) then
      modify (set_lastpos 0);;
      in_csr (uart0_set_rx (Z.lor UART0_RX_DRVBUF_START 255))
    else in_csr (uart0_set_rx (Z.lor UART0_RX_DRVBUF_START 0))).

(** [stack] is the address of the local buffer. *)
Definition process_tx_data (stack uart_intr : Z) : M uart () :=
  when (negb (uart_intr =? 0)) (modify (set_active 0));;
  active ← gets s_uart0_tx_active;
  when (negb (uart_intr =? 0) || (active =? 0)) (
    got ← consprod_consume (H := tx_ring) [] stack 255 false;
    let x := got.1 in
    when (0 <? x) (
      in_umem (memcpy UART0_TX_DRVBUF_START stack x);;
      in_csr (flush_dcache_range UART0_TX_DRVBUF_START (UART0_TX_DRVBUF_START + x));;
      on ← gets engine_on;
      when on (
        in_csr (uart0_set_tx (Z.lor UART0_TX_DRVBUF_START x));;
        modify (set_active 1)))).

Definition handle_interrupt (stack id : Z) : M uart () :=
  if id =? INTR_ID_TIMER then
    process_rx_data 0;;
    process_tx_data stack 0;;
    on ← gets engine_on;
    in_csr (timer_set (if (on : bool) then Z.lor UART_ENGINE_TIMER_TICKS 0xf else 0))
  else if id =? INTR_ID_UART0_TX then process_tx_data stack 1
  else if id =? INTR_ID_UART0_RX then process_rx_data 1
  else mret ().

(** * The driver's invariant *)
Section Driver.
Context (stack : Z).
Implicit Types (u : uart) (q d : list Z) (c : csr_state).

Definition tx_area : consprod_t := consprod_init UART0_TX_STREAMBUF_START UART0_TX_STREAMBUF_END.
Definition rx_area : consprod_t := consprod_init UART0_RX_STREAMBUF_START UART0_RX_STREAMBUF_END.

Record uart_ok u qtx qrx : Prop := UartOk {
  ok_tx : same_buffer tx_area (g_uart0_tx_cp u);
  ok_rx : same_buffer rx_area (g_uart0_rx_cp u);
  ok_tx_queue : queue (g_uart0_tx_cp u) (u_mem u) qtx;
  ok_rx_queue : queue (g_uart0_rx_cp u) (u_mem u) qrx;
  ok_mapped : mapped (u_mem u) UART0_TX_DRVBUF_START (UART0_TX_STREAMBUF_END - UART0_TX_DRVBUF_START);
  ok_stack : mapped (u_mem u) stack 255 ∧ UART0_TX_STREAMBUF_END ≤ stack ∧ stack + 255 ≤ 2 ^ 32;
  ok_last : 0 ≤ g_uart0_rx_lastpos u ≤ 255;
}.

Lemma in_rx_area cp a : same_buffer rx_area cp → in_ring cp a ↔ 0x1000 ≤ a < 0x2000.
Proof. intros Hb. rewrite (same_buffer_in _ _ _ Hb). unfold in_ring. simpl. done. Qed.
Lemma in_tx_area cp a : same_buffer tx_area cp → in_ring cp a ↔ 0x2000 ≤ a < 0x3000.
Proof. intros Hb. rewrite (same_buffer_in _ _ _ Hb). unfold in_ring. simpl. done. Qed.

Lemma wp_in_csr {A} (m : M csr_state A) (Q : A → uart → Prop) u a c :
  m (u_csr u) = Ret (a, c) → Q a (set_csr c u) → wp (in_csr m) Q u.
Proof. intros E HQ. apply wp_zoom. by eapply wp_eq. Qed.

(** The registers after the events [es]. *)
Definition logged c (es : list event) : csr_state := Csr (csr_in c) (log c ++ es).

Lemma logged_app c es1 es2 : logged (logged c es1) es2 = logged c (es1 ++ es2).
Proof. unfold logged. simpl. by rewrite app_assoc. Qed.

Lemma logged_nil c : logged c [] = c.
Proof. destruct c. unfold logged. simpl. by rewrite app_nil_r. Qed.

(** The bytes the hardware has put behind those already taken. *)
Definition rx_pos u : Z := Z.land (csr_in (u_csr u) CSR_REG_UART0_RX) 0xff.
Definition pending u d : Prop :=
  arr (u_mem u) (UART0_RX_DRVBUF_START + g_uart0_rx_lastpos u) d ∧
  ZL d = Z.max 0 (rx_pos u - g_uart0_rx_lastpos u) ∧ Forall is_byte d.

Definition rx_flush u d : list event :=
  let start := UART0_RX_DRVBUF_START + g_uart0_rx_lastpos u in
  match d with [] => [] | _ => flushes start (start + ZL d) end.
Definition rx_room u q : nat := Z.to_nat (capacity (g_uart0_rx_cp u) - ZL q).

(** The part of process_rx_data before the second test. *)
Definition rx_taken u q d u' : Prop := ∃ m' cp',
  u' = Uart m' (g_uart0_tx_cp u) cp' (g_uart0_flags u)
         (Z.max (rx_pos u) (g_uart0_rx_lastpos u)) (s_uart0_tx_active u)
         (logged (u_csr u) (CsrWrite CSR_REG_UART0_RX 0x80000000 :: rx_flush u d)) ∧
  queue cp' m' (q ++ take (rx_room u q) d) ∧ same_buffer rx_area cp' ∧
  cons cp' = cons (g_uart0_rx_cp u) ∧ (∀ a, ¬ (0x1000 ≤ a < 0x2000) → m' !! a = u_mem u !! a).

Lemma rx_pos_range u : 0 ≤ rx_pos u < 256.
Proof. unfold rx_pos. change 0xff with (Z.ones 8). rewrite Z.land_ones by done. by apply Z.mod_pos_bound. Qed.

Lemma uart_ok_rx u qtx q d u' : uart_ok u qtx q → rx_taken u q d u' →
  uart_ok u' qtx (q ++ take (rx_room u q) d).
Proof.
  intros [Htx Hrx Hqt Hqr Hm (Hs1 & Hs2 & Hs3) Hl] (m' & cp' & -> & Hq & Hb & Hc & Hf).
  assert (∀ a, is_Some (u_mem u !! a) → is_Some (m' !! a)) as Hd.
  { intros a Ha. destruct (decide (0x1000 ≤ a < 0x2000)); [|by rewrite Hf].
    apply (q_mapped _ _ _ Hq). destruct Hb as [E1 E2]. unfold ring_size. rewrite E1, E2. simpl.
    unfold UART0_RX_STREAMBUF_START, UART0_RX_STREAMBUF_END. lia. }
  constructor; simpl; [exact Htx|exact Hb| |exact Hq|by intros a Ha; apply Hd, Hm| |].
  - eapply queue_frame; [exact Hqt|]. intros a Ha%(in_tx_area _ _ Htx). apply Hf. lia.
  - split; [by intros a Ha; apply Hd, Hs1|by split].
  - pose proof (rx_pos_range u). lia.
Qed.

(** The register read at the start leaves its event. *)
Definition rx_read u : uart := set_csr (logged (u_csr u) [CsrWrite CSR_REG_UART0_RX 0x80000000]) u.

(** What reception needs of the driver. *)
Definition rx_ready u q : Prop :=
  same_buffer rx_area (g_uart0_rx_cp u) ∧ queue (g_uart0_rx_cp u) (u_mem u) q ∧
  0 ≤ g_uart0_rx_lastpos u ≤ 255.

Lemma uart_ok_rx_ready u qtx q : uart_ok u qtx q → rx_ready u q.
Proof. by intros []. Qed.

Lemma rx_taken_spec u q d :
  rx_ready u q → pending u d →
  wp (when (g_uart0_rx_lastpos u <? rx_pos u) (
        let len := rx_pos u - g_uart0_rx_lastpos u in
        let start := UART0_RX_DRVBUF_START + g_uart0_rx_lastpos u in
        in_csr (flush_dcache_range start (start + len));;
        consprod_produce (H := rx_ring) [] start len false;;
        modify (set_lastpos (rx_pos u)))) (λ _ u', rx_taken u q d u') (rx_read u).
Proof.
  intros (Hrx & Hqr & Hl) (Ha & Hd & Hb). pose proof (rx_pos_range u) as Hpos.
  unfold UART0_RX_DRVBUF_START in *.
  destruct (Z.ltb_spec (g_uart0_rx_lastpos u) (rx_pos u)) as [Hlt|Hge]; simpl.
  - rewrite Z.max_r in Hd by lia. rewrite <- Hd. wp_pures. eapply wp_in_csr.
    { apply flush_dcache_range_spec; unfold is_u32; lia. }
    apply wp_bind. eapply wp_mono.
    { apply (produce_nowait_spec (H := rx_ring) _ q [] _ d); [exact Hqr|exact Ha| |exact Hb].
      intros a Hr Hi%(in_rx_area _ _ Hrx). lia. }
    intros [r irqs] u2 ([cp' m'] & -> & _ & -> & Hq & Hsb & Hc & Hf). wp_pures.
    exists m', cp'. split; [|split; [|split; [|split]]].
    + unfold rx_flush. destruct d as [|b d]; [simpl in Hd; lia|]. rewrite Z.max_l by lia.
      unfold set_lastpos, logged. simpl. by rewrite <- app_assoc.
    + unfold rx_room. simpl in Hq. revert Hq. unfold cp_of. simpl.
      intros Hq. replace (take _ d) with (take (Z.to_nat (Z.min (ZL d)
        (capacity (g_uart0_rx_cp u) - ZL q))) d); [done|].
      destruct (Z.le_gt_cases (ZL d) (capacity (g_uart0_rx_cp u) - ZL q)).
      { rewrite Z.min_l, !take_ge by lia. done. }
      by rewrite Z.min_r by lia.
    + exact (same_buffer_trans _ _ _ Hrx Hsb).
    + done.
    + intros a Hna. apply Hf. by intros Hin%(in_rx_area _ _ Hrx).
  - rewrite Z.max_l in Hd by lia. destruct d; [|simpl in Hd; lia]. apply wp_ret.
    exists (u_mem u), (g_uart0_rx_cp u). rewrite take_nil, app_nil_r, Z.max_r by lia. done.
Qed.

Lemma process_rx_data_spec u q d intr :
  rx_ready u q → pending u d →
  wp (process_rx_data intr) (λ _ u', ∃ u1, rx_taken u q d u1 ∧
    u' = if intr =? 1 then
           if engine_on u then set_lastpos 0 (set_csr (logged (u_csr u1) [CsrWrite CSR_REG_UART0_RX 0x2ff]) u1)
           else set_csr (logged (u_csr u1) [CsrWrite CSR_REG_UART0_RX 0x200]) u1
         else u1) u.
Proof.
  intros Hok Hp. unfold process_rx_data. wp_pures. eapply wp_in_csr; [reflexivity|].
  fold (rx_pos u). change (set_csr _ u) with (rx_read u). wp_pures.
  eapply wp_mono; [by apply (rx_taken_spec u q d)|]. intros [] u1 Ht. simpl.
  destruct (intr =? 1); [|by apply wp_ret; exists u1]. simpl. wp_pures.
  assert (engine_on u1 = engine_on u) as -> by (pose proof Ht as (? & ? & E & ?); by rewrite E).
  destruct (engine_on u); wp_pures; (eapply wp_in_csr; [reflexivity|]); by exists u1.
Qed.

(** ** Transmission *)
Definition chunk q : list Z := take 255 q.
Definition tx_events u (k : list Z) : list event :=
  match k with
  | [] => []
  | _ => flushes UART0_TX_DRVBUF_START (UART0_TX_DRVBUF_START + ZL k) ++
         if engine_on u then [CsrWrite CSR_REG_UART0_TX (UART0_TX_DRVBUF_START + ZL k)] else []
  end.
Definition tx_started u (k : list Z) (idle : Z) : Z :=
  match k with [] => idle | _ => if engine_on u then 1 else idle end.

(** What sending the next chunk does. *)
Definition tx_moved u q (idle : Z) u' : Prop := ∃ cp',
  u' = Uart (mem_write (mem_write (u_mem u) stack (chunk q)) UART0_TX_DRVBUF_START (chunk q)) cp'
         (g_uart0_rx_cp u) (g_uart0_flags u) (g_uart0_rx_lastpos u) (tx_started u (chunk q) idle)
         (logged (u_csr u) (tx_events u (chunk q))) ∧
  queue cp' (u_mem u') (drop 255 q) ∧ same_buffer tx_area cp'.

Lemma tx_address n : 0 ≤ n < 256 → Z.lor UART0_TX_DRVBUF_START n = UART0_TX_DRVBUF_START + n.
Proof.
  intros H. unfold UART0_TX_DRVBUF_START. rewrite Z.lor_comm.
  change 0x100 with (Z.shiftl 1 8). rewrite lor_add_shift by lia. change (Z.shiftl 1 8) with 256. lia.
Qed.

Lemma uart_ok_tx u q qrx idle u' : uart_ok u q qrx → tx_moved u q idle u' → uart_ok u' (drop 255 q) qrx.
Proof.
  intros [Htx Hrx Hqt Hqr Hm (Hs1 & Hs2 & Hs3) Hl] (cp' & -> & Hq & Hb).
  unfold UART0_TX_STREAMBUF_END, UART0_TX_DRVBUF_START in *.
  assert (ZL (chunk q) ≤ 255) as Hk by (unfold chunk; rewrite length_take; lia).
  constructor; simpl; [exact Hb|exact Hrx|exact Hq| |by apply mapped_write, mapped_write| |done].
  - eapply queue_frame; [exact Hqr|]. intros a Ha%(in_rx_area _ _ Hrx).
    rewrite !mem_write_lookup_out; [done|unfold UART0_TX_DRVBUF_START; lia..].
  - split; [by apply mapped_write, mapped_write|by split].
Qed.

Lemma tx_send_spec u q qrx idle :
  uart_ok u q qrx → s_uart0_tx_active u = idle →
  wp (got ← consprod_consume (H := tx_ring) [] stack 255 false;
      let x := got.1 in
      when (0 <? x) (
        in_umem (memcpy UART0_TX_DRVBUF_START stack x);;
        in_csr (flush_dcache_range UART0_TX_DRVBUF_START (UART0_TX_DRVBUF_START + x));;
        on ← gets engine_on;
        when on (
          in_csr (uart0_set_tx (Z.lor UART0_TX_DRVBUF_START x));;
          modify (set_active 1)))) (λ _ u', tx_moved u q idle u') u.
Proof.
  intros [Htx Hrx Hqt Hqr Hm (Hs1 & Hs2 & Hs3) Hl] Hidle.
  unfold UART0_TX_STREAMBUF_END in *.
  assert (∀ a, stack ≤ a < stack + 255 → ¬ in_ring (g_uart0_tx_cp u) a) as Hout
    by (intros a Ha Hin%(in_tx_area _ _ Htx); lia).
  wp_pures. eapply wp_mono.
  { apply (consume_nowait_spec (H := tx_ring) u q [] stack 255); [exact Hqt|by split|lia]. }
  intros [x irqs] u1 ([cp1 m1] & Hx & _ & -> & Hm1 & Hq1 & Hb1 & Hp1).
  assert (take (Z.to_nat x) q = chunk q) as Ek.
  { unfold chunk. destruct (Z.le_gt_cases 255 (ZL q)).
    - by replace (Z.to_nat x) with 255%nat by lia.
    - rewrite !take_ge by lia. done. }
  assert (drop (Z.to_nat x) q = drop 255 q) as Ed.
  { destruct (Z.le_gt_cases 255 (ZL q)); [by replace (Z.to_nat x) with 255%nat by lia|].
    rewrite !drop_ge by lia. done. }
  assert (x = ZL (chunk q)) as Exk by (unfold chunk; rewrite length_take; lia).
  rewrite Ek in Hm1. rewrite Ed in Hq1. unfold mem_of in Hm1. simpl in Hm1, Hq1, Hb1. clear Ek Ed Hp1.
  assert (Forall is_byte (chunk q)) as Hbytes by apply Forall_take, Hqt.
  wp_pures. cbn [fst]. destruct (Z.ltb_spec 0 x) as [H0|H0].
  2: { assert (chunk q = []) as E by (destruct (chunk q); [done|simpl in Exk; lia]).
       apply wp_ret. exists cp1. rewrite E in *. simpl in Hm1 |- *. subst m1.
       split; [rewrite logged_nil, <- Hidle; by destruct u|split; [done|]].
       exact (same_buffer_trans _ _ _ Htx Hb1). }
  simpl. wp_pures. apply wp_zoom. simpl. rewrite Exk in *. subst m1. eapply wp_mono.
  { apply (memcpy_spec _ UART0_TX_DRVBUF_START stack (chunk q));
      [done|apply mem_write_arr|apply mapped_write|lia|left; unfold UART0_TX_DRVBUF_START; lia].
    eapply mapped_sub; [exact Hm|lia|unfold UART0_TX_DRVBUF_START; lia]. }
  intros r m2 [Er Em]. subst r m2. wp_pures. eapply wp_in_csr.
  { apply flush_dcache_range_spec; unfold is_u32, UART0_TX_DRVBUF_START; lia. }
  wp_pures. change (engine_on _) with (engine_on u). rewrite tx_address by lia.
  assert (chunk q ≠ []) as Hne by (intros E; rewrite E in H0; done).
  assert (queue cp1 (mem_write (mem_write (u_mem u) stack (chunk q)) UART0_TX_DRVBUF_START (chunk q))
    (drop 255 q)) as Hq2.
  { eapply queue_frame; [exact Hq1|]. intros a Ha.
    apply (in_tx_area cp1) in Ha; [|exact (same_buffer_trans _ _ _ Htx Hb1)].
    apply mem_write_lookup_out. unfold UART0_TX_DRVBUF_START. lia. }
  pose proof (same_buffer_trans _ _ _ Htx Hb1) as Hb2.
  destruct (engine_on u) eqn:Eon; simpl; wp_pures; [eapply wp_in_csr; [reflexivity|]; wp_pures|];
    exists cp1; (split; [|by split]); unfold tx_events, tx_started; rewrite Eon;
    (destruct (chunk q) as [|b k]; [done|]); unfold logged; simpl;
    rewrite <- ?app_assoc, ?app_nil_r; [done|by rewrite <- Hidle].
Qed.

Definition idle_after u (intr : Z) : Z := if intr =? 0 then s_uart0_tx_active u else 0.
Definition may_send u (intr : Z) : bool := negb (intr =? 0) || (s_uart0_tx_active u =? 0).

Lemma process_tx_data_spec u q qrx intr :
  uart_ok u q qrx →
  wp (process_tx_data stack intr) (λ _ u',
    if may_send u intr then tx_moved u q (idle_after u intr) u' else u' = u) u.
Proof.
  intros Hok. unfold process_tx_data, may_send, idle_after.
  destruct (Z.eqb_spec intr 0) as [->|Hi]; simpl.
  - apply wp_bind, wp_ret, wp_bind, wp_gets. simpl.
    destruct (s_uart0_tx_active u =? 0); [by apply (tx_send_spec u q qrx)|by apply wp_ret].
  - apply wp_bind, wp_modify, wp_bind, wp_gets. simpl.
    eapply wp_mono; [apply (tx_send_spec (set_active 0 u) q qrx 0)|].
    + by destruct Hok.
    + done.
    + intros [] u' (cp' & -> & Hq & Hb). exists cp'. split; [done|by split].
Qed.

(** ** One interrupt *)
Definition takes_input (id : Z) : bool := (id =? INTR_ID_TIMER) || (id =? INTR_ID_UART0_RX).
Definition sends u (id : Z) : bool :=
  (id =? INTR_ID_UART0_TX) || ((id =? INTR_ID_TIMER) && (s_uart0_tx_active u =? 0)).

Definition rx_reset_events u : list event :=
  [CsrWrite CSR_REG_UART0_RX (if engine_on u then 0x2ff else 0x200)].
Definition timer_events u : list event :=
  [CsrWrite CSR_REG_TIMER_CTRL (if engine_on u then 0x400f else 0)].
Definition interrupt_events u q d (id : Z) : list event :=
  (if takes_input id then CsrWrite CSR_REG_UART0_RX 0x80000000 :: rx_flush u d else []) ++
  (if sends u id then tx_events u (chunk q) else []) ++
  (if id =? INTR_ID_TIMER then timer_events u else []) ++
  (if id =? INTR_ID_UART0_RX then rx_reset_events u else []).

(** The part every branch establishes. *)
Definition handled u qtx qrx d (id : Z) u' : Prop :=
  uart_ok u' (if sends u id then drop 255 qtx else qtx)
             (if takes_input id then qrx ++ take (rx_room u qrx) d else qrx) ∧
  u_csr u' = logged (u_csr u) (interrupt_events u qtx d id) ∧
  g_uart0_rx_lastpos u' =
    (if takes_input id then
       if (id =? INTR_ID_UART0_RX) && engine_on u then 0 else Z.max (rx_pos u) (g_uart0_rx_lastpos u)
     else g_uart0_rx_lastpos u) ∧
  (if sends u id then
     arr (u_mem u') UART0_TX_DRVBUF_START (chunk qtx) ∧
     s_uart0_tx_active u' = tx_started u (chunk qtx) 0
   else s_uart0_tx_active u' = s_uart0_tx_active u).

Lemma tx_moved_handled u q idle u' : tx_moved u q idle u' →
  arr (u_mem u') UART0_TX_DRVBUF_START (chunk q) ∧ s_uart0_tx_active u' = tx_started u (chunk q) idle ∧
  u_csr u' = logged (u_csr u) (tx_events u (chunk q)) ∧
  g_uart0_rx_lastpos u' = g_uart0_rx_lastpos u ∧ engine_on u' = engine_on u.
Proof. intros (cp' & -> & _). split_and!; [apply mem_write_arr|done..]. Qed.

Lemma tx_interrupt u qtx qrx d : uart_ok u qtx qrx →
  wp (handle_interrupt stack INTR_ID_UART0_TX) (λ _ u', handled u qtx qrx d INTR_ID_UART0_TX u') u.
Proof.
  intros Hok. eapply wp_mono; [by apply (process_tx_data_spec u qtx qrx 1)|]. intros [] u' H.
  change (tx_moved u qtx 0 u') in H. pose proof (uart_ok_tx _ _ _ _ _ Hok H).
  apply tx_moved_handled in H as (Ha & Hact & Hc & Hl & _).
  split; [done|]. split; [|by split]. rewrite Hc. unfold interrupt_events. simpl.
  by rewrite app_nil_r.
Qed.

Lemma uart_ok_registers u qtx qrx p c : uart_ok u qtx qrx → 0 ≤ p ≤ 255 →
  uart_ok (set_lastpos p (set_csr c u)) qtx qrx.
Proof. by intros [] ?. Qed.

Lemma rx_interrupt u qtx qrx d : uart_ok u qtx qrx → pending u d →
  wp (handle_interrupt stack INTR_ID_UART0_RX) (λ _ u', handled u qtx qrx d INTR_ID_UART0_RX u') u.
Proof.
  intros Hok Hp. eapply wp_mono; [apply (process_rx_data_spec u qrx d 1 (uart_ok_rx_ready _ _ _ Hok) Hp)|].
  intros [] u' (u1 & Ht & Hu). pose proof (uart_ok_rx _ _ _ _ _ Hok Ht) as Hok1.
  destruct Ht as (m' & cp' & E & _). simpl in Hu. unfold handled, interrupt_events, rx_reset_events.
  simpl. destruct (engine_on u); subst u' u1;
    (split; [|split; [apply logged_app|done]]).
  - by apply uart_ok_registers.
  - by destruct Hok1.
Qed.

Lemma timer_interrupt u qtx qrx d : uart_ok u qtx qrx → pending u d →
  wp (handle_interrupt stack INTR_ID_TIMER) (λ _ u', handled u qtx qrx d INTR_ID_TIMER u') u.
Proof.
  intros Hok Hp. unfold handle_interrupt. simpl. apply wp_bind.
  eapply wp_mono; [apply (process_rx_data_spec u qrx d 0 (uart_ok_rx_ready _ _ _ Hok) Hp)|].
  intros [] ? (u1 & Ht & ->). pose proof (uart_ok_rx _ _ _ _ _ Hok Ht) as Hok1. simpl.
  destruct Ht as (m' & cp' & E & _). apply wp_bind.
  eapply wp_mono; [by apply (process_tx_data_spec _ qtx _ 0 Hok1)|]. intros [] u2 H2.
  assert (s_uart0_tx_active u1 = s_uart0_tx_active u) as Ea by (by subst u1).
  assert (engine_on u1 = engine_on u) as Ee by (by subst u1).
  wp_pures. apply (wp_in_csr _ _ _ () (logged (u_csr u2) (timer_events u2))); [reflexivity|].
  unfold may_send, idle_after in H2. simpl in H2. rewrite Ea in H2.
  unfold handled, interrupt_events, sends. simpl.
  assert (tx_events u1 (chunk qtx) = tx_events u (chunk qtx)) as Et.
  { unfold tx_events. by rewrite Ee. }
  destruct (Z.eqb_spec (s_uart0_tx_active u) 0) as [E0|E0].
  - pose proof (uart_ok_tx _ _ _ _ _ Hok1 H2) as Hok2.
    apply tx_moved_handled in H2 as (Ha & Hact & Hc & Hl & He). rewrite Hc, Et.
    assert (timer_events u2 = timer_events u) as -> by (unfold timer_events; by rewrite He, Ee).
    split; [by destruct Hok2|]. split; [|split; [|split; [done|]]].
    + subst u1. unfold timer_events. simpl. by rewrite !logged_app, <- ?app_assoc, ?app_nil_r.
    + simpl. rewrite Hl. by subst u1.
    + simpl. rewrite Hact, E0. unfold tx_started. by rewrite Ee.
  - subst u2. assert (timer_events u1 = timer_events u) as -> by (unfold timer_events; by rewrite Ee).
    split; [by destruct Hok1|]. subst u1. unfold timer_events. simpl.
    split; [|done]. by rewrite !logged_app, ?app_nil_r.
Qed.
End Driver.

(** C12 Every interrupt keeps the driver well formed and moves the bytes it should.  The
    timer and the receive interrupt append the bytes the hardware has put in its buffer
    to the receive queue, as far as there is room; the transmit interrupt, and the timer
    when nothing is being sent, take up to 255 bytes from the transmit queue, put them in
    the hardware's buffer and flush it; the registers are read and written in the order
    of [interrupt_events], and other interrupts do nothing. *)
Theorem interrupt_moves_bytes stack u qtx qrx d id :
  uart_ok stack u qtx qrx → pending u d →
  wp (handle_interrupt stack id) (λ _ u', handled stack u qtx qrx d id u') u.
Proof.
  intros Hok Hp. destruct (decide (id = INTR_ID_TIMER)) as [->|H1]; [by apply timer_interrupt|].
  destruct (decide (id = INTR_ID_UART0_TX)) as [->|H2]; [by apply tx_interrupt|].
  destruct (decide (id = INTR_ID_UART0_RX)) as [->|H3]; [by apply rx_interrupt|].
  unfold handle_interrupt, handled, interrupt_events, sends, takes_input.
  rewrite !(proj2 (Z.eqb_neq id _)) by done. simpl. apply wp_ret. by rewrite logged_nil.
Qed.

(** * A blocking read fed by receive interrupts *)
Section Receive.
Context (stack : Z).
Implicit Types (u : uart) (q d : list Z).

(** The hardware writes [d] behind the bytes already taken, shows the new position in
    its register and raises the receive interrupt. *)
Definition hw_receive d : M uart () := modify (λ u,
  let c := u_csr u in
  set_csr (Csr (λ r, if r =? CSR_REG_UART0_RX then g_uart0_rx_lastpos u + ZL d else csr_in c r) (log c))
    (set_mem (mem_write (u_mem u) (UART0_RX_DRVBUF_START + g_uart0_rx_lastpos u) d) u)).
Definition rx_irq d : irq uart := hw_receive d;; handle_interrupt stack INTR_ID_UART0_RX.

(** What the handler relies on between two interrupts. *)
Definition listening u : Prop :=
  engine_on u = true ∧ g_uart0_rx_lastpos u = 0 ∧ mapped (u_mem u) UART0_RX_DRVBUF_START 255.

Lemma listening_ring r u : listening u →
  (∀ a, is_Some (mem_of (H := rx_ring) u !! a) → is_Some (r_mem r !! a)) →
  listening (with_ring (HasRing := rx_ring) r u).
Proof. intros (H1 & H2 & H3) Hd. split; [done|split; [done|]]. intros a Ha. apply Hd, H3, Ha. Qed.

Lemma land_ff x : 0 ≤ x < 256 → Z.land x 0xff = x.
Proof. intros. change 0xff with (Z.ones 8). rewrite Z.land_ones by done. by apply Z.mod_small. Qed.

(** A fact that the receive handler does not touch: it keeps the transmit ring's pointers
    and unmaps nothing. *)
Definition rx_stable (P : uart → Prop) : Prop := ∀ u u', P u → g_uart0_tx_cp u' = g_uart0_tx_cp u →
  (∀ a, is_Some (u_mem u !! a) → ¬ (0x1000 ≤ a < 0x2000) → is_Some (u_mem u' !! a)) → P u'.

Lemma rx_irq_delivers P lo hi d :
  ZL d ≤ 255 → Forall is_byte d →
  (∀ a, lo ≤ a < hi → ¬ (0x200 ≤ a < 0x2ff) ∧ ¬ (0x1000 ≤ a < 0x2000)) → rx_stable P →
  delivers (H := rx_ring) rx_area (λ u, listening u ∧ P u) lo hi (rx_irq d) d.
Proof.
  intros Hd Hb Hout HP u (((Hon & Hl & Hm) & Hpu) & Hq & Hsb). unfold cp_of, mem_of in *. simpl in Hq, Hsb.
  unfold rx_irq, hw_receive. apply wp_bind, wp_modify.
  set (u1 := set_csr _ (set_mem _ u)). unfold UART0_RX_DRVBUF_START in *.
  assert (rx_ready u1 []) as Hr.
  { split; [done|split; [|simpl; lia]]. eapply queue_frame; [exact Hq|].
    intros a Ha%(in_rx_area _ _ Hsb). apply mem_write_lookup_out. lia. }
  assert (rx_pos u1 = ZL d) as Hpos.
  { unfold rx_pos. simpl. rewrite Hl, Z.add_0_l. apply land_ff. lia. }
  assert (pending u1 d) as Hp.
  { split; [|split; [rewrite Hpos; simpl; lia|done]]. apply mem_write_arr. }
  eapply wp_mono; [by apply (process_rx_data_spec u1 [] d 1)|]. simpl.
  change (engine_on u1) with (engine_on u). rewrite Hon.
  intros [] u2 (u3 & (m' & cp' & -> & Hq' & Hsb' & Hc' & Hf') & ->). simpl in *.
  assert (∀ a, is_Some (u_mem u !! a) → ¬ (0x1000 ≤ a < 0x2000) → is_Some (m' !! a)) as Hdom.
  { intros a Ha Hna. rewrite Hf' by done. apply (mapped_write (u_mem u) a 1); [|lia].
    intros x Hx. by replace x with a by lia. }
  unfold holds, cp_of, mem_of, keeps. simpl. split; [split; [|split; [|done]]|split; [done|]].
  - split; [|by apply (HP u)]. split; [done|split; [done|]]. intros a Ha.
    apply Hdom; [by apply Hm|unfold UART0_RX_DRVBUF_START in *; lia].
  - rewrite take_ge in Hq'; [done|]. unfold rx_room, capacity, ring_size. simpl.
    destruct Hsb as [-> ->]. simpl. unfold UART0_RX_STREAMBUF_START, UART0_RX_STREAMBUF_END. lia.
  - intros a Ha. destruct (Hout a Ha). rewrite Hf' by done. apply mem_write_lookup_out. lia.
Qed.

Lemma rx_irqs_deliver P lo hi ds :
  Forall (λ d, ZL d ≤ 255 ∧ Forall is_byte d) ds →
  (∀ a, lo ≤ a < hi → ¬ (0x200 ≤ a < 0x2ff) ∧ ¬ (0x1000 ≤ a < 0x2000)) → rx_stable P →
  Forall2 (delivers (H := rx_ring) rx_area (λ u, listening u ∧ P u) lo hi) (map rx_irq ds) ds.
Proof.
  intros Hds Hout HP. induction Hds as [|d ds [Hd1 Hd2] _ IH]; constructor; [by apply rx_irq_delivers|done].
Qed.
End Receive.

(** C17 A blocking read returns the bytes received on the line.  If the receive interrupts
    that arrive while uart0_blocking_read polls bring the pieces [ds], each at most the
    255 bytes of the hardware's buffer, the read returns with the first [len] bytes of
    the receive queue and the pieces, in order, in the caller's buffer as soon as there
    are that many, and the rest stays for the next read; the driver keeps listening. *)
Theorem uart0_blocking_read_receives stack u q ds buf len :
  listening u → queue (g_uart0_rx_cp u) (u_mem u) q → same_buffer rx_area (g_uart0_rx_cp u) →
  Forall (λ d, ZL d ≤ 255 ∧ Forall is_byte d) ds →
  mapped (u_mem u) buf len → 0x2ff ≤ buf ∧ buf + len ≤ 0x1000 ∨ 0x2000 ≤ buf →
  0 ≤ len ≤ ZL (q ++ concat ds) →
  wp (uart0_blocking_read (map (rx_irq stack) ds) buf len) (λ _ u', ∃ rest missed,
    listening u' ∧ queue (g_uart0_rx_cp u') (u_mem u') rest ∧
    arr (u_mem u') buf (take (Z.to_nat len) (q ++ concat ds)) ∧
    drop (Z.to_nat len) (q ++ concat ds) = rest ++ concat missed) u.
Proof.
  intros Hu Hq Hsb Hds Hm Hbuf Hlen.
  assert (∀ a, buf ≤ a < buf + len → ¬ (0x200 ≤ a < 0x2ff) ∧ ¬ (0x1000 ≤ a < 0x2000)) as Hout by lia.
  pose proof (rx_irqs_deliver stack (λ _, True) buf (buf + len) ds Hds Hout ltac:(done)) as HF.
  eapply wp_mono.
  { apply (consume_wait_spec (H := rx_ring) rx_area _ buf (buf + len)
      (λ r u Hu Hd, conj (listening_ring r u (proj1 Hu) Hd) I) _ _ ds q buf len u HF); [done|by split| |lia].
    split; [done|split; [|lia]]. intros a Ha Hin.
    apply (in_rx_area rx_area a) in Hin; [|done]. by apply (Hout a Ha). }
  intros [r irqs] u' (rest & ds' & _ & ([Hu' _] & Hq' & _) & Ha & Hd & _).
  by exists rest, ds'.
Qed.

(** * Examples *)
Section Examples.
Definition zeros : mem := mem_write ∅ 0 (replicate (Z.to_nat 0x4000) 0).

Lemma zeros_mapped a n : 0 ≤ a → a + n ≤ 0x4000 → mapped zeros a n.
Proof.
  intros. apply (mapped_sub _ 0 0x4000); [|lia..].
  replace 0x4000 with (ZL (replicate (Z.to_nat 0x4000) 0)) by (rewrite length_replicate; lia).
  apply arr_mapped, mem_write_arr.
Qed.

#[local] Opaque zeros.

(** The state after uart0_start_engine: both queues are empty and the driver listens. *)
Lemma uart0_start_engine_ok stack u :
  mapped (u_mem u) 0x100 0x2f00 → mapped (u_mem u) stack 255 → 0x3000 ≤ stack → stack + 255 ≤ 2 ^ 32 →
  wp uart0_start_engine (λ _ u', uart_ok stack u' [] [] ∧ listening u' ∧ u_mem u' = u_mem u ∧
    u_csr u' = logged (u_csr u) [CsrWrite CSR_REG_UART0_RX 0x2ff; CsrWrite CSR_REG_TIMER_CTRL 0x400f]) u.
Proof.
  intros Hm Hs H1 H2. unfold uart0_start_engine. wp_pures. eapply wp_in_csr; [reflexivity|]. wp_pures.
  eapply wp_in_csr; [reflexivity|]. split; [|split; [|split; [done|]]].
  - constructor; simpl; try done; try lia.
    + apply queue_init; [by vm_compute|]. eapply mapped_sub; [exact Hm|by vm_compute..].
    + apply queue_init; [by vm_compute|]. eapply mapped_sub; [exact Hm|by vm_compute..].
  - split; [done|split; [done|]]. eapply mapped_sub; [exact Hm|by vm_compute..].
  - unfold logged. simpl. by rewrite <- app_assoc.
Qed.

(** A driver that has just started, with the byte 7 in the hardware's buffer. *)
Definition one_byte : uart :=
  Uart (<[0x200 := 7]> zeros) tx_area rx_area UART0_ENGINE_ON 0 0
    (Csr (λ r, if r =? CSR_REG_UART0_RX then 1 else 0) []).

Lemma one_byte_ok : uart_ok 0x3000 one_byte [] [].
Proof.
  assert (∀ a n, 0 ≤ a → a + n ≤ 0x4000 → mapped (<[0x200 := 7]> zeros) a n) as Hm
    by (intros; by apply mapped_insert, zeros_mapped).
  assert (∀ lo hi, 0 ≤ lo → 2 ≤ hi - lo → hi ≤ 0x4000 →
    queue (consprod_init lo hi) (<[0x200 := 7]> zeros) []) as Hq
    by (intros; apply queue_init; [lia|apply Hm; lia]).
  split; cbn [u_mem g_uart0_tx_cp g_uart0_rx_cp g_uart0_rx_lastpos one_byte].
  - done.
  - done.
  - by apply Hq.
  - by apply Hq.
  - by apply Hm.
  - split; [by apply Hm|unfold UART0_TX_STREAMBUF_END; lia].
  - lia.
Qed.

Lemma interrupt_moves_bytes_witness :
  wp (handle_interrupt 0x3000 INTR_ID_TIMER)
     (λ _ u', handled 0x3000 one_byte [] [] [7] INTR_ID_TIMER u') one_byte.
Proof.
  apply (interrupt_moves_bytes 0x3000 one_byte [] [] [7] INTR_ID_TIMER); [apply one_byte_ok|].
  split; [|split; [by vm_compute|by repeat constructor]]. split; [|done]. apply lookup_insert_eq.
Defined.

Lemma uart0_blocking_read_receives_witness :
  wp (uart0_blocking_read (map (rx_irq 0x3000) [[1; 2]; [3; 4]]) 0x3800 3) (λ _ u', ∃ rest missed,
    listening u' ∧ queue (g_uart0_rx_cp u') (u_mem u') rest ∧
    arr (u_mem u') 0x3800 (take (Z.to_nat 3) ([] ++ concat [[1; 2]; [3; 4]])) ∧
    drop (Z.to_nat 3) ([] ++ concat [[1; 2]; [3; 4]]) = rest ++ concat missed) one_byte.
Proof.
  apply (uart0_blocking_read_receives 0x3000 one_byte [] [[1; 2]; [3; 4]] 0x3800 3).
  - split; [done|split; [done|]]. by apply mapped_insert, zeros_mapped.
  - apply one_byte_ok.
  - done.
  - repeat constructor; by vm_compute.
  - by apply mapped_insert, zeros_mapped.
  - lia.
  - simpl. lia.
Defined.
End Examples.
