(* ===== verification/Boot.v ===== *)
(** The boot ROM of cpu/BOOTCODE (boot.c, uart0.c, util.h): its UART calls on a DMA
    buffer, its checksums and its command loop, run against a host that is a stream of
    bytes in each direction. *)
From stdpp Require Import base list gmap fin_maps.
From Stdlib Require Import ZArith Lia.
From S2P Require Import Prelude Memory LibcMem Csr.

#[local] Open Scope Z_scope.

(** The machine: memory, the global [mem_ptr], the bytes the host has sent and the boot
    code has not read, the bytes sent to the host, the registers, and how often each
    coming wait polls before its interrupt arrives. *)
Record boot : Type := Boot {
  b_mem : mem;
  mem_ptr : Z;
  b_in : list Z;
  b_out : list Z;
  b_csr : csr_state;
  b_polls : list nat;
}.

Definition on_mem (m : mem) (s : boot) : boot :=
  Boot m (mem_ptr s) (b_in s) (b_out s) (b_csr s) (b_polls s).
Definition on_csr (c : csr_state) (s : boot) : boot :=
  Boot (b_mem s) (mem_ptr s) (b_in s) (b_out s) c (b_polls s).
Definition set_mem_ptr (p : Z) (s : boot) : boot :=
  Boot (b_mem s) p (b_in s) (b_out s) (b_csr s) (b_polls s).
Definition memory {A} (m : M mem A) : M boot A := zoom b_mem on_mem m.
Definition csr {A} (m : M csr_state A) : M boot A := zoom b_csr on_csr m.

(** * uart0.c *)

(** The hardware's part of a transfer, up to the interrupt: it stores the next [len]
    bytes from the line at [loc], or never interrupts when they do not come; it puts the
    [len] bytes at [loc] on the line. *)
Definition line_in (loc len : Z) : M boot () :=
  s ← get_st;
  if len <=? ZL (b_in s) then
    put_st (Boot (mem_write (b_mem s) loc (take (Z.to_nat len) (b_in s))) (mem_ptr s)
      (drop (Z.to_nat len) (b_in s)) (b_out s) (b_csr s) (b_polls s))
  else spin.
Definition bytes_at (m : mem) (loc len : Z) : list Z :=
  map (λ i, default 0 (m !! (loc + Z.of_nat i))) (seq 0 (Z.to_nat len)).
Definition line_out (loc len : Z) : M boot () :=
  modify (λ s, Boot (b_mem s) (mem_ptr s) (b_in s) (b_out s ++ bytes_at (b_mem s) loc len)
    (b_csr s) (b_polls s)).

(** [while (pending == 1) gpio_set_out((rdtime() >> shift) & 1);] *)
Fixpoint blink (shift : Z) (polls : nat) : M boot () :=
  match polls with
  | O => mret ()
  | S polls =>
      t ← csr rdtime;
      csr (gpio_set_out (Z.land (Z.shiftr t shift) 1));;
      blink shift polls
  end.
Definition wait_interrupt (shift : Z) : M boot () :=
  s ← get_st;
  put_st (Boot (b_mem s) (mem_ptr s) (b_in s) (b_out s) (b_csr s) (tail (b_polls s)));;
  blink shift (default O (head (b_polls s))).

Definition memcpy (dst src len : Z) : M mem () := copy_up dst src len.

Definition uart0_blocking_read (buf len : Z) : M boot () :=
  let len := Z.land len 0xff in
  csr (uart0_set_rx (Z.lor BOOTCODE_UART0_RX_BUFFER_LOC len));;
  wait_interrupt 25;;
  line_in BOOTCODE_UART0_RX_BUFFER_LOC len;;
  csr (flush_dcache_range BOOTCODE_UART0_RX_BUFFER_LOC (BOOTCODE_UART0_RX_BUFFER_LOC + len));;
  memory (memcpy buf BOOTCODE_UART0_RX_BUFFER_LOC len).

Definition uart0_blocking_write (buf len : Z) : M boot () :=
  let len := Z.land len 0xff in
  memory (memcpy BOOTCODE_UART0_TX_BUFFER_LOC buf len);;
  csr (flush_dcache_range BOOTCODE_UART0_TX_BUFFER_LOC (BOOTCODE_UART0_TX_BUFFER_LOC + len));;
  csr (uart0_set_tx (Z.lor BOOTCODE_UART0_TX_BUFFER_LOC len));;
  wait_interrupt 23;;
  line_out BOOTCODE_UART0_TX_BUFFER_LOC len.

(** * boot.c *)
Definition compute_16b_cksum (buf : Z) : M mem Z :=
  loop (λ '(i, c),
    if i <? 16 then
      b ← loadb (buf + i);
      mret (inl (i + 1, Z.lxor c b))
    else mret (inr c)) (0, 0).

(** [Some num] for the return value 0 and [None] for 1. *)
Definition conv_5b_to_int (buf : Z) : M mem (option Z) :=
  '(num, cksum) ← loop (λ '(i, num, cksum),
    if i <? 4 then
      b ← loadb (buf + i);
      mret (inl (i + 1, Z.lor num (u32 (Z.shiftl b (Z.shiftl i 3))), Z.lxor cksum b))
    else mret (inr (num, cksum))) (0, 0, 0);
  b4 ← loadb (buf + 4);
  mret (if u8 cksum =? b4 then Some num else None).

(** One round of the command loop with the local buffer at [buf]; the answer is the
    address of the jump command, which leaves the loop. *)
Definition reply (buf c : Z) : M boot (option Z) :=
  memory (storeb buf c);;
  uart0_blocking_write buf 1;;
  mret None.

Definition case_a (buf : Z) : M boot (option Z) :=
  uart0_blocking_read buf 5;;
  num ← memory (conv_5b_to_int buf);
  match num with
  | Some p => modify (set_mem_ptr p);; reply buf 79
  | None => reply buf 69
  end.

Definition case_w (buf : Z) : M boot (option Z) :=
  uart0_blocking_read buf 17;;
  ck ← memory (compute_16b_cksum buf);
  b16 ← memory (loadb (buf + 16));
  if (ck : Z) =? b16 then
    p ← gets mem_ptr;
    memory (memcpy p buf 16);;
    csr (flush_dcache_line p);;
    modify (set_mem_ptr (u32 (p + 16)));;
    reply buf 79
  else reply buf 69.

Definition case_r (buf : Z) : M boot (option Z) :=
  p ← gets mem_ptr;
  memory (memcpy buf p 16);;
  ck ← memory (compute_16b_cksum buf);
  memory (storeb (buf + 16) ck);;
  modify (set_mem_ptr (u32 (p + 16)));;
  uart0_blocking_write buf 17;;
  mret None.

Definition case_j (buf : Z) : M boot (option Z) :=
  reply buf 79;;
  csr (gpio_set_out 0);;
  p ← gets mem_ptr;
  mret (Some p).

Definition command (buf : Z) : M boot (option Z) :=
  uart0_blocking_read buf 1;;
  c ← memory (loadb buf);
  if c =? 97 (* 'a' *) then case_a buf
  else if c =? 119 (* 'w' *) then case_w buf
  else if c =? 114 (* 'r' *) then case_r buf
  else if c =? 118 (* 'v' *) then reply buf 49
  else if c =? 106 (* 'j' *) then case_j buf
  else reply buf 69.

(** The program, until it jumps. *)
Definition main (buf : Z) : M boot Z :=
  csr (gpio_set_dir 1);;
  csr (gpio_set_out 1);;
  loop (λ _, j ← command buf; mret (match j with Some p => inr p | None => inl () end)) ().

(** * The operations *)
Section Operations.
Implicit Types (m : mem) (l i o : list Z) (s : boot).

(** The part of the state the commands are about. *)
Definition view m (p : Z) i o s : Prop := b_mem s = m ∧ mem_ptr s = p ∧ b_in s = i ∧ b_out s = o.

Lemma wp_csr {A} (act : M csr_state A) (Q : A → boot → Prop) m p i o s :
  view m p i o s → (∀ c, ∃ a c', act c = Ret (a, c')) →
  (∀ a s', view m p i o s' → Q a s') → wp (csr act) Q s.
Proof.
  intros Hv Ha HQ. apply wp_zoom. destruct (Ha (b_csr s)) as (a & c' & E). eapply wp_eq; [exact E|].
  apply HQ. exact Hv.
Qed.

Lemma wp_memory {A} (act : M mem A) (Q : A → boot → Prop) (P : A → mem → Prop) m p i o s :
  view m p i o s → wp act P m → (∀ a m' s', P a m' → view m' p i o s' → Q a s') →
  wp (memory act) Q s.
Proof.
  intros (<- & <- & <- & <-) Ha HQ. apply wp_zoom. eapply wp_mono; [exact Ha|].
  intros a m' HP. by eapply HQ.
Qed.

Lemma view_set_mem_ptr m p q i o s : view m p i o s → view m q i o (set_mem_ptr q s).
Proof. by intros (? & _ & ? & ?). Qed.

Lemma wait_interrupt_spec shift m p i o s : view m p i o s →
  wp (wait_interrupt shift) (λ _ s', view m p i o s') s.
Proof.
  intros Hv. unfold wait_interrupt. wp_pures.
  set (s1 := Boot _ _ _ _ _ _). assert (view m p i o s1) as Hv1 by exact Hv. clearbody s1. clear Hv.
  revert s1 Hv1. induction (default 0%nat _) as [|n IH]; intros s1 Hv1; [done|]. simpl.
  apply wp_bind. eapply wp_csr; [exact Hv1|by eauto|]. intros t s2 Hv2.
  apply wp_bind. eapply wp_csr; [exact Hv2|by (intros; eexists _, _)|]. intros ? s3 Hv3. by apply IH.
Qed.

Lemma flush_returns start stop c : is_u32 start → stop ≤ 2 ^ 32 - 16 →
  ∃ a c', flush_dcache_range start stop c = Ret (a, c').
Proof. intros. rewrite flush_dcache_range_spec by done. eauto. Qed.

Lemma len_byte len : 0 ≤ len < 256 → Z.land len 0xff = len.
Proof. intros. change 0xff with (Z.ones 8). rewrite Z.land_ones by done. by apply Z.mod_small. Qed.

(** The DMA buffer and the local buffer of main. *)
Definition dma : Z := 0x2000.
Definition frame_ok (buf : Z) m : Prop :=
  mapped m dma 256 ∧ mapped m buf 17 ∧ (buf + 17 ≤ dma ∨ dma + 256 ≤ buf).

Lemma frame_ok_write buf m a l : frame_ok buf m → frame_ok buf (mem_write m a l).
Proof. intros (H1 & H2 & H3). split; [by apply mapped_write|split; [by apply mapped_write|done]]. Qed.

Lemma read_spec buf m p l i o s len :
  frame_ok buf m → view m p (l ++ i) o s → ZL l = len → len ≤ 17 → Forall is_byte l →
  wp (uart0_blocking_read buf len)
     (λ _ s', view (mem_write (mem_write m dma l) buf l) p i o s') s.
Proof.
  intros (Hd & Hb & Hdis) Hv Hl Hlen Hbytes. unfold uart0_blocking_read. rewrite len_byte by lia.
  change BOOTCODE_UART0_RX_BUFFER_LOC with dma. cbv zeta. unfold dma in *.
  apply wp_bind. eapply wp_csr; [exact Hv|by (intros; eexists _, _)|]. intros ? s1 Hv1.
  apply wp_bind. eapply wp_mono; [by apply wait_interrupt_spec|]. intros ? s2 Hv2.
  apply wp_bind. unfold line_in. wp_pures. destruct Hv2 as (Hm & Hp & Hi & Ho). rewrite Hi.
  rewrite length_app, (proj2 (Z.leb_le _ _)) by lia. wp_pures.
  replace (Z.to_nat len) with (length l) by lia. rewrite take_app_length, drop_app_length.
  set (s3 := Boot _ _ _ _ _ _).
  assert (view (mem_write m 0x2000 l) p i o s3) as Hv3 by (unfold s3; by rewrite Hm).
  clearbody s3. eapply wp_csr; [exact Hv3|intros; apply flush_returns; unfold is_u32; lia|].
  intros ? s4 Hv4. rewrite <- Hl. eapply wp_memory; [exact Hv4| |].
  - apply copy_up_spec; [done|apply mem_write_arr| |lia|unfold copyable; lia].
    apply mapped_write. eapply mapped_sub; [exact Hb|lia..].
  - by intros [] m' s5 ->.
Qed.

Lemma bytes_at_arr m a l : arr m a l → bytes_at m a (ZL l) = l.
Proof.
  intros Ha. unfold bytes_at. rewrite Nat2Z.id. apply list_eq. intros j.
  rewrite list_lookup_fmap. destruct (decide (j < length l)%nat) as [Hj|Hj].
  - rewrite lookup_seq_lt by done. simpl. destruct (lookup_lt_is_Some_2 l j Hj) as [b Hb].
    by rewrite (proj1 (arr_lookup _ _ _) Ha _ _ Hb), Hb.
  - rewrite lookup_seq_ge by lia. symmetry. apply lookup_ge_None. lia.
Qed.

Lemma write_spec buf m p l i o s len :
  frame_ok buf m → view m p i o s → arr m buf l → ZL l = len → len ≤ 17 → Forall is_byte l →
  wp (uart0_blocking_write buf len) (λ _ s', view (mem_write m dma l) p i (o ++ l) s') s.
Proof.
  intros (Hd & Hb & Hdis) Hv Ha Hl Hlen Hbytes. unfold uart0_blocking_write. rewrite len_byte by lia.
  change BOOTCODE_UART0_TX_BUFFER_LOC with dma. cbv zeta. unfold dma in *.
  apply wp_bind. rewrite <- Hl. eapply wp_memory; [exact Hv| |].
  { apply copy_up_spec; [done|exact Ha| |lia|unfold copyable; lia].
    eapply mapped_sub; [exact Hd|lia..]. }
  intros [] m' s1 -> Hv1.
  apply wp_bind. eapply wp_csr; [exact Hv1|intros; apply flush_returns; unfold is_u32; lia|].
  intros ? s2 Hv2.
  apply wp_bind. eapply wp_csr; [exact Hv2|by (intros; eexists _, _)|]. intros ? s3 Hv3.
  apply wp_bind. eapply wp_mono; [by apply wait_interrupt_spec|]. intros ? s4 (Hm & Hp & Hi & Ho).
  apply wp_modify. split; [done|split; [done|split; [done|]]]. simpl.
  rewrite Hm, Ho. f_equal. by apply bytes_at_arr, mem_write_arr.
Qed.

(** ** Checksums *)
Definition xor_bytes l : Z := fold_left Z.lxor l 0.

Lemma xor_bytes_snoc l b : xor_bytes (l ++ [b]) = Z.lxor (xor_bytes l) b.
Proof. unfold xor_bytes. by rewrite fold_left_app. Qed.

Lemma xor_bytes_byte l : Forall is_byte l → is_byte (xor_bytes l).
Proof.
  induction l as [|b l IH] using rev_ind; intros H; [by vm_compute|].
  apply Forall_app in H as [Hl Hb%Forall_inv]. rewrite xor_bytes_snoc.
  apply (lxor_bound 8); [done|by apply IH|exact Hb].
Qed.

Lemma le_val_snoc l b : le_val (l ++ [b]) = le_val l + b * 2 ^ (8 * ZL l).
Proof.
  induction l as [|x l IH]; [simpl; lia|]. cbn [app le_val length]. rewrite IH.
  replace (8 * Z.of_nat (S (length l))) with (8 + 8 * ZL l) by lia.
  rewrite Z.pow_add_r by lia. change (2 ^ 8) with 256. lia.
Qed.

Lemma compute_16b_cksum_spec m buf l : length l = 16%nat → arr m buf l →
  compute_16b_cksum buf m = Ret (xor_bytes l, m).
Proof.
  intros Hl Ha. apply wp_Ret. unfold compute_16b_cksum.
  apply (wp_loop_ix (λ n '(i, c) m', m' = m ∧ ∃ k : nat, (k ≤ 16)%nat ∧ n = Z.of_nat (16 - k) ∧
    i = Z.of_nat k ∧ c = xor_bytes (take k l)) _ _ 16).
  { split; [done|]. exists 0%nat. split_and!; done || lia. }
  { done. }
  intros n [i c] m' (-> & k & Hk & -> & -> & ->). split; [lia|].
  destruct (Z.ltb_spec (Z.of_nat k) 16).
  - destruct (arr_split_at m buf l k ltac:(lia) Ha) as (b & Hb & Hmb).
    apply wp_bind, wp_loadb with b; [done|]. apply wp_ret. exists (Z.of_nat (16 - S k)). split; [lia|].
    split; [done|]. exists (S k). rewrite (take_S_r _ _ b) by done. rewrite xor_bytes_snoc.
    split_and!; try done; lia.
  - apply wp_ret. by rewrite take_ge by lia.
Qed.

Lemma conv_5b_to_int_spec m buf l k : length l = 4%nat → Forall is_byte l → arr m buf (l ++ [k]) →
  conv_5b_to_int buf m = Ret (if xor_bytes l =? k then Some (le_val l) else None, m).
Proof.
  intros Hl Hb Ha. apply arr_app in Ha as [Ha [Hk _]]. rewrite Hl in Hk. apply wp_Ret.
  unfold conv_5b_to_int. apply wp_bind.
  apply (wp_loop_ix (λ n '(i, num, c) m', m' = m ∧ ∃ k : nat, (k ≤ 4)%nat ∧ n = Z.of_nat (4 - k) ∧
    i = Z.of_nat k ∧ num = le_val (take k l) ∧ c = xor_bytes (take k l)) _ _ 4).
  { split; [done|]. exists 0%nat. split_and!; done || lia. }
  { done. }
  intros n [[i num] c] m' (-> & j & Hj & -> & -> & -> & ->). split; [lia|].
  destruct (Z.ltb_spec (Z.of_nat j) 4).
  - destruct (arr_split_at m buf l j ltac:(lia) Ha) as (b & Hb' & Hmb).
    assert (is_byte b) as Hbb by (by eapply Forall_lookup_1).
    apply wp_bind, wp_loadb with b; [done|]. apply wp_ret. exists (Z.of_nat (4 - S j)). split; [lia|].
    split; [done|]. exists (S j). rewrite (take_S_r _ _ b) by done. rewrite xor_bytes_snoc, le_val_snoc.
    split_and!; [lia|done|lia| |done].
    pose proof (le_val_bound (take j l) ltac:(by apply Forall_take)) as Hv.
    rewrite length_take_le in Hv |- * by lia.
    rewrite (Z.shiftl_mul_pow2 (Z.of_nat j) 3) by lia. change (2 ^ 3) with 8. rewrite (Z.mul_comm _ 8).
    rewrite u32_small.
    + by rewrite (lor_add_shift (8 * Z.of_nat j)) by (exact Hv || lia).
    + rewrite Z.shiftl_mul_pow2 by lia. unfold is_byte, is_u32 in *.
      assert (2 ^ (8 * Z.of_nat j) ≤ 2 ^ 24) by (apply Z.pow_le_mono_r; lia). nia.
  - apply wp_ret. rewrite !take_ge by lia. wp_pures. apply wp_loadb with k; [done|].
    apply wp_ret. by rewrite u8_small by by apply xor_bytes_byte.
Qed.
End Operations.
