(* ===== verification/BootProto.v ===== *)
(** The boot protocol: the commands on the wire with their encoding and its decoder, what
    each command means, and the proof that the command loop of boot.c ([Boot]) does that
    for every sequence of commands, corrupted ones included. *)
From stdpp Require Import base list gmap fin_maps.
From Stdlib Require Import ZArith Lia.
From S2P Require Import Prelude Memory LibcMem Csr Boot.

#[local] Open Scope Z_scope.

(** * Commands and their encoding *)
Inductive cmd : Type :=
  | SetAddress (p : Z)
  | BadAddress (l : list Z)
  | WriteData (d : list Z)
  | BadData (l : list Z)
  | ReadData
  | Version
  | JumpTo
  | Unknown (c : Z).

Definition sealed (l : list Z) : list Z := l ++ [xor_bytes l].

Definition encode (c : cmd) : list Z :=
  match c with
  | SetAddress p => 97 :: sealed (le_bytes 4 p)
  | BadAddress l => 97 :: l
  | WriteData d => 119 :: sealed d
  | BadData l => 119 :: l
  | ReadData => [114]
  | Version => [118]
  | JumpTo => [106]
  | Unknown c => [c]
  end.

(** Whether a list is [n] bytes followed by their checksum. *)
Definition checks (n : nat) (l : list Z) : bool := bool_decide (l = sealed (take n l)).

Definition wf_cmd (c : cmd) : Prop :=
  match c with
  | SetAddress p => is_u32 p
  | BadAddress l => length l = 5%nat ∧ Forall is_byte l ∧ checks 4 l = false
  | WriteData d => length d = 16%nat ∧ Forall is_byte d
  | BadData l => length l = 17%nat ∧ Forall is_byte l ∧ checks 16 l = false
  | ReadData | Version | JumpTo => True
  | Unknown c => is_byte c ∧ c ∉ [97; 119; 114; 118; 106]
  end.

(** The next [n] bytes, and what follows them. *)
Definition next (n : nat) (l : list Z) : option (list Z * list Z) :=
  if decide (n ≤ length l)%nat then Some (take n l, drop n l) else None.

Definition decode (i : list Z) : option (cmd * list Z) :=
  match i with
  | [] => None
  | b :: i =>
      if b =? 97 then
        '(l, i) ← next 5 i;
        Some (if checks 4 l then SetAddress (le_val (take 4 l)) else BadAddress l, i)
      else if b =? 119 then
        '(l, i) ← next 17 i;
        Some (if checks 16 l then WriteData (take 16 l) else BadData l, i)
      else if b =? 114 then Some (ReadData, i)
      else if b =? 118 then Some (Version, i)
      else if b =? 106 then Some (JumpTo, i)
      else Some (Unknown b, i)
  end.

Section Encoding.
Implicit Types (l d i : list Z) (c : cmd).

Lemma next_app n l i : length l = n → next n (l ++ i) = Some (l, i).
Proof.
  intros <-. unfold next. rewrite decide_True by (rewrite length_app; lia).
  by rewrite take_app_length, drop_app_length.
Qed.

Lemma next_inv n i l r : next n i = Some (l, r) → i = l ++ r ∧ length l = n.
Proof.
  unfold next. case_decide; [|done]. intros [= <- <-]. split; [by rewrite take_drop|].
  apply length_take_le. lia.
Qed.

Lemma length_sealed l : length (sealed l) = S (length l).
Proof. unfold sealed. rewrite length_app. simpl. lia. Qed.

Lemma sealed_byte l : Forall is_byte l → Forall is_byte (sealed l).
Proof. intros H. apply Forall_app. split; [done|]. constructor; [by apply xor_bytes_byte|done]. Qed.

Lemma checks_sealed l : checks (length l) (sealed l) = true.
Proof. unfold checks, sealed. rewrite take_app_length. by apply bool_decide_eq_true. Qed.

Lemma checks_last n l (k : Z) : length l = n → checks n (l ++ [k]) = (xor_bytes l =? k).
Proof.
  intros <-. unfold checks. rewrite take_app_length. destruct (Z.eqb_spec (xor_bytes l) k) as [<-|Hne].
  - by apply bool_decide_eq_true.
  - apply bool_decide_eq_false. unfold sealed. intros [_ [= E]]%app_inj_1; [|done]. congruence.
Qed.

(** A packet of [n + 1] bytes whose last byte is not the checksum. *)
Lemma checks_false n l : length l = S n → checks n l = false →
  ∃ l' k, l = l' ++ [k] ∧ length l' = n ∧ (xor_bytes l' =? k) = false.
Proof.
  intros Hl Hc. destruct (exists_last (l := l)) as (l' & k & ->); [by destruct l|].
  rewrite length_app in Hl. simpl in Hl. exists l', k. split; [done|]. split; [lia|].
  rewrite checks_last in Hc by lia. done.
Qed.

Lemma checks_true n l : checks n l = true → l = sealed (take n l).
Proof. by intros H%bool_decide_eq_true. Qed.

Lemma decode_other (b : Z) i : b ∉ [97; 119; 114; 118; 106] → decode (b :: i) = Some (Unknown b, i).
Proof.
  rewrite !not_elem_of_cons. intros (? & ? & ? & ? & ? & _). cbn [decode].
  by rewrite !(proj2 (Z.eqb_neq b _)).
Qed.

Lemma decode_encode c i : wf_cmd c → decode (encode c ++ i) = Some (c, i).
Proof.
  destruct c as [p|l|d|l| | | |c]; cbn [encode app decode wf_cmd Z.eqb Pos.eqb]; try done.
  - intros Hp. rewrite next_app by (by rewrite length_sealed, length_le_bytes). cbn [mbind option_bind].
    pose proof (checks_sealed (le_bytes 4 p)) as Hc. rewrite length_le_bytes in Hc. rewrite Hc.
    unfold sealed. rewrite take_app_length' by (by rewrite length_le_bytes).
    rewrite le_val_bytes, Z.mod_small by exact Hp. done.
  - intros (Hl & _ & Hc). rewrite next_app by done. cbn [mbind option_bind]. by rewrite Hc.
  - intros (Hl & _). rewrite next_app by (rewrite length_sealed; lia). cbn [mbind option_bind].
    pose proof (checks_sealed d) as Hc. rewrite Hl in Hc. rewrite Hc. unfold sealed.
    by rewrite take_app_length' by done.
  - intros (Hl & _ & Hc). rewrite next_app by done. cbn [mbind option_bind]. by rewrite Hc.
  - intros [Hb Hc]. by apply (decode_other c i).
Qed.

(** What is decoded is the encoding of a well-formed command. *)
Lemma decode_wf i c r : Forall is_byte i → decode i = Some (c, r) → wf_cmd c ∧ i = encode c ++ r.
Proof.
  destruct i as [|b i]; [done|]. intros Hb Hd.
  apply Forall_cons in Hb as [Hb Hi].
  destruct (decide (b ∈ [97; 119; 114; 118; 106])) as [Hin|Hin].
  2: { rewrite decode_other in Hd by done. by injection Hd as <- <-. }
  rewrite !elem_of_cons in Hin. destruct Hin as [->|[->|[->|[->|[->|[]%elem_of_nil]]]]];
    cbn [decode Z.eqb Pos.eqb] in Hd; try (by injection Hd as <- <-).
  - apply bind_Some in Hd as ([l i'] & Hn & [= <- <-]). apply next_inv in Hn as [-> Hl].
    apply Forall_app in Hi as [Hl' _]. destruct (checks 4 l) eqn:Hc; [|done].
    apply checks_true in Hc. assert (length (take 4 l) = 4%nat) as H4 by (rewrite length_take; lia).
    pose proof (le_bytes_val (take 4 l) ltac:(by apply Forall_take)) as E. rewrite H4 in E.
    cbn [encode app]. rewrite E, <- Hc. split; [|done].
    pose proof (le_val_bound (take 4 l)) as Hv. rewrite H4 in Hv. apply Hv. by apply Forall_take.
  - apply bind_Some in Hd as ([l i'] & Hn & [= <- <-]). apply next_inv in Hn as [-> Hl].
    apply Forall_app in Hi as [Hl' _]. destruct (checks 16 l) eqn:Hc; [|done].
    apply checks_true in Hc. cbn [encode app]. rewrite <- Hc. split; [|done].
    split; [rewrite length_take; lia|by apply Forall_take].
Qed.
End Encoding.

(** * The meaning of the commands *)

(** The machine a host sees: its memory and the current address. *)
Record target : Type := Target {
  t_mem : mem;
  t_ptr : Z;
}.

(** The target after a command, the reply, and where a jump goes. *)
Definition exec (t : target) (c : cmd) : target * list Z * option Z :=
  match c with
  | SetAddress p => (Target (t_mem t) p, [79], None)
  | WriteData d => (Target (mem_write (t_mem t) (t_ptr t) d) (u32 (t_ptr t + 16)), [79], None)
  | ReadData =>
      (Target (t_mem t) (u32 (t_ptr t + 16)), sealed (bytes_at (t_mem t) (t_ptr t) 16), None)
  | Version => (t, [49], None)
  | JumpTo => (t, [79], Some (t_ptr t))
  | BadAddress _ | BadData _ | Unknown _ => (t, [69], None)
  end.

Section Refinement.
Context (buf : Z).
Implicit Types (t : target) (s : boot) (c : cmd) (l i o : list Z).

(** The addresses the boot code uses itself. *)
Definition scratch (a : Z) : Prop := dma ≤ a < dma + 256 ∨ buf ≤ a < buf + 17.

(** A read or write command must not touch them, nor unmapped memory. *)
Definition admissible t c : Prop :=
  match c with
  | WriteData _ | ReadData =>
      0 ≤ t_ptr t ∧ mapped (t_mem t) (t_ptr t) 16 ∧ ∀ a, t_ptr t ≤ a < t_ptr t + 16 → ¬ scratch a
  | _ => True
  end.

(** A target and the boot code's state, [i] and [o] the two directions of the line. *)
Definition represents t s i o : Prop :=
  frame_ok buf (b_mem s) ∧ mem_wf (t_mem t) ∧
  (∀ a, ¬ scratch a → b_mem s !! a = t_mem t !! a) ∧
  mem_ptr s = t_ptr t ∧ b_in s = i ∧ b_out s = o.

Definition agree (m m' : mem) : Prop := ∀ a, ¬ scratch a → m' !! a = m !! a.

Lemma agree_write_dma m l : ZL l ≤ 256 → agree m (mem_write m dma l).
Proof. intros Hl a Ha. apply mem_write_lookup_out. unfold scratch in Ha. lia. Qed.

Lemma agree_write_buf m l : ZL l ≤ 17 → agree m (mem_write m buf l).
Proof. intros Hl a Ha. apply mem_write_lookup_out. unfold scratch in Ha. lia. Qed.

Lemma agree_trans m1 m2 m3 : agree m1 m2 → agree m2 m3 → agree m1 m3.
Proof. intros H1 H2 a Ha. by rewrite H2, H1. Qed.

(** Reading the next [len] bytes into the local buffer. *)
Lemma fetch_spec t s l i o len : represents t s (l ++ i) o → ZL l = len → len ≤ 17 → Forall is_byte l →
  wp (uart0_blocking_read buf len) (λ _ s', represents t s' i o ∧ arr (b_mem s') buf l) s.
Proof.
  intros (Hf & Hw & Hm & Hp & Hi & Ho) Hl Hlen Hb. eapply wp_mono.
  { eapply (read_spec buf (b_mem s) (mem_ptr s) l i o); done. }
  intros ? s' (Hm' & Hp' & Hi' & Ho'). split; [|rewrite Hm'; apply mem_write_arr].
  split; [rewrite Hm'; by apply frame_ok_write, frame_ok_write|]. split_and!; try done; [|congruence].
  intros x Hx. rewrite Hm', <- (Hm x Hx). revert x Hx.
  apply (agree_trans _ (mem_write (b_mem s) dma l)); [apply agree_write_dma|apply agree_write_buf]; lia.
Qed.

Lemma send_spec t s l i o len : represents t s i o → arr (b_mem s) buf l → ZL l = len → len ≤ 17 →
  Forall is_byte l → wp (uart0_blocking_write buf len) (λ _ s', represents t s' i (o ++ l)) s.
Proof.
  intros (Hf & Hw & Hm & Hp & Hi & Ho) Ha Hl Hlen Hb. eapply wp_mono.
  { eapply (write_spec buf (b_mem s) (mem_ptr s) l i o); done. }
  intros ? s' (Hm' & Hp' & Hi' & Ho').
  split; [rewrite Hm'; by apply frame_ok_write|]. split_and!; try done; [|congruence].
  intros x Hx. rewrite Hm', <- (Hm x Hx). revert x Hx. apply agree_write_dma. lia.
Qed.

(** Storing into the local buffer. *)
Lemma represents_scratch t s i o m' : represents t s i o → frame_ok buf m' → agree (b_mem s) m' →
  represents t (on_mem m' s) i o.
Proof.
  intros (Hf & Hw & Hm & Hp & Hi & Ho) Hf' Ha. split_and!; try done.
  intros a Hs. simpl. by rewrite Ha, Hm.
Qed.

Lemma reply_spec t s i o (c : Z) : represents t s i o → is_byte c →
  wp (reply buf c) (λ j s', j = None ∧ represents t s' i (o ++ [c])) s.
Proof.
  intros Hr Hc. unfold reply. pose proof Hr as (Hf & _). wp_pures. apply wp_zoom, wp_storeb.
  { apply Hf. lia. }
  rewrite u8_small by done. apply wp_bind. eapply wp_mono.
  { apply (send_spec t (on_mem (<[buf := c]> (b_mem s)) s) [c] i o 1); try done.
    - apply represents_scratch; [done|by apply (frame_ok_write buf _ buf [c])|].
      by apply (agree_write_buf _ [c]).
    - split; [|done]. apply lookup_insert_eq.
    - by constructor. }
  intros ? s' Hr'. by apply wp_ret.
Qed.

(** A memory computation that answers without changing memory. *)
Lemma wp_memory_pure {A} (act : M mem A) (Q : A → boot → Prop) s a :
  act (b_mem s) = Ret (a, b_mem s) → Q a s → wp (memory act) Q s.
Proof. intros E HQ. apply wp_zoom. eapply wp_eq; [exact E|]. by destruct s. Qed.

Lemma wp_csr_rep {A} (act : M csr_state A) (Q : A → boot → Prop) t s i o :
  represents t s i o → (∀ r, ∃ a r', act r = Ret (a, r')) →
  (∀ a s', represents t s' i o → b_mem s' = b_mem s → Q a s') → wp (csr act) Q s.
Proof.
  intros Hr Ha HQ. apply wp_zoom. destruct (Ha (b_csr s)) as (a & r' & E). eapply wp_eq; [exact E|].
  by apply HQ.
Qed.

(** What running [act] makes of a command whose first byte is consumed. *)
Definition runs (act : M boot (option Z)) t s (c : cmd) i o : Prop :=
  wp act (λ j s', let '(t', r, j') := exec t c in j = j' ∧ represents t' s' i (o ++ r)) s.

Lemma case_a_set t s p i o : is_u32 p → represents t s (sealed (le_bytes 4 p) ++ i) o →
  runs (case_a buf) t s (SetAddress p) i o.
Proof.
  intros Hp Hr. unfold runs, case_a. apply wp_bind.
  assert (Forall is_byte (sealed (le_bytes 4 p))) as Hb by apply sealed_byte, le_bytes_byte.
  eapply wp_mono.
  { apply (fetch_spec _ _ _ _ _ 5 Hr); [by rewrite length_sealed, length_le_bytes|done|done]. }
  intros ? s1 [Hr1 Ha]. apply wp_bind. eapply wp_memory_pure.
  { apply (conv_5b_to_int_spec _ _ (le_bytes 4 p)); [apply length_le_bytes|apply le_bytes_byte|exact Ha]. }
  rewrite Z.eqb_refl, le_val_bytes, Z.mod_small by exact Hp. apply wp_bind, wp_modify.
  apply (reply_spec (Target (t_mem t) p)); [by destruct Hr1 as (? & ? & ? & _ & ? & ?)|done].
Qed.

Lemma case_a_bad t s l i o : wf_cmd (BadAddress l) → represents t s (l ++ i) o →
  runs (case_a buf) t s (BadAddress l) i o.
Proof.
  intros (Hl & Hb & Hc) Hr. unfold runs, case_a. apply wp_bind.
  eapply wp_mono; [apply (fetch_spec _ _ _ _ _ 5 Hr); [lia|done|done]|]. intros ? s1 [Hr1 Ha].
  destruct (checks_false 4 l Hl Hc) as (l' & k & -> & Hl' & Hk). apply Forall_app in Hb as [Hb _].
  apply wp_bind. eapply wp_memory_pure; [by apply (conv_5b_to_int_spec _ _ l')|].
  rewrite Hk. by apply reply_spec.
Qed.

Lemma case_w_bad t s l i o : wf_cmd (BadData l) → represents t s (l ++ i) o →
  runs (case_w buf) t s (BadData l) i o.
Proof.
  intros (Hl & Hb & Hc) Hr. unfold runs, case_w. apply wp_bind.
  eapply wp_mono; [apply (fetch_spec _ _ _ _ _ 17 Hr); [lia|done|done]|]. intros ? s1 [Hr1 Ha].
  destruct (checks_false 16 l Hl Hc) as (l' & k & -> & Hl' & Hk).
  apply arr_app in Ha as [Ha [Hak _]]. rewrite Hl' in Hak. change (Z.of_nat 16) with 16 in Hak.
  apply wp_bind. eapply wp_memory_pure; [by apply (compute_16b_cksum_spec _ _ l')|].
  apply wp_bind. eapply wp_memory_pure; [unfold loadb; by rewrite Hak|].
  rewrite Hk. by apply reply_spec.
Qed.

(** Writing 16 bytes of the target's memory. *)
Lemma represents_store t s i o l : represents t s i o → mapped (t_mem t) (t_ptr t) (ZL l) →
  Forall is_byte l →
  represents (Target (mem_write (t_mem t) (t_ptr t) l) (u32 (t_ptr t + 16)))
    (set_mem_ptr (u32 (t_ptr t + 16)) (on_mem (mem_write (b_mem s) (t_ptr t) l) s)) i o.
Proof.
  intros (Hf & Hw & Hm & Hp & Hi & Ho) Hmap Hb.
  split_and!; try done; [by apply frame_ok_write|by apply mem_wf_write|].
  intros a Ha. simpl. rewrite !mem_write_lookup. case_decide; [done|by apply Hm].
Qed.

Lemma case_w_data t s d i o : wf_cmd (WriteData d) → admissible t (WriteData d) →
  represents t s (sealed d ++ i) o → runs (case_w buf) t s (WriteData d) i o.
Proof.
  intros (Hl & Hb) (H0 & Hmap & Hns) Hr. unfold runs, case_w. apply wp_bind. eapply wp_mono.
  { apply (fetch_spec _ _ _ _ _ 17 Hr); [rewrite length_sealed; lia|done|by apply sealed_byte]. }
  intros ? s1 [Hr1 Ha]. apply arr_app in Ha as [Ha [Hk _]]. rewrite Hl in Hk. change (Z.of_nat 16) with 16 in Hk.
  apply wp_bind. eapply wp_memory_pure; [by apply (compute_16b_cksum_spec _ _ d)|].
  apply wp_bind. eapply wp_memory_pure; [unfold loadb; by rewrite Hk|]. rewrite Z.eqb_refl.
  apply wp_bind, wp_gets. pose proof Hr1 as (Hf & _ & Hm & Hp & _). rewrite Hp.
  assert (∀ a, t_ptr t ≤ a < t_ptr t + 16 → ¬ (buf ≤ a < buf + 17)) as Hbuf
    by (intros x Hx Hin; apply (Hns x Hx); by right).
  apply wp_bind, wp_zoom. eapply wp_mono.
  { change 16 with (Z.of_nat 16). rewrite <- Hl. apply copy_up_spec; [done|done| |lia|].
    - intros x Hx. rewrite Hl in Hx. rewrite Hm by (apply Hns; lia). apply Hmap. lia.
    - unfold copyable. destruct (Z.le_gt_cases (t_ptr t) buf); [by left|right].
      destruct (Z.le_gt_cases (buf + ZL d) (t_ptr t)); [done|]. exfalso. apply (Hbuf (t_ptr t)); lia. }
  intros ? m2 ->. apply wp_bind, wp_zoom, wp_modify, wp_bind, wp_modify.
  apply (reply_spec (Target (mem_write (t_mem t) (t_ptr t) d) (u32 (t_ptr t + 16)))); [|done].
  apply (represents_store t s1 i o d); [done|by rewrite Hl|done].
Qed.

Lemma bytes_at_mapped (m : mem) a n : 0 ≤ n → mapped m a n → mem_wf m →
  arr m a (bytes_at m a n) ∧ ZL (bytes_at m a n) = n ∧ Forall is_byte (bytes_at m a n).
Proof.
  intros Hn Hm Hw. destruct (mapped_arr m a n Hn Hm) as (l & Hl & Ha).
  rewrite <- Hl, bytes_at_arr by done. split_and!; [done|done|by eapply mem_wf_arr].
Qed.

Lemma case_r_spec t s i o : admissible t ReadData → represents t s i o →
  runs (case_r buf) t s ReadData i o.
Proof.
  intros (H0 & Hmap & Hns) Hr. unfold runs, case_r. pose proof Hr as (Hf & Hw & Hm & Hp & _).
  destruct (bytes_at_mapped _ _ 16 ltac:(lia) Hmap Hw) as (Ha & Hl & Hb).
  cbn [exec]. set (d := bytes_at (t_mem t) (t_ptr t) 16) in *. clearbody d.
  apply wp_bind, wp_gets. rewrite Hp. apply wp_bind, wp_zoom. eapply wp_mono.
  { rewrite <- Hl. apply copy_up_spec; [done| | |lia|].
    - apply arr_lookup. intros j b Hj. pose proof (lookup_lt_Some _ _ _ Hj).
      rewrite Hm by (apply Hns; lia). by apply (proj1 (arr_lookup _ _ _) Ha).
    - apply (mapped_sub _ buf 17); [apply Hf|lia|lia].
    - unfold copyable. destruct (Z.le_gt_cases buf (t_ptr t)); [by left|right].
      destruct (Z.le_gt_cases (t_ptr t + ZL d) buf); [done|]. exfalso.
      apply (Hns buf); [lia|]. right. lia. }
  intros ? m1 ->. set (s1 := on_mem _ s).
  apply wp_bind. eapply wp_memory_pure.
  { apply (compute_16b_cksum_spec _ _ d); [lia|apply mem_write_arr]. }
  apply wp_bind, wp_zoom, wp_storeb.
  { apply mapped_write with (a := buf) (n := 17); [apply Hf|lia]. }
  rewrite u8_small by by apply xor_bytes_byte. apply wp_bind, wp_modify, wp_bind.
  assert (<[buf + 16 := xor_bytes d]> (b_mem s1) = mem_write (b_mem s) buf (sealed d)) as Em.
  { unfold sealed. rewrite mem_write_snoc, Hl. done. }
  eapply wp_mono.
  { apply (send_spec (Target (t_mem t) (u32 (t_ptr t + 16))) _ (sealed d) i o 17).
    - pose proof (represents_scratch t s i o (mem_write (b_mem s) buf (sealed d)) Hr) as Hr1.
      rewrite Em. destruct Hr1 as (? & ? & ? & _ & ? & ?); [by apply frame_ok_write| |done].
      apply agree_write_buf. rewrite length_sealed. lia.
    - change (arr (<[buf + 16 := xor_bytes d]> (b_mem s1)) buf (sealed d)).
      rewrite Em. apply mem_write_arr.
    - rewrite length_sealed. lia.
    - done.
    - by apply sealed_byte. }
  intros ? s2 Hr2. by apply wp_ret.
Qed.

Lemma case_j_spec t s i o : represents t s i o → runs (case_j buf) t s JumpTo i o.
Proof.
  intros Hr. unfold runs, case_j. apply wp_bind.
  eapply wp_mono; [by apply (reply_spec t s i o 79)|]. intros ? s1 [_ Hr1].
  apply wp_bind. eapply wp_csr_rep; [exact Hr1|by (intros; eexists _, _)|].
  intros ? s2 Hr2 _. wp_pures. split; [by destruct Hr2 as (_ & _ & _ & -> & _)|done].
Qed.

(** One command of the loop, after its first byte. *)
Lemma command_spec t s c i o : wf_cmd c → admissible t c → represents t s (encode c ++ i) o →
  runs (command buf) t s c i o.
Proof.
  intros Hwf Had Hr. unfold runs, command.
  assert (∃ b l, encode c = b :: l ∧ is_byte b) as (b & l & E & Hb).
  { destruct c; cbn [encode]; eexists _, _; split; try done. by destruct Hwf. }
  rewrite E in Hr. apply wp_bind.
  eapply wp_mono; [apply (fetch_spec t s [b] (l ++ i) o 1 Hr); [done|done|by constructor]|].
  intros ? s1 [Hr1 [Hb1 _]]. apply wp_bind. eapply wp_memory_pure; [unfold loadb; by rewrite Hb1|].
  destruct c; injection E as <- <-; cbn [Z.eqb Pos.eqb].
  - by apply case_a_set.
  - by apply case_a_bad.
  - by apply case_w_data.
  - by apply case_w_bad.
  - by apply case_r_spec.
  - by apply reply_spec.
  - by apply case_j_spec.
  - destruct Hwf as [_ Hc]. rewrite !not_elem_of_cons in Hc. destruct Hc as (? & ? & ? & ? & ? & _).
    rewrite !(proj2 (Z.eqb_neq c _)) by done. by apply reply_spec.
Qed.
End Refinement.

(** C14 One round of the boot loader's loop does what the protocol says.  Whatever bytes
    the host has sent, if they decode to a command, well formed or corrupted, the round
    consumes exactly that command, changes the target's memory and address as the
    command means, sends the reply and nothing else, and leaves the loop only for a jump. *)
Theorem command_refines buf t s i o c rest :
  represents buf t s i o → Forall is_byte i → decode i = Some (c, rest) → admissible buf t c →
  wp (command buf) (λ j s', let '(t', r, j') := exec t c in
    j = j' ∧ represents buf t' s' rest (o ++ r)) s.
Proof.
  intros Hr Hb Hd Had. destruct (decode_wf _ _ _ Hb Hd) as [Hwf ->]. by apply command_spec.
Qed.

(** ** Whole sessions *)
Fixpoint session (t : target) (cs : list cmd) : target * list Z :=
  match cs with
  | [] => (t, [])
  | c :: cs =>
      let '(t1, r, _) := exec t c in
      let '(t2, rs) := session t1 cs in (t2, r ++ rs)
  end.

Fixpoint session_ok (buf : Z) (t : target) (cs : list cmd) : Prop :=
  match cs with
  | [] => True
  | c :: cs =>
      wf_cmd c ∧ c ≠ JumpTo ∧ admissible buf t c ∧ session_ok buf (exec t c).1.1 cs
  end.

Lemma exec_stays t c : c ≠ JumpTo → (exec t c).2 = None.
Proof. by destruct c. Qed.

(** C15 The boot loader runs until the first jump command: for every sequence of other
    commands, corrupted ones included, main returns at the jump with the address current
    then, having sent exactly the replies of the commands in order, and leaves the bytes
    behind the jump unread. *)
Theorem main_runs_session buf t s cs rest :
  represents buf t s (concat (map encode cs) ++ encode JumpTo ++ rest) [] →
  session_ok buf t cs → ZL cs < 2 ^ 64 - 1 →
  wp (main buf) (λ p s', p = t_ptr (session t cs).1 ∧
    represents buf (session t cs).1 s' rest ((session t cs).2 ++ [79])) s.
Proof.
  intros Hr Hok Hlen. unfold main.
  apply wp_bind. eapply wp_csr_rep; [exact Hr|by (intros; eexists _, _)|]. intros ? s1 Hr1 _.
  apply wp_bind. eapply wp_csr_rep; [exact Hr1|by (intros; eexists _, _)|]. intros ? s2 Hr2 _.
  apply (wp_loop_ix (λ n _ s', ∃ t' cs' o, n = ZL cs' ∧
    represents buf t' s' (concat (map encode cs') ++ encode JumpTo ++ rest) o ∧
    session_ok buf t' cs' ∧ (session t' cs').1 = (session t cs).1 ∧
    o ++ (session t' cs').2 = (session t cs).2) _ _ (ZL cs)); [by eexists t, cs, []|lia|].
  intros n _ s' (t' & cs' & o & -> & Hr' & Hok' & Et & Eo). split; [lia|]. apply wp_bind.
  destruct cs' as [|c cs'].
  - simpl in Hr', Et, Eo. rewrite app_nil_r in Eo. eapply wp_mono.
    { apply (command_spec buf t' s' JumpTo rest o); done. }
    intros j s3 [-> Hr3]. apply wp_ret. rewrite <- Et, <- Eo. by split.
  - destruct Hok' as (Hwf & Hj & Had & Hok'). cbn [map concat] in Hr'. rewrite <- app_assoc in Hr'.
    eapply wp_mono; [exact (command_spec buf t' s' c _ o Hwf Had Hr')|].
    cbn [session] in Et, Eo. pose proof (exec_stays t' c Hj) as Hn.
    destruct (exec t' c) as [[t1 r] j'] eqn:Ex. simpl in Hn, Hok'. subst j'.
    intros j s3 [-> Hr3]. apply wp_ret. exists (ZL cs'). split; [simpl; lia|].
    exists t1, cs', (o ++ r). destruct (session t1 cs') as [t2 rs] eqn:Es. simpl in Et, Eo |- *.
    split_and!; try done. by rewrite <- app_assoc.
Qed.

(** * Examples *)
Section Examples.
(** 128 KiB of zeros, the local buffer of main at 0x3000. *)
Definition ram : mem := mem_write ∅ 0 (replicate (Z.to_nat 0x20000) 0).

Lemma ram_mapped a n : 0 ≤ a → a + n ≤ 0x20000 → mapped ram a n.
Proof.
  intros. apply (mapped_sub _ 0 0x20000); [|lia..].
  replace 0x20000 with (ZL (replicate (Z.to_nat 0x20000) 0)) by (rewrite length_replicate; lia).
  apply arr_mapped, mem_write_arr.
Qed.

Lemma ram_wf : mem_wf ram.
Proof. apply mem_wf_write; [by intros ???|]. by apply Forall_replicate. Qed.
#[local] Opaque ram.

Definition powered (input : list Z) : boot := Boot ram 0x10000 input [] (Csr (λ _, 0) []) [3%nat].
Definition ram_target : target := Target ram 0x10000.

Lemma powered_represents input : represents 0x3000 ram_target (powered input) input [].
Proof.
  split; [|split; [apply ram_wf|done]].
  split; [by apply ram_mapped|split; [by apply ram_mapped|unfold dma; lia]].
Qed.

Lemma command_refines_witness :
  wp (command 0x3000) (λ j s',
    let '(t', r, j') := exec ram_target (SetAddress 0x10010) in
    j = j' ∧ represents 0x3000 t' s' [114] ([] ++ r)) (powered [97; 16; 0; 1; 0; 17; 114]).
Proof.
  apply (command_refines 0x3000 ram_target (powered [97; 16; 0; 1; 0; 17; 114])
    [97; 16; 0; 1; 0; 17; 114] [] (SetAddress 0x10010) [114]).
  - apply powered_represents.
  - repeat constructor; by vm_compute.
  - by vm_compute.
  - done.
Defined.

Lemma main_runs_session_witness :
  let cs := [BadAddress [1; 2; 3; 4; 5]; Version; ReadData] in
  wp (main 0x3000) (λ p s', p = t_ptr (session ram_target cs).1 ∧
    represents 0x3000 (session ram_target cs).1 s' [7] ((session ram_target cs).2 ++ [79]))
    (powered (concat (map encode cs) ++ encode JumpTo ++ [7])).
Proof.
  intros cs. apply (main_runs_session 0x3000 ram_target _ cs [7]); [apply powered_represents| |done].
  split; [split; [done|split; [repeat constructor; by vm_compute|done]]|].
  split; [done|split; [done|]]. split; [done|split; [done|split; [done|]]].
  split; [done|split; [done|split; [|done]]].
  split; [done|split; [by apply ram_mapped|]]. intros a Ha. unfold scratch, dma. simpl in Ha. lia.
Defined.
End Examples.
#[global] Opaque ram.
