(* ===== verification/BootClient.v ===== *)
(** The host side of the boot protocol (tools/bootloader_uart_client.c) against any
    device, the boot ROM of [Boot] as such a device, and the upload of a file from end
    to end; and the ROM image generator tools/genbootcode.c. *)
From stdpp Require Import base list gmap fin_maps strings.
From Stdlib Require Import ZArith Lia.
From S2P Require Import Prelude Memory LibcMem Csr Boot BootProto.

#[local] Open Scope Z_scope.

(** * The client *)

(** What the client asks of the serial line: [write] sends bytes, [read] waits for one
    byte and answers none at the end of the line. *)
Class Device (D : Type) : Type := {
  dev_write : list Z → D → D;
  dev_read : D → option Z * D;
}.

(** The calls of errx, with the reply they print. *)
Inductive exit : Type :=
  | Usage
  | ErrorOpening (name : string)
  | ErrorSettingAddress (c : Z)
  | ErrorInitiatingJmp
  | ErrorWritingData (c : Z)
  | ErrorReading (name : string).

Section Client.
Context {D : Type} `{Device D}.

(** A computation on the device that may leave the program. *)
Definition client (A : Type) : Type := D → (exit + A) * D.
#[global] Instance client_ret : MRet client := λ A a d, (inr a, d).
#[global] Instance client_bind : MBind client := λ A B f m d,
  match m d with
  | (inl e, d') => (inl e, d')
  | (inr a, d') => f a d'
  end.
Definition errx {A} (e : exit) : client A := λ d, (inl e, d).
Definition write (l : list Z) : client () := λ d, (inr (), dev_write l d).

(** [read(dev, buf, 1)]: without a byte [buf[0]] keeps its value. *)
Definition read1 (old : Z) : client Z := λ d,
  let '(b, d') := dev_read d in (inr (default old b), d').

Definition set_address (address : Z) : client () :=
  let a := le_bytes 4 address in
  let at_ i := nth i a 0 in
  let cksum := Z.lxor (Z.lxor (Z.lxor (at_ 0%nat) (at_ 1%nat)) (at_ 2%nat)) (at_ 3%nat) in
  write (97 :: a ++ [cksum]);;
  c ← read1 97;
  if (c : Z) =? 79 then mret () else errx (ErrorSettingAddress c).

Definition initiate_jmp : client () :=
  write [106];;
  c ← read1 106;
  if (c : Z) =? 79 then mret () else errx ErrorInitiatingJmp.

Definition compute_16b_cksum (buf : list Z) : Z := fold_left Z.lxor (take 16 buf) 0.

Definition write_data (data : list Z) : client () :=
  let buf := take 16 data in
  write (119 :: buf ++ [u8 (compute_16b_cksum buf)]);;
  c ← read1 119;
  if (c : Z) =? 79 then mret () else errx (ErrorWritingData c).

(** [memset(buf, 0, 16)] and the bytes read over it. *)
Definition padded (l : list Z) : list Z := l ++ replicate (16 - length l) 0.

(** The copying loop, on what the successive reads of the code file answer ([None] is an
    error, the end of the list the end of the file). *)
Fixpoint upload (name : string) (reads : list (option (list Z))) (wcount : Z) : client Z :=
  match reads with
  | [] => mret wcount
  | None :: _ => errx (ErrorReading name)
  | Some l :: reads =>
      wcount ← (if 0 <? ZL l then write_data (padded l);; mret (wcount + 16) else mret wcount);
      if ZL l <? 16 then mret wcount else upload name reads wcount
  end.

Record config : Type := Config {
  code_fname : string;
  dev_fname : string;
  load_address : Z;
  jmp_address : Z;
}.

Definition defaults : config := Config "a.out" "/dev/ttyUSB0" 0x10000 0x10000.

(** The options getopt answers one after the other, with their arguments; strtoul is the
    host's. *)
Fixpoint process_cmdline_args (strtoul : string → Z) (opts : list (Z * string)) (cfg : config) :
    client config :=
  match opts with
  | [] => mret cfg
  | (o, arg) :: opts =>
      if o =? 102 (* 'f' *) then
        process_cmdline_args strtoul opts (Config arg (dev_fname cfg) (load_address cfg) (jmp_address cfg))
      else if o =? 100 (* 'd' *) then
        process_cmdline_args strtoul opts (Config (code_fname cfg) arg (load_address cfg) (jmp_address cfg))
      else if o =? 108 (* 'l' *) then
        process_cmdline_args strtoul opts (Config (code_fname cfg) (dev_fname cfg) (strtoul arg) (jmp_address cfg))
      else if o =? 106 (* 'j' *) then
        process_cmdline_args strtoul opts (Config (code_fname cfg) (dev_fname cfg) (load_address cfg) (strtoul arg))
      else errx Usage
  end.

(** [files] answers the reads of a code file that can be opened, [lines] whether a device
    can be. *)
Definition client_main (strtoul : string → Z) (files : string → option (list (option (list Z))))
    (lines : string → bool) (opts : list (Z * string)) : client Z :=
  cfg ← process_cmdline_args strtoul opts defaults;
  match files (code_fname cfg) with
  | None => errx (ErrorOpening (code_fname cfg))
  | Some reads =>
      if lines (dev_fname cfg) then
        set_address (load_address cfg);;
        wcount ← upload (code_fname cfg) reads 0;
        set_address (jmp_address cfg);;
        initiate_jmp;;
        mret wcount
      else errx (ErrorOpening (dev_fname cfg))
  end.
End Client.
Arguments client D A : clear implicits.

(** * The boot ROM as a device *)
Inductive board : Type :=
  | Running (s : boot)
  | Jumped (p : Z) (s : boot)
  | Crashed.

Section Board.
Context (buf : Z).

(** The boot code runs until it has to wait for more bytes. *)
Fixpoint serve (fuel : nat) (s : boot) : board :=
  match fuel with
  | O => Running s
  | S fuel =>
      match command buf s with
      | Ret (None, s') => serve fuel s'
      | Ret (Some p, s') => Jumped p s'
      | Spin => Running s
      | Fault => Crashed
      end
  end.

Definition more_input (l : list Z) (s : boot) : boot :=
  Boot (b_mem s) (mem_ptr s) (b_in s ++ l) (b_out s) (b_csr s) (b_polls s).
Definition less_output (s : boot) : boot :=
  Boot (b_mem s) (mem_ptr s) (b_in s) (tail (b_out s)) (b_csr s) (b_polls s).

Definition board_device : Device board := {|
  dev_write l d :=
    match d with
    | Running s => let s := more_input l s in serve (S (length (b_in s))) s
    | _ => d
    end;
  dev_read d :=
    match d with
    | Running s => (head (b_out s), Running (less_output s))
    | Jumped p s => (head (b_out s), Jumped p (less_output s))
    | Crashed => (None, Crashed)
    end;
|}.
End Board.

(** * The boot ROM under the client *)
Section Session.
Context (buf : Z).
#[local] Hint Extern 0 (Device board) => exact (board_device buf) : typeclass_instances.
Implicit Types (t : target) (s : boot) (c : cmd) (l : list Z).

(** With nothing on the line the next round waits. *)
Lemma command_waits s : b_in s = [] → command buf s = Spin.
Proof.
  intros Hi. unfold command, mbind at 1, M_bind at 1.
  assert (uart0_blocking_read buf 1 s = Spin) as ->; [|done]. unfold uart0_blocking_read.
  apply wp_bind_spin. eapply (wp_csr _ _ (b_mem s) (mem_ptr s) [] (b_out s)); [done|by (intros; eexists _, _)|].
  intros ? s1 Hv1. apply wp_bind_spin. eapply wp_mono; [by apply wait_interrupt_spec|].
  intros ? s2 (_ & _ & Hi2 & _). unfold mbind at 1, M_bind at 1, line_in, mbind at 1, M_bind at 1, get_st.
  by rewrite Hi2.
Qed.

(** The board waits for the host, [t] is its memory and address. *)
Definition ready t (d : board) : Prop := ∃ s, d = Running s ∧ represents buf t s [] [].

Definition exec_target t c : target := let '(t', _, _) := exec t c in t'.

(** Sending a command and reading its one-byte reply. *)
Lemma exchange t c (r : Z) d : ready t d → wf_cmd c → admissible buf t c →
  exec t c = (exec_target t c, [r], None) →
  ∃ d1 d2, dev_write (encode c) d = d1 ∧ dev_read d1 = (Some r, d2) ∧ ready (exec_target t c) d2.
Proof.
  intros (s & -> & Hr) Hwf Had He. simpl. set (s0 := more_input (encode c) s).
  assert (represents buf t s0 (encode c ++ []) []) as Hr0.
  { destruct Hr as (? & ? & ? & ? & Hi & ?). split_and!; try done. simpl. by rewrite Hi, app_nil_r. }
  pose proof (command_spec buf t s0 c [] [] Hwf Had Hr0) as Hw. unfold runs in Hw. rewrite He in Hw.
  apply wp_inv in Hw as (j & s1 & Ec & -> & Hr1). rewrite Ec.
  pose proof Hr1 as (_ & _ & _ & _ & Hi1 & Ho1). simpl in Ho1.
  eexists (Running s1), (Running (less_output s1)). split; [|split].
  - destruct (length _); simpl; [done|]. by rewrite command_waits.
  - simpl. by rewrite Ho1.
  - eexists. split; [done|]. destruct Hr1 as (? & ? & ? & ? & ? & ?). split_and!; try done.
    simpl. by rewrite Ho1.
Qed.

Lemma le_bytes_4_xor p :
  let a := le_bytes 4 p in
  Z.lxor (Z.lxor (Z.lxor (nth 0 a 0) (nth 1 a 0)) (nth 2 a 0)) (nth 3 a 0) = xor_bytes a.
Proof. cbn [le_bytes nth]. unfold xor_bytes. cbn [fold_left]. by rewrite Z.lxor_0_l. Qed.

(** The three requests of the client. *)
Lemma set_address_ok t p d : ready t d → is_u32 p →
  ∃ d', set_address p d = (inr (), d') ∧ ready (Target (t_mem t) p) d'.
Proof.
  intros Hd Hp. destruct (exchange t (SetAddress p) 79 d Hd Hp I eq_refl) as (d1 & d2 & E1 & E2 & Hd2).
  exists d2. split; [|exact Hd2]. unfold set_address. rewrite le_bytes_4_xor.
  change (97 :: le_bytes 4 p ++ [xor_bytes (le_bytes 4 p)]) with (encode (SetAddress p)).
  unfold mbind, client_bind, write. rewrite E1. unfold read1. rewrite E2. done.
Qed.

Lemma write_data_ok t l d : ready t d → length l = 16%nat → Forall is_byte l →
  admissible buf t (WriteData l) →
  ∃ d', write_data l d = (inr (), d') ∧
        ready (Target (mem_write (t_mem t) (t_ptr t) l) (u32 (t_ptr t + 16))) d'.
Proof.
  intros Hd Hl Hb Had.
  destruct (exchange t (WriteData l) 79 d Hd (conj Hl Hb) Had eq_refl) as (d1 & d2 & E1 & E2 & Hd2).
  exists d2. split; [|exact Hd2]. unfold write_data, compute_16b_cksum. rewrite !take_ge by lia.
  fold (xor_bytes l). rewrite u8_small by by apply xor_bytes_byte.
  change (119 :: l ++ [xor_bytes l]) with (encode (WriteData l)).
  unfold mbind, client_bind, write. rewrite E1. unfold read1. rewrite E2. done.
Qed.

Lemma initiate_jmp_ok t d : ready t d →
  ∃ s, initiate_jmp d = (inr (), Jumped (t_ptr t) s) ∧ represents buf t s [] [].
Proof.
  intros (s & -> & Hr). unfold initiate_jmp, mbind, client_bind, write. simpl.
  set (s0 := more_input _ s).
  assert (represents buf t s0 (encode JumpTo ++ []) []) as Hr0.
  { destruct Hr as (? & ? & ? & ? & Hi & ?). split_and!; try done. simpl. by rewrite Hi. }
  pose proof (command_spec buf t s0 JumpTo [] [] I I Hr0) as Hw.
  apply wp_inv in Hw as (j & s1 & -> & -> & Hr1). unfold read1. simpl.
  pose proof Hr1 as (? & ? & ? & ? & ? & Ho). rewrite Ho. exists (less_output s1). split; [done|].
  split_and!; try done. simpl. by rewrite Ho.
Qed.

(** ** The upload *)

(** What ends up in memory: the full blocks and the last one padded with zeros. *)
Definition image (full : list (list Z)) (last : list Z) : list Z :=
  concat full ++ match last with [] => [] | _ => padded last end.

(** The target can take [n] bytes. *)
Definition room t (n : Z) : Prop :=
  0 ≤ t_ptr t ∧ t_ptr t + n < 2 ^ 32 ∧ mapped (t_mem t) (t_ptr t) n ∧
  ∀ a, t_ptr t ≤ a < t_ptr t + n → ¬ scratch buf a.

Definition stored t l : target := Target (mem_write (t_mem t) (t_ptr t) l) (t_ptr t + ZL l).

Lemma length_padded l : (length l ≤ 16)%nat → length (padded l) = 16%nat.
Proof. intros. unfold padded. rewrite length_app, length_replicate. lia. Qed.

Lemma padded_full l : length l = 16%nat → padded l = l.
Proof. intros Hl. unfold padded. rewrite Hl. apply app_nil_r. Qed.

Lemma room_stored t l n : room t (ZL l + n) → 0 ≤ n → room (stored t l) n.
Proof.
  intros (H1 & H2 & H3 & H4) Hn. split_and!; simpl; [lia|lia| |].
  - apply mapped_write. eapply mapped_sub; [exact H3|lia..].
  - intros a Ha. apply H4. lia.
Qed.

Lemma stored_app t l1 l2 : stored t (l1 ++ l2) = stored (stored t l1) l2.
Proof. unfold stored. simpl. rewrite mem_write_app, length_app. f_equal. lia. Qed.

Lemma image_cons l full last : image (l :: full) last = l ++ image full last.
Proof. unfold image. simpl. by rewrite app_assoc. Qed.

Lemma store_block t l n d : ready t d → (length l ≤ 16)%nat → Forall is_byte l → room t (16 + n) → 0 ≤ n →
  ∃ d', write_data (padded l) d = (inr (), d') ∧ ready (stored t (padded l)) d'.
Proof.
  intros Hd Hl Hb (H1 & H2 & H3 & H4) Hn. pose proof (length_padded l Hl) as Hp.
  destruct (write_data_ok t (padded l) d Hd Hp) as (d' & E & Hd').
  - apply Forall_app. split; [done|]. by apply Forall_replicate.
  - split; [lia|]. split; [|intros a Ha; apply H4; lia]. eapply mapped_sub; [exact H3|lia..].
  - exists d'. split; [done|]. rewrite u32_small in Hd' by (unfold is_u32; lia).
    unfold stored. by rewrite Hp.
Qed.

Lemma upload_ok t full last rest name w d :
  ready t d → Forall (λ l, length l = 16%nat ∧ Forall is_byte l) full →
  (length last < 16)%nat → Forall is_byte last → room t (ZL (image full last)) →
  ∃ d', upload name (map Some full ++ Some last :: rest) w d = (inr (w + ZL (image full last)), d') ∧
        ready (stored t (image full last)) d'.
Proof.
  intros Hd Hf Hl Hb. revert t w d Hd. induction Hf as [|l full [Hl16 Hlb] _ IH]; intros t w d Hd Hr;
    cbn [map app upload]; unfold mbind, client_bind.
  - unfold image in *. cbn [concat app] in *. rewrite (proj2 (Z.ltb_lt (ZL last) 16)) by lia.
    destruct last as [|b last].
    + exists d. simpl. unfold stored. simpl. rewrite !Z.add_0_r. split; [done|]. by destruct t.
    + rewrite length_padded in * by lia. rewrite (proj2 (Z.ltb_lt 0 _)) by (simpl; lia).
      destruct (store_block t (b :: last) 0 d Hd ltac:(lia) Hb Hr ltac:(done)) as (d' & E & Hd').
      exists d'. unfold mbind, client_bind. rewrite E. by split.
  - assert (ZL (image (l :: full) last) = 16 + ZL (image full last)) as El.
    { rewrite image_cons, length_app. lia. }
    rewrite El in Hr. destruct (store_block t l _ d Hd ltac:(lia) Hlb Hr ltac:(lia)) as (d' & E & Hd').
    rewrite padded_full in * by done. rewrite (proj2 (Z.ltb_lt 0 _)) by lia.
    rewrite (proj2 (Z.ltb_ge (ZL l) 16)) by lia. unfold mbind, client_bind. rewrite E.
    destruct (IH (stored t l) (w + 16) d' Hd') as (d2 & E2 & Hd2); [apply room_stored; [by rewrite Hl16|lia]|].
    exists d2. cbn [mret client_ret]. rewrite E2, El. split; [do 2 f_equal; lia|].
    by rewrite image_cons, stored_app.
Qed.

(** What the target holds after a write outside the boot code's memory is in the board's memory. *)
Lemma represents_holds m p p' l s i o : represents buf (Target (mem_write m p l) p') s i o →
  (∀ a, p ≤ a < p + ZL l → ¬ scratch buf a) → arr (b_mem s) p l.
Proof.
  intros (_ & _ & Hm & _) Hns. apply arr_lookup. intros i' b Hi. pose proof (lookup_lt_Some _ _ _ Hi).
  rewrite Hm by (apply Hns; lia). simpl. by apply (proj1 (arr_lookup _ _ _) (mem_write_arr m p l)).
Qed.
End Session.

(** C13 The upload works from end to end.  Let the client's options be accepted, its code
    file be readable in 16-byte blocks [full] and a shorter last one (possibly empty),
    the boot ROM wait for a host, and the file fit at the load address in memory the boot
    code does not use.  Then the client ends without an error, having counted the file's
    bytes rounded up to 16; the board's memory holds the file from the load address on,
    zero-padded, and is otherwise what it was outside the boot code's own buffers; and
    the board has jumped to the jump address. *)
Theorem upload_end_to_end buf strtoul files lines opts cfg t s full last rest :
  process_cmdline_args (D := board) strtoul opts defaults (Running s) = (inr cfg, Running s) →
  files (code_fname cfg) = Some (map Some full ++ Some last :: rest) →
  lines (dev_fname cfg) = true →
  Forall (λ l, length l = 16%nat ∧ Forall is_byte l) full → (length last < 16)%nat → Forall is_byte last →
  is_u32 (load_address cfg) → is_u32 (jmp_address cfg) →
  represents buf t s [] [] →
  room buf (Target (t_mem t) (load_address cfg)) (ZL (image full last)) →
  ∃ s', client_main (H := board_device buf) strtoul files lines opts (Running s) =
          (inr (ZL (image full last)), Jumped (jmp_address cfg) s') ∧
        represents buf (Target (mem_write (t_mem t) (load_address cfg) (image full last))
          (jmp_address cfg)) s' [] [] ∧
        arr (b_mem s') (load_address cfg) (image full last).
Proof.
  intros Hopts Hfile Hline Hfull Hlen Hlast Hload Hjmp Hrep Hroom.
  unfold client_main, mbind, client_bind. rewrite Hopts, Hfile, Hline.
  destruct (set_address_ok buf t _ (Running s) ltac:(by exists s) Hload) as (d1 & -> & Hd1).
  destruct (upload_ok buf _ full last rest (code_fname cfg) 0 d1 Hd1 Hfull Hlen Hlast Hroom)
    as (d2 & -> & Hd2).
  destruct (set_address_ok buf _ _ d2 Hd2 Hjmp) as (d3 & -> & Hd3).
  destruct (initiate_jmp_ok buf _ d3 Hd3) as (s' & -> & Hs'). exists s'. split; [done|].
  split; [exact Hs'|]. destruct Hroom as (_ & _ & _ & Hns). eapply represents_holds; [exact Hs'|exact Hns].
Qed.

(** * genbootcode.c: the ROM image as Intel HEX *)
Section GenBoot.
Implicit Types (addr data : Z) (l input : list Z).

(** [%0nX]: [n] upper-case hexadecimal digits, as character codes. *)
Definition hex_digit (d : Z) : Z := if d <? 10 then 48 + d else 55 + d.
Fixpoint print_hex (n : nat) (v : Z) : list Z :=
  match n with
  | O => []
  | S n => print_hex n (v / 16) ++ [hex_digit (v mod 16)]
  end.

Definition record_checksum addr data : Z :=
  let checksum := u16 (2 + Z.land addr 0xff) in
  let checksum := u16 (checksum + Z.shiftr (Z.land addr 0xff00) 8) in
  let checksum := u16 (checksum + Z.land data 0xff) in
  let checksum := u16 (checksum + Z.shiftr (Z.land data 0xff00) 8) in
  let cb := Z.land checksum 0xff in
  Z.land (Z.lnot cb + 1) 0xff.

Definition record addr data : list Z :=
  [58; 48; 50] ++ print_hex 4 addr ++ [48; 48] ++ print_hex 4 data ++
  print_hex 2 (record_checksum addr data) ++ [10].

(** The next two bytes of the input, zero at its end. *)
Definition next_half input : Z * list Z :=
  match input with
  | b0 :: b1 :: input => (b0 + 256 * b1, input)
  | _ => (0, [])
  end.

Fixpoint records (n : nat) addr input : list Z :=
  match n with
  | O => []
  | S n => let '(data, input) := next_half input in record addr data ++ records n (addr + 1) input
  end.

Definition genbootcode_main input : list Z :=
  records 1024 0 input ++ [58] ++ map (λ _, 48) (seq 0 7) ++ [49; 70; 70; 10].

(** Reading a record back: the bytes behind the colon. *)
Definition digit_value (c : Z) : Z := if c <? 58 then c - 48 else c - 55.
Fixpoint parse_hex l : list Z :=
  match l with
  | c1 :: c2 :: l => (16 * digit_value c1 + digit_value c2) :: parse_hex l
  | _ => []
  end.

Lemma digit_roundtrip (d : Z) : 0 ≤ d < 16 → digit_value (hex_digit d) = d.
Proof.
  intros H. unfold digit_value, hex_digit. destruct (Z.ltb_spec d 10);
    [rewrite (proj2 (Z.ltb_lt _ _))|rewrite (proj2 (Z.ltb_ge _ _))]; lia.
Qed.

Lemma parse_print (n : nat) (v : Z) l : 0 ≤ v →
  parse_hex (print_hex (n + n) v ++ l) = rev (le_bytes n v) ++ parse_hex l.
Proof.
  intros Hv. revert v Hv l. induction n as [|n IH]; intros v Hv l; [done|].
  replace (S n + S n)%nat with (S (S (n + n))) by lia. cbn [print_hex le_bytes rev].
  rewrite <- !app_assoc, Z.div_div by lia. change (16 * 16) with (2 ^ 8).
  rewrite IH by (apply Z.div_pos; lia). rewrite Z.shiftr_div_pow2 by lia. f_equal. cbn [app parse_hex].
  rewrite !digit_roundtrip by (apply Z.mod_pos_bound; lia). f_equal. unfold wrapu.
  change (2 ^ 8) with (16 * 16). rewrite Z.rem_mul_r by lia. lia.
Qed.

Lemma halves v : 0 ≤ v < 2 ^ 16 →
  Z.land v 0xff = v mod 256 ∧ Z.shiftr (Z.land v 0xff00) 8 = v / 256.
Proof.
  intros Hv. change 0xff with (Z.ones 8). change 0xff00 with (Z.shiftl (Z.ones 8) 8).
  rewrite Z.land_ones by done. split; [done|].
  rewrite Z.shiftr_land, Z.shiftr_shiftl_l by lia. rewrite Z.shiftl_0_r, Z.land_ones by done.
  rewrite Z.shiftr_div_pow2 by done. change (2 ^ 8) with 256. apply Z.mod_small.
  split; [apply Z.div_pos; lia|]. apply Z.div_lt_upper_bound; lia.
Qed.

(** C17 Every record genbootcode prints reads back as its own length, address, type and
    data bytes, and all its bytes with the checksum add up to zero modulo 256, which is
    what an Intel HEX reader checks. *)
Theorem genbootcode_record_valid addr data :
  0 ≤ addr < 2 ^ 16 → 0 ≤ data < 2 ^ 16 →
  ∃ ck, parse_hex (tail (record addr data)) =
          [2; addr / 256; addr mod 256; 0; data / 256; data mod 256; ck] ∧
        fold_right Z.add 0 (parse_hex (tail (record addr data))) mod 256 = 0.
Proof.
  intros Ha Hd. set (ck := record_checksum addr data).
  assert (is_byte ck) as Hck.
  { unfold ck, record_checksum. change 0xff with (Z.ones 8). rewrite Z.land_ones by done.
    by apply Z.mod_pos_bound. }
  assert (∀ v, 0 ≤ v < 2 ^ 16 → rev (le_bytes 2 v) = [v / 256; v mod 256]) as E2.
  { intros v Hv. cbn [le_bytes rev app]. rewrite Z.shiftr_div_pow2 by done. unfold wrapu.
    change (2 ^ 8) with 256. rewrite (Z.mod_small (v / 256)); [done|].
    split; [apply Z.div_pos; lia|]. apply Z.div_lt_upper_bound; lia. }
  assert (parse_hex (tail (record addr data)) =
    [2; addr / 256; addr mod 256; 0; data / 256; data mod 256; ck]) as Ep.
  { unfold record. fold ck. cbn [app tail]. cbn [parse_hex].
    rewrite (parse_print 2), E2 by lia. cbn [app parse_hex].
    rewrite (parse_print 2), E2 by lia. cbn [app].
    rewrite (parse_print 1) by (unfold is_byte in Hck; lia). cbn [le_bytes rev app parse_hex].
    by rewrite u8_small by done. }
  exists ck. split; [done|]. rewrite Ep. cbn [fold_right].
  unfold ck, record_checksum. destruct (halves addr Ha) as [-> ->], (halves data Hd) as [-> ->].
  unfold wrapu. rewrite !Zplus_mod_idemp_l. change 0xff with (Z.ones 8). rewrite !Z.land_ones by done.
  unfold Z.lnot. change (2 ^ 8) with 256. change (2 ^ 16) with 65536.
  Z.div_mod_to_equations. lia.
Qed.
End GenBoot.

(** * Examples *)
Lemma upload_end_to_end_witness :
  ∃ s', client_main (H := board_device 0x3000) (λ _, 0x10000)
          (λ _, Some [Some (replicate 16 1); Some [2]]) (λ _, true) [(108, "0x10000")] (Running (powered [])) =
          (inr (ZL (image [replicate 16 1] [2])), Jumped (jmp_address defaults) s') ∧
        represents 0x3000 (Target (mem_write (t_mem ram_target) (load_address defaults)
          (image [replicate 16 1] [2])) (jmp_address defaults)) s' [] [] ∧
        arr (b_mem s') (load_address defaults) (image [replicate 16 1] [2]).
Proof.
  apply (upload_end_to_end 0x3000 (λ _, 0x10000) (λ _, Some [Some (replicate 16 1); Some [2]]) (λ _, true)
    [(108, "0x10000")] defaults ram_target (powered []) [replicate 16 1] [2] []).
  - reflexivity.
  - reflexivity.
  - reflexivity.
  - constructor; [split; [done|repeat constructor; by vm_compute]|done].
  - apply (Nat.ltb_lt 1 16). done.
  - repeat constructor; by vm_compute.
  - by vm_compute.
  - by vm_compute.
  - apply powered_represents.
  - split; [by vm_compute|split; [by vm_compute|split; [by apply ram_mapped|]]].
    intros a Ha. unfold scratch, dma. simpl in Ha. lia.
Defined.

Lemma genbootcode_record_valid_witness :
  ∃ ck, parse_hex (tail (record 0x0102 0x0304)) = [2; 0x0102 / 256; 0x0102 mod 256; 0; 0x0304 / 256; 0x0304 mod 256; ck] ∧
        fold_right Z.add 0 (parse_hex (tail (record 0x0102 0x0304))) mod 256 = 0.
Proof. apply (genbootcode_record_valid 0x0102 0x0304); lia. Defined.
