(* ===== verification/CmUtil.v ===== *)
(** CoreMark's service functions (core_util.c): the 16-bit CRC in the shift-and-xor form
    of the source against the reflected CRC-16 polynomial, and the argument parser. *)
From stdpp Require Import base list gmap fin_maps.
From Stdlib Require Import ZArith Lia.
From S2P Require Import Prelude Memory.

#[local] Open Scope Z_scope.

(** * crcu8, crcu16, crc16, crcu32 *)

(** The loop of crcu8: [data] and [crc] are an unsigned byte and an unsigned half. *)
Fixpoint crcu8_loop (n : nat) (data crc : Z) : Z :=
  match n with
  | O => crc
  | S n =>
      let x16 := u8 (Z.lxor (Z.land data 1) (Z.land (u8 crc) 1)) in
      let data := Z.shiftr data 1 in
      let '(crc, carry) := if x16 =? 1 then (u16 (Z.lxor crc 0x4002), true) else (crc, false) in
      let crc := Z.shiftr crc 1 in
      let crc := if carry : bool then Z.lor crc 0x8000 else Z.land crc 0x7fff in
      crcu8_loop n data crc
  end.

Definition crcu8 (data crc : Z) : Z := crcu8_loop 8 data crc.
Definition crcu16 (newval crc : Z) : Z :=
  let crc := crcu8 (u8 newval) crc in
  crcu8 (u8 (Z.shiftr newval 8)) crc.
Definition crc16 (newval crc : Z) : Z := crcu16 (u16 newval) crc.
Definition crcu32 (newval crc : Z) : Z :=
  let crc := crc16 (s16 newval) crc in
  crc16 (s16 (Z.shiftr newval 16)) crc.

(** * parseval and get_seed_args *)
Definition is_dec (c : Z) : bool := (48 <=? c) && (c <=? 57).
Definition is_hex (c : Z) : bool := is_dec c || ((97 <=? c) && (c <=? 102)).

Definition hex_digit (c : Z) : Z := let digit := c - 48 in if 9 <? digit then 10 + c - 97 else digit.

Definition parse_digits (hexmode : bool) (valstring retval : Z) : M mem (Z * Z) :=
  loop (λ '(valstring, retval),
    c ← loadb valstring;
    if hexmode then
      if is_hex c then mret (inl (valstring + 1, s32 (s32 (retval * 16) + hex_digit c)))
      else mret (inr (valstring, retval))
    else
      if is_dec c then mret (inl (valstring + 1, s32 (s32 (retval * 10) + (c - 48))))
      else mret (inr (valstring, retval))) (valstring, retval).

Definition parseval (valstring : Z) : M mem Z :=
  c ← loadb valstring;
  let neg := if c =? 45 then -1 else 1 in
  let valstring := if c =? 45 then valstring + 1 else valstring in
  c0 ← loadb valstring;
  hexmode ← (if (c0 : Z) =? 48 then c1 ← loadb (valstring + 1); mret ((c1 : Z) =? 120) else mret false);
  let valstring := if hexmode : bool then valstring + 2 else valstring in
  '(valstring, retval) ← parse_digits hexmode valstring 0;
  q ← loadb valstring;
  let retval := if q =? 75 then s32 (retval * 1024) else retval in
  let retval := if q =? 77 then s32 (retval * (1024 * 1024)) else retval in
  mret (s32 (retval * neg)).

(** [argv] as the list of its strings' addresses. *)
Definition get_seed_args (i argc : Z) (argv : list Z) : M mem Z :=
  if i <? argc then
    match argv !! Z.to_nat i with Some a => parseval a | None => fault end
  else mret 0.

(** * The CRC is the reflected CRC-16 *)
Section Crc.
Implicit Types (data crc x : Z).

(** Division by x^16 + x^15 + x^2 + 1 with the bits in reverse: shift right and, for a
    bit that falls out, add the reversed polynomial. *)
Definition crc_shift x : Z := Z.lxor (Z.shiftr x 1) (if Z.odd x then 0xA001 else 0).
Definition crc_byte crc (b : Z) : Z := Nat.iter 8 crc_shift (Z.lxor crc b).
Definition crc_bytes crc (l : list Z) : Z := fold_left crc_byte l crc.

Lemma land_1 x : Z.land x 1 = Z.b2z (Z.odd x).
Proof. change 1 with (Z.ones 1). rewrite Z.land_ones by done. change (2 ^ 1) with 2. apply Zmod_odd. Qed.

Lemma odd_u8 x : Z.odd (u8 x) = Z.odd x.
Proof. rewrite <- !Z.bit0_odd. by rewrite wrapu_testbit by done. Qed.

Lemma shiftr_u16 x : 0 ≤ x < 2 ^ 16 → 0 ≤ Z.shiftr x 1 < 2 ^ 15.
Proof. intros. rewrite Z.shiftr_div_pow2 by done. change (2 ^ 1) with 2. Z.div_mod_to_equations. lia. Qed.

(** One round of crcu8 is one step of the division: the two agree on [crc + data]. *)
Lemma crcu8_round data crc n :
  0 ≤ crc < 2 ^ 16 → 0 ≤ data < 2 ^ 8 →
  ∃ crc', crcu8_loop (S n) data crc = crcu8_loop n (Z.shiftr data 1) crc' ∧ 0 ≤ crc' < 2 ^ 16 ∧
          Z.lxor crc' (Z.shiftr data 1) = crc_shift (Z.lxor crc data).
Proof.
  intros Hc Hd. cbn [crcu8_loop]. rewrite !land_1, odd_u8.
  assert (Z.odd (Z.lxor crc data) = xorb (Z.odd data) (Z.odd crc)) as Hodd.
  { rewrite <- !Z.bit0_odd, Z.lxor_spec. apply xorb_comm. }
  pose proof (shiftr_u16 crc Hc) as Hs. unfold crc_shift. rewrite Hodd, Z.shiftr_lxor.
  destruct (xorb (Z.odd data) (Z.odd crc)) eqn:Ex.
  - assert (u8 (Z.lxor (Z.b2z (Z.odd data)) (Z.b2z (Z.odd crc))) = 1) as ->
      by (by destruct (Z.odd data), (Z.odd crc)).
    cbn [Z.eqb Pos.eqb]. rewrite (wrapu_small 16) by (by apply (lxor_bound 16)).
    rewrite Z.shiftr_lxor. change (Z.shiftr 0x4002 1) with 0x2001.
    assert (0 ≤ Z.lxor (Z.shiftr crc 1) 0x2001 < 2 ^ 15) as Hx by (by apply (lxor_bound 15)).
    change 0x8000 with (Z.shiftl 1 15). rewrite lor_add_shift by done.
    eexists. split; [reflexivity|]. split; [lia|].
    rewrite <- (lor_add_shift 15) by done. rewrite <- Z.lxor_lor.
    + change (Z.shiftl 1 15) with 0x8000. rewrite !Z.lxor_assoc. f_equal.
      rewrite (Z.lxor_comm (Z.shiftr data 1)), <- !Z.lxor_assoc. done.
    + apply Z.bits_inj'. intros i Hi. rewrite Z.land_spec, Z.shiftl_spec, Z.bits_0 by done.
      destruct (Z.lt_ge_cases i 15); [by rewrite (Z.testbit_neg_r 1), andb_false_r by lia|].
      by rewrite (bound_testbit 15).
  - assert (u8 (Z.lxor (Z.b2z (Z.odd data)) (Z.b2z (Z.odd crc))) = 0) as ->
      by (by destruct (Z.odd data), (Z.odd crc)).
    cbn [Z.eqb]. change 0x7fff with (Z.ones 15). rewrite Z.land_ones, Z.mod_small by done.
    eexists. split; [reflexivity|]. split; [lia|]. by rewrite Z.lxor_0_r.
Qed.

Lemma shiftr_u8 data : 0 ≤ data < 2 ^ 8 → 0 ≤ Z.shiftr data 1 < 2 ^ 8.
Proof. intros. rewrite Z.shiftr_div_pow2 by done. change (2 ^ 1) with 2. Z.div_mod_to_equations. lia. Qed.

Lemma crcu8_loop_spec n data crc :
  0 ≤ crc < 2 ^ 16 → 0 ≤ data < 2 ^ 8 →
  0 ≤ crcu8_loop n data crc < 2 ^ 16 ∧
  Z.lxor (crcu8_loop n data crc) (Z.shiftr data (Z.of_nat n)) = Nat.iter n crc_shift (Z.lxor crc data).
Proof.
  revert data crc. induction n as [|n IH]; intros data crc Hc Hd; [by rewrite Z.shiftr_0_r|].
  destruct (crcu8_round data crc n Hc Hd) as (crc' & -> & Hc' & Hx).
  destruct (IH (Z.shiftr data 1) crc' Hc' (shiftr_u8 _ Hd)) as [Hr E]. split; [done|].
  rewrite Nat.iter_succ_r, <- Hx, <- E, Z.shiftr_shiftr by lia.
  by replace (1 + Z.of_nat n) with (Z.of_nat (S n)) by lia.
Qed.

Lemma crcu8_byte data crc : is_byte data → 0 ≤ crc < 2 ^ 16 →
  crcu8 data crc = crc_byte crc data ∧ 0 ≤ crcu8 data crc < 2 ^ 16.
Proof.
  intros Hd Hc. destruct (crcu8_loop_spec 8 data crc Hc Hd) as [Hr E]. split; [|done].
  unfold crc_byte. rewrite <- E. change (Z.of_nat 8) with 8.
  rewrite Z.shiftr_div_pow2, Z.div_small by done. by rewrite Z.lxor_0_r.
Qed.

Lemma crcu16_bytes v crc : 0 ≤ crc < 2 ^ 16 →
  crcu16 v crc = crc_bytes crc (le_bytes 2 v) ∧ 0 ≤ crcu16 v crc < 2 ^ 16.
Proof.
  intros Hc. unfold crcu16. cbn [le_bytes crc_bytes fold_left].
  destruct (crcu8_byte (u8 v) crc (u8_is_byte v) Hc) as [E1 H1].
  destruct (crcu8_byte (u8 (Z.shiftr v 8)) _ (u8_is_byte _) H1) as [E2 H2].
  split; [|done]. unfold crc_bytes. cbn [fold_left]. by rewrite E2, E1.
Qed.

Lemma le_bytes_wrap (n : nat) v w : v mod 2 ^ (8 * Z.of_nat n) = w mod 2 ^ (8 * Z.of_nat n) →
  le_bytes n v = le_bytes n w.
Proof.
  intros E. rewrite <- (le_bytes_val (le_bytes n v)), <- (le_bytes_val (le_bytes n w)) by apply le_bytes_byte.
  by rewrite !length_le_bytes, !le_val_bytes, E.
Qed.

Lemma u16_s16 v : u16 (s16 v) = u16 v.
Proof. unfold wrapu, wraps. change (2 ^ 16) with 65536. change (2 ^ (16 - 1)) with 32768. Z.div_mod_to_equations. lia. Qed.

Lemma crc16_bytes v crc : 0 ≤ crc < 2 ^ 16 →
  crc16 v crc = crc_bytes crc (le_bytes 2 v) ∧ 0 ≤ crc16 v crc < 2 ^ 16.
Proof.
  intros Hc. unfold crc16. destruct (crcu16_bytes (u16 v) crc Hc) as [-> H]. split; [|done].
  f_equal. apply le_bytes_wrap. apply Zmod_mod.
Qed.

(** C29 CoreMark's crcu8, crcu16, crc16 and crcu32 compute the reflected CRC-16 (x^16 +
    x^15 + x^2 + 1) of the bytes of their argument, low byte first, and stay 16-bit
    values. *)
Theorem crc_is_reflected crc v : 0 ≤ crc < 2 ^ 16 →
  (is_byte v → crcu8 v crc = crc_byte crc v) ∧
  crcu16 v crc = crc_bytes crc (le_bytes 2 v) ∧
  crc16 v crc = crc_bytes crc (le_bytes 2 v) ∧
  crcu32 v crc = crc_bytes crc (le_bytes 4 v) ∧
  0 ≤ crcu16 v crc < 2 ^ 16 ∧ 0 ≤ crcu32 v crc < 2 ^ 16.
Proof.
  intros Hc. split; [intros; by apply crcu8_byte|].
  destruct (crcu16_bytes v crc Hc) as [E1 H1]. destruct (crc16_bytes v crc Hc) as [E2 H2].
  assert (0 ≤ crc16 (s16 v) crc < 2 ^ 16) as H3 by (by apply crc16_bytes).
  assert (crcu32 v crc = crc_bytes crc (le_bytes 4 v) ∧ 0 ≤ crcu32 v crc < 2 ^ 16) as [E4 H4].
  { unfold crcu32. destruct (crc16_bytes (s16 (Z.shiftr v 16)) _ H3) as [-> H4]. split; [|done].
    rewrite (proj1 (crc16_bytes (s16 v) crc Hc)).
    assert (∀ w : Z, le_bytes 2 (s16 w) = le_bytes 2 w) as Es
      by (intros w; apply le_bytes_wrap; apply u16_s16).
    rewrite !Es. unfold crc_bytes. by rewrite <- fold_left_app. }
  destruct H1, H4. by split_and!.
Qed.

Lemma crc_is_reflected_witness :
  crcu32 0x12345678 0xffff = crc_bytes 0xffff (le_bytes 4 0x12345678) ∧ crcu8 0x41 0 = crc_byte 0 0x41.
Proof.
  split; [apply (crc_is_reflected 0xffff 0x12345678); lia|].
  apply (crc_is_reflected 0 0x41); [lia|by vm_compute].
Defined.
End Crc.
