(* ===== verification/CmState.v ===== *)
(** CoreMark's state machine (core_state.c): the scanner that classifies the tokens of
    its input, the input's initialisation, and the benchmark that scans it twice. *)
From stdpp Require Import base list gmap fin_maps.
From Stdlib Require Import ZArith Lia.
From S2P Require Import Prelude Memory CmUtil.

#[local] Open Scope Z_scope.

Inductive CORE_STATE : Type :=
  | CORE_START | CORE_INVALID | CORE_S1 | CORE_S2
  | CORE_INT | CORE_FLOAT | CORE_EXPONENT | CORE_SCIENTIFIC.
#[export] Instance CORE_STATE_eq_dec : EqDecision CORE_STATE.
Proof. solve_decision. Defined.

Definition NUM_CORE_STATES : nat := 8.
Definition state_index (s : CORE_STATE) : nat :=
  match s with
  | CORE_START => 0 | CORE_INVALID => 1 | CORE_S1 => 2 | CORE_S2 => 3
  | CORE_INT => 4 | CORE_FLOAT => 5 | CORE_EXPONENT => 6 | CORE_SCIENTIFIC => 7
  end.

(** [counts[s]++] *)
Definition bump (s : CORE_STATE) (counts : list Z) : list Z :=
  alter (λ n, u32 (n + 1)) (state_index s) counts.

Definition ee_isdigit (c : Z) : bool := (48 <=? c) && (c <=? 57).

(** The switch of the scanner on one symbol. *)
Definition scan (state : CORE_STATE) (c : Z) (tc : list Z) : CORE_STATE * list Z :=
  match state with
  | CORE_START =>
      let '(state, tc) :=
        if ee_isdigit c then (CORE_INT, tc)
        else if (c =? 43) || (c =? 45) then (CORE_S1, tc)
        else if c =? 46 then (CORE_FLOAT, tc)
        else (CORE_INVALID, bump CORE_INVALID tc) in
      (state, bump CORE_START tc)
  | CORE_S1 =>
      if ee_isdigit c then (CORE_INT, bump CORE_S1 tc)
      else if c =? 46 then (CORE_FLOAT, bump CORE_S1 tc)
      else (CORE_INVALID, bump CORE_S1 tc)
  | CORE_INT =>
      if c =? 46 then (CORE_FLOAT, bump CORE_INT tc)
      else if negb (ee_isdigit c) then (CORE_INVALID, bump CORE_INT tc)
      else (state, tc)
  | CORE_FLOAT =>
      if (c =? 69) || (c =? 101) then (CORE_S2, bump CORE_FLOAT tc)
      else if negb (ee_isdigit c) then (CORE_INVALID, bump CORE_FLOAT tc)
      else (state, tc)
  | CORE_S2 =>
      if (c =? 43) || (c =? 45) then (CORE_EXPONENT, bump CORE_S2 tc)
      else (CORE_INVALID, bump CORE_S2 tc)
  | CORE_EXPONENT =>
      if ee_isdigit c then (CORE_SCIENTIFIC, bump CORE_EXPONENT tc)
      else (CORE_INVALID, bump CORE_EXPONENT tc)
  | CORE_SCIENTIFIC =>
      if negb (ee_isdigit c) then (CORE_INVALID, bump CORE_INVALID tc) else (state, tc)
  | CORE_INVALID => (state, tc)
  end.

(** The new position, the final state and the transition counts. *)
Definition core_state_transition (instr : Z) (transition_count : list Z) :
    M mem (Z * CORE_STATE * list Z) :=
  loop (λ '(str, state, tc),
    c ← loadb str;
    if (c =? 0) || bool_decide (state = CORE_INVALID) then mret (inr (str, state, tc))
    else if c =? 44 then mret (inr (str + 1, state, tc))
    else let '(state, tc) := scan state c tc in mret (inl (str + 1, state, tc)))
    (instr, CORE_START, transition_count).

(** One pass over the input, up to its terminator. *)
Definition scan_all (p : Z) (final track : list Z) : M mem (list Z * list Z) :=
  loop (λ '(p, final, track),
    c ← loadb p;
    if (c : Z) =? 0 then mret (inr (final, track))
    else r ← core_state_transition p track;
         let '(p, fstate, track) := (r : Z * CORE_STATE * list Z) in
         mret (inl (p, bump fstate final, track))) (p, final, track).

(** [while (p < memblock + blksize)]: change every [step]-th byte that is no comma. *)
Definition corrupt (stop step seed p : Z) : M mem () :=
  loop (λ p,
    if p <? stop then
      c ← loadb p;
      when (negb ((c : Z) =? 44)) (storeb p (Z.lxor c (u8 seed)));;
      mret (inl (p + step))
    else mret (inr ())) p.

Fixpoint crc_counts (final track : list Z) (crc : Z) : Z :=
  match final, track with
  | f :: final, t :: track => crc_counts final track (crcu32 t (crcu32 f crc))
  | _, _ => crc
  end.

Definition core_bench_state (blksize memblock seed1 seed2 step crc : Z) : M mem Z :=
  let zeros := replicate NUM_CORE_STATES 0 in
  r ← scan_all memblock zeros zeros;
  corrupt (memblock + blksize) step seed1 memblock;;
  r ← scan_all memblock (r : list Z * list Z).1 r.2;
  corrupt (memblock + blksize) step seed2 memblock;;
  mret (crc_counts (r : list Z * list Z).1 r.2 crc).

(** The patterns, as the bytes of their strings. *)
Definition intpat : list (list Z) :=
  [[53; 48; 49; 50]; [49; 50; 51; 52]; [45; 56; 55; 52]; [43; 49; 50; 50]].
Definition floatpat : list (list Z) :=
  [[51; 53; 46; 53; 52; 52; 48; 48]; [46; 49; 50; 51; 52; 53; 48; 48];
   [45; 49; 49; 48; 46; 55; 48; 48]; [43; 48; 46; 54; 52; 52; 48; 48]].
Definition scipat : list (list Z) :=
  [[53; 46; 53; 48; 48; 101; 43; 51]; [45; 46; 49; 50; 51; 101; 45; 50];
   [45; 56; 55; 101; 43; 56; 51; 50]; [43; 48; 46; 54; 101; 45; 49; 50]].
Definition errpat : list (list Z) :=
  [[84; 48; 46; 51; 101; 45; 49; 70]; [45; 84; 46; 84; 43; 43; 84; 113];
   [49; 84; 51; 46; 52; 101; 52; 122]; [51; 52; 46; 48; 101; 45; 84; 94]].

(** The switch that chooses the next pattern. *)
Definition choose_pattern (seed : Z) : list Z :=
  let pick (pats : list (list Z)) := nth (Z.to_nat (Z.land (Z.shiftr seed 3) 3)) pats [] in
  let k := Z.land seed 7 in
  if k <? 3 then pick intpat
  else if k <? 5 then pick floatpat
  else if k <? 7 then pick scipat
  else pick errpat.

Fixpoint store_bytes (p : Z) (l : list Z) : M mem () :=
  match l with
  | [] => mret ()
  | b :: l => storeb p b;; store_bytes (p + 1) l
  end.

Definition core_init_state (size seed p : Z) : M mem () :=
  let limit := u32 (size - 1) in
  total ← loop (λ '(total, buf, seed),
    let next := ZL buf in
    if u32 (u32 (total + next) + 1) <? limit then
      total ← (if 0 <? next then
                 store_bytes (p + total) buf;;
                 storeb (p + total + next) 44;;
                 mret (u32 (total + (next + 1)))
               else mret total);
      let seed := s16 (seed + 1) in
      mret (inl (total, choose_pattern seed, seed))
    else mret (inr total)) (0, [] : list Z, seed);
  loop (λ total,
    if total <? u32 (limit + 1) then
      storeb (p + total) 0;;
      mret (inl (u32 (total + 1)))
    else mret (inr ())) total.

(** * What the scanner recognises *)
Section Scanner.
Implicit Types (l ds : list Z) (c : Z) (st : CORE_STATE) (tc : list Z).

Definition digits l : Prop := Forall (λ c, ee_isdigit c = true) l.
Definition is_sign c : Prop := c = 43 ∨ c = 45.

(** The tokens of each final state: nothing, a sign, a signed integer, a number with a
    point, and the stages of an exponent, which needs its own sign. *)
Inductive spells : CORE_STATE → list Z → Prop :=
  | sp_start : spells CORE_START []
  | sp_sign c : is_sign c → spells CORE_S1 [c]
  | sp_int sg ds : (sg = [] ∨ ∃ c, sg = [c] ∧ is_sign c) → ds ≠ [] → digits ds →
      spells CORE_INT (sg ++ ds)
  | sp_float sg ds fs : (sg = [] ∨ ∃ c, sg = [c] ∧ is_sign c) → digits ds → digits fs →
      spells CORE_FLOAT (sg ++ ds ++ 46 :: fs)
  | sp_s2 l c : spells CORE_FLOAT l → c = 69 ∨ c = 101 → spells CORE_S2 (l ++ [c])
  | sp_exponent l c : spells CORE_S2 l → is_sign c → spells CORE_EXPONENT (l ++ [c])
  | sp_scientific l ds : spells CORE_EXPONENT l → ds ≠ [] → digits ds →
      spells CORE_SCIENTIFIC (l ++ ds).

Definition step_state st c : CORE_STATE := (scan st c []).1.
Definition run st l : CORE_STATE := fold_left step_state l st.

Lemma scan_state st c tc : (scan st c tc).1 = step_state st c.
Proof. unfold step_state, scan. destruct st; repeat case_match; simplify_eq; done. Qed.

Lemma run_app st l1 l2 : run st (l1 ++ l2) = run (run st l1) l2.
Proof. apply fold_left_app. Qed.

Lemma digit_range c : ee_isdigit c = true ↔ 48 ≤ c ≤ 57.
Proof. unfold ee_isdigit. rewrite andb_true_iff, !Z.leb_le. lia. Qed.

(** Digits keep the three digit-reading states. *)
Lemma run_digits st ds : digits ds → st = CORE_INT ∨ st = CORE_FLOAT ∨ st = CORE_SCIENTIFIC →
  run st ds = st.
Proof.
  intros Hd Hst. induction Hd as [|c ds Hc _ IH]; [done|].
  simpl. replace (step_state st c) with st; [done|].
  pose proof (proj1 (digit_range c) Hc) as Hr.
  destruct Hst as [->|[->| ->]]; unfold step_state, scan; rewrite Hc; [| |done].
  - rewrite (proj2 (Z.eqb_neq c 46)) by lia. done.
  - rewrite (proj2 (Z.eqb_neq c 69)), (proj2 (Z.eqb_neq c 101)) by lia. done.
Qed.

(** A first digit. *)
Lemma step_digit st c : ee_isdigit c = true →
  step_state st c = match st with
                    | CORE_START | CORE_S1 | CORE_INT => CORE_INT
                    | CORE_FLOAT => CORE_FLOAT
                    | CORE_EXPONENT | CORE_SCIENTIFIC => CORE_SCIENTIFIC
                    | _ => CORE_INVALID
                    end.
Proof.
  intros Hc. pose proof (proj1 (digit_range c) Hc). unfold step_state, scan. rewrite Hc.
  destruct st; simpl; try done;
    rewrite ?(proj2 (Z.eqb_neq c 46)), ?(proj2 (Z.eqb_neq c 69)), ?(proj2 (Z.eqb_neq c 101)),
      ?(proj2 (Z.eqb_neq c 43)), ?(proj2 (Z.eqb_neq c 45)) by lia; done.
Qed.

Lemma step_other st c : ee_isdigit c = false →
  step_state st c = if c =? 46 then match st with
                                    | CORE_START | CORE_S1 | CORE_INT => CORE_FLOAT
                                    | _ => CORE_INVALID
                                    end
                    else if (c =? 43) || (c =? 45) then match st with
                                    | CORE_START => CORE_S1
                                    | CORE_S2 => CORE_EXPONENT
                                    | _ => CORE_INVALID
                                    end
                    else if (c =? 69) || (c =? 101) then
                      match st with CORE_FLOAT => CORE_S2 | _ => CORE_INVALID end
                    else CORE_INVALID.
Proof.
  intros Hc. unfold step_state, scan. rewrite Hc.
  destruct (Z.eqb_spec c 46) as [->|]; [by destruct st|].
  destruct (Z.eqb_spec c 43) as [->|]; [by destruct st|].
  destruct (Z.eqb_spec c 45) as [->|]; [by destruct st|]. simpl.
  destruct ((c =? 69) || (c =? 101)); by destruct st.
Qed.

Lemma sign_not_digit c : is_sign c → ee_isdigit c = false.
Proof. by intros [-> | ->]. Qed.

Lemma step_sign st c : is_sign c →
  step_state st c = match st with
                    | CORE_START => CORE_S1 | CORE_S2 => CORE_EXPONENT | _ => CORE_INVALID end.
Proof. intros [-> | ->]; by destruct st. Qed.

(** Every token leads to its state. *)
Lemma spells_run st l : spells st l → run CORE_START l = st.
Proof.
  assert (∀ sg, (sg = [] ∨ ∃ c, sg = [c] ∧ is_sign c) →
    run CORE_START sg = CORE_START ∨ run CORE_START sg = CORE_S1) as Hsg.
  { intros sg [->|(c & -> & Hc)]; [by left|right]. simpl. by rewrite step_sign. }
  induction 1 as [|c Hc|sg ds Hs Hne Hd|sg ds fs Hs Hd Hf|l c _ IH Hc|l c _ IH Hc|l ds _ IH Hne Hd].
  - done.
  - simpl. by rewrite step_sign.
  - rewrite run_app. destruct ds as [|c ds]; [done|]. apply Forall_cons in Hd as [Hc Hd]. simpl.
    rewrite step_digit by done. destruct (Hsg sg Hs) as [-> | ->]; apply run_digits; auto.
  - rewrite run_app. destruct ds as [|c ds]; simpl.
    + destruct (Hsg sg Hs) as [-> | ->]; apply run_digits; auto.
    + apply Forall_cons in Hd as [Hc Hd]. rewrite step_digit by done. rewrite run_app.
      destruct (Hsg sg Hs) as [-> | ->]; cbv iota; rewrite (run_digits CORE_INT ds) by auto;
        change (run CORE_INT (46 :: fs)) with (run CORE_FLOAT fs); apply run_digits; auto.
  - rewrite run_app, IH. simpl. by destruct Hc as [-> | ->].
  - rewrite run_app, IH. simpl. by rewrite step_sign.
  - rewrite run_app, IH. destruct ds as [|c ds]; [done|]. apply Forall_cons in Hd as [Hc Hd]. simpl.
    rewrite step_digit by done. apply run_digits; auto.
Qed.

(** And only tokens do: a symbol that does not lead to the invalid state extends a
    token to a token. *)
Lemma spells_digit st l c : spells st l → ee_isdigit c = true → step_state st c ≠ CORE_INVALID →
  spells (step_state st c) (l ++ [c]).
Proof.
  intros H Hc. rewrite step_digit by done. assert (digits [c]) as Hd by (by constructor).
  destruct H as [|c1 Hc1|sg ds Hs Hne Hds|sg ds fs Hs Hds Hf|l1 c1 _ Hc1|l1 c1 Hl1 Hc1|l1 ds Hl1 Hne Hds];
    try done; intros _.
  - apply (sp_int [] [c]); [by left|done|done].
  - apply (sp_int [c1] [c]); [right; by exists c1|done|done].
  - rewrite <- app_assoc. apply sp_int; [done|by destruct ds|by apply Forall_app].
  - rewrite <- !app_assoc. apply sp_float; [done|done|by apply Forall_app].
  - by apply sp_scientific; [apply sp_exponent| |].
  - rewrite <- app_assoc. apply sp_scientific; [done|by destruct ds|by apply Forall_app].
Qed.

Lemma spells_other st l c : spells st l → ee_isdigit c = false → step_state st c ≠ CORE_INVALID →
  spells (step_state st c) (l ++ [c]).
Proof.
  intros H Hc. rewrite step_other by done. destruct (Z.eqb_spec c 46) as [->|H46].
  { destruct H as [|c1 Hc1|sg ds Hs Hne Hds| | | |]; try done; intros _.
    - apply (sp_float [] [] []); [by left|constructor..].
    - apply (sp_float [c1] [] []); [right; by exists c1|constructor..].
    - rewrite <- app_assoc. apply (sp_float sg ds []); [done|done|constructor]. }
  destruct ((c =? 43) || (c =? 45)) eqn:Hs.
  { assert (is_sign c) as Hsg by (apply orb_true_iff in Hs; rewrite !Z.eqb_eq in Hs; exact Hs).
    destruct H as [| | | |l1 c1 Hl1 Hc1| |]; try done; intros _.
    - by apply sp_sign.
    - by apply sp_exponent; [apply sp_s2|]. }
  destruct ((c =? 69) || (c =? 101)) eqn:He; [|done].
  assert (c = 69 ∨ c = 101) as Hec by (apply orb_true_iff in He; rewrite !Z.eqb_eq in He; exact He).
  destruct H as [| | |sg ds fs Hsg Hds Hf| | |]; try done; intros _. apply sp_s2; [|done].
  by apply sp_float.
Qed.

Lemma run_spells l : run CORE_START l ≠ CORE_INVALID → spells (run CORE_START l) l.
Proof.
  induction l as [|c l IH] using rev_ind; [intros _; constructor|].
  rewrite run_app. simpl. intros Hn.
  assert (run CORE_START l ≠ CORE_INVALID) as Hl by (intros E; by rewrite E in Hn).
  destruct (ee_isdigit c) eqn:Hc; [apply spells_digit|apply spells_other]; auto.
Qed.

(** The transition counts of a scan. *)
Definition scans st tc l : CORE_STATE * list Z := fold_left (λ '(st, tc) c, scan st c tc) l (st, tc).

Lemma scans_state st tc l : (scans st tc l).1 = run st l.
Proof.
  unfold scans, run. revert st tc. induction l as [|c l IH]; intros st tc; [done|]. simpl.
  rewrite <- (scan_state st c tc). destruct (scan st c tc) as [st' tc'] eqn:E. apply IH.
Qed.

Lemma scans_snoc st tc l c : scans st tc (l ++ [c]) =
  let '(st', tc') := scans st tc l in scan st' c tc'.
Proof. unfold scans. rewrite fold_left_app. simpl. by destruct (fold_left _ _ _). Qed.

(** How far the scanner reads in a token: to its end, or to the first symbol that makes
    the token invalid. *)
Definition accepted l (k : nat) : Prop :=
  (k ≤ length l)%nat ∧ (∀ j, (j < k)%nat → run CORE_START (take j l) ≠ CORE_INVALID) ∧
  (k = length l ∨ run CORE_START (take k l) = CORE_INVALID).

Lemma transition_spec m a l (stop : Z) tc :
  arr m a (l ++ [stop]) → Forall (λ c, c ≠ 0 ∧ c ≠ 44) l → stop = 0 ∨ stop = 44 → ZL l < 2 ^ 32 →
  wp (core_state_transition a tc) (λ '(str, st, tc') m', m' = m ∧ ∃ k : nat,
    accepted l k ∧ (st, tc') = scans CORE_START tc (take k l) ∧
    str = a + Z.of_nat k + (if bool_decide (st = CORE_INVALID) then 0 else if stop =? 44 then 1 else 0)) m.
Proof.
  intros Ha Hl Hstop Hlen. apply arr_app in Ha as [Ha [Hs _]].
  apply (wp_loop_ix (λ n '(str, st, tc') m', m' = m ∧ ∃ k : nat, n = ZL l - Z.of_nat k ∧
    (k ≤ length l)%nat ∧ (∀ j, (j < k)%nat → run CORE_START (take j l) ≠ CORE_INVALID) ∧
    (st, tc') = scans CORE_START tc (take k l) ∧ str = a + Z.of_nat k) _ _ (ZL l)); [|lia|].
  { split; [done|]. exists 0%nat. rewrite take_0. split_and!; try done; lia. }
  intros n [[str st] tc'] m' (-> & k & -> & Hk & Hj & Hst & ->). split; [lia|].
  assert (st = run CORE_START (take k l)) as Er
    by (by rewrite <- (scans_state _ tc), <- Hst).
  destruct (decide (k = length l)) as [->|Hne].
  - apply wp_bind, wp_loadb with stop; [done|].
    assert (accepted l (length l)) as Hacc by (split; [lia|]; split; [done|by left]).
    destruct (bool_decide (st = CORE_INVALID)) eqn:Einv;
      [rewrite orb_true_r; apply wp_ret; split; [done|]; exists (length l); rewrite Einv;
       split_and!; done || lia|].
    rewrite orb_false_r. destruct Hstop as [-> | ->]; apply wp_ret; (split; [done|]);
      exists (length l); rewrite Einv; (split; [done|split; [done|simpl; lia]]).
  - destruct (lookup_lt_is_Some_2 l k ltac:(lia)) as [c Hc].
    destruct (Forall_lookup_1 _ _ _ _ Hl Hc) as [H0 H44].
    apply wp_bind, wp_loadb with c; [by apply (proj1 (arr_lookup _ _ _) Ha)|].
    rewrite (proj2 (Z.eqb_neq c 0)), (proj2 (Z.eqb_neq c 44)) by done. simpl.
    destruct (bool_decide (st = CORE_INVALID)) eqn:Einv.
    { apply wp_ret. split; [done|]. exists k. rewrite Einv. split; [|split; [done|lia]].
      split; [done|split; [done|right]]. by apply bool_decide_eq_true in Einv as <-. }
    destruct (scan st c tc') as [st2 tc2] eqn:Esc. apply wp_ret.
    exists (ZL l - Z.of_nat (S k)). split; [lia|]. split; [done|]. exists (S k).
    rewrite (take_S_r _ _ c) by done. rewrite scans_snoc, <- Hst, Esc.
    split; [done|split; [lia|split; [|split; [done|lia]]]].
    intros j Hj'. destruct (decide (j = k)) as [->|]; [|apply Hj; lia].
    rewrite <- Er. by apply bool_decide_eq_false in Einv.
Qed.
End Scanner.

(** C27 core_state_transition classifies the token at its start.  On a token followed by a
    comma or the terminator it ends, changes nothing, and answers the state whose
    language the token belongs to, behind the token and its comma; or, when no state
    spells the token, the invalid state with the position behind the first symbol that
    no token can have there.  The counts are those of the states passed. *)
Theorem core_state_transition_classifies m a l (stop : Z) tc :
  arr m a (l ++ [stop]) → Forall (λ c, c ≠ 0 ∧ c ≠ 44) l → stop = 0 ∨ stop = 44 → ZL l < 2 ^ 32 →
  wp (core_state_transition a tc) (λ '(str, st, tc') m', m' = m ∧
    (st ≠ CORE_INVALID → spells st l ∧ (∀ st', spells st' l → st' = st) ∧
       tc' = (scans CORE_START tc l).2 ∧ str = a + ZL l + (if stop =? 44 then 1 else 0)) ∧
    (st = CORE_INVALID → ∃ l1 c l2, l = l1 ++ c :: l2 ∧ str = a + ZL l1 + 1 ∧
       (∃ st', spells st' l1) ∧ (∀ st', ¬ spells st' (l1 ++ [c])) ∧
       tc' = (scans CORE_START tc (l1 ++ [c])).2)) m.
Proof.
  intros Ha Hl Hstop Hlen. eapply wp_mono; [by apply transition_spec|].
  intros [[str st] tc'] m' (-> & k & (Hk & Hj & Hend) & Hst & ->). split; [done|].
  assert (st = run CORE_START (take k l)) as Er by (by rewrite <- (scans_state _ tc), <- Hst).
  assert (tc' = (scans CORE_START tc (take k l)).2) as Ht by (by rewrite <- Hst). split; intros Hinv.
  - destruct Hend as [->|E]; [|congruence]. rewrite take_ge in * by lia.
    rewrite bool_decide_eq_false_2 by done. rewrite Er in Hinv |- *.
    split; [by apply run_spells|]. split; [by intros st' <-%spells_run|done].
  - assert (0 < k)%nat as H0.
    { destruct k; [|lia]. rewrite take_0 in Er. by subst st. }
    destruct (lookup_lt_is_Some_2 l (k - 1) ltac:(lia)) as [c Hc].
    assert (take k l = take (k - 1) l ++ [c]) as Etk.
    { replace k with (S (k - 1)) at 1 by lia. by apply take_S_r. }
    exists (take (k - 1) l), c, (drop k l). rewrite <- Etk, Hinv.
    rewrite bool_decide_eq_true_2, length_take_le by (done || lia).
    split; [|split; [lia|split; [|split; [|done]]]].
    + rewrite <- (take_drop k l) at 1. rewrite Etk, <- app_assoc. done.
    + eexists. apply run_spells, Hj. lia.
    + intros st' Hs. pose proof (spells_run _ _ Hs) as E. rewrite <- Er, Hinv in E. subst st'.
      inversion Hs.
Qed.

(** * The benchmark leaves its input as it was *)
Section Bench.
Implicit Types (m : mem) (p stop step seed : Z).

Definition flip seed (v : Z) : Z := if v =? 44 then v else Z.lxor v (u8 seed).
Definition visited p stop step (x : Z) : bool := (p <=? x) && (x <? stop) && ((x - p) mod step =? 0).

(** Memory after one pass of corruption. *)
Definition flipped p stop step seed m m' : Prop :=
  ∀ x, m' !! x = (if visited p stop step x then flip seed <$> m !! x else m !! x).

Lemma flip_byte seed v : is_byte v → is_byte (flip seed v).
Proof.
  intros Hv. unfold flip. destruct (v =? 44); [done|]. apply (lxor_bound 8); [done|done|].
  apply u8_is_byte.
Qed.

Lemma visited_step p stop step (k : Z) x : 0 < step → 0 ≤ k →
  visited p (Z.min stop (p + (k + 1) * step)) step x =
  visited p (Z.min stop (p + k * step)) step x || bool_decide (x = p + k * step ∧ x < stop).
Proof.
  intros Hs Hk. unfold visited.
  pose proof (Z.div_mod (x - p) step ltac:(lia)) as Hd.
  pose proof (Z.mod_pos_bound (x - p) step Hs) as Hm.
  destruct (decide (x = p + k * step ∧ x < stop)) as [[Hx Hlt]|Hn].
  - rewrite bool_decide_eq_true_2, orb_true_r by done. subst x.
    replace (p + k * step - p) with (k * step) by lia. rewrite Z.mod_mul by lia.
    rewrite !andb_true_iff, Z.leb_le, Z.ltb_lt, Z.eqb_eq. nia.
  - rewrite bool_decide_eq_false_2, orb_false_r by done. apply eq_true_iff_eq.
    rewrite !andb_true_iff, !Z.leb_le, !Z.ltb_lt, !Z.eqb_eq.
    split; intros [[H1 H2] H3]; (split; [split|]; [done| |done]); [|lia].
    apply Z.min_glb_lt; [lia|]. rewrite H3, Z.add_0_r in Hd.
    destruct (Z.lt_ge_cases ((x - p) / step) k); [nia|].
    assert ((x - p) / step < k + 1) by nia. assert ((x - p) / step = k) by lia. nia.
Qed.

Lemma corrupt_spec m p stop step seed :
  0 < step → p ≤ stop → stop < 2 ^ 33 → mapped m p (stop - p) → mem_wf m → 0 ≤ p →
  wp (corrupt stop step seed p) (λ _ m', flipped p stop step seed m m') m.
Proof.
  intros Hs Hp Hstop Hm Hw H0.
  apply (wp_loop_ix (λ n q m', ∃ k, 0 ≤ k ∧ q = p + k * step ∧ n = Z.max 0 (stop - q) ∧
    flipped p (Z.min stop q) step seed m m') _ _ (Z.max 0 (stop - p))); [|lia|].
  { exists 0. split_and!; [lia|lia|done|]. intros x. rewrite Z.min_r by lia. unfold visited.
    destruct (Z.leb_spec p x), (Z.ltb_spec x p); simpl; try done. lia. }
  intros n q m' (k & Hk & -> & -> & Hf). split; [lia|].
  destruct (Z.ltb_spec (p + k * step) stop) as [Hlt|Hge].
  - destruct (Hm (p + k * step) ltac:(nia)) as [v Hv].
    assert (m' !! (p + k * step) = Some v) as Hv'.
    { rewrite (Hf _). replace (visited _ _ _ _) with false; [done|]. symmetry. unfold visited.
      rewrite Z.min_r, Z.ltb_irrefl, andb_false_r by lia. done. }
    pose proof (Hw _ _ Hv) as Hvb. apply wp_bind, wp_loadb with v; [done|].
    assert (∀ m2, m2 = <[p + k * step := flip seed v]> m' →
      flipped p (Z.min stop (p + (k + 1) * step)) step seed m m2) as Hnext.
    { intros m2 -> x. rewrite visited_step by done.
      destruct (decide (x = p + k * step)) as [->|Hne].
      - rewrite lookup_insert_eq, bool_decide_eq_true_2, orb_true_r by done. by rewrite Hv.
      - rewrite lookup_insert_ne by done. rewrite bool_decide_eq_false_2 by naive_solver.
        by rewrite orb_false_r, (Hf x). }
    unfold when, flip in *. destruct (Z.eqb_spec v 44) as [E|E]; simpl; apply wp_bind.
    + apply wp_ret, wp_ret. exists (Z.max 0 (stop - (p + k * step + step))). split; [nia|].
      exists (k + 1). split_and!; [lia|lia|done|]. replace (p + k * step + step) with (p + (k + 1) * step) by lia.
      apply Hnext. by rewrite insert_id.
    + apply wp_storeb; [done|]. apply wp_ret. exists (Z.max 0 (stop - (p + k * step + step))). split; [nia|].
      exists (k + 1). split_and!; [lia|lia|done|]. replace (p + k * step + step) with (p + (k + 1) * step) by lia.
      apply Hnext. f_equal. apply u8_small. apply (lxor_bound 8); [done|done|apply u8_is_byte].
  - apply wp_ret. by rewrite Z.min_l in Hf by lia.
Qed.

(** One scan moves forward and does not pass the terminator. *)
Lemma transition_moves m p z tc (c : Z) :
  m !! p = Some c → c ≠ 0 → m !! z = Some 0 → p ≤ z → z - p < 2 ^ 34 → mapped m p (z - p) →
  wp (core_state_transition p tc) (λ '(str, _, _) m', m' = m ∧ p < str ≤ z) m.
Proof.
  intros Hc H0 Hz Hpz Hb Hm.
  apply (wp_loop_ix (λ n '(str, st, tc) m', m' = m ∧ n = z - str ∧ str ≤ z ∧
    ((str = p ∧ st = CORE_START) ∨ p < str)) _ _ (z - p)); [|lia|].
  { split_and!; try done. by left. }
  intros n [[str st] tc'] m' (-> & -> & Hle & Hst). split; [lia|].
  assert (∃ v, m !! str = Some v ∧ (str = z → v = 0)) as (v & Hv & Hvz).
  { destruct (Z.eq_dec str z) as [->|]; [by exists 0|]. destruct (Hm str) as [v Hv]; [lia|]. by exists v. }
  apply wp_bind, wp_loadb with v; [done|].
  destruct (Z.eqb_spec v 0) as [->|Hv0]; simpl.
  { apply wp_ret. split; [done|]. destruct Hst as [[-> _]|]; [congruence|lia]. }
  assert (str ≠ z) by (intros E; by apply Hv0, Hvz).
  destruct (bool_decide_reflect (st = CORE_INVALID)).
  { apply wp_ret. split; [done|]. destruct Hst as [[_ ->]|]; [done|lia]. }
  destruct (v =? 44); [apply wp_ret; split; [done|lia]|].
  destruct (scan st v tc') as [st2 tc2]. apply wp_ret. exists (z - (str + 1)).
  split; [lia|]. split_and!; [done|done|lia|right; lia].
Qed.

Lemma scan_all_spec m p z final track :
  m !! z = Some 0 → p ≤ z → z - p < 2 ^ 34 → mapped m p (z - p) →
  wp (scan_all p final track) (λ _ m', m' = m) m.
Proof.
  intros Hz Hpz Hb Hm.
  apply (wp_loop_ix (λ n '(q, _, _) m', m' = m ∧ n = z - q ∧ p ≤ q ≤ z) _ _ (z - p));
    [by split_and!|lia|].
  intros n [[q fin] tr] m' (-> & -> & Hq). split; [lia|].
  assert (∃ v, m !! q = Some v ∧ (q = z → v = 0)) as (v & Hv & Hvz).
  { destruct (Z.eq_dec q z) as [->|]; [by exists 0|]. destruct (Hm q) as [v Hv]; [lia|]. by exists v. }
  apply wp_bind, wp_loadb with v; [done|]. destruct (Z.eqb_spec v 0) as [->|Hv0]; [by apply wp_ret|].
  apply wp_bind. eapply wp_mono.
  { apply (transition_moves m q z tr v); try done; [lia|lia|]. eapply mapped_sub; [exact Hm|lia..]. }
  intros [[str st] tr'] m2 [-> Hstr]. apply wp_ret. exists (z - str). split; [lia|]. split_and!; lia || done.
Qed.
(** Both passes together, with whatever seeds. *)
Lemma core_bench_state_passes m blksize memblock seed1 seed2 step crc z :
  mem_wf m → 0 < step → 0 ≤ memblock → 0 ≤ blksize < 2 ^ 32 → memblock < 2 ^ 32 →
  memblock ≤ z < 2 ^ 33 → mapped m memblock blksize → mapped m memblock (z - memblock) →
  m !! z = Some 0 → visited memblock (memblock + blksize) step z = false →
  wp (core_bench_state blksize memblock seed1 seed2 step crc) (λ _ m', ∀ x,
    m' !! x = if visited memblock (memblock + blksize) step x
              then flip seed2 <$> (flip seed1 <$> m !! x) else m !! x) m.
Proof.
  intros Hw Hs H0 Hb Hp Hz Hm1 Hm2 Hz0 Hv. unfold core_bench_state. apply wp_bind.
  eapply wp_mono; [apply (scan_all_spec m memblock z); try done; lia|]. intros [f1 t1] ? ->. apply wp_bind.
  eapply wp_mono.
  { apply (corrupt_spec m memblock (memblock + blksize) step seed1); try done; try lia.
    by replace (memblock + blksize - memblock) with blksize by lia. }
  intros ? m1 Hf1. assert (∀ x, is_Some (m !! x) → is_Some (m1 !! x)) as Hd.
  { intros x [v Hx]. rewrite (Hf1 x), Hx. by case_match. }
  assert (mem_wf m1) as Hw1.
  { intros x v. rewrite (Hf1 x). case_match; [|by apply Hw].
    destruct (m !! x) as [v0|] eqn:Hx; [|done]. intros [= <-]. by apply flip_byte, (Hw x). }
  apply wp_bind. eapply wp_mono.
  { apply (scan_all_spec m1 memblock z); [by rewrite (Hf1 z), Hv|lia|lia|].
    intros x Hx. by apply Hd, Hm2. }
  intros [f2 t2] ? ->. apply wp_bind. eapply wp_mono.
  { apply (corrupt_spec m1 memblock (memblock + blksize) step seed2); try done; try lia.
    intros x Hx. apply Hd, Hm1. lia. }
  intros ? m2 Hf2. apply wp_ret. intros x. rewrite (Hf2 x), (Hf1 x). by case_match.
Qed.
End Bench.

(** What two equal corruptions leave of a byte. *)
Definition undone (seed v : Z) : Z := if Z.lxor v (u8 seed) =? 44 then 44 else v.

Lemma flip_flip seed v : is_byte v → flip seed (flip seed v) = undone seed v.
Proof.
  intros Hv. unfold flip, undone. destruct (Z.eqb_spec v 44) as [->|Hne].
  - cbn [Z.eqb Pos.eqb]. by destruct (_ =? _).
  - destruct (Z.eqb_spec (Z.lxor v (u8 seed)) 44) as [E|E]; [done|].
    by rewrite Z.lxor_assoc, Z.lxor_nilpotent, Z.lxor_0_r.
Qed.

(** C27 core_bench_state ends, and undoes its own corruption when both seeds are equal, but
    for one case its comment forgets: a byte the first pass turns into a comma is skipped
    by the second pass and stays a comma.  Every other byte of memory is as it was; in
    particular memory is unchanged when no visited byte differs from a comma by exactly
    the seed.  The input has to keep a terminator outside the visited places. *)
Theorem core_bench_state_undoes m blksize memblock seed step crc z :
  mem_wf m → 0 < step → 0 ≤ memblock → 0 ≤ blksize < 2 ^ 32 → memblock < 2 ^ 32 →
  memblock ≤ z < 2 ^ 33 → mapped m memblock blksize → mapped m memblock (z - memblock) →
  m !! z = Some 0 → visited memblock (memblock + blksize) step z = false →
  wp (core_bench_state blksize memblock seed seed step crc) (λ _ m',
    (∀ x, m' !! x = if visited memblock (memblock + blksize) step x
                    then undone seed <$> m !! x else m !! x) ∧
    ((∀ x v, visited memblock (memblock + blksize) step x = true → m !! x = Some v →
        v = 44 ∨ Z.lxor v (u8 seed) ≠ 44) → m' = m)) m.
Proof.
  intros Hw Hs H0 Hb Hp Hz Hm1 Hm2 Hz0 Hv.
  eapply wp_mono; [by apply (core_bench_state_passes m blksize memblock seed seed step crc z)|].
  intros ? m2 Hf.
  assert (∀ x, m2 !! x = if visited memblock (memblock + blksize) step x
    then undone seed <$> m !! x else m !! x) as Hx.
  { intros x. rewrite (Hf x). case_match; [|done]. destruct (m !! x) as [v|] eqn:E; [|done].
    simpl. by rewrite flip_flip by by eapply Hw. }
  split; [done|]. intros Hne. apply map_eq. intros x. rewrite Hx. case_match eqn:Ev; [|done].
  destruct (m !! x) as [v|] eqn:E; [|done]. simpl. unfold undone. f_equal.
  destruct (Z.eqb_spec (Z.lxor v (u8 seed)) 44) as [E2|]; [|done].
  by destruct (Hne x v Ev E).
Qed.

(** * Examples *)
Section Examples.
Definition token_mem : mem := mem_write ∅ 0 [45; 49; 46; 53; 44; 57; 120; 44; 0; 0].

Lemma core_state_transition_classifies_witness :
  wp (core_state_transition 0 (replicate 8 0)) (λ '(str, st, tc') m', m' = token_mem ∧
    (st ≠ CORE_INVALID → spells st [45; 49; 46; 53] ∧ (∀ st', spells st' [45; 49; 46; 53] → st' = st) ∧
       tc' = (scans CORE_START (replicate 8 0) [45; 49; 46; 53]).2 ∧
       str = 0 + ZL [45; 49; 46; 53] + (if 44 =? 44 then 1 else 0)) ∧
    (st = CORE_INVALID → ∃ l1 c l2, [45; 49; 46; 53] = l1 ++ c :: l2 ∧ str = 0 + ZL l1 + 1 ∧
       (∃ st', spells st' l1) ∧ (∀ st', ¬ spells st' (l1 ++ [c])) ∧
       tc' = (scans CORE_START (replicate 8 0) (l1 ++ [c])).2)) token_mem.
Proof.
  apply (core_state_transition_classifies token_mem 0 [45; 49; 46; 53] 44).
  - repeat split; vm_compute; reflexivity.
  - repeat constructor; lia.
  - by right.
  - done.
Defined.

Lemma core_bench_state_undoes_witness :
  wp (core_bench_state 8 0 0x3415 0x3415 3 0) (λ _ m',
    (∀ x, m' !! x = if visited 0 (0 + 8) 3 x then undone 0x3415 <$> token_mem !! x else token_mem !! x) ∧
    ((∀ x v, visited 0 (0 + 8) 3 x = true → token_mem !! x = Some v →
        v = 44 ∨ Z.lxor v (u8 0x3415) ≠ 44) → m' = token_mem)) token_mem.
Proof.
  assert (∀ n, n ≤ 10 → mapped token_mem 0 n) as Hm.
  { intros n Hn. apply (mapped_sub _ 0 10); [|lia..].
    apply (arr_mapped _ 0 [45; 49; 46; 53; 44; 57; 120; 44; 0; 0]), mem_write_arr. }
  apply (core_bench_state_undoes token_mem 8 0 0x3415 3 0 8); try lia.
  - apply mem_wf_write; [by intros ???|]. repeat constructor; by vm_compute.
  - by apply Hm.
  - by apply Hm.
  - vm_compute. reflexivity.
  - vm_compute. reflexivity.
Defined.
End Examples.
