(* ===== verification/CmMatrix.v ===== *)
(** CoreMark's matrix benchmark (core_matrix.c) on three bounded arrays: what each pass
    computes, and that a round of matrix_test gives the input matrices back. *)
From stdpp Require Import base list gmap fin_maps.
From Stdlib Require Import ZArith Lia.
From S2P Require Import Prelude Memory CmUtil.

#[local] Open Scope Z_scope.

(** * Arrays and the state *)

(** A C array: an access outside it, or a read of a cell never written, is a fault. *)
Record array : Type := Array {
  a_len : Z;
  a_cells : gmap Z Z;
}.

(** mat_params, with the arrays its pointers point to. *)
Record mat_params : Type := MatParams {
  mat_N : Z;
  mat_A : array;
  mat_B : array;
  mat_C : array;
}.

Definition read_cell (get : mat_params → array) (i : Z) : M mat_params Z := λ s,
  match a_cells (get s) !! i with
  | Some v => Ret (v, s)
  | None => Fault
  end.
Definition write_cell (get : mat_params → array) (set : array → mat_params → mat_params) (i v : Z) :
    M mat_params () := λ s,
  if (0 <=? i) && (i <? a_len (get s)) then
    Ret ((), set (Array (a_len (get s)) (<[i := v]> (a_cells (get s)))) s)
  else Fault.

Definition set_A (a : array) (s : mat_params) : mat_params := MatParams (mat_N s) a (mat_B s) (mat_C s).
Definition set_B (a : array) (s : mat_params) : mat_params := MatParams (mat_N s) (mat_A s) a (mat_C s).
Definition set_C (a : array) (s : mat_params) : mat_params := MatParams (mat_N s) (mat_A s) (mat_B s) a.
Definition readA : Z → M mat_params Z := read_cell mat_A.
Definition readB : Z → M mat_params Z := read_cell mat_B.
Definition readC : Z → M mat_params Z := read_cell mat_C.
Definition writeA : Z → Z → M mat_params () := write_cell mat_A set_A.
Definition writeB : Z → Z → M mat_params () := write_cell mat_B set_B.
Definition writeC : Z → Z → M mat_params () := write_cell mat_C set_C.

(** [i*N+j] on unsigned ints. *)
Definition ix (N i j : Z) : Z := u32 (u32 (i * N) + j).

(** A [for] loop with local variables. *)
Fixpoint for_acc {S A : Type} (n : nat) (i : Z) (body : Z → A → M S A) (a : A) : M S A :=
  match n with
  | O => mret a
  | Datatypes.S n => a ← body i a; for_acc n (i + 1) body a
  end.

(** * core_matrix.c *)
Definition matrix_clip (x y : Z) : Z := if y =? 0 then Z.land x 0xffff else Z.land x 0xff.
Definition matrix_big (x : Z) : Z := Z.lor 0xf000 x.
Definition bit_extract (x from to : Z) : Z :=
  Z.land (u32 (Z.shiftr x from)) (u32 (Z.lnot (u32 (Z.shiftl 0xffffffff to)))).

Definition matrix_add_const (N val : Z) : M mat_params () :=
  for_upto N (λ i, for_upto N (λ j,
    a ← readA (ix N i j);
    writeA (ix N i j) (s16 (a + val)))).

Definition matrix_mul_const (N val : Z) : M mat_params () :=
  for_upto N (λ i, for_upto N (λ j,
    a ← readA (ix N i j);
    writeC (ix N i j) (s32 (a * val)))).

Definition matrix_mul_vect (N : Z) : M mat_params () :=
  for_upto N (λ i,
    writeC i 0;;
    for_upto N (λ j,
      c ← readC i;
      a ← readA (ix N i j);
      b ← readB j;
      writeC i (s32 (c + s32 (a * b))))).

Definition matrix_mul_matrix (N : Z) : M mat_params () :=
  for_upto N (λ i, for_upto N (λ j,
    writeC (ix N i j) 0;;
    for_upto N (λ k,
      c ← readC (ix N i j);
      a ← readA (ix N i k);
      b ← readB (ix N k j);
      writeC (ix N i j) (s32 (c + s32 (a * b)))))).

Definition matrix_mul_matrix_bitextract (N : Z) : M mat_params () :=
  for_upto N (λ i, for_upto N (λ j,
    writeC (ix N i j) 0;;
    for_upto N (λ k,
      a ← readA (ix N i k);
      b ← readB (ix N k j);
      let tmp := s32 (a * b) in
      c ← readC (ix N i j);
      writeC (ix N i j) (s32 (c + u32 (bit_extract tmp 2 4 * bit_extract tmp 5 7)))))).

(** The locals of matrix_sum: the accumulator, the previous element and the result. *)
Definition matrix_sum (N clipval : Z) : M mat_params Z :=
  r ← for_acc (Z.to_nat N) 0 (λ i, for_acc (Z.to_nat N) 0 (λ j '(tmp, prev, ret),
    cur ← readC (ix N i j);
    let tmp := s32 (tmp + cur) in
    mret (if clipval <? tmp then (0, cur, s16 (ret + 10))
          else (tmp, cur, s16 (ret + (if prev <? cur then 1 else 0)))))) (0, 0, 0);
  mret (r : Z * Z * Z).2.

Definition matrix_test (N val : Z) : M mat_params Z :=
  let clipval := s16 (matrix_big val) in
  matrix_add_const N val;;
  matrix_mul_const N val;;
  r ← matrix_sum N clipval;
  let crc := crc16 r 0 in
  matrix_mul_vect N;;
  r ← matrix_sum N clipval;
  let crc := crc16 r crc in
  matrix_mul_matrix N;;
  r ← matrix_sum N clipval;
  let crc := crc16 r crc in
  matrix_mul_matrix_bitextract N;;
  r ← matrix_sum N clipval;
  let crc := crc16 r crc in
  matrix_add_const N (s16 (- val));;
  mret (s16 crc).

Definition core_bench_matrix (seed crc : Z) : M mat_params Z :=
  N ← gets mat_N;
  r ← matrix_test N (s16 seed);
  mret (crc16 r crc).

(** The largest [N] whose three matrices fit. *)
Definition matrix_dim (blksize : Z) : M mat_params Z :=
  i ← loop (λ '(i, j),
    if j <? blksize then
      let i := u32 (i + 1) in
      mret (inl (i, u32 (i * i * 2 * 4)))
    else mret (inr i)) (0, 0);
  mret (u32 (i - 1)).

Definition core_init_matrix (blksize seed : Z) : M mat_params Z :=
  N ← matrix_dim blksize;
  let seed := if seed =? 0 then 1 else seed in
  put_st (MatParams N (Array (N * N) ∅) (Array (N * N) ∅) (Array (N * N) ∅));;
  for_acc (Z.to_nat N) 0 (λ i, for_acc (Z.to_nat N) 0 (λ j '(seed, order),
    let seed := Z.rem (s32 (order * seed)) 65536 in
    let val := s16 (seed + order) in
    let val := s16 (matrix_clip val 0) in
    writeB (ix N i j) val;;
    let val := s16 (val + order) in
    let val := s16 (matrix_clip val 1) in
    writeA (ix N i j) val;;
    mret (seed, s32 (order + 1)))) (seed, 1);;
  mret N.

(** * Passes over the matrices *)
Section Passes.
Implicit Types (N i j k b : Z) (f new : Z → Z) (a : array).

(** [a] holds [f 0], ..., [f (n - 1)]. *)
Definition holds a f n : Prop := a_len a = n ∧ ∀ k, 0 ≤ k < n → a_cells a !! k = Some (f k).

(** [a] is [a0] with the cells below [b] set to [new]. *)
Definition part a a0 new b : Prop :=
  a_len a = a_len a0 ∧
  ∀ k, a_cells a !! k = if (0 <=? k) && (k <? b) then Some (new k) else a_cells a0 !! k.

Lemma part_0 a new : part a a new 0.
Proof.
  split; [done|]. intros k. destruct (Z.leb_spec 0 k), (Z.ltb_spec k 0); simpl; done || lia.
Qed.

Lemma part_holds a a0 new n : a_len a0 = n → part a a0 new n → holds a new n.
Proof.
  intros Hl [Hl' Hk]. split; [congruence|]. intros k Hkn. rewrite Hk.
  by rewrite (proj2 (Z.leb_le 0 k)), (proj2 (Z.ltb_lt k n)) by lia.
Qed.

Definition write_at a i v : array := Array (a_len a) (<[i := v]> (a_cells a)).

Lemma part_write a a0 new b : 0 ≤ b → part a a0 new b → part (write_at a b (new b)) a0 new (b + 1).
Proof.
  intros Hb [Hl Hk]. split; [done|]. intros k. simpl. destruct (decide (k = b)) as [->|Hne].
  - rewrite lookup_insert_eq, (proj2 (Z.leb_le 0 b)), (proj2 (Z.ltb_lt b _)) by lia. done.
  - rewrite lookup_insert_ne, Hk by done. replace (k <? b + 1) with (k <? b); [done|].
    apply eq_true_iff_eq. rewrite !Z.ltb_lt. lia.
Qed.

Lemma write_write a i v w : write_at (write_at a i v) i w = write_at a i w.
Proof. unfold write_at. simpl. by rewrite insert_insert_eq. Qed.

Lemma wp_write_cell get set i v (Q : () → mat_params → Prop) s :
  0 ≤ i < a_len (get s) → Q () (set (write_at (get s) i v) s) → wp (write_cell get set i v) Q s.
Proof.
  intros Hi HQ. unfold wp, write_cell.
  by rewrite (proj2 (Z.leb_le 0 i)), (proj2 (Z.ltb_lt i _)) by lia.
Qed.

Lemma wp_read_cell get i v (Q : Z → mat_params → Prop) s :
  a_cells (get s) !! i = Some v → Q v s → wp (read_cell get i) Q s.
Proof. intros Hv HQ. unfold wp, read_cell. by rewrite Hv. Qed.

(** Indices stay below [N * N]. *)
Lemma ix_lt N i j : 0 ≤ i < N → 0 ≤ j < N → 0 ≤ i * N + j < N * N.
Proof. nia. Qed.

Lemma ix_small N i j : N * N < 2 ^ 32 → 0 ≤ i < N → 0 ≤ j < N → ix N i j = i * N + j.
Proof.
  intros HN Hi Hj. pose proof (ix_lt N i j Hi Hj). unfold ix.
  rewrite (u32_small (i * N)) by (unfold is_u32; nia). apply u32_small. unfold is_u32. lia.
Qed.

(** Two nested loops as one over the flat index. *)
Lemma wp_for2 (I : Z → mat_params → Prop) (Q : () → mat_params → Prop) N
    (body : Z → Z → M mat_params ()) s :
  0 ≤ N → I 0 s →
  (∀ i j s, 0 ≤ i < N → 0 ≤ j < N → I (i * N + j) s →
    wp (body i j) (λ _ s', I (i * N + j + 1) s') s) →
  (∀ s, I (N * N) s → Q () s) →
  wp (for_upto N (λ i, for_upto N (body i))) Q s.
Proof.
  intros HN HI Hb HQ. apply (wp_for_upto (λ i, I (i * N))); [done|done| |done].
  intros i s1 Hi H1. apply (wp_for_upto (λ j, I (i * N + j))); [done|by rewrite Z.add_0_r| |].
  - intros j s2 Hj H2. eapply wp_mono; [by apply Hb|]. intros ? s3 H3.
    by replace (i * N + (j + 1)) with (i * N + j + 1) by lia.
  - intros s2 H2. by replace ((i + 1) * N) with (i * N + N) by lia.
Qed.

Lemma div_ix N i j : 0 ≤ j < N → (i * N + j) / N = i.
Proof. intros. rewrite Z.div_add_l, Z.div_small by lia. lia. Qed.
Lemma mod_ix N i j : 0 ≤ j < N → (i * N + j) mod N = j.
Proof. intros. rewrite Z.add_comm, Z.mod_add, Z.mod_small by lia. done. Qed.

(** Sums, and their accumulation in a signed int. *)
Fixpoint bigsum (n : nat) f : Z :=
  match n with O => 0 | S n => bigsum n f + f (Z.of_nat n) end.

Lemma wraps_add (w x y : Z) : 0 < w → wraps w (wraps w x + wraps w y) = wraps w (x + y).
Proof.
  intros Hw. unfold wraps. f_equal.
  replace ((x + 2 ^ (w - 1)) mod 2 ^ w - 2 ^ (w - 1) + ((y + 2 ^ (w - 1)) mod 2 ^ w - 2 ^ (w - 1)) + 2 ^ (w - 1))
    with ((x + 2 ^ (w - 1)) mod 2 ^ w + ((y + 2 ^ (w - 1)) mod 2 ^ w - 2 ^ (w - 1))) by lia.
  rewrite Zplus_mod_idemp_l.
  replace (x + 2 ^ (w - 1) + ((y + 2 ^ (w - 1)) mod 2 ^ w - 2 ^ (w - 1)))
    with ((y + 2 ^ (w - 1)) mod 2 ^ w + x) by lia.
  rewrite Zplus_mod_idemp_l. f_equal. lia.
Qed.

Lemma wraps_add_l (w x y : Z) : 0 < w → wraps w (wraps w x + y) = wraps w (x + y).
Proof.
  intros Hw. unfold wraps. f_equal.
  replace ((x + 2 ^ (w - 1)) mod 2 ^ w - 2 ^ (w - 1) + y + 2 ^ (w - 1))
    with ((x + 2 ^ (w - 1)) mod 2 ^ w + y) by lia.
  rewrite Zplus_mod_idemp_l. f_equal. lia.
Qed.

(** A field of a word. *)
Lemma bit_extract_field (x from to : Z) : 0 ≤ from → 0 ≤ to → from + to ≤ 32 →
  bit_extract x from to = x / 2 ^ from mod 2 ^ to.
Proof.
  intros Hf Ht Hft. unfold bit_extract. rewrite <- Z.shiftr_div_pow2, <- Z.land_ones by done.
  apply Z.bits_inj'. intros i Hi. rewrite !Z.land_spec, !wrapu_testbit, Z.lnot_spec, wrapu_testbit,
    Z.shiftl_spec by lia.
  change 0xffffffff with (Z.ones 32). destruct (Z.lt_ge_cases i to).
  - rewrite (Z.ones_spec_low to) by lia. rewrite (Z.testbit_neg_r _ (i - to)) by lia.
    rewrite (proj2 (Z.ltb_lt i 32)) by lia. simpl. by rewrite andb_true_r.
  - rewrite (Z.ones_spec_high to) by lia. rewrite andb_false_r. destruct (Z.ltb_spec i 32); [|done].
    rewrite Z.ones_spec_low by lia. simpl. apply andb_false_r.
Qed.
End Passes.

Section Specs.
Context (N : Z) (HN : 0 ≤ N) (HN2 : N * N < 2 ^ 32).
Context (A B : array) (fa fb : Z → Z).
Context (HA : holds A fa (N * N)) (HB : holds B fb (N * N)).
Implicit Types (C : array) (new term : Z → Z).
Let st C := MatParams N A B C.

Lemma wp_readA i j (Q : Z → mat_params → Prop) C : 0 ≤ i < N → 0 ≤ j < N →
  Q (fa (i * N + j)) (st C) → wp (readA (ix N i j)) Q (st C).
Proof.
  intros Hi Hj HQ. rewrite ix_small by done. eapply wp_read_cell; [|exact HQ].
  apply HA. by apply ix_lt.
Qed.

Lemma wp_readB i j (Q : Z → mat_params → Prop) C : 0 ≤ i < N → 0 ≤ j < N →
  Q (fb (i * N + j)) (st C) → wp (readB (ix N i j)) Q (st C).
Proof.
  intros Hi Hj HQ. rewrite ix_small by done. eapply wp_read_cell; [|exact HQ].
  apply HB. by apply ix_lt.
Qed.

Lemma mul_const_spec C0 val : a_len C0 = N * N →
  wp (matrix_mul_const N val)
     (λ _ s, ∃ C, s = st C ∧ part C C0 (λ k, s32 (fa k * val)) (N * N)) (st C0).
Proof.
  intros Hl.
  apply (wp_for2 (λ b s, ∃ C, s = st C ∧ part C C0 (λ k, s32 (fa k * val)) b)); [done| | |done].
  - exists C0. split; [done|apply part_0].
  - intros i j s Hi Hj (C & -> & Hp). pose proof (ix_lt N i j Hi Hj).
    apply wp_bind, wp_readA; [done..|]. rewrite ix_small by done.
    apply wp_write_cell; [simpl; destruct Hp as [-> _]; lia|]. eexists. split; [reflexivity|].
    apply (part_write _ _ (λ k, s32 (fa k * val))); [lia|done].
Qed.

(** A cell is cleared and a sum accumulated in it. *)
Lemma accumulate C0 C new b term (body : Z → M mat_params ()) :
  0 ≤ b < a_len C0 → part C C0 new b → new b = s32 (bigsum (Z.to_nat N) term) →
  (∀ l v C', 0 ≤ l < N → a_cells C' !! b = Some v → a_len C' = a_len C0 →
     wp (body l) (λ _ s, s = st (write_at C' b (s32 (v + term l)))) (st C')) →
  wp (writeC b 0;; for_upto N body) (λ _ s, ∃ C', s = st C' ∧ part C' C0 new (b + 1)) (st C).
Proof.
  intros Hb Hp Hnew Hbody. pose proof Hp as [Hl _].
  apply wp_bind, wp_write_cell; [simpl; lia|].
  apply (wp_for_upto (λ l s, s = st (write_at C b (s32 (bigsum (Z.to_nat l) term))))); [done|done| |].
  - intros l s Hlr ->. eapply wp_mono.
    { apply Hbody; [exact Hlr|simpl; apply lookup_insert_eq|exact Hl]. }
    intros ? s ->. f_equal. rewrite write_write. f_equal. rewrite wraps_add_l by done. f_equal.
    replace (Z.to_nat (l + 1)) with (S (Z.to_nat l)) by lia. simpl. f_equal. f_equal. lia.
  - intros s ->. eexists. split; [reflexivity|]. rewrite <- Hnew. apply part_write; [lia|done].
Qed.

Definition dot_vect (i : Z) : Z := s32 (bigsum (Z.to_nat N) (λ j, s32 (fa (i * N + j) * fb j))).

Lemma mul_vect_spec C0 : a_len C0 = N * N →
  wp (matrix_mul_vect N) (λ _ s, ∃ C, s = st C ∧ part C C0 dot_vect N) (st C0).
Proof.
  intros Hl. apply (wp_for_upto (λ b s, ∃ C, s = st C ∧ part C C0 dot_vect b)); [done| | |done].
  - exists C0. split; [done|apply part_0].
  - intros i s Hi (C & -> & Hp).
    apply (accumulate C0 C dot_vect i (λ j, s32 (fa (i * N + j) * fb j))); [nia|done|done|].
    intros j v C' Hj Hv Hl'. apply wp_bind. eapply wp_read_cell; [exact Hv|].
    apply wp_bind, wp_readA; [done..|]. apply wp_bind. eapply wp_read_cell; [apply HB; nia|].
    apply wp_write_cell; [simpl; nia|done].
Qed.

(** The two products of the matrices, by the flat index of the result. *)
Definition product_term (term : Z → Z) (k l : Z) : Z :=
  term (s32 (fa (k / N * N + l) * fb (l * N + k mod N))).
Definition product (term : Z → Z) (k : Z) : Z := s32 (bigsum (Z.to_nat N) (product_term term k)).

Lemma product_spec (term : Z → Z) (body : Z → Z → Z → M mat_params ()) C0 : a_len C0 = N * N →
  (∀ i j l v C', 0 ≤ i < N → 0 ≤ j < N → 0 ≤ l < N →
     a_cells C' !! (i * N + j) = Some v → a_len C' = N * N →
     wp (body i j l) (λ _ s, s = st (write_at C' (i * N + j)
       (s32 (v + term (s32 (fa (i * N + l) * fb (l * N + j))))))) (st C')) →
  wp (for_upto N (λ i, for_upto N (λ j, writeC (ix N i j) 0;; for_upto N (body i j))))
     (λ _ s, ∃ C, s = st C ∧ part C C0 (product term) (N * N)) (st C0).
Proof.
  intros Hl Hbody.
  apply (wp_for2 (λ b s, ∃ C, s = st C ∧ part C C0 (product term) b)); [done| | |done].
  { exists C0. split; [done|apply part_0]. }
  intros i j s Hi Hj (C & -> & Hp). pose proof (ix_lt N i j Hi Hj). rewrite ix_small by done.
  apply (accumulate C0 C (product term) (i * N + j) (product_term term (i * N + j)));
    [lia|done|done|].
  intros l v C' Hlr Hv Hl'. unfold product_term. rewrite div_ix, mod_ix by done.
  apply Hbody; try done. congruence.
Qed.

Lemma mul_matrix_spec C0 : a_len C0 = N * N →
  wp (matrix_mul_matrix N) (λ _ s, ∃ C, s = st C ∧ part C C0 (product (λ x, x)) (N * N)) (st C0).
Proof.
  intros Hl. apply product_spec; [done|]. intros i j l v C' Hi Hj Hlr Hv Hl'.
  pose proof (ix_lt N i j Hi Hj). rewrite ix_small by done.
  apply wp_bind. eapply wp_read_cell; [exact Hv|]. apply wp_bind, wp_readA; [done..|].
  apply wp_bind, wp_readB; [done..|]. apply wp_write_cell; [simpl; lia|done].
Qed.

Definition bits (tmp : Z) : Z := u32 (bit_extract tmp 2 4 * bit_extract tmp 5 7).

Lemma mul_bitextract_spec C0 : a_len C0 = N * N →
  wp (matrix_mul_matrix_bitextract N)
     (λ _ s, ∃ C, s = st C ∧ part C C0 (product bits) (N * N)) (st C0).
Proof.
  intros Hl. apply product_spec; [done|]. intros i j l v C' Hi Hj Hlr Hv Hl'.
  pose proof (ix_lt N i j Hi Hj). rewrite ix_small by done.
  apply wp_bind, wp_readA; [done..|]. apply wp_bind, wp_readB; [done..|].
  apply wp_bind. eapply wp_read_cell; [exact Hv|]. apply wp_write_cell; [simpl; lia|done].
Qed.
End Specs.

(** * A round of the benchmark *)
Section Round.
Implicit Types (A B C a : array) (f : Z → Z).

Lemma wp_for_acc {T} (I : Z → T → mat_params → Prop) (Q : T → mat_params → Prop) n i
    (body : Z → T → M mat_params T) (x : T) s :
  I i x s →
  (∀ j x s, i ≤ j < i + Z.of_nat n → I j x s → wp (body j x) (λ y s', I (j + 1) y s') s) →
  (∀ x s, I (i + Z.of_nat n) x s → Q x s) →
  wp (for_acc n i body x) Q s.
Proof.
  revert i x s. induction n as [|n IH]; intros i x s HI Hb HQ; simpl.
  - apply wp_ret, HQ. by rewrite Z.add_0_r.
  - apply wp_bind. eapply wp_mono; [apply Hb; [lia|done]|]. intros y s1 H1.
    apply IH; [done| |].
    + intros j z s2 Hj. apply Hb. lia.
    + intros z s2 H2. apply HQ. by replace (i + Z.of_nat (S n)) with (i + 1 + Z.of_nat n) by lia.
Qed.

Definition sum_step (clipval cur : Z) (acc : Z * Z * Z) : Z * Z * Z :=
  let '(tmp, prev, ret) := acc in
  let tmp := s32 (tmp + cur) in
  if clipval <? tmp then (0, cur, s16 (ret + 10))
  else (tmp, cur, s16 (ret + (if prev <? cur then 1 else 0))).
Fixpoint sum_prefix (clipval : Z) f (n : nat) : Z * Z * Z :=
  match n with O => (0, 0, 0) | S n => sum_step clipval (f (Z.of_nat n)) (sum_prefix clipval f n) end.

(** What matrix_sum makes of the [n] elements of a matrix. *)
Definition sum_value (n clipval : Z) f : Z := (sum_prefix clipval f (Z.to_nat n)).2.

Lemma matrix_sum_spec N A B C fc clipval :
  0 ≤ N → N * N < 2 ^ 32 → holds C fc (N * N) →
  wp (matrix_sum N clipval)
     (λ r s, r = sum_value (N * N) clipval fc ∧ s = MatParams N A B C) (MatParams N A B C).
Proof.
  intros HN HN2 [_ HC]. unfold matrix_sum. apply wp_bind.
  apply (wp_for_acc (λ i x s, x = sum_prefix clipval fc (Z.to_nat (i * N)) ∧ s = MatParams N A B C)).
  { done. }
  2: { rewrite Z.add_0_l, Z2Nat.id by done. intros x s [-> ->]. by apply wp_ret. }
  intros i x s Hi [-> ->]. rewrite Z2Nat.id in Hi by done.
  apply (wp_for_acc (λ j x s, x = sum_prefix clipval fc (Z.to_nat (i * N + j)) ∧ s = MatParams N A B C)).
  { by rewrite Z.add_0_r. }
  2: { rewrite Z.add_0_l, Z2Nat.id by done. intros x s [-> ->]. split; [|done].
       by replace ((i + 1) * N) with (i * N + N) by lia. }
  intros j x s Hj [-> ->]. rewrite Z2Nat.id in Hj by done.
  pose proof (ix_lt N i j ltac:(lia) ltac:(lia)). rewrite ix_small by (done || lia).
  replace (Z.to_nat (i * N + (j + 1))) with (S (Z.to_nat (i * N + j))) by lia.
  destruct (sum_prefix clipval fc (Z.to_nat (i * N + j))) as [[tmp prev] ret] eqn:E.
  apply wp_bind. eapply wp_read_cell; [by apply HC|]. apply wp_ret. split; [|done].
  cbn [sum_prefix]. rewrite E, Z2Nat.id by lia. unfold sum_step.
  by destruct (clipval <? s32 (tmp + fc (i * N + j))).
Qed.

Lemma add_const_spec N A B C fa val : 0 ≤ N → N * N < 2 ^ 32 → holds A fa (N * N) →
  wp (matrix_add_const N val) (λ _ s, ∃ A', s = MatParams N A' B C ∧
    part A' A (λ k, s16 (fa k + val)) (N * N)) (MatParams N A B C).
Proof.
  intros HN HN2 [Hl HA].
  apply (wp_for2 (λ b s, ∃ A', s = MatParams N A' B C ∧ part A' A (λ k, s16 (fa k + val)) b));
    [done| | |done].
  { exists A. split; [done|apply part_0]. }
  intros i j s Hi Hj (A' & -> & Hp). pose proof (ix_lt N i j Hi Hj). rewrite ix_small by done.
  pose proof Hp as [Hl' Hk]. apply wp_bind. eapply wp_read_cell.
  { simpl. rewrite Hk, Z.ltb_irrefl, andb_false_r. by apply HA. }
  apply wp_write_cell; [simpl; lia|]. eexists. split; [reflexivity|].
  apply (part_write _ _ (λ k, s16 (fa k + val))); [lia|done].
Qed.

Lemma s16_back x val : - 2 ^ 15 ≤ x < 2 ^ 15 → s16 (s16 (x + val) + s16 (- val)) = x.
Proof. intros Hx. rewrite wraps_add by done. replace (x + val + - val) with x by lia. by apply wraps_small. Qed.

(** Adding a constant and then its negation gives the array back. *)
Lemma part_back A A1 A2 fa n val : holds A fa n → (∀ k, - 2 ^ 15 ≤ fa k < 2 ^ 15) →
  part A1 A (λ k, s16 (fa k + val)) n →
  part A2 A1 (λ k, s16 (s16 (fa k + val) + s16 (- val))) n → A2 = A.
Proof.
  intros [Hl HA] Hr [Hl1 H1] [Hl2 H2]. destruct A2 as [l2 c2], A as [l c]. simpl in *. f_equal; [congruence|].
  apply map_eq. intros k. rewrite H2, H1. destruct (Z.leb_spec 0 k), (Z.ltb_spec k n); simpl; try done.
  rewrite s16_back by done. symmetry. by apply HA.
Qed.

(** The four results and the value of a round. *)
Definition round_value (N : Z) (fa fb : Z → Z) (val : Z) : Z :=
  let a k := s16 (fa k + val) in
  let clipval := s16 (matrix_big val) in
  let sum f := sum_value (N * N) clipval f in
  let c1 k := s32 (a k * val) in
  let c2 k := if k <? N then dot_vect N a fb k else c1 k in
  let crc := crc16 (sum c1) 0 in
  let crc := crc16 (sum c2) crc in
  let crc := crc16 (sum (product N a fb (λ x, x))) crc in
  let crc := crc16 (sum (product N a fb bits)) crc in
  s16 crc.

Lemma matrix_test_spec N A B C fa fb val :
  0 ≤ N → N * N < 2 ^ 32 → holds A fa (N * N) → holds B fb (N * N) → a_len C = N * N →
  (∀ k, - 2 ^ 15 ≤ fa k < 2 ^ 15) →
  wp (matrix_test N val) (λ r s, r = round_value N fa fb val ∧
    ∃ C', s = MatParams N A B C' ∧ a_len C' = N * N) (MatParams N A B C).
Proof.
  intros HN HN2 HA HB HC Hr. unfold matrix_test.
  apply wp_bind. eapply wp_mono; [by apply (add_const_spec N A B C fa)|]. intros ? ? (A1 & -> & Hp1).
  pose proof (part_holds A1 A _ _ (proj1 HA) Hp1) as HA1.
  apply wp_bind. eapply wp_mono; [by apply (mul_const_spec N HN HN2 A1 B _ HA1)|].
  intros ? ? (C1 & -> & Hc1). pose proof (part_holds C1 C _ _ HC Hc1) as HC1.
  apply wp_bind. eapply wp_mono; [by apply (matrix_sum_spec N A1 B C1)|]. intros ? ? [-> ->].
  apply wp_bind. eapply wp_mono; [apply (mul_vect_spec N HN HN2 A1 B _ fb HA1 HB); apply HC1|].
  intros ? ? (C2 & -> & Hc2).
  assert (holds C2 (λ k, if k <? N then dot_vect N (λ k, s16 (fa k + val)) fb k
                         else s32 (s16 (fa k + val) * val)) (N * N)) as HC2.
  { destruct HC1 as [Hl1 HC1], Hc2 as [Hl2 Hc2]. split; [congruence|]. intros k Hk. rewrite Hc2, HC1 by done.
    rewrite (proj2 (Z.leb_le 0 k)) by lia. by destruct (k <? N). }
  apply wp_bind. eapply wp_mono; [by apply (matrix_sum_spec N A1 B C2)|]. intros ? ? [-> ->].
  apply wp_bind. eapply wp_mono; [apply (mul_matrix_spec N HN HN2 A1 B _ fb HA1 HB); apply HC2|].
  intros ? ? (C3 & -> & Hc3). pose proof (part_holds C3 C2 _ _ (proj1 HC2) Hc3) as HC3.
  apply wp_bind. eapply wp_mono; [by apply (matrix_sum_spec N A1 B C3)|]. intros ? ? [-> ->].
  apply wp_bind. eapply wp_mono; [apply (mul_bitextract_spec N HN HN2 A1 B _ fb HA1 HB); apply HC3|].
  intros ? ? (C4 & -> & Hc4). pose proof (part_holds C4 C3 _ _ (proj1 HC3) Hc4) as HC4.
  apply wp_bind. eapply wp_mono; [by apply (matrix_sum_spec N A1 B C4)|]. intros ? ? [-> ->].
  apply wp_bind. eapply wp_mono; [by apply (add_const_spec N A1 B C4 (λ k, s16 (fa k + val)))|].
  intros ? ? (A2 & -> & Hp2). apply wp_ret. split; [done|]. exists C4.
  rewrite (part_back A A1 A2 fa (N * N) val) by done. split; [done|apply HC4].
Qed.
End Round.

(** C28 A round of the matrix benchmark computes what it says and gives its input back:
    core_bench_matrix leaves both input matrices as they were, in every cell, and
    answers the CRC of four sums: over the matrix times a constant, that with its first
    row replaced by the matrix times a vector, the matrix product, and the product of the
    bit fields, all with the arithmetic of the machine's signed integers. *)
Theorem core_bench_matrix_correct N A B C fa fb seed crc :
  0 ≤ N → N * N < 2 ^ 32 → holds A fa (N * N) → holds B fb (N * N) → a_len C = N * N →
  (∀ k, - 2 ^ 15 ≤ fa k < 2 ^ 15) →
  wp (core_bench_matrix seed crc) (λ r s,
    r = crc16 (round_value N fa fb (s16 seed)) crc ∧
    ∃ C', s = MatParams N A B C' ∧ a_len C' = N * N) (MatParams N A B C).
Proof.
  intros HN HN2 HA HB HC Hr. unfold core_bench_matrix. apply wp_bind, wp_gets, wp_bind.
  eapply wp_mono; [by apply matrix_test_spec|]. intros r s [-> HC']. by apply wp_ret.
Qed.

Lemma core_bench_matrix_correct_witness :
  let A := Array 4 (list_to_map (zip [0; 1; 2; 3] [1; 2; 3; 4])) in
  let B := Array 4 (list_to_map (zip [0; 1; 2; 3] [5; 6; 7; 8])) in
  let fa k := if (0 <=? k) && (k <? 4) then k + 1 else 0 in
  wp (core_bench_matrix 9 0) (λ r s,
    r = crc16 (round_value 2 fa (λ k, k + 5) (s16 9)) 0 ∧
    ∃ C', s = MatParams 2 A B C' ∧ a_len C' = 2 * 2) (MatParams 2 A B (Array 4 ∅)).
Proof.
  assert (∀ f (a : array), a_len a = 4 → a_cells a !! 0 = Some (f 0) → a_cells a !! 1 = Some (f 1) →
    a_cells a !! 2 = Some (f 2) → a_cells a !! 3 = Some (f 3) → holds a f (2 * 2)) as Hfour.
  { intros f a Hl H0 H1 H2 H3. split; [done|]. intros k Hk.
    assert (k = 0 ∨ k = 1 ∨ k = 2 ∨ k = 3) as [-> | [-> | [-> | ->]]] by lia; done. }
  intros A B fa.
  apply (core_bench_matrix_correct 2 A B (Array 4 ∅) fa (λ k, k + 5) 9 0);
    [lia|lia|by apply Hfour|by apply Hfour|done|].
  intros k. subst fa. simpl. destruct (0 <=? k) eqn:?, (k <? 4) eqn:?; simpl; lia.
Defined.
