(* ===== verification/CmList.v ===== *)
(** CoreMark's list benchmark (core_list_join.c) on a heap of list cells and data items,
    one finite map per structure field: the list operations, and core_bench_list with the
    state and matrix benchmarks its comparison calls. *)
From stdpp Require Import base list gmap fin_maps sorting.
From Stdlib Require Import ZArith Lia.
From S2P Require Import Prelude Memory CmUtil CmState CmMatrix.

#[local] Open Scope Z_scope.

(** * The heap and the results structure *)

(** list_head has the fields [next] and [info], list_data the fields [data16] and [idx];
    an address that no map has is one the benchmark never wrote.  [lo] and [hi] bound the
    block given to core_list_init. *)
Record lheap : Type := LHeap {
  h_next : gmap Z Z;
  h_info : gmap Z Z;
  h_data16 : gmap Z Z;
  h_idx : gmap Z Z;
  h_lo : Z;
  h_hi : Z;
}.

(** The fields of core_results that the benchmark reads and writes. *)
Record core_results : Type := CoreResults {
  seed1 : Z;
  seed2 : Z;
  seed3 : Z;
  memblock3 : Z;
  size : Z;
  iterations : Z;
  execs : Z;
  list_ : Z;
  crc : Z;
  crclist : Z;
  crcmatrix : Z;
  crcstate : Z;
  err : Z;
}.

(** The three blocks of the benchmark and the results. *)
Record core : Type := Core {
  heap : lheap;
  blk3 : mem;
  matrices : mat_params;
  res : core_results;
}.

Definition set_heap (h : lheap) (s : core) : core := Core h (blk3 s) (matrices s) (res s).
Definition set_blk3 (m : mem) (s : core) : core := Core (heap s) m (matrices s) (res s).
Definition set_matrices (p : mat_params) (s : core) : core := Core (heap s) (blk3 s) p (res s).
Definition set_res (r : core_results) (s : core) : core := Core (heap s) (blk3 s) (matrices s) r.

Definition set_crcs (c l m st : Z) (r : core_results) : core_results :=
  CoreResults (seed1 r) (seed2 r) (seed3 r) (memblock3 r) (size r) (iterations r) (execs r)
    (list_ r) c l m st (err r).
Definition set_crc (c : Z) (r : core_results) : core_results :=
  set_crcs c (crclist r) (crcmatrix r) (crcstate r) r.
Definition set_crclist (c : Z) (r : core_results) : core_results :=
  set_crcs (crc r) c (crcmatrix r) (crcstate r) r.
Definition set_crcmatrix (c : Z) (r : core_results) : core_results :=
  set_crcs (crc r) (crclist r) c (crcstate r) r.
Definition set_crcstate (c : Z) (r : core_results) : core_results :=
  set_crcs (crc r) (crclist r) (crcmatrix r) c r.

(** Reads and writes of one field. *)
Definition read_field (f : lheap → gmap Z Z) (a : Z) : M core Z := λ s,
  match f (heap s) !! a with
  | Some v => Ret (v, s)
  | None => Fault
  end.
Definition write_field (width : Z) (set : Z → Z → lheap → lheap) (a v : Z) : M core () := λ s,
  if (h_lo (heap s) <=? a) && (a + width <=? h_hi (heap s)) then Ret ((), set_heap (set a v (heap s)) s)
  else Fault.

Definition put_next (a v : Z) (h : lheap) : lheap :=
  LHeap (<[a := v]> (h_next h)) (h_info h) (h_data16 h) (h_idx h) (h_lo h) (h_hi h).
Definition put_info (a v : Z) (h : lheap) : lheap :=
  LHeap (h_next h) (<[a := v]> (h_info h)) (h_data16 h) (h_idx h) (h_lo h) (h_hi h).
Definition put_data16 (a v : Z) (h : lheap) : lheap :=
  LHeap (h_next h) (h_info h) (<[a := v]> (h_data16 h)) (h_idx h) (h_lo h) (h_hi h).
Definition put_idx (a v : Z) (h : lheap) : lheap :=
  LHeap (h_next h) (h_info h) (h_data16 h) (<[a := v]> (h_idx h)) (h_lo h) (h_hi h).

Definition next : Z → M core Z := read_field h_next.
Definition info : Z → M core Z := read_field h_info.
Definition data16 : Z → M core Z := read_field h_data16.
Definition idx : Z → M core Z := read_field h_idx.
Definition set_next : Z → Z → M core () := write_field 8 put_next.
Definition set_info : Z → Z → M core () := write_field 8 put_info.
Definition set_data16 : Z → Z → M core () := write_field 4 put_data16.
Definition set_idx : Z → Z → M core () := write_field 4 put_idx.
Definition results {A : Type} (f : core_results → A) : M core A := gets (λ s, f (res s)).
Definition update_results (f : core_results → core_results) : M core () :=
  modify (λ s, set_res (f (res s)) s).

(** * The comparison functions *)

(** core_bench_state on memblock[3], core_bench_matrix on res->mat. *)
Definition bench_state (step : Z) : M core Z :=
  r ← results (λ r, r);
  zoom blk3 set_blk3 (core_bench_state (size r) (memblock3 r) (seed1 r) (seed2 r) step (crc r)).
Definition bench_matrix (dtype : Z) : M core Z :=
  c ← results crc;
  zoom matrices set_matrices (core_bench_matrix dtype c).

Definition calc_func (pdata : Z) : M core Z :=
  data ← data16 pdata;
  let optype := Z.land (Z.shiftr data 7) 1 in
  if negb (optype =? 0) then mret (Z.land data 0x7f)
  else
    let flag := Z.land data 0x7 in
    let dtype := Z.land (Z.shiftr data 3) 0xf in
    let dtype := s16 (Z.lor dtype (Z.shiftl dtype 4)) in
    retval ← (if flag =? 0 then
                let dtype := if dtype <? 0x22 then 0x22 else dtype in
                r ← bench_state dtype;
                let retval := s16 r in
                cs ← results crcstate;
                when (cs =? 0) (update_results (set_crcstate (u16 retval)));;
                mret retval
              else if flag =? 1 then
                r ← bench_matrix dtype;
                let retval := s16 r in
                cm ← results crcmatrix;
                when (cm =? 0) (update_results (set_crcmatrix (u16 retval)));;
                mret retval
              else mret data);
    c ← results crc;
    update_results (set_crc (crcu16 (u16 retval) c));;
    let retval := Z.land retval 0x7f in
    set_data16 pdata (s16 (Z.lor (Z.lor (Z.land data 0xff00) 0x80) retval));;
    mret retval.

(** A comparison function; the boolean says whether its results argument is not NULL. *)
Definition list_cmp : Type := Z → Z → bool → M core Z.

Definition cmp_complex : list_cmp := λ a b has_res,
  if has_res then
    val1 ← calc_func a;
    val2 ← calc_func b;
    mret (val1 - val2)
  else fault.

Definition regenerate (a : Z) : M core () :=
  d ← data16 a;
  set_data16 a (s16 (Z.lor (Z.land d 0xff00) (Z.land 0xff (Z.shiftr d 8)))).

Definition cmp_idx : list_cmp := λ a b has_res,
  when (negb has_res) (regenerate a;; regenerate b);;
  ia ← idx a;
  ib ← idx b;
  mret (ia - ib).

(** A list_data structure in local variables. *)
Record list_data : Type := ListData {
  ld_data16 : Z;
  ld_idx : Z;
}.

Definition copy_info (to : Z) (from : list_data) : M core () :=
  set_data16 to (ld_data16 from);;
  set_idx to (ld_idx from).

(** * The list operations *)
Definition core_list_insert_new (insert_point : Z) (d : list_data)
    (memblock datablock memblock_end datablock_end : Z) : M core (Z * Z * Z) :=
  if memblock_end <=? memblock + 8 then mret (0, memblock, datablock)
  else if datablock_end <=? datablock + 4 then mret (0, memblock, datablock)
  else
    let newitem := memblock in
    let memblock := memblock + 8 in
    n ← next insert_point;
    set_next newitem n;;
    set_next insert_point newitem;;
    set_info newitem datablock;;
    let datablock := datablock + 4 in
    i ← info newitem;
    copy_info i d;;
    mret (newitem, memblock, datablock).

Definition core_list_remove (item : Z) : M core Z :=
  ret ← next item;
  tmp ← info item;
  i ← info ret;
  set_info item i;;
  set_info ret tmp;;
  n ← next item;
  n ← next n;
  set_next item n;;
  set_next ret 0;;
  mret ret.

Definition core_list_undo_remove (item_removed item_modified : Z) : M core Z :=
  tmp ← info item_removed;
  i ← info item_modified;
  set_info item_removed i;;
  set_info item_modified tmp;;
  n ← next item_modified;
  set_next item_removed n;;
  set_next item_modified item_removed;;
  mret item_removed.

(** [while (list && <the item differs>) list = list->next;] *)
Definition find_from (differs : Z → M core bool) (l : Z) : M core Z :=
  loop (λ l,
    if l =? 0 then mret (inr l)
    else i ← info l;
         b ← differs i;
         if b : bool then n ← next l; mret (inl n) else mret (inr l)) l.

Definition core_list_find (l : Z) (d : list_data) : M core Z :=
  if 0 <=? ld_idx d then
    find_from (λ i, x ← idx i; mret (negb (x =? ld_idx d))) l
  else
    find_from (λ i, x ← data16 i; mret (negb (Z.land x 0xff =? ld_data16 d))) l.

Definition core_list_reverse (l : Z) : M core Z :=
  loop (λ '(l, nxt),
    if l =? 0 then mret (inr nxt)
    else tmp ← next l;
         set_next l nxt;;
         mret (inl (tmp, l))) (l, 0).

(** [for (i = 0; i < insize; i++) { psize++; q = q->next; if (!q) break; }] *)
Definition step_along (insize q : Z) : M core (Z * Z) :=
  loop (λ '(i, psize, q),
    if i <? insize then
      let psize := s32 (psize + 1) in
      q ← next q;
      if q =? 0 then mret (inr (psize, q)) else mret (inl (s32 (i + 1), psize, q))
    else mret (inr (psize, q))) (0, 0, q).

(** Whether the next element of a merge comes from [q]. *)
Definition pick (cmp : list_cmp) (has_res : bool) (p q psize qsize : Z) : M core bool :=
  if psize =? 0 then mret true
  else if (qsize =? 0) || (q =? 0) then mret false
  else ip ← info p;
       iq ← info q;
       r ← cmp ip iq has_res;
       mret (negb (r <=? 0)).

(** The next element, and where the two runs go on. *)
Definition advance (p q psize qsize : Z) (from_q : bool) : M core (Z * Z * Z * Z * Z) :=
  if from_q then n ← next q; mret (q, p, n, psize, s32 (qsize - 1))
  else n ← next p; mret (p, n, q, s32 (psize - 1), qsize).

(** [if (tail) tail->next = e; else list = e] *)
Definition link (l tail e : Z) : M core Z :=
  if tail =? 0 then mret e else set_next tail e;; mret l.

(** The merge of the [psize] cells at [p] and the at most [qsize] cells at [q] behind
    [tail]; answers the list, its tail and the cell behind the second run. *)
Definition merge_runs (cmp : list_cmp) (has_res : bool) (l tail p q psize qsize : Z) :
    M core (Z * Z * Z) :=
  loop (λ '(l, tail, p, q, psize, qsize),
    if (0 <? psize) || ((0 <? qsize) && negb (q =? 0)) then
      from_q ← pick cmp has_res p q psize qsize;
      '(e, p, q, psize, qsize) ← advance p q psize qsize from_q;
      l ← link l tail e;
      mret (inl (l, e, p, q, psize, qsize))
    else mret (inr (l, tail, q))) (l, tail, p, q, psize, qsize).

(** One pass: merge the runs two by two. *)
Definition merge_pass (cmp : list_cmp) (has_res : bool) (insize l : Z) : M core (Z * Z * Z) :=
  loop (λ '(l, tail, p, nmerges),
    if p =? 0 then mret (inr (l, tail, nmerges))
    else
      let nmerges := s32 (nmerges + 1) in
      '(psize, q) ← step_along insize p;
      '(l, tail, q) ← merge_runs cmp has_res l tail p q psize insize;
      mret (inl (l, tail, q, nmerges))) (0, 0, l, 0).

Definition core_list_mergesort (l : Z) (cmp : list_cmp) (has_res : bool) : M core Z :=
  loop (λ '(insize, l),
    '(l, tail, nmerges) ← merge_pass cmp has_res insize l;
    set_next tail 0;;
    if nmerges <=? 1 then mret (inr l) else mret (inl (s32 (insize * 2), l))) (1, l).

(** * The benchmark *)

(** One search of the first loop: the locals are retval, found, missed, list and info.idx. *)
Definition find_one (i : Z) : Z * Z * Z * Z * Z → M core (Z * Z * Z * Z * Z) :=
  λ '(retval, found, missed, l, info_idx),
    let d := ListData (Z.land i 0xff) info_idx in
    this_find ← core_list_find l d;
    l ← core_list_reverse l;
    '(retval, found, missed) ← (if (this_find : Z) =? 0 then
        let missed := u16 (missed + 1) in
        n ← next l;
        n ← info n;
        x ← data16 n;
        mret (u16 (retval + Z.land (Z.shiftr x 8) 1), found, missed)
      else
        let found := u16 (found + 1) in
        t ← info this_find;
        x ← data16 t;
        let retval := if negb (Z.land x 1 =? 0) then u16 (retval + Z.land (Z.shiftr x 9) 1) else retval in
        finder ← next this_find;
        when (negb (finder =? 0))
          (n ← next finder;
           set_next this_find n;;
           n ← next l;
           set_next finder n;;
           set_next l finder);;
        mret (retval, found, missed));
    mret (retval, found, missed, l, if 0 <=? info_idx then s16 (info_idx + 1) else info_idx).

(** [while (finder) { retval = crc16(list->info->data16, retval); finder = finder->next; }] *)
Definition crc_cells (l finder retval : Z) : M core Z :=
  loop (λ '(finder, retval),
    if finder =? 0 then mret (inr retval)
    else i ← info l;
         x ← data16 i;
         let retval := crc16 x retval in
         finder ← next finder;
         mret (inl (finder, retval))) (finder, retval).

(** Between the sorts: take the second item out, compute the CRC from the item found on,
    and put the item back.  info.data16 is not initialised before the first search: reading
    it then is a fault. *)
Definition crc_without_second (l retval info_idx : Z) (info_data16 : option Z) : M core Z :=
  n ← next l;
  remover ← core_list_remove n;
  finder ← (match info_data16 with
            | Some x => core_list_find l (ListData x info_idx)
            | None => if 0 <=? info_idx then core_list_find l (ListData 0 info_idx) else fault
            end);
  finder ← (if (finder : Z) =? 0 then next l else mret finder);
  retval ← crc_cells l finder retval;
  n ← next l;
  core_list_undo_remove remover n;;
  mret retval.

Definition core_bench_list (finder_idx : Z) : M core Z :=
  l ← results list_;
  find_num ← results seed3;
  '(retval, found, missed, l, info_idx, info_data16) ← loop (λ '(i, d, r),
    if i <? find_num then r ← find_one i r; mret (inl (s16 (i + 1), Some (Z.land i 0xff), r))
    else mret (inr (r, d))) (0, None, (0, 0, 0, l, finder_idx));
  let retval := u16 (retval + (found * 4 - missed)) in
  l ← (if 0 <? finder_idx then core_list_mergesort l cmp_complex true else mret l);
  retval ← crc_without_second l retval info_idx info_data16;
  l ← core_list_mergesort l cmp_idx false;
  finder ← next l;
  crc_cells l finder retval.

(** The index core_list_init gives to the item after the [i]-th, and the next [i]. *)
Definition init_idx (size seed i : Z) : Z * Z :=
  if i <? size / 5 then (s16 i, u32 (i + 1))
  else
    let pat := u16 (Z.lxor i (u32 seed)) in
    let i := u32 (i + 1) in
    (s16 (Z.land 0x3fff (Z.lor (Z.shiftl (Z.land i 0x07) 8) pat)), i).

Definition core_list_init (blksize memblock seed : Z) : M core Z :=
  let per_item := 16 + 4 in
  let size := u32 (blksize / per_item - 2) in
  let memblock_end := memblock + 8 * size in
  let datablock := memblock_end in
  let datablock_end := datablock + 4 * size in
  let l := memblock in
  set_next l 0;;
  set_info l datablock;;
  i ← info l;
  set_idx i 0;;
  set_data16 i (s16 0x8080);;
  '(_, memblock, datablock) ← core_list_insert_new l (ListData (s16 0xffff) 0x7fff)
    (memblock + 8) (datablock + 4) memblock_end datablock_end;
  loop (λ '(i, memblock, datablock),
    if i <? size then
      let datpat := Z.land (u16 (Z.lxor (u32 seed) i)) 0xf in
      let dat := u16 (Z.lor (Z.shiftl datpat 3) (Z.land i 0x7)) in
      '(_, memblock, datablock) ← core_list_insert_new l
        (ListData (s16 (Z.lor (Z.shiftl dat 8) dat)) 0x7fff)
        memblock datablock memblock_end datablock_end;
      mret (inl (u32 (i + 1), memblock, datablock))
    else mret (inr ())) (0, memblock, datablock);;
  finder ← next l;
  loop (λ '(finder, i),
    n ← next finder;
    if (n : Z) =? 0 then mret (inr ())
    else
      let '(x, i) := init_idx size seed i in
      d ← info finder;
      set_idx d x;;
      mret (inl (n, i))) (finder, 1);;
  core_list_mergesort l cmp_idx false.

(** * Reasoning about the heap *)
Section Fields.
Implicit Types (s : core) (a v : Z).

Lemma wp_read_field f a v (Q : Z → core → Prop) s :
  f (heap s) !! a = Some v → Q v s → wp (read_field f a) Q s.
Proof. intros Hv HQ. unfold wp, read_field. by rewrite Hv. Qed.

Lemma wp_write_field w set a v (Q : () → core → Prop) s :
  h_lo (heap s) ≤ a → a + w ≤ h_hi (heap s) → Q () (set_heap (set a v (heap s)) s) →
  wp (write_field w set a v) Q s.
Proof.
  intros H1 H2 HQ. unfold wp, write_field. by rewrite (proj2 (Z.leb_le _ _) H1), (proj2 (Z.leb_le _ _) H2).
Qed.
End Fields.

(** ** Paths

    [path nx p l q]: following the next fields from [p] visits the cells [l] and then
    reaches [q]. *)
Fixpoint path (nx : gmap Z Z) (p : Z) (l : list Z) (q : Z) : Prop :=
  match l with
  | [] => p = q
  | x :: l => p = x ∧ x ≠ 0 ∧ ∃ n, nx !! x = Some n ∧ path nx n l q
  end.

Section Paths.
Implicit Types (nx : gmap Z Z) (p q x v : Z) (l : list Z).

Lemma path_app nx p l1 l2 q : path nx p (l1 ++ l2) q ↔ ∃ m, path nx p l1 m ∧ path nx m l2 q.
Proof.
  revert p. induction l1 as [|x l1 IH]; intros p; simpl; [naive_solver|].
  setoid_rewrite IH. naive_solver.
Qed.

Lemma path_frame nx x v p l q : x ∉ l → path (<[x := v]> nx) p l q ↔ path nx p l q.
Proof.
  revert p. induction l as [|y l IH]; intros p; simpl; [done|]. rewrite not_elem_of_cons. intros [Hx Hl].
  rewrite lookup_insert_ne by done. by setoid_rewrite (IH _ Hl).
Qed.

Lemma path_ext nx nx' p l q : (∀ x, x ∈ l → nx' !! x = nx !! x) → path nx p l q → path nx' p l q.
Proof.
  revert p. induction l as [|x l IH]; intros p He; simpl; [done|]. intros (-> & Hx & n & Hn & Hp).
  split_and!; [done..|]. exists n. rewrite He by (by left). split; [done|].
  apply IH; [|done]. intros y Hy. apply He. by right.
Qed.

(** The last cell of a path may be linked to anything. *)
Lemma path_relink nx p l t q v : NoDup (l ++ [t]) → path nx p (l ++ [t]) q → path (<[t := v]> nx) p (l ++ [t]) v.
Proof.
  intros (_ & Hd & _)%NoDup_app. rewrite !path_app. intros (m & Hm & -> & Ht & _).
  exists t. split; [apply path_frame; [|done]|].
  - intros Hin. eapply Hd; [exact Hin|by left].
  - split_and!; [done..|]. exists v. by rewrite lookup_insert_eq.
Qed.

Lemma path_nil_inv nx p l : path nx p l 0 → p = 0 → l = [].
Proof. destruct l as [|x l]; [done|]. intros (-> & ? & _) ->. done. Qed.

Lemma path_cons_inv nx p l : path nx p l 0 → p ≠ 0 → ∃ l', l = p :: l' ∧ ∃ n, nx !! p = Some n ∧ path nx n l' 0.
Proof.
  destruct l as [|x l]; simpl; [done|]. intros (-> & ? & n & ? & ?) _. exists l. split; [done|]. by exists n.
Qed.

(** A sequence of cells between two cells determines the next fields of its cells. *)
Lemma path_det nx nx' p l q x : path nx p l q → path nx' p l q → x ∈ l → nx !! x = nx' !! x.
Proof.
  revert p. induction l as [|y l IH]; intros p; simpl; [by intros ?? ?%elem_of_nil|].
  intros (-> & Hy & n & Hn & Hp) (_ & _ & n' & Hn' & Hp') Hx. apply elem_of_cons in Hx as [->|Hx].
  - rewrite Hn, Hn'. f_equal. destruct l as [|z l]; simpl in *; [congruence|].
    destruct Hp as [-> _], Hp' as [-> _]. done.
  - eapply IH; [exact Hp| |exact Hx].
    destruct l as [|z l]; simpl in *; [by apply elem_of_nil in Hx|]. destruct Hp as [-> _], Hp' as [-> Hp'']. done.
Qed.
End Paths.

(** * The list operations on paths *)
Section Ops.
Implicit Types (s : core) (l x : Z) (ls : list Z).

Definition nexts s : gmap Z Z := h_next (heap s).
Definition with_next (nx : gmap Z Z) s : core :=
  set_heap (LHeap nx (h_info (heap s)) (h_data16 (heap s)) (h_idx (heap s)) (h_lo (heap s)) (h_hi (heap s))) s.

Definition in_heap s x : Prop := h_lo (heap s) ≤ x ∧ x + 8 ≤ h_hi (heap s).
Definition readable s x : Prop := ∃ i d v,
  h_info (heap s) !! x = Some i ∧ h_data16 (heap s) !! i = Some d ∧ h_idx (heap s) !! i = Some v.

Lemma wp_set_next s x v (Q : () → core → Prop) : in_heap s x →
  Q () (with_next (<[x := v]> (nexts s)) s) → wp (set_next x v) Q s.
Proof. intros [? ?] HQ. by apply wp_write_field. Qed.

Lemma with_next_id s : with_next (nexts s) s = s.
Proof. by destruct s as [[] ? ? ?]. Qed.

(** core_list_reverse *)
Lemma reverse_spec s l ls : path (nexts s) l ls 0 → NoDup ls → (∀ x, x ∈ ls → in_heap s x) → ZL ls < 2 ^ 30 →
  wp (core_list_reverse l) (λ l' s', ∃ nx, s' = with_next nx s ∧ path nx l' (reverse ls) 0 ∧
    ∀ x, x ∉ ls → nx !! x = nexts s !! x) s.
Proof.
  intros Hp Hnd Hin Hlen.
  apply (wp_loop_ix (λ n '(l1, nxt) s', ∃ a b nx, n = ZL b ∧ ls = reverse a ++ b ∧ s' = with_next nx s ∧
    path nx nxt a 0 ∧ path nx l1 b 0 ∧ ∀ x, x ∉ ls → nx !! x = nexts s !! x) _ _ (ZL ls)).
  { exists [], ls, (nexts s). rewrite with_next_id. by split_and!. }
  { lia. }
  intros n [l1 nxt] s1 (a & b & nx & -> & Hls & -> & Ha & Hb & Hf). split; [lia|].
  destruct (Z.eqb_spec l1 0) as [->|Hl1].
  - apply wp_ret. pose proof (path_nil_inv _ _ _ Hb eq_refl) as ->. exists nx.
    rewrite app_nil_r in Hls. rewrite Hls, reverse_involutive. rewrite Hls in Hf. done.
  - destruct (path_cons_inv _ _ _ Hb Hl1) as (b' & -> & m & Hm & Hb'). clear Hb.
    assert (l1 ∈ ls) as Hl1in by (rewrite Hls; apply elem_of_app; right; by left).
    assert ((l1 ∉ a) ∧ (l1 ∉ b')) as [Hna Hnb].
    { rewrite Hls in Hnd. apply NoDup_app in Hnd as (_ & Hd & [Hnb _]%NoDup_cons). split; [|done].
      intros Hi. eapply Hd; [by apply elem_of_reverse|by left]. }
    apply wp_bind, wp_read_field with m; [done|].
    apply wp_bind, wp_set_next; [by apply (Hin l1)|]. apply wp_ret. exists (ZL b').
    split; [rewrite length_cons; lia|]. exists (l1 :: a), b', (<[l1 := nxt]> nx).
    rewrite reverse_cons, <- app_assoc. split; [done|]. split; [done|]. split; [done|]. split; [|split].
    + split_and!; [done..|]. exists nxt. rewrite lookup_insert_eq. split; [done|by apply path_frame].
    + by apply path_frame.
    + intros x Hx. rewrite lookup_insert_ne by (by intros ->). by apply Hf.
Qed.

(** The item of the cell [x] is the one [d] asks for. *)
Definition item_matches s (d : list_data) x : Prop := ∃ i, h_info (heap s) !! x = Some i ∧
  if 0 <=? ld_idx d then h_idx (heap s) !! i = Some (ld_idx d)
  else ∃ v, h_data16 (heap s) !! i = Some v ∧ Z.land v 0xff = ld_data16 d.

Lemma find_from_spec s l ls differs (P : Z → Prop) :
  path (nexts s) l ls 0 → ZL ls < 2 ^ 30 →
  (∀ x, x ∈ ls → ∃ i, h_info (heap s) !! x = Some i ∧ wp (differs i) (λ b s', s' = s ∧ (b = false ↔ P x)) s) →
  wp (find_from differs l) (λ r s', s' = s ∧ ∃ pre suf, ls = pre ++ suf ∧ path (nexts s) r suf 0 ∧
    (∀ x, x ∈ pre → ¬ P x) ∧ (r ≠ 0 → P r)) s.
Proof.
  intros Hp Hlen Hd.
  apply (wp_loop_ix (λ n r s', s' = s ∧ ∃ pre suf, n = ZL suf ∧ ls = pre ++ suf ∧ path (nexts s) r suf 0 ∧
    ∀ x, x ∈ pre → ¬ P x) _ _ (ZL ls)).
  { split; [done|]. exists [], ls. split_and!; [done..|]. by intros ? ?%elem_of_nil. }
  { lia. }
  intros n r s' (-> & pre & suf & -> & Hls & Hsuf & Hpre). split; [lia|].
  destruct (Z.eqb_spec r 0) as [->|Hr0]; [apply wp_ret; split; [done|]; by exists pre, suf|].
  destruct (path_cons_inv _ _ _ Hsuf Hr0) as (suf' & -> & m & Hm & Hsuf').
  destruct (Hd r) as (i & Hi & Hb); [rewrite Hls; apply elem_of_app; right; by left|].
  apply wp_bind, wp_read_field with i; [done|]. apply wp_bind. eapply wp_mono; [exact Hb|].
  intros [] s1 [-> Hiff].
  - apply wp_bind, wp_read_field with m; [done|]. apply wp_ret. exists (ZL suf'). rewrite length_cons.
    split; [lia|]. split; [done|]. exists (pre ++ [r]), suf'. rewrite <- app_assoc. split_and!; [done|done|done|].
    intros x [Hx| ->%list_elem_of_singleton]%elem_of_app; [by apply Hpre|]. intros HP. by apply Hiff in HP.
  - apply wp_ret. split; [done|]. exists pre, (r :: suf'). split_and!; [done|done|done|]. intros _. by apply Hiff.
Qed.

(** core_list_find answers the first cell that matches, or NULL. *)
Lemma find_spec s l ls d : path (nexts s) l ls 0 → (∀ x, x ∈ ls → readable s x) → ZL ls < 2 ^ 30 →
  wp (core_list_find l d) (λ r s', s' = s ∧ ∃ pre suf, ls = pre ++ suf ∧ path (nexts s) r suf 0 ∧
    (∀ x, x ∈ pre → ¬ item_matches s d x) ∧ (r ≠ 0 → item_matches s d r)) s.
Proof.
  intros Hp Hr Hlen. unfold core_list_find, item_matches.
  destruct (0 <=? ld_idx d); apply find_from_spec; try done; intros x Hx;
    destruct (Hr x Hx) as (i & dd & v & Hi & Hdd & Hv); exists i; (split; [done|]).
  - apply wp_bind, wp_read_field with v; [done|]. apply wp_ret. split; [done|].
    rewrite negb_false_iff, Z.eqb_eq. split; [intros ->; by exists i|]. intros (j & Hj & E). congruence.
  - apply wp_bind, wp_read_field with dd; [done|]. apply wp_ret. split; [done|].
    rewrite negb_false_iff, Z.eqb_eq. split; [intros <-; exists i; split; [done|]; by exists dd|].
    intros (j & Hj & w & Hw & <-). congruence.
Qed.

(** core_list_remove takes the item of [b] and the cell [c] behind it out of the list. *)
Definition removed (b c n ib ic : Z) s : core :=
  set_heap (LHeap (<[c := 0]> (<[b := n]> (nexts s))) (<[c := ib]> (<[b := ic]> (h_info (heap s))))
    (h_data16 (heap s)) (h_idx (heap s)) (h_lo (heap s)) (h_hi (heap s))) s.

Lemma remove_spec s b c n ib ic (Q : Z → core → Prop) :
  nexts s !! b = Some c → nexts s !! c = Some n → h_info (heap s) !! b = Some ib →
  h_info (heap s) !! c = Some ic → in_heap s b → in_heap s c → Q c (removed b c n ib ic s) →
  wp (core_list_remove b) Q s.
Proof.
  intros Hb Hc Hib Hic [? ?] [? ?] HQ. unfold core_list_remove.
  apply wp_bind, wp_read_field with c; [done|]. apply wp_bind, wp_read_field with ib; [done|].
  apply wp_bind, wp_read_field with ic; [done|]. apply wp_bind, wp_write_field; [done|done|].
  apply wp_bind, wp_write_field; [done|done|]. apply wp_bind, wp_read_field with c; [done|].
  apply wp_bind, wp_read_field with n; [done|]. apply wp_bind, wp_write_field; [done|done|].
  apply wp_bind, wp_write_field; [done|done|]. by apply wp_ret.
Qed.

Lemma undo_remove_spec s b c n ib ic (Q : Z → core → Prop) : b ≠ c →
  nexts s !! b = Some c → nexts s !! c = Some n → h_info (heap s) !! b = Some ib →
  h_info (heap s) !! c = Some ic → in_heap s b → in_heap s c → Q c s →
  wp (core_list_undo_remove c b) Q (removed b c n ib ic s).
Proof.
  intros Hne Hb Hc Hib Hic [? ?] [? ?] HQ. unfold core_list_undo_remove.
  apply wp_bind, wp_read_field with ib; [apply lookup_insert_eq|].
  apply wp_bind, wp_read_field with ic; [simpl; by rewrite lookup_insert_ne, lookup_insert_eq|].
  apply wp_bind, wp_write_field; [done|done|]. apply wp_bind, wp_write_field; [done|done|].
  apply wp_bind, wp_read_field with n; [simpl; by rewrite lookup_insert_ne, lookup_insert_eq|].
  apply wp_bind, wp_write_field; [done|done|]. apply wp_bind, wp_write_field; [done|done|]. apply wp_ret.
  replace (set_heap _ _) with s; [done|]. destruct s as [[nx inf d i lo hi] m p r]. unfold removed, set_heap. simpl in *.
  f_equal. unfold put_next, put_info. simpl. f_equal; symmetry.
  - rewrite insert_insert_eq, (insert_insert_ne _ b c), insert_insert_eq by done.
    rewrite (insert_id nx b c) by done. by apply insert_id.
  - rewrite insert_insert_eq, (insert_insert_ne _ b c), insert_insert_eq by done.
    rewrite (insert_id inf b ib) by done. by apply insert_id.
Qed.
End Ops.
