(* ===== verification/CmSort.v ===== *)
(** core_list_mergesort: the bottom-up merge sort in place returns the cells of the list in
    a stable order by the values its comparison function finds in them. *)
From stdpp Require Import base list gmap fin_maps sorting.
From Stdlib Require Import ZArith Lia.
From S2P Require Import Prelude Memory CmUtil CmState CmMatrix CmList.

#[local] Open Scope Z_scope.

(** * Runs of a list *)
Section Runs.
Context {A : Type} (R : A → A → Prop) (pos : A → nat).
Implicit Types (l r : list A) (k : nat).

(** [l] is a sequence of ordered runs of [k] elements, the last one possibly shorter, that
    keep the places [pos] of elements of different runs in order. *)
Inductive runs k : list A → Prop :=
  | runs_nil : runs k []
  | runs_cons r l :
      r ≠ [] → (length r ≤ k)%nat → (l ≠ [] → length r = k) → StronglySorted R r →
      (∀ x y, x ∈ r → y ∈ l → (pos x < pos y)%nat) → runs k l → runs k (r ++ l).

Lemma runs_snoc k c l r :
  runs k l → length l = (c * k)%nat → (0 < k)%nat → r ≠ [] → (length r ≤ k)%nat → StronglySorted R r →
  (∀ x y, x ∈ l → y ∈ r → (pos x < pos y)%nat) → runs k (l ++ r).
Proof.
  intros Hl. revert c. induction Hl as [|b l Hb Hbk Hfull Hs Hpos Hl IH]; intros c Hlen Hk Hr Hrk Hsr Hp.
  - simpl. rewrite <- (app_nil_r r). constructor; try done; [|constructor]. by intros ?? ? ?%elem_of_nil.
  - rewrite length_app in Hlen. rewrite <- app_assoc. constructor; try done.
    + intros _. destruct l as [|y l]; [|by apply Hfull]. simpl in Hlen.
      destruct c as [|c]; [|simpl in Hlen; nia]. destruct b; [done|]. simpl in Hlen. lia.
    + intros x y Hx [Hy|Hy]%elem_of_app; [by apply Hpos|]. apply Hp; [|done]. apply elem_of_app. by left.
    + apply (IH (Nat.pred c)); try done.
      * destruct l as [|y l].
        { simpl in *. destruct c as [|[|c]]; simpl; [done|done|nia]. }
        rewrite Hfull in Hlen by done. destruct c; simpl in *; lia.
      * intros x y Hx. apply Hp. apply elem_of_app. by right.
Qed.

(** The first run, and what is left. *)
Lemma runs_take k l : (0 < k)%nat → runs k l →
  StronglySorted R (take k l) ∧ runs k (drop k l) ∧
  (∀ x y, x ∈ take k l → y ∈ drop k l → (pos x < pos y)%nat).
Proof.
  intros Hk Hl. destruct Hl as [|r l Hr Hrk Hfull Hs Hpos Hl].
  - rewrite take_nil, drop_nil. split_and!; [constructor|constructor|]. by intros ?? ?%elem_of_nil.
  - destruct l as [|y l].
    + rewrite app_nil_r, take_ge, drop_ge by done. split_and!; [done|constructor|].
      by intros ?? _ ?%elem_of_nil.
    + rewrite take_app_length', drop_app_length' by (by rewrite Hfull). done.
Qed.

Lemma runs_single k l : (length l ≤ k)%nat → (0 < k)%nat → runs k l → StronglySorted R l.
Proof. intros Hl Hk Hr. destruct (runs_take k l Hk Hr) as [H _]. by rewrite take_ge in H. Qed.

Lemma runs_one l : (∀ i j x y, l !! i = Some x → l !! j = Some y → (i < j)%nat → (pos x < pos y)%nat) → runs 1 l.
Proof.
  induction l as [|x l IH]; intros Hp; [constructor|]. change (x :: l) with ([x] ++ l).
  constructor; try done; [repeat constructor| |].
  - intros a y ->%list_elem_of_singleton (i & Hi)%list_elem_of_lookup. eapply (Hp 0%nat (S i)); [done|done|lia].
  - apply IH. intros i j a b Hi Hj Hij. apply (Hp (S i) (S j)); [done|done|lia].
Qed.
End Runs.

Lemma runs_impl {A} (R R' : A → A → Prop) pos k l :
  (∀ x y, R x y → R' x y) → runs R pos k l → runs R' pos k l.
Proof.
  intros HR Hl. induction Hl as [|r l Hr Hrk Hfull Hs Hpos Hl IH]; [constructor|]. constructor; try done.
  clear -HR Hs. induction Hs as [|x r Hs IH Hx]; constructor; [done|]. eapply Forall_impl; [exact Hx|]. auto.
Qed.

Lemma SSorted_impl {A} (R R' : A → A → Prop) l :
  (∀ x y, R x y → R' x y) → StronglySorted R l → StronglySorted R' l.
Proof.
  intros HR Hs. induction Hs as [|x r Hs IH Hx]; constructor; [done|]. eapply Forall_impl; [exact Hx|]. auto.
Qed.

(** Placing [x] before what is left of the other run. *)
Lemma SSorted_pick {A} (R : A → A → Prop) c x l y l' :
  Transitive R → StronglySorted R (c ++ x :: l) → StronglySorted R (c ++ y :: l') → R x y →
  StronglySorted R ((c ++ [x]) ++ y :: l').
Proof.
  intros HR (Hcx & Hc & Hxl)%StronglySorted_app (Hcy & _ & Hyl)%StronglySorted_app Hxy.
  apply StronglySorted_inv in Hyl as [Hl' Hy]. rewrite <- app_assoc. simpl.
  apply StronglySorted_app_2; [|done|].
  - intros a b Ha [->|Hb]%elem_of_cons; [apply Hcx; [done|by left]|by apply Hcy].
  - constructor; [by constructor|]. constructor; [done|]. eapply Forall_impl; [exact Hy|].
    intros b Hb. by trans y.
Qed.

(** * The sort *)
Section Sort.
(** The comparison [cmp] looks at the cells [L], whose info fields are [inf]; under the
    invariant [J] it finds in the cells the values [val], which it may have to compute and
    which never change once they are there.  [pos] is the place of a cell in the list. *)
Context (cmp : list_cmp) (has_res : bool) (J : core → Prop) (val : core → Z → option Z) (pos : Z → nat).
Context (inf : gmap Z Z) (lo hi : Z) (L : list Z).

Definition next_of (s : core) : gmap Z Z := h_next (heap s).
Definition grows (s s' : core) : Prop := ∀ x v, val s x = Some v → val s' x = Some v.

Context (J_heap : ∀ s, J s → h_info (heap s) = inf ∧ h_lo (heap s) = lo ∧ h_hi (heap s) = hi).
Context (J_next : ∀ s x v, J s → J (set_heap (put_next x v (heap s)) s)).
Context (val_next : ∀ s x v y, val (set_heap (put_next x v (heap s)) s) y = val s y).
Context (L_cells : ∀ x, x ∈ L → lo ≤ x ∧ x + 8 ≤ hi ∧ is_Some (inf !! x)).
Context (cmp_spec : ∀ s x y ix iy, J s → x ∈ L → y ∈ L → inf !! x = Some ix → inf !! y = Some iy →
  wp (cmp ix iy has_res) (λ r s', J s' ∧ next_of s' = next_of s ∧ grows s s' ∧
    ∃ vx vy, val s' x = Some vx ∧ val s' y = Some vy ∧ (r ≤ 0 ↔ vx ≤ vy)) s).

(** The order the sort establishes: by value, then by place. *)
Definition rel (s : core) (x y : Z) : Prop :=
  ∃ vx vy, val s x = Some vx ∧ val s y = Some vy ∧ (vx < vy ∨ vx = vy ∧ (pos x < pos y)%nat).
Definition ordered (s : core) : list Z → Prop := StronglySorted (rel s).

#[local] Instance rel_trans s : Transitive (rel s).
Proof.
  intros x y z (vx & vy & Hx & Hy & H1) (vy' & vz & Hy' & Hz & H2). exists vx, vz.
  simplify_eq. split; [done|]. split; [done|]. lia.
Qed.

Lemma rel_grows s s' x y : grows s s' → rel s x y → rel s' x y.
Proof. intros Hg (vx & vy & Hx & Hy & H). exists vx, vy. split_and!; auto. Qed.

Lemma ordered_grows s s' l : grows s s' → ordered s l → ordered s' l.
Proof. intros Hg. apply SSorted_impl. intros x y. by apply rel_grows. Qed.

Lemma grows_refl s : grows s s.
Proof. by intros ???. Qed.

Lemma grows_trans s1 s2 s3 : grows s1 s2 → grows s2 s3 → grows s1 s3.
Proof. intros H1 H2 x v Hv. by apply H2, H1. Qed.

Lemma grows_next s x v : grows s (set_heap (put_next x v (heap s)) s).
Proof. intros y w Hv. by rewrite val_next. Qed.

(** The output so far: the cells [ls] from [l] on; what its last cell is linked to does
    not matter. *)
Definition tailed (nx : gmap Z Z) (l : Z) (ls : list Z) (tail : Z) : Prop :=
  (ls = [] ∧ tail = 0) ∨ (∃ ls' q, ls = ls' ++ [tail] ∧ path nx l ls q ∧ tail ≠ 0).

(** ** One comparison *)
Lemma pick_spec s lc lp lqr p q psize qsize m m' :
  J s → (∀ x, x ∈ lp ++ lqr → x ∈ L) → path (next_of s) p lp m → path (next_of s) q lqr m' →
  psize = ZL lp → lp ≠ [] ∨ lqr ≠ [] → ((qsize =? 0) || (q =? 0) = true ↔ lqr = []) →
  ordered s (lc ++ lp) → ordered s (lc ++ lqr) →
  (∀ x y, x ∈ lp → y ∈ lqr → (pos x < pos y)%nat) →
  wp (pick cmp has_res p q psize qsize) (λ b s', J s' ∧ next_of s' = next_of s ∧ grows s s' ∧
    if b : bool then ∃ y l', lqr = y :: l' ∧ ordered s' ((lc ++ [y]) ++ lp) ∧ ordered s' ((lc ++ [y]) ++ l')
    else ∃ x l', lp = x :: l' ∧ ordered s' ((lc ++ [x]) ++ l') ∧ ordered s' ((lc ++ [x]) ++ lqr)) s.
Proof.
  intros HJ HL Hp Hq -> Hne Hqe Hop Hoq Hpos. unfold pick.
  destruct lp as [|x lp]; [|rewrite (proj2 (Z.eqb_neq _ 0)) by (simpl; lia)].
  { destruct lqr as [|y lqr]; [naive_solver|]. apply wp_ret. split_and!; [done|done|apply grows_refl|].
    exists y, lqr. split; [done|]. rewrite app_nil_r, <- app_assoc. split; [|done].
    apply StronglySorted_app_1_l with lqr. by rewrite <- app_assoc. }
  destruct ((qsize =? 0) || (q =? 0)) eqn:Eq.
  { pose proof (proj1 Hqe eq_refl) as ->. apply wp_ret. split_and!; [done|done|apply grows_refl|].
    exists x, lp. split; [done|]. rewrite app_nil_r, <- app_assoc. split; [done|].
    apply StronglySorted_app_1_l with lp. by rewrite <- app_assoc. }
  destruct lqr as [|y lqr]; [by pose proof (proj2 Hqe eq_refl)|]. destruct Hp as (-> & _), Hq as (-> & _).
  destruct (J_heap s HJ) as (Hinf & _). assert (x ∈ L ∧ y ∈ L) as [Hx Hy].
  { split; apply HL; apply elem_of_app; [left|right]; by left. }
  destruct (L_cells x Hx) as (_ & _ & ix & Hix), (L_cells y Hy) as (_ & _ & iy & Hiy).
  apply wp_bind, wp_read_field with ix; [by rewrite Hinf|].
  apply wp_bind, wp_read_field with iy; [by rewrite Hinf|]. apply wp_bind.
  eapply wp_mono; [by apply (cmp_spec s x y)|]. intros r s' (HJ' & Hn & Hg & vx & vy & Hvx & Hvy & Hr).
  pose proof (ordered_grows _ _ _ Hg Hop) as Hop'. pose proof (ordered_grows _ _ _ Hg Hoq) as Hoq'.
  apply wp_ret. split_and!; [done..|]. destruct (Z.leb_spec r 0) as [Hle|Hgt]; simpl.
  - exists x, lp. split; [done|]. rewrite <- !app_assoc. split; [done|]. rewrite app_assoc.
    eapply SSorted_pick; [apply _|exact Hop'|exact Hoq'|]. exists vx, vy. split_and!; [done..|].
    apply Hr in Hle. specialize (Hpos x y ltac:(by left) ltac:(by left)). lia.
  - exists y, lqr. split; [done|]. rewrite <- !app_assoc. split; [|done]. rewrite app_assoc.
    eapply SSorted_pick; [apply _|exact Hoq'|exact Hop'|]. exists vy, vx. split_and!; [done..|]. left. lia.
Qed.

(** ** One round of a merge *)
Context (L_nodup : NoDup L) (L_short : ZL L < 2 ^ 30).

(** What is left to merge: [lp] at [p] and the first [qsize] cells of [lq] at [q]. *)
Record left_over (s : core) (lc lp lq : list Z) (p q psize qsize : Z) : Prop := LeftOver {
  lo_inv : J s;
  lo_p : ∃ m, path (next_of s) p lp m;
  lo_q : path (next_of s) q lq 0;
  lo_psize : psize = ZL lp;
  lo_short : ZL lp < 2 ^ 30;
  lo_qsize : 0 ≤ qsize < 2 ^ 31;
  lo_in : ∀ x, x ∈ lp ++ lq → x ∈ L;
  lo_p_ordered : ordered s (lc ++ lp);
  lo_q_ordered : ordered s (lc ++ take (Z.to_nat qsize) lq);
  lo_pos : ∀ x y, x ∈ lp → y ∈ take (Z.to_nat qsize) lq → (pos x < pos y)%nat;
}.

Lemma take_Z_cons {A} n (x : A) l : 0 < n → take (Z.to_nat n) (x :: l) = x :: take (Z.to_nat (n - 1)) l.
Proof. intros. by replace (Z.to_nat n) with (S (Z.to_nat (n - 1))) by lia. Qed.

Lemma drop_Z_cons {A} n (x : A) l : 0 < n → drop (Z.to_nat n) (x :: l) = drop (Z.to_nat (n - 1)) l.
Proof. intros. by replace (Z.to_nat n) with (S (Z.to_nat (n - 1))) by lia. Qed.

Lemma path_take nx p l q n : path nx p l q → ∃ m, path nx p (take n l) m.
Proof. rewrite <- (take_drop n l) at 1. rewrite path_app. naive_solver. Qed.

Lemma qrun_nil nx q lq qsize : path nx q lq 0 → 0 ≤ qsize →
  (qsize =? 0) || (q =? 0) = true ↔ take (Z.to_nat qsize) lq = [].
Proof.
  intros Hq Hs. rewrite orb_true_iff, !Z.eqb_eq. destruct lq as [|y lq].
  - rewrite take_nil. simpl in Hq. naive_solver.
  - destruct Hq as (-> & Hy & _). destruct (Z.eq_dec qsize 0) as [->|]; [naive_solver|].
    rewrite take_Z_cons by lia. naive_solver.
Qed.

Lemma advance_spec s lc lp lq p q psize qsize :
  left_over s lc lp lq p q psize qsize → lp ≠ [] ∨ take (Z.to_nat qsize) lq ≠ [] →
  wp (b ← pick cmp has_res p q psize qsize; advance p q psize qsize b)
    (λ '(e, p', q', psize', qsize') s', next_of s' = next_of s ∧ grows s s' ∧ e ≠ 0 ∧
       is_Some (next_of s !! e) ∧ psize' + qsize' = psize + qsize - 1 ∧
       ∃ lp' lq', left_over s' (lc ++ [e]) lp' lq' p' q' psize' qsize' ∧
         lp ++ lq ≡ₚ e :: lp' ++ lq' ∧
         lp ++ take (Z.to_nat qsize) lq ≡ₚ e :: lp' ++ take (Z.to_nat qsize') lq' ∧
         drop (Z.to_nat qsize') lq' = drop (Z.to_nat qsize) lq) s.
Proof.
  intros [HJ [m Hp] Hq Hps Hshort Hqs HL Hop Hoq Hpos] Hne. apply wp_bind.
  destruct (path_take _ _ _ _ (Z.to_nat qsize) Hq) as [m' Hq'].
  eapply wp_mono.
  { apply (pick_spec s lc lp (take (Z.to_nat qsize) lq) p q psize qsize m m'); try done.
    - intros x [Hx|Hx]%elem_of_app; apply HL, elem_of_app; [by left|right].
      rewrite <- (take_drop (Z.to_nat qsize) lq). apply elem_of_app. by left.
    - eapply qrun_nil; [done|lia]. }
  intros [] s' (HJ' & Hn & Hg & Hb).
  - destruct Hb as (y & l' & Hl & Ho1 & Ho2). destruct lq as [|z lq]; [by rewrite take_nil in Hl|].
    destruct (Z.eq_dec qsize 0) as [->|]; [done|]. rewrite take_Z_cons in Hl, Hpos by lia. simplify_eq.
    destruct Hq as (-> & Hy & nn & Hny & Hq). unfold advance.
    apply wp_bind, wp_read_field with nn; [by change (h_next (heap s')) with (next_of s'); rewrite Hn|].
    apply wp_ret. rewrite (wraps_small 32) by lia. split_and!; [done|done|done|by eexists|lia|].
    exists lp, lq. rewrite take_Z_cons, drop_Z_cons by lia. split_and!; [|by rewrite Permutation_middle..|done].
    constructor; rewrite ?Hn; try done; [by eexists|lia| |].
    + intros x [Hx|Hx]%elem_of_app; apply HL, elem_of_app; [by left|right; by right].
    + intros x z Hx Hz. apply Hpos; [done|by right].
  - destruct Hb as (x & l' & -> & Ho1 & Ho2). destruct Hp as (-> & Hx & nn & Hnx & Hp). unfold advance.
    apply wp_bind, wp_read_field with nn; [by change (h_next (heap s')) with (next_of s'); rewrite Hn|].
    apply wp_ret. rewrite (wraps_small 32) by (simpl in *; lia).
    split_and!; [done|done|done|by eexists|lia|].
    exists l', lq. split_and!; [|done..]. constructor; rewrite ?Hn; try done; [by eexists|rewrite length_cons in Hps; lia|rewrite length_cons in Hshort; lia| |].
    + intros y Hy. apply HL. by right.
    + intros y z Hy Hz. apply Hpos; [by right|done].
Qed.

(** The part of the state the sort may change. *)
Definition sort_frame (s s' : core) : Prop :=
  J s' ∧ grows s s' ∧ ∀ x, x ∉ L → next_of s' !! x = next_of s !! x.

Lemma sort_frame_trans s1 s2 s3 : sort_frame s1 s2 → sort_frame s2 s3 → sort_frame s1 s3.
Proof.
  intros (_ & Hg1 & Hf1) (HJ & Hg2 & Hf2). split_and!; [done|by eapply grows_trans|].
  intros x Hx. by rewrite Hf2, Hf1.
Qed.

Lemma sort_frame_refl s : J s → sort_frame s s.
Proof. intros HJ. split; [done|]. split; [apply grows_refl|done]. Qed.

Lemma wp_set_next_cell s x v (Q : () → core → Prop) : J s → x ∈ L →
  (∀ s', next_of s' = <[x := v]> (next_of s) → sort_frame s s' → Q () s') → wp (set_next x v) Q s.
Proof.
  intros HJ Hx HQ. destruct (J_heap s HJ) as (_ & Hlo & Hhi), (L_cells x Hx) as (H1 & H2 & _).
  apply wp_write_field; [lia|lia|]. apply HQ; [done|].
  split_and!; [by apply J_next|apply grows_next|]. intros y Hy. unfold next_of. simpl.
  rewrite lookup_insert_ne; [done|]. by intros ->.
Qed.

Lemma link_spec s l ls tail e :
  J s → tailed (next_of s) l ls tail → NoDup (ls ++ [e]) → (∀ x, x ∈ ls → x ∈ L) → e ≠ 0 →
  is_Some (next_of s !! e) →
  wp (link l tail e) (λ l' s', sort_frame s s' ∧ tailed (next_of s') l' (ls ++ [e]) e ∧
    ∀ x, x ∉ ls → next_of s' !! x = next_of s !! x) s.
Proof.
  intros HJ Ht Hnd HL He [n Hn]. unfold link. destruct Ht as [[-> ->]|(ls' & q & -> & Hp & Ht)].
  - apply wp_ret. split; [by apply sort_frame_refl|]. split; [|done].
    right. exists [], n. split; [done|]. split; [|done]. simpl. split_and!; [done..|]. by exists n.
  - rewrite (proj2 (Z.eqb_neq _ _) Ht).
    apply wp_bind, wp_set_next_cell; [done|apply HL, elem_of_app; right; by left|].
    intros s' Hn' Hf. apply wp_ret. split; [done|]. rewrite Hn'.
    apply NoDup_app in Hnd as (Hnd & Hd & _). split.
    + right. exists (ls' ++ [tail]), n. split_and!; [done| |done]. apply path_app. exists e.
      split; [by eapply path_relink|]. split_and!; [done..|]. exists n. split; [|done].
      rewrite lookup_insert_ne; [done|]. intros ->. apply (Hd e); [|by left].
      apply elem_of_app. right. by left.
    + intros x Hx. apply lookup_insert_ne. intros ->. apply Hx, elem_of_app. right. by left.
Qed.

Lemma left_over_frame s s' lc lp lq p q psize qsize :
  left_over s lc lp lq p q psize qsize → sort_frame s s' →
  (∀ x, x ∈ lp ++ lq → next_of s' !! x = next_of s !! x) → left_over s' lc lp lq p q psize qsize.
Proof.
  intros [HJ [m Hp] Hq Hps Hshort Hqs HL Hop Hoq Hpos] (HJ' & Hg & _) Hf. constructor; try done.
  - exists m. eapply path_ext; [|done]. intros x Hx. apply Hf, elem_of_app. by left.
  - eapply path_ext; [|done]. intros x Hx. apply Hf, elem_of_app. by right.
  - by eapply ordered_grows.
  - by eapply ordered_grows.
Qed.

(** ** A merge *)
Lemma merge_runs_spec s l tail p q psize insize lm lp lq :
  left_over s [] lp lq p q psize insize → tailed (next_of s) l lm tail →
  NoDup (lm ++ lp ++ lq) → (∀ x, x ∈ lm → x ∈ L) →
  wp (merge_runs cmp has_res l tail p q psize insize) (λ '(l', tail', q') s', sort_frame s s' ∧
    ∃ lc, lc ≡ₚ lp ++ take (Z.to_nat insize) lq ∧ ordered s' lc ∧
      tailed (next_of s') l' (lm ++ lc) tail' ∧ path (next_of s') q' (drop (Z.to_nat insize) lq) 0) s.
Proof.
  intros Hlo Ht Hnd HL.
  apply (wp_loop_ix (λ n '(l', tail', p', q', psize', qsize') s', ∃ lc lp' lq',
    n = psize' + qsize' ∧ sort_frame s s' ∧ left_over s' lc lp' lq' p' q' psize' qsize' ∧
    tailed (next_of s') l' (lm ++ lc) tail' ∧ lm ++ lp ++ lq ≡ₚ lm ++ lc ++ lp' ++ lq' ∧
    (∀ x, x ∈ lm ++ lc → x ∈ L) ∧
    lp ++ take (Z.to_nat insize) lq ≡ₚ lc ++ lp' ++ take (Z.to_nat qsize') lq' ∧
    drop (Z.to_nat qsize') lq' = drop (Z.to_nat insize) lq) _ _ (psize + insize)).
  { exists [], lp, lq. rewrite app_nil_r. split_and!; try done. apply sort_frame_refl. by destruct Hlo. }
  { destruct Hlo. lia. }
  intros n [[[[[l1 t1] p1] q1] ps1] qs1] s1 (lc & lp1 & lq1 & -> & Hf & Hlo1 & Ht1 & Hperm & HL1 & Htk & Hdr).
  pose proof (lo_psize _ _ _ _ _ _ _ _ Hlo1) as Hps. pose proof (lo_qsize _ _ _ _ _ _ _ _ Hlo1) as Hqs.
  split; [lia|]. pose proof (qrun_nil _ _ _ _ (lo_q _ _ _ _ _ _ _ _ Hlo1) (proj1 Hqs)) as Hq0.
  destruct ((0 <? ps1) || ((0 <? qs1) && negb (q1 =? 0))) eqn:Econd.
  - assert (lp1 ≠ [] ∨ take (Z.to_nat qs1) lq1 ≠ []) as Hne.
    { destruct lp1; [|by left]. right. intros E. apply Hq0 in E. subst ps1. simpl in Econd.
      apply andb_true_iff in Econd as [E1 E2]. apply orb_true_iff in E. rewrite negb_true_iff in E2.
      destruct E as [E|E]; [lia|congruence]. }
    apply wp_bind. eapply wp_mono; [exact (wp_bind_inv _ _ _ _ (advance_spec _ _ _ _ _ _ _ _ Hlo1 Hne))|].
    intros b s2 Hadv. apply wp_bind. eapply wp_mono; [exact Hadv|].
    intros [[[[e p2] q2] ps2] qs2] s3 (Hn3 & Hg3 & He & Hnext & Hms & lp2 & lq2 & Hlo3 & Hp2 & Ht2 & Hd2).
    assert (sort_frame s s3) as Hf3.
    { eapply sort_frame_trans; [exact Hf|]. split; [by destruct Hlo3|]. split; [done|]. by rewrite Hn3. }
    assert (lm ++ lp ++ lq ≡ₚ (lm ++ lc) ++ [e] ++ lp2 ++ lq2) as Hperm2.
    { rewrite Hperm, Hp2, <- app_assoc. done. }
    assert (NoDup (((lm ++ lc) ++ [e]) ++ lp2 ++ lq2)) as Hnd2.
    { rewrite <- app_assoc. by rewrite <- Hperm2. }
    apply NoDup_app in Hnd2 as (Hnd2 & Hdis & _). apply wp_bind. eapply wp_mono.
    { apply (link_spec s3 l1 (lm ++ lc) t1 e); try done; [by destruct Hlo3|by rewrite Hn3|by rewrite Hn3]. }
    intros l2 s4 (Hf4 & Ht4 & Hfr). apply wp_ret. exists (ps2 + qs2). split; [lia|].
    exists (lc ++ [e]), lp2, lq2. split; [done|]. split; [by eapply sort_frame_trans|].
    split; [|split; [by rewrite app_assoc|]].
    { eapply left_over_frame; [exact Hlo3|done|]. intros x Hx. apply Hfr. intros Hin.
      eapply Hdis; [apply elem_of_app; by left|done]. }
    split_and!; [by rewrite Hperm2, <- !app_assoc| | |by rewrite Hd2].
    + intros x. rewrite app_assoc. intros [Hx| ->%list_elem_of_singleton]%elem_of_app; [by apply HL1|].
      destruct Hlo1. apply lo_in0. rewrite Hp2. by left.
    + rewrite Htk, Ht2, <- app_assoc. done.
  - apply wp_ret. split; [done|]. apply orb_false_iff in Econd as [E1 E2].
    assert (lp1 = []) as ->. { destruct lp1; [done|]. rewrite length_cons in Hps. lia. }
    assert (take (Z.to_nat qs1) lq1 = []) as E3.
    { apply Hq0. apply andb_false_iff in E2. rewrite negb_false_iff in E2. apply orb_true_iff.
      rewrite Z.eqb_eq. destruct E2; [left; lia|by right]. }
    exists lc. rewrite E3, !app_nil_r in Htk. split_and!; [done| |done|].
    + pose proof (lo_p_ordered _ _ _ _ _ _ _ _ Hlo1) as Ho. by rewrite app_nil_r in Ho.
    + pose proof (take_drop (Z.to_nat qs1) lq1) as E4. rewrite E3, Hdr in E4. simpl in E4. rewrite E4.
      apply (lo_q _ _ _ _ _ _ _ _ Hlo1).
Qed.

(** ** A pass *)
Lemma step_along_spec s p lr insize : path (next_of s) p lr 0 → lr ≠ [] → 0 < insize < 2 ^ 31 →
  wp (step_along insize p) (λ '(psize, q) s', s' = s ∧ psize = ZL (take (Z.to_nat insize) lr) ∧
    path (next_of s) p (take (Z.to_nat insize) lr) q ∧ path (next_of s) q (drop (Z.to_nat insize) lr) 0) s.
Proof.
  intros Hp Hne Hk.
  apply (wp_loop_ix (λ n '(i, psize, q) s', s' = s ∧ psize = i ∧ n = insize - i ∧ 0 ≤ i ≤ insize ∧
    i = ZL (take (Z.to_nat i) lr) ∧ (i < insize → drop (Z.to_nat i) lr ≠ []) ∧
    path (next_of s) p (take (Z.to_nat i) lr) q ∧ path (next_of s) q (drop (Z.to_nat i) lr) 0) _ _ insize).
  { split_and!; done || lia. }
  { lia. }
  intros n [[i ps] q] s' (-> & -> & -> & Hi & Hlen & Hd & Ht & Hq). split; [lia|].
  destruct (Z.ltb_spec i insize) as [Hlt|Hge]; [|apply wp_ret; by replace i with insize in * by lia].
  specialize (Hd Hlt). destruct (drop (Z.to_nat i) lr) as [|y l'] eqn:Ed; [done|].
  destruct Hq as (-> & Hy & m & Hm & Hq).
  assert (take (Z.to_nat (i + 1)) lr = take (Z.to_nat i) lr ++ [y] ∧ drop (Z.to_nat (i + 1)) lr = l') as [Et Ed'].
  { replace (Z.to_nat (i + 1)) with (S (Z.to_nat i)) by lia. split.
    - apply take_S_r. by rewrite <- (Nat.add_0_r (Z.to_nat i)), <- lookup_drop, Ed.
    - replace (S (Z.to_nat i)) with (Z.to_nat i + 1)%nat by lia. by rewrite <- drop_drop, Ed. }
  assert (path (next_of s) p (take (Z.to_nat (i + 1)) lr) m) as Ht'.
  { rewrite Et. apply path_app. exists y. split; [done|]. split_and!; [done..|]. by exists m. }
  apply wp_bind, wp_read_field with m; [done|]. rewrite !(wraps_small 32) by lia.
  destruct (Z.eqb_spec m 0) as [->|Hm0]; apply wp_ret.
  - pose proof (path_nil_inv _ _ _ Hq eq_refl) as ->.
    assert (length lr ≤ Z.to_nat (i + 1))%nat as Hl by (apply (f_equal length) in Ed'; rewrite length_drop in Ed'; simpl in Ed'; lia).
    rewrite (take_ge lr (Z.to_nat insize)), (drop_ge lr (Z.to_nat insize)) by lia.
    rewrite take_ge in Ht', Et by lia. split_and!; [done| |done|done].
    rewrite Et, length_app. simpl. lia.
  - exists (insize - (i + 1)). split; [lia|]. rewrite Et, Ed', length_app. simpl.
    rewrite Et in Ht'. split_and!; try done; try lia. intros _ ->. by simpl in Hq.
Qed.

(** [c] merges of runs of [k] cells made the list [lm]; [lr] is what is left. *)
Definition merged (c : nat) (k : nat) (lm lr : list Z) : Prop :=
  (length lm ≤ c * (2 * k))%nat ∧ (lr ≠ [] → length lm = c * (2 * k))%nat ∧
  (c = 0 ∨ (c - 1) * (2 * k) < length lm)%nat.

Lemma merged_step c k lm lr lc : (0 < k)%nat → merged c k lm lr → lr ≠ [] →
  lc ≡ₚ take k lr ++ take k (drop k lr) → merged (S c) k (lm ++ lc) (drop k (drop k lr)).
Proof.
  intros Hk (_ & Hfull & _) Hlr Hlc. specialize (Hfull Hlr). apply Permutation_length in Hlc.
  rewrite length_app, !length_take, length_drop in Hlc. unfold merged. rewrite length_app.
  assert (length lr ≠ 0%nat) by (by destruct lr).
  rewrite Nat.mul_succ_l. replace (S c - 1)%nat with c by lia.
  generalize dependent (c * (2 * k))%nat. intros w Hfull. split_and!; [lia| |right; lia].
  intros Hd. assert (length (drop k (drop k lr)) ≠ 0%nat) as Hd' by (by destruct (drop k (drop k lr))).
  rewrite !length_drop in Hd'. lia.
Qed.

(** Two neighbouring runs of [lr], ready to be merged behind [lm]. *)
Lemma left_over_start s p q lr insize : J s → 0 < insize < 2 ^ 31 → (length lr ≤ length L)%nat → (∀ x, x ∈ lr → x ∈ L) →
  runs (rel s) pos (Z.to_nat insize) lr →
  path (next_of s) p (take (Z.to_nat insize) lr) q → path (next_of s) q (drop (Z.to_nat insize) lr) 0 →
  left_over s [] (take (Z.to_nat insize) lr) (drop (Z.to_nat insize) lr)
    p q (ZL (take (Z.to_nat insize) lr)) insize.
Proof.
  intros HJ Hk Hle HL Hr Hp Hq.
  destruct (runs_take _ _ (Z.to_nat insize) _ ltac:(lia) Hr) as (Ho1 & Hr2 & Hpos).
  destruct (runs_take _ _ (Z.to_nat insize) _ ltac:(lia) Hr2) as (Ho2 & _ & _).
  constructor; try done.
  - by eexists.
  - rewrite length_take. lia.
  - lia.
  - rewrite take_drop. done.
  - intros x y Hx Hy. apply Hpos; [done|].
    rewrite <- (take_drop (Z.to_nat insize) (drop (Z.to_nat insize) lr)). apply elem_of_app. by left.
Qed.

Definition pass_inv (s0 : core) (k : nat) (lm lr : list Z) (l tail p nmerges : Z) (s : core) : Prop :=
  sort_frame s0 s ∧ tailed (next_of s) l lm tail ∧ path (next_of s) p lr 0 ∧ lm ++ lr ≡ₚ L ∧
  runs (rel s) pos (2 * k) lm ∧ runs (rel s) pos k lr ∧
  (∀ x y, x ∈ lm → y ∈ lr → (pos x < pos y)%nat) ∧
  ∃ c, nmerges = Z.of_nat c ∧ merged c k lm lr.

(** One round of a pass. *)
Lemma pass_step s0 lm lr l tail p nmerges insize s :
  pass_inv s0 (Z.to_nat insize) lm lr l tail p nmerges s → lr ≠ [] → 0 < insize < 2 ^ 30 →
  wp ('(psize, q) ← step_along insize p; merge_runs cmp has_res l tail p q psize insize)
    (λ '(l', tail', q') s', ∃ lm' lr', (length lr' < length lr)%nat ∧
       pass_inv s0 (Z.to_nat insize) lm' lr' l' tail' q' (s32 (nmerges + 1)) s') s.
Proof.
  intros (Hf & Ht & Hp & Hperm & Hrm & Hrr & Hpos & c & -> & Hm) Hne Hk.
  pose proof L_nodup as Hnd. rewrite <- Hperm in Hnd.
  assert (∀ x, x ∈ lm ++ lr → x ∈ L) as HL by (intros x; by rewrite Hperm).
  set (k := Z.to_nat insize) in *.
  apply wp_bind. eapply wp_mono; [apply (step_along_spec s p lr insize); done || lia|].
  intros [psize q] ? (-> & -> & Hp1 & Hq). eapply wp_mono.
  { apply (merge_runs_spec s l tail p q _ insize lm (take k lr) (drop k lr)).
    - apply left_over_start; try done; [by destruct Hf|lia|rewrite <- Hperm, length_app; lia|].
      intros x Hx. apply HL, elem_of_app. by right.
    - done.
    - by rewrite take_drop.
    - intros x Hx. apply HL, elem_of_app. by left. }
  intros [[l' tail'] q'] s' (Hf' & lc & Hlc & Ho & Ht' & Hq'). fold k in Hlc, Hq'.
  assert (lc ++ drop k (drop k lr) ≡ₚ lr) as Hlr.
  { rewrite Hlc, <- app_assoc, take_drop. by rewrite take_drop. }
  destruct (runs_take _ _ k _ ltac:(lia) Hrr) as (_ & Hr1 & Hpos1).
  destruct (runs_take _ _ k _ ltac:(lia) Hr1) as (_ & Hr2 & Hpos2). destruct Hf' as (HJ' & Hg & Hfr).
  exists (lm ++ lc), (drop k (drop k lr)). split.
  { apply Permutation_length in Hlr as Hl. rewrite length_app in Hl. apply Permutation_length in Hlc.
    rewrite length_app, !length_take, !length_drop in Hlc. destruct lr; [done|]. simpl length in *. lia. }
  split; [by eapply sort_frame_trans|]. split; [done|]. split; [done|].
  split; [by rewrite <- app_assoc, Hlr|]. split; [|split; [|split]].
  - eapply (runs_snoc _ _ _ c); [|destruct Hm as (_ & -> & _); done|lia| | |done|].
    + eapply runs_impl; [|exact Hrm]. intros x y. by apply rel_grows.
    + intros ->. apply Permutation_length in Hlc. rewrite length_app, length_take in Hlc.
      destruct lr; [done|]. simpl in Hlc. lia.
    + apply Permutation_length in Hlc. rewrite length_app, !length_take in Hlc. lia.
    + intros x y Hx Hy. apply Hpos; [done|]. rewrite <- Hlr. apply elem_of_app. by left.
  - eapply runs_impl; [|exact Hr2]. intros x y. by apply rel_grows.
  - intros x y [Hx|Hx]%elem_of_app Hy.
    + apply Hpos; [done|]. rewrite <- Hlr. apply elem_of_app. by right.
    + rewrite Hlc in Hx. apply elem_of_app in Hx as [Hx|Hx].
      * apply Hpos1; [done|]. rewrite <- (take_drop k (drop k lr)). apply elem_of_app. by right.
      * by apply Hpos2.
  - exists (S c). split; [|by apply merged_step; [lia|..]]. rewrite (wraps_small 32); [lia|done|].
    destruct Hm as (_ & Hm & _). apply Permutation_length in Hperm. rewrite length_app, Hm in Hperm by done. nia.
Qed.

Lemma merge_pass_spec s0 s l lr insize : sort_frame s0 s → path (next_of s) l lr 0 → lr ≡ₚ L →
  runs (rel s) pos (Z.to_nat insize) lr → 0 < insize < 2 ^ 30 →
  wp (merge_pass cmp has_res insize l) (λ '(l', tail, nmerges) s', ∃ lm,
    pass_inv s0 (Z.to_nat insize) lm [] l' tail 0 nmerges s') s.
Proof.
  intros Hf Hp Hlr Hr Hk.
  apply (wp_loop_ix (λ n '(l, tail, p, nmerges) s, ∃ lm lr, n = ZL lr ∧
    pass_inv s0 (Z.to_nat insize) lm lr l tail p nmerges s) _ _ (ZL lr)).
  { exists [], lr. split; [done|]. split; [done|]. split; [by left|].
    split; [done|]. split; [done|]. split; [constructor|]. split; [done|].
    split; [by intros ?? ?%elem_of_nil|]. exists 0%nat. split; [done|]. split; [simpl; lia|]. split; [done|by left]. }
  { pose proof (Permutation_length Hlr). lia. }
  intros n [[[l1 t1] p1] nm] s1 (lm & lr1 & -> & Hi). split; [lia|]. pose proof Hi as (_ & _ & Hp1 & _).
  destruct (Z.eqb_spec p1 0) as [->|Hp0].
  { apply wp_ret. exists lm. by pose proof (path_nil_inv _ _ _ Hp1 eq_refl) as ->. }
  assert (lr1 ≠ []) as Hne by (intros ->; by simpl in Hp1).
  apply wp_bind. eapply wp_mono; [exact (wp_bind_inv _ _ _ _ (pass_step _ _ _ _ _ _ _ _ _ Hi Hne Hk))|].
  intros [psize q] s2 H2. apply wp_bind. eapply wp_mono; [exact H2|].
  intros [[l3 t3] q3] s3 (lm' & lr' & Hlt & Hi3). apply wp_ret. exists (ZL lr'). split; [lia|].
  by exists lm', lr'.
Qed.

(** ** The whole sort *)
Context (L_pos : ∀ i x, L !! i = Some x → pos x = i).

Lemma mergesort_spec s l : J s → path (next_of s) l L 0 → L ≠ [] →
  wp (core_list_mergesort l cmp has_res) (λ l' s', sort_frame s s' ∧
    ∃ L', L' ≡ₚ L ∧ ordered s' L' ∧ path (next_of s') l' L' 0) s.
Proof.
  intros HJ Hp Hne.
  apply (wp_loop_ix (λ n '(insize, l) s1, ∃ lr, n = ZL L - insize ∧ 0 < insize ≤ ZL L ∧ sort_frame s s1 ∧
    path (next_of s1) l lr 0 ∧ lr ≡ₚ L ∧ runs (rel s1) pos (Z.to_nat insize) lr) _ _ (ZL L - 1)).
  { exists L. split; [done|]. split; [destruct L; [done|simpl; lia]|]. split; [by apply sort_frame_refl|].
    split; [done|]. split; [done|]. apply runs_one. intros i j x y Hi Hj Hij.
    by rewrite (L_pos i x), (L_pos j y). }
  { lia. }
  intros n [insize l1] s1 (lr & -> & Hk & Hf & Hp1 & Hlr & Hr). split; [lia|].
  apply wp_bind. eapply wp_mono; [apply (merge_pass_spec s s1 l1 lr insize); done || lia|].
  intros [[l2 tail] nm] s2 (lm & Hf2 & Ht & _ & Hperm & Hrm & _ & _ & c & -> & Hm).
  rewrite app_nil_r in Hperm. destruct Ht as [[-> _]|(ls & q & -> & Hpl & Ht)].
  { by apply Permutation_nil_l in Hperm. }
  assert (tail ∈ L) as Hin by (rewrite <- Hperm; apply elem_of_app; right; by left).
  apply wp_bind, wp_set_next_cell; [by destruct Hf2|done|]. intros s3 Hn3 Hf3.
  assert (path (next_of s3) l2 (ls ++ [tail]) 0) as Hp3.
  { rewrite Hn3. eapply path_relink; [|done]. rewrite Hperm. done. }
  assert (runs (rel s3) pos (2 * Z.to_nat insize) (ls ++ [tail])) as Hr3.
  { eapply runs_impl; [|exact Hrm]. intros x y. apply rel_grows, Hf3. }
  pose proof (Permutation_length Hperm) as Hlen. destruct Hm as (Hm1 & _ & Hm2).
  pose proof (sort_frame_trans _ _ _ Hf2 Hf3) as Hf'.
  destruct (Z.leb_spec (Z.of_nat c) 1) as [Hc|Hc]; apply wp_ret.
  - split; [done|]. exists (ls ++ [tail]). split; [done|]. split; [|done].
    apply (runs_single _ pos (2 * Z.to_nat insize)); [|lia|done]. destruct c as [|[|c]]; simpl in *; lia.
  - assert (2 * insize < ZL L) as Hlt by (destruct c as [|[|c]]; simpl in *; nia).
    rewrite (wraps_small 32) by lia. exists (ZL L - insize * 2). split; [lia|].
    exists (ls ++ [tail]). split; [done|]. split; [lia|]. split; [done|]. split; [done|]. split; [done|].
    by replace (Z.to_nat (insize * 2)) with (2 * Z.to_nat insize)%nat by lia.
Qed.
End Sort.
