(* ===== verification/CmBench.v ===== *)
(** The comparison functions of CoreMark's list benchmark, and core_bench_list as a whole:
    it ends, and leaves the list, the items, the matrices and the state block as they
    were. *)
From stdpp Require Import base list gmap fin_maps sorting.
From Stdlib Require Import ZArith Lia.
From S2P Require Import Prelude Memory CmUtil CmState CmMatrix CmList CmSort.

#[local] Open Scope Z_scope.

(** * The halves of data16 *)
Section Data16.
Implicit Types (d h x r : Z).

Definition is_s16 d : Prop := - 2 ^ 15 ≤ d < 2 ^ 15.

Lemma s16_high h x : - 128 ≤ h < 128 → 0 ≤ x < 256 → s16 (x + u8 h * 2 ^ 8) = h * 256 + x.
Proof.
  intros. unfold wraps, wrapu. change (2 ^ 16) with 65536. change (2 ^ (16 - 1)) with 32768.
  change (2 ^ 8) with 256. Z.div_mod_to_equations. lia.
Qed.

Lemma land_ff00 d : Z.land d 0xff00 = Z.shiftl (u8 (Z.shiftr d 8)) 8.
Proof.
  rewrite wrapu_land by done. apply Z.bits_inj'. intros i Hi.
  rewrite Z.shiftl_spec, !Z.land_spec by done. change 0xff00 with (Z.shiftl (Z.ones 8) 8).
  rewrite Z.shiftl_spec by done. destruct (Z.lt_ge_cases i 8).
  - rewrite !(Z.testbit_neg_r _ (i - 8)) by lia. by rewrite !andb_false_r.
  - rewrite Z.shiftr_spec by lia. by replace (i - 8 + 8) with i by lia.
Qed.

Lemma high_range d : is_s16 d → - 128 ≤ Z.shiftr d 8 < 128.
Proof. intros [? ?]. rewrite Z.shiftr_div_pow2 by done. change (2 ^ 8) with 256. Z.div_mod_to_equations. lia. Qed.

(** Keeping the upper byte and replacing the lower one. *)
Lemma replace_low d x : is_s16 d → 0 ≤ x < 256 →
  s16 (Z.lor (Z.land d 0xff00) x) = Z.shiftr d 8 * 256 + x.
Proof.
  intros Hd Hx. rewrite land_ff00, Z.lor_comm, lor_add_shift by done.
  apply s16_high; [by apply high_range|done].
Qed.

Lemma low_is_s16 d x : is_s16 d → 0 ≤ x < 256 → is_s16 (Z.shiftr d 8 * 256 + x).
Proof. intros Hd%high_range ?. unfold is_s16. lia. Qed.

Lemma high_of_low h x : 0 ≤ x < 256 → Z.shiftr (h * 256 + x) 8 = h.
Proof. intros. rewrite Z.shiftr_div_pow2 by done. change (2 ^ 8) with 256. Z.div_mod_to_equations. lia. Qed.

(** The item cmp_idx makes of an item: the lower byte is the upper one again. *)
Definition fresh d : Z := Z.shiftr d 8 * 256 + Z.land 0xff (Z.shiftr d 8).

Lemma land_ff_range x : 0 ≤ Z.land 0xff x < 256.
Proof. rewrite Z.land_comm. change 0xff with (Z.ones 8). rewrite Z.land_ones by done. by apply (Z.mod_pos_bound x 256). Qed.

Lemma regenerate_value d : is_s16 d → s16 (Z.lor (Z.land d 0xff00) (Z.land 0xff (Z.shiftr d 8))) = fresh d.
Proof. intros. apply replace_low; [done|apply land_ff_range]. Qed.

Lemma fresh_high d d' : Z.shiftr d 8 = Z.shiftr d' 8 → fresh d = fresh d'.
Proof. unfold fresh. by intros ->. Qed.

Lemma shiftr_fresh d : Z.shiftr (fresh d) 8 = Z.shiftr d 8.
Proof. apply high_of_low, land_ff_range. Qed.

(** A cached item: bit 7 is set, the lower bits are the value. *)
Definition cached d : bool := negb (Z.land (Z.shiftr d 7) 1 =? 0).

Lemma cached_odd d : cached d = Z.testbit d 7.
Proof.
  unfold cached. rewrite land_1, <- Z.bit0_odd, Z.shiftr_spec by done. change (0 + 7) with 7. by destruct (Z.testbit d 7).
Qed.

Lemma land_7f x : Z.land x 0x7f = x mod 128.
Proof. change 0x7f with (Z.ones 7). by rewrite Z.land_ones. Qed.

Lemma cache_value d r : is_s16 d → 0 ≤ r < 128 →
  s16 (Z.lor (Z.lor (Z.land d 0xff00) 0x80) r) = Z.shiftr d 8 * 256 + (128 + r).
Proof.
  intros Hd Hr. rewrite <- Z.lor_assoc, (Z.lor_comm _ r).
  assert (Z.lor r 0x80 = 128 + r) as ->.
  { change 0x80 with (Z.shiftl 1 7) at 1. rewrite lor_add_shift by done. lia. }
  by rewrite replace_low by (done || lia).
Qed.

Lemma cache_cached h r : 0 ≤ r < 128 → cached (h * 256 + (128 + r)) = true ∧ Z.land (h * 256 + (128 + r)) 0x7f = r.
Proof.
  intros Hr. split.
  - unfold cached. rewrite land_1, Z.shiftr_div_pow2 by done. change (2 ^ 7) with 128.
    replace ((h * 256 + (128 + r)) / 128) with (1 + 2 * h) by (Z.div_mod_to_equations; lia).
    by rewrite Z.odd_add_mul_2.
  - rewrite land_7f. Z.div_mod_to_equations. lia.
Qed.
End Data16.
#[local] Arguments fresh : simpl never.
#[local] Arguments cached : simpl never.

(** * Places *)
(** The place of a cell in a list. *)
Fixpoint place (l : list Z) (x : Z) : nat :=
  match l with
  | [] => 0
  | y :: l => if decide (x = y) then 0 else S (place l x)
  end.

Lemma place_lookup l i x : NoDup l → l !! i = Some x → place l x = i.
Proof.
  intros Hnd. revert i. induction Hnd as [|y l Hy Hnd IH]; intros i Hi; [done|].
  destruct i as [|i]; simpl in *; [simplify_eq; by rewrite decide_True|].
  rewrite decide_False; [by rewrite (IH i)|]. intros ->. apply Hy. by eapply list_elem_of_lookup_2.
Qed.

(** * What the benchmark keeps *)

(** [r'] has the settings of [r] and its CRC of the list; the CRCs of the matrix and of the
    state are set once. *)
Definition results_kept (r r' : core_results) : Prop :=
  set_crcs 0 0 0 0 r' = set_crcs 0 0 0 0 r ∧ crclist r' = crclist r ∧
  (crcmatrix r ≠ 0 → crcmatrix r' = crcmatrix r) ∧ (crcstate r ≠ 0 → crcstate r' = crcstate r).

#[local] Instance results_kept_refl : Reflexive results_kept.
Proof. by intros r. Qed.

#[local] Instance results_kept_trans : Transitive results_kept.
Proof.
  intros r1 r2 r3 (E1 & L1 & M1 & S1) (E2 & L2 & M2 & S2).
  split; [congruence|]. split; [congruence|]. split; intros H.
  - rewrite M2; [by apply M1|]. by rewrite M1.
  - rewrite S2; [by apply S1|]. by rewrite S1.
Qed.

Section Bench.
Context (s0 : core) (L : list Z).

(** A matrix block that core_init_matrix may have left. *)
Definition matrices_ok (p : mat_params) : Prop := ∃ fa fb,
  0 ≤ mat_N p ∧ mat_N p * mat_N p < 2 ^ 32 ∧ holds (mat_A p) fa (mat_N p * mat_N p) ∧
  holds (mat_B p) fb (mat_N p * mat_N p) ∧ a_len (mat_C p) = mat_N p * mat_N p ∧ ∀ k, is_s16 (fa k).

(** A state block with a terminator that no corruption reaches: calc_func's steps are the
    multiples of 17 from 34 on. *)
Definition blk3_ok (r : core_results) (m : mem) : Prop :=
  mem_wf m ∧ 0 ≤ memblock3 r < 2 ^ 32 ∧ 0 ≤ size r < 2 ^ 32 ∧
  mapped m (memblock3 r) (size r) ∧ ∃ z, memblock3 r ≤ z < 2 ^ 33 ∧
    mapped m (memblock3 r) (z - memblock3 r) ∧ m !! z = Some 0 ∧
    ∀ k, 2 ≤ k < 16 → visited (memblock3 r) (memblock3 r + size r) (17 * k) z = false.

(** Both passes of core_bench_state cancel on every byte of the block. *)
Definition blk3_clean : Prop :=
  seed1 (res s0) = seed2 (res s0) ∧
  ∀ x v, memblock3 (res s0) ≤ x < memblock3 (res s0) + size (res s0) → blk3 s0 !! x = Some v →
    v = 44 ∨ Z.lxor v (u8 (seed1 (res s0))) ≠ 44.

Definition cell_ok (x : Z) : Prop :=
  h_lo (heap s0) ≤ x ∧ x + 8 ≤ h_hi (heap s0) ∧ ∃ i d v,
    h_info (heap s0) !! x = Some i ∧ h_lo (heap s0) ≤ i ∧ i + 4 ≤ h_hi (heap s0) ∧
    h_data16 (heap s0) !! i = Some d ∧ is_s16 d ∧ h_idx (heap s0) !! i = Some v.

Record list_ok : Prop := ListOk {
  lk_cells : ∀ x, x ∈ L → cell_ok x;
  lk_nodup : NoDup L;
  lk_short : ZL L < 2 ^ 30;
}.
Context (Hok : list_ok).

(** The items [d] have the upper bytes of [d0]; items no cell of the list has are the same. *)
Definition same_items (d : gmap Z Z) : Prop :=
  (∀ i, h_data16 (heap s0) !! i = None → d !! i = None) ∧
  ∀ i a, h_data16 (heap s0) !! i = Some a → ∃ b, d !! i = Some b ∧ Z.shiftr b 8 = Z.shiftr a 8 ∧
    (is_s16 a → is_s16 b) ∧ ((∀ x, x ∈ L → h_info (heap s0) !! x ≠ Some i) → b = a).

Record kept (s : core) : Prop := Kept {
  k_info : h_info (heap s) = h_info (heap s0);
  k_lo : h_lo (heap s) = h_lo (heap s0);
  k_hi : h_hi (heap s) = h_hi (heap s0);
  k_idx : h_idx (heap s) = h_idx (heap s0);
  k_items : same_items (h_data16 (heap s));
  k_matrices : ∃ C, matrices s = MatParams (mat_N (matrices s0)) (mat_A (matrices s0)) (mat_B (matrices s0)) C ∧
    a_len C = a_len (mat_C (matrices s0));
  k_blk3 : blk3_ok (res s0) (blk3 s0) → blk3_ok (res s0) (blk3 s);
  k_clean : blk3_clean → blk3 s = blk3 s0;
  k_res : results_kept (res s0) (res s);
}.

Lemma kept_refl : kept s0.
Proof.
  constructor; try done; [|by exists (mat_C (matrices s0)); destruct (matrices s0)].
  split; [done|]. intros i a Ha. by exists a.
Qed.

Lemma kept_next s x v : kept s → kept (set_heap (put_next x v (heap s)) s).
Proof. by intros []. Qed.

Lemma kept_crcs s r : results_kept (res s) r → kept s → kept (set_res r s).
Proof. intros Hr []. constructor; try done. by trans (res s). Qed.

Lemma kept_item s x i d b : kept s → x ∈ L → h_info (heap s0) !! x = Some i →
  h_data16 (heap s) !! i = Some d → Z.shiftr b 8 = Z.shiftr d 8 → is_s16 b →
  kept (set_heap (put_data16 i b (heap s)) s).
Proof.
  intros [] Hx Hi Hd Hb Hs. constructor; try done. simpl. destruct k_items0 as [Hn Hsame]. split.
  - intros j Hj. rewrite lookup_insert_ne; [by apply Hn|]. intros ->. rewrite Hn in Hd; done.
  - intros j a Ha. destruct (Hsame j a Ha) as (b' & Hb' & Hh & Hs' & Hno).
    destruct (decide (j = i)) as [->|Hne].
    + exists b. rewrite lookup_insert_eq. simplify_eq. split_and!; [done|by rewrite Hb|done|].
      intros Hall. by destruct (Hall x Hx).
    + exists b'. by rewrite lookup_insert_ne.
Qed.

(** What the list operations read in a cell of the list. *)
Lemma kept_cell s x : kept s → x ∈ L → ∃ i d v, h_info (heap s0) !! x = Some i ∧
  h_data16 (heap s) !! i = Some d ∧ is_s16 d ∧ h_idx (heap s0) !! i = Some v ∧
  h_lo (heap s) ≤ i ∧ i + 4 ≤ h_hi (heap s).
Proof.
  intros [] Hx. destruct (lk_cells Hok x Hx) as (_ & _ & i & d0 & v & Hi & H1 & H2 & Hd0 & Hs & Hv).
  destruct (proj2 k_items0 i d0 Hd0) as (d & Hd & _ & Hsd & _). exists i, d, v. rewrite k_lo0, k_hi0.
  split_and!; auto.
Qed.

Lemma same_res s : kept s → seed1 (res s) = seed1 (res s0) ∧ seed2 (res s) = seed2 (res s0) ∧
  seed3 (res s) = seed3 (res s0) ∧ memblock3 (res s) = memblock3 (res s0) ∧ size (res s) = size (res s0) ∧
  list_ (res s) = list_ (res s0).
Proof. intros [_ _ _ _ _ _ _ _ [Hr _]]. destruct (res s), (res s0). injection Hr as -> -> -> -> -> -> -> -> ->. done. Qed.

(** ** cmp_idx *)
Definition index (s : core) (x : Z) : option Z :=
  i ← h_info (heap s0) !! x; d ← h_data16 (heap s) !! i;
  if bool_decide (fresh d = d) then h_idx (heap s0) !! i else None.

Lemma index_item s x i d : h_info (heap s0) !! x = Some i → h_data16 (heap s) !! i = Some d →
  index s x = if bool_decide (fresh d = d) then h_idx (heap s0) !! i else None.
Proof. unfold index, mbind, option_bind. by intros -> ->. Qed.

Lemma index_Some s x v : index s x = Some v → ∃ i d, h_info (heap s0) !! x = Some i ∧
  h_data16 (heap s) !! i = Some d ∧ fresh d = d ∧ h_idx (heap s0) !! i = Some v.
Proof.
  unfold index. intros (i & Hi & (d & Hd & Hv)%bind_Some)%bind_Some. exists i, d.
  by case_bool_decide.
Qed.

Lemma regenerate_spec s x i : kept s → x ∈ L → h_info (heap s0) !! x = Some i →
  wp (regenerate i) (λ _ s', kept s' ∧ h_next (heap s') = h_next (heap s) ∧
    (∀ y v, index s y = Some v → index s' y = Some v) ∧ is_Some (index s' x)) s.
Proof.
  intros Hk Hx Hi. destruct (kept_cell s x Hk Hx) as (i' & d & v & Hi' & Hd & Hds & Hv & Hlo & Hhi).
  assert (i' = i) as -> by congruence. unfold regenerate. apply wp_bind, wp_read_field with d; [done|].
  rewrite regenerate_value by done.
  assert (fresh (fresh d) = fresh d) as Hff by (apply fresh_high, shiftr_fresh).
  apply wp_write_field; [done|done|].
  assert (h_data16 (heap (set_heap (put_data16 i (fresh d) (heap s)) s)) !! i = Some (fresh d)) as Hd'
    by apply lookup_insert_eq.
  split; [|split; [done|split]].
  - apply (kept_item s x i d); try done; [apply shiftr_fresh|]. apply low_is_s16; [done|apply land_ff_range].
  - intros y w (j & e & Hj & He & Hfe & Hw)%index_Some. destruct (decide (j = i)) as [->|Hne].
    + by rewrite (index_item _ y i (fresh d)), bool_decide_eq_true_2.
    + rewrite (index_item _ y j e), bool_decide_eq_true_2; [done|done|done|].
      rewrite <- He. by apply lookup_insert_ne.
  - rewrite (index_item _ x i (fresh d)), bool_decide_eq_true_2 by done. by exists v.
Qed.

Lemma cmp_idx_spec s x y ix iy : kept s → x ∈ L → y ∈ L →
  h_info (heap s0) !! x = Some ix → h_info (heap s0) !! y = Some iy →
  wp (cmp_idx ix iy false) (λ r s', kept s' ∧ h_next (heap s') = h_next (heap s) ∧
    (∀ z v, index s z = Some v → index s' z = Some v) ∧
    ∃ vx vy, index s' x = Some vx ∧ index s' y = Some vy ∧ (r ≤ 0 ↔ vx ≤ vy)) s.
Proof.
  intros Hk Hx Hy Hix Hiy. unfold cmp_idx. cbn [negb when]. apply wp_bind, wp_bind.
  eapply wp_mono; [by apply (regenerate_spec s x)|]. intros ? s1 (Hk1 & Hn1 & Hg1 & Hs1).
  eapply wp_mono; [by apply (regenerate_spec s1 y)|]. intros ? s2 (Hk2 & Hn2 & Hg2 & [vy Hs2]).
  destruct Hs1 as [vx Hvx]. apply Hg2 in Hvx.
  assert (h_idx (heap s2) !! ix = Some vx ∧ h_idx (heap s2) !! iy = Some vy) as [E1 E2].
  { rewrite (k_idx s2 Hk2). apply index_Some in Hvx as (? & ? & ? & _ & _ & ?).
    apply index_Some in Hs2 as (? & ? & ? & _ & _ & ?). split; congruence. }
  apply wp_bind, wp_read_field with vx; [done|]. apply wp_bind, wp_read_field with vy; [done|].
  apply wp_ret. split_and!; [done|congruence|auto|]. exists vx, vy. split; [done|]. split; [done|]. clear; lia.
Qed.

(** ** The sort with these comparisons *)
Definition nexts_kept (s s' : core) : Prop := ∀ x, x ∉ L → h_next (heap s') !! x = h_next (heap s) !! x.

(** The stable order of the items of two cells of [ls] by what [val] finds in them. *)
Definition before (val : core → Z → option Z) (ls : list Z) (s : core) : Z → Z → Prop :=
  rel val (place ls) s.

Lemma mergesort_kept cmp has_res val s l ls :
  (∀ s x v y, val (set_heap (put_next x v (heap s)) s) y = val s y) →
  (∀ s x y ix iy, kept s → x ∈ L → y ∈ L → h_info (heap s0) !! x = Some ix → h_info (heap s0) !! y = Some iy →
    wp (cmp ix iy has_res) (λ r s', kept s' ∧ h_next (heap s') = h_next (heap s) ∧
      (∀ z v, val s z = Some v → val s' z = Some v) ∧
      ∃ vx vy, val s' x = Some vx ∧ val s' y = Some vy ∧ (r ≤ 0 ↔ vx ≤ vy)) s) →
  kept s → path (h_next (heap s)) l ls 0 → ls ≡ₚ L → L ≠ [] →
  wp (core_list_mergesort l cmp has_res) (λ l' s', kept s' ∧ nexts_kept s s' ∧
    ∃ ls', ls' ≡ₚ L ∧ path (h_next (heap s')) l' ls' 0 ∧ StronglySorted (before val ls s') ls') s.
Proof.
  intros Hval Hcmp Hk Hp Hls Hne. eapply wp_mono.
  { apply (mergesort_spec cmp has_res kept val (place ls) (h_info (heap s0)) (h_lo (heap s0)) (h_hi (heap s0)) ls);
      try done.
    - by intros s1 [].
    - intros s1 x v. apply kept_next.
    - intros x Hx. rewrite Hls in Hx. destruct (lk_cells Hok x Hx) as (? & ? & i & _ & _ & Hi & _). eauto.
    - intros s1 x y ix iy Hk1 Hx Hy. rewrite Hls in Hx, Hy. by apply Hcmp.
    - rewrite Hls. apply (lk_nodup Hok).
    - rewrite (Permutation_length Hls). apply (lk_short Hok).
    - intros i x. apply place_lookup. rewrite Hls. apply (lk_nodup Hok).
    - intros ->. apply Hne. symmetry. by apply Permutation_nil_l. }
  intros l' s' ((Hk' & _ & Hf) & ls' & Hl' & Ho & Hp'). split; [done|]. split.
  - intros x Hx. apply Hf. by rewrite Hls.
  - exists ls'. split; [by rewrite Hl'|]. done.
Qed.

Lemma sort_by_idx s l ls : kept s → path (h_next (heap s)) l ls 0 → ls ≡ₚ L → L ≠ [] →
  wp (core_list_mergesort l cmp_idx false) (λ l' s', kept s' ∧ nexts_kept s s' ∧
    ∃ ls', ls' ≡ₚ L ∧ path (h_next (heap s')) l' ls' 0 ∧ StronglySorted (before index ls s') ls') s.
Proof. intros. by apply mergesort_kept; [|exact cmp_idx_spec|..]. Qed.

(** ** The two benchmarks the comparison calls *)
Context (Hmat : matrices_ok (matrices s0)) (Hblk : blk3_ok (res s0) (blk3 s0)).

Lemma bench_state_spec s k : kept s → 2 ≤ k < 16 →
  wp (bench_state (17 * k)) (λ _ s', kept s' ∧ heap s' = heap s) s.
Proof.
  intros Hk Hr. destruct (same_res s Hk) as (E1 & E2 & _ & E3 & E4 & _). unfold bench_state.
  apply wp_bind, wp_gets, wp_zoom. rewrite E1, E2, E3, E4.
  pose proof (k_blk3 s Hk Hblk) as (Hw & Hp & Hs & Hm & z & Hz & Hm2 & Hz0 & Hv).
  eapply wp_mono.
  { apply (core_bench_state_passes (blk3 s) (size (res s0)) _ _ _ (17 * k) _ z); auto; lia. }
  intros r m' Hm'. split; [|done]. destruct Hk. constructor; try done; simpl.
  - intros _. split_and!; try done; try lia.
    + intros x v. rewrite Hm'. destruct (blk3 s !! x) as [w|] eqn:E; [|by case_match].
      case_match; simpl; intros [= <-]; [|by eapply Hw]. apply flip_byte, flip_byte. by eapply Hw.
    + intros x Hx. rewrite Hm'. destruct (Hm x Hx) as [v ->]. case_match; simpl; by eexists.
    + exists z. split_and!; try done; try lia.
      * intros x Hx. rewrite Hm'. destruct (Hm2 x Hx) as [v ->]. case_match; simpl; by eexists.
      * rewrite Hm', Hv; [done|lia].
  - intros Hcl. pose proof Hcl as [Hse Hc]. specialize (k_clean0 Hcl). rewrite k_clean0 in *.
    apply map_eq. intros x. rewrite Hm'. case_match eqn:Ev; [|done].
    destruct (blk3 s0 !! x) as [v|] eqn:E; [|done]. simpl. f_equal. rewrite <- Hse, flip_flip by (by eapply Hw).
    unfold visited in Ev. rewrite !andb_true_iff, Z.leb_le, Z.ltb_lt in Ev. unfold undone.
    destruct (Z.eqb_spec (Z.lxor v (u8 (seed1 (res s0)))) 44); [|done]. destruct (Hc x v); [lia|done|done|done].
Qed.

Lemma bench_matrix_spec s dtype : kept s →
  wp (bench_matrix dtype) (λ _ s', kept s' ∧ heap s' = heap s) s.
Proof.
  intros Hk. unfold bench_matrix. apply wp_bind, wp_gets, wp_zoom.
  destruct (k_matrices s Hk) as (C & EC & HC). rewrite EC.
  destruct Hmat as (fa & fb & H0 & HN & HA & HB & HCl & Hfa).
  unfold core_bench_matrix. apply wp_bind, wp_gets, wp_bind. eapply wp_mono.
  { apply (matrix_test_spec _ (mat_A (matrices s0)) (mat_B (matrices s0)) C fa fb); try done. by rewrite HC. }
  intros r p (_ & C' & -> & HC'). apply wp_ret. split; [|done]. destruct Hk. constructor; try done.
  exists C'. split; [done|]. by rewrite HC', HCl.
Qed.

(** ** calc_func *)
Definition value (s : core) (x : Z) : option Z :=
  i ← h_info (heap s0) !! x; d ← h_data16 (heap s) !! i; if cached d then Some (Z.land d 0x7f) else None.

Lemma value_next s x v y : value (set_heap (put_next x v (heap s)) s) y = value s y.
Proof. done. Qed.

(** The switch of calc_func. *)
Lemma calc_retval_spec s data : kept s → is_s16 data →
  let flag := Z.land data 0x7 in
  let dtype := Z.land (Z.shiftr data 3) 0xf in
  let dtype := s16 (Z.lor dtype (Z.shiftl dtype 4)) in
  wp (if flag =? 0 then
        let dtype := if dtype <? 0x22 then 0x22 else dtype in
        r ← bench_state dtype;
        let retval := s16 r in
        cs ← results crcstate;
        when (cs =? 0) (update_results (set_crcstate (u16 retval)));;
        mret retval
      else if flag =? 1 then
        r ← bench_matrix dtype;
        let retval := s16 r in
        cm ← results crcmatrix;
        when (cm =? 0) (update_results (set_crcmatrix (u16 retval)));;
        mret retval
      else mret data) (λ _ s', kept s' ∧ heap s' = heap s) s.
Proof.
  intros Hk Hd flag dtype dt. subst flag. destruct (_ =? 0); [|destruct (_ =? 1); [|by apply wp_ret]].
  - assert (∃ k, 2 ≤ k < 16 ∧ (if dt <? 0x22 then 0x22 else dt) = 17 * k) as (k & Hkr & ->).
    { assert (0 ≤ dtype < 16) as Hdt.
      { subst dtype. change 0xf with (Z.ones 4). rewrite Z.land_ones by done. by apply (Z.mod_pos_bound _ 16). }
      assert (dt = 17 * dtype) as ->.
      { subst dt. rewrite lor_add_shift by done. replace (dtype + dtype * 2 ^ 4) with (17 * dtype) by (change (2 ^ 4) with 16; lia).
        apply wraps_small; lia. }
      destruct (Z.ltb_spec (17 * dtype) 0x22); [exists 2|exists dtype]; lia. }
    apply wp_bind. eapply wp_mono; [by apply bench_state_spec|]. intros r s' [Hk' Hh].
    apply wp_bind, wp_gets, wp_bind. unfold when.
    destruct (Z.eqb_spec (crcstate (res s')) 0) as [E|]; [apply wp_modify|]; apply wp_ret; [|done].
    split; [|done]. apply kept_crcs; [|done]. by split_and!.
  - apply wp_bind. eapply wp_mono; [by apply bench_matrix_spec|]. intros r s' [Hk' Hh].
    apply wp_bind, wp_gets, wp_bind. unfold when.
    destruct (Z.eqb_spec (crcmatrix (res s')) 0) as [E|]; [apply wp_modify|]; apply wp_ret; [|done].
    split; [|done]. apply kept_crcs; [|done]. by split_and!.
Qed.

Definition value_grows (s s' : core) : Prop := ∀ x v, value s x = Some v → value s' x = Some v.

Lemma value_heap s s' x : heap s' = heap s → value s' x = value s x.
Proof. unfold value. by intros ->. Qed.

Lemma value_item s x i d : h_info (heap s0) !! x = Some i → h_data16 (heap s) !! i = Some d →
  value s x = if cached d then Some (Z.land d 0x7f) else None.
Proof. unfold value, mbind, option_bind. by intros -> ->. Qed.

Lemma value_Some s x v : value s x = Some v → ∃ i d, h_info (heap s0) !! x = Some i ∧
  h_data16 (heap s) !! i = Some d ∧ cached d = true ∧ v = Z.land d 0x7f.
Proof.
  unfold value. intros (i & Hi & (d & Hd & Hv)%bind_Some)%bind_Some. exists i, d.
  destruct (cached d); [by simplify_eq|done].
Qed.

Lemma calc_func_spec s x i : kept s → x ∈ L → h_info (heap s0) !! x = Some i →
  wp (calc_func i) (λ r s', kept s' ∧ h_next (heap s') = h_next (heap s) ∧ value_grows s s' ∧
    value s' x = Some r) s.
Proof.
  intros Hk Hx Hi. destruct (kept_cell s x Hk Hx) as (i' & d & v & Hi' & Hd & Hds & _ & Hlo & Hhi).
  assert (i' = i) as -> by congruence. unfold calc_func. apply wp_bind, wp_read_field with d; [done|].
  change (negb (Z.land (Z.shiftr d 7) 1 =? 0)) with (cached d). destruct (cached d) eqn:Ec.
  { apply wp_ret. split_and!; [done|done|by intros ???|]. by rewrite (value_item s x i d), Ec. }
  apply wp_bind. eapply wp_mono; [by apply calc_retval_spec|]. intros r s1 [Hk1 Hh1].
  apply wp_bind, wp_gets, wp_bind, wp_modify. set (s2 := set_res _ s1).
  assert (kept s2) as Hk2 by (by apply kept_crcs).
  assert (heap s2 = heap s) as Hh2 by done. clearbody s2.
  assert (0 ≤ Z.land r 0x7f < 128) as Hr by (rewrite land_7f; by apply Z.mod_pos_bound).
  rewrite cache_value by done. destruct (cache_cached (Z.shiftr d 8) (Z.land r 0x7f) Hr) as [Hc Hl].
  set (b := Z.shiftr d 8 * 256 + (128 + Z.land r 0x7f)) in *.
  apply wp_bind, wp_write_field; [by rewrite Hh2|by rewrite Hh2|]. apply wp_ret.
  assert (h_data16 (heap (set_heap (put_data16 i b (heap s2)) s2)) !! i = Some b) as Hd'
    by apply lookup_insert_eq.
  split; [|split; [exact (f_equal h_next Hh2)|split]].
  - apply (kept_item s2 x i d); try done; [by rewrite Hh2|apply high_of_low; lia|apply low_is_s16; [done|lia]].
  - intros y w (j & e & Hj & He & Hce & ->)%value_Some. destruct (decide (j = i)) as [->|Hne]; [congruence|].
    rewrite (value_item _ y j e), Hce; [done|done|]. rewrite <- He, <- Hh2. by apply lookup_insert_ne.
  - by rewrite (value_item _ x i b), Hc, Hl.
Qed.

Lemma cmp_complex_spec s x y ix iy : kept s → x ∈ L → y ∈ L →
  h_info (heap s0) !! x = Some ix → h_info (heap s0) !! y = Some iy →
  wp (cmp_complex ix iy true) (λ r s', kept s' ∧ h_next (heap s') = h_next (heap s) ∧ value_grows s s' ∧
    ∃ vx vy, value s' x = Some vx ∧ value s' y = Some vy ∧ (r ≤ 0 ↔ vx ≤ vy)) s.
Proof.
  intros Hk Hx Hy Hix Hiy. unfold cmp_complex. apply wp_bind. eapply wp_mono; [by apply (calc_func_spec s x)|].
  intros vx s1 (Hk1 & Hn1 & Hg1 & Hv1). apply wp_bind.
  eapply wp_mono; [by apply (calc_func_spec s1 y)|]. intros vy s2 (Hk2 & Hn2 & Hg2 & Hv2).
  apply wp_ret. split_and!; [done|congruence| |].
  - intros z v Hz. by apply Hg2, Hg1.
  - exists vx, vy. split; [by apply Hg2|]. split; [done|]. clear; lia.
Qed.


Lemma sort_by_value s l ls : kept s → path (h_next (heap s)) l ls 0 → ls ≡ₚ L → L ≠ [] →
  wp (core_list_mergesort l cmp_complex true) (λ l' s', kept s' ∧ nexts_kept s s' ∧
    ∃ ls', ls' ≡ₚ L ∧ path (h_next (heap s')) l' ls' 0 ∧ StronglySorted (before value ls s') ls') s.
Proof. intros. by apply mergesort_kept; [|exact cmp_complex_spec|..]. Qed.

(** ** The searches *)
Lemma kept_with_next s nx : kept s → kept (with_next nx s).
Proof. by intros []. Qed.

Lemma kept_in_heap s x : kept s → x ∈ L → in_heap s x.
Proof. intros [] Hx. destruct (lk_cells Hok x Hx) as (? & ? & _). unfold in_heap. rewrite k_lo0, k_hi0. lia. Qed.

Lemma kept_readable s x : kept s → x ∈ L → readable s x.
Proof.
  intros Hk Hx. destruct (kept_cell s x Hk Hx) as (i & d & v & Hi & Hd & _ & Hv & _).
  exists i, d, v. by rewrite (k_info s Hk), (k_idx s Hk).
Qed.

(** [s] has the cells of [L], in some order, as its list at [l]. *)
Definition lists (s : core) (l : Z) : Prop := ∃ ls, ls ≡ₚ L ∧ path (nexts s) l ls 0.

Lemma lists_length ls : ls ≡ₚ L → ZL ls < 2 ^ 30 ∧ NoDup ls.
Proof. intros E. rewrite (Permutation_length E), E. by destruct Hok. Qed.

(** Moving the cell behind [t] to the second place of the list. *)
Lemma cache_spec s l t : kept s → lists s l → t ∈ L →
  wp (finder ← next t;
      when (negb (finder =? 0))
        (n ← next finder;
         set_next t n;;
         n ← next l;
         set_next finder n;;
         set_next l finder)) (λ _ s', kept s' ∧ nexts_kept s s' ∧ lists s' l) s.
Proof.
  intros Hk (ls & Hls & Hp) Ht. destruct (lists_length ls Hls) as [_ Hnd].
  assert (∃ pre post, ls = pre ++ t :: post) as (pre & post & ->).
  { apply list_elem_of_split. by rewrite Hls. }
  apply path_app in Hp as (m & Hpre & -> & Ht0 & f & Hf & Hpost).
  apply wp_bind, wp_read_field with f; [done|]. destruct (Z.eqb_spec f 0) as [->|Hf0]; simpl.
  { apply wp_ret. split_and!; [done|by intros ??|]. exists (pre ++ t :: post). split; [done|].
    apply path_app. exists t. split; [done|]. split_and!; [done..|]. by exists 0. }
  destruct (path_cons_inv _ _ _ Hpost Hf0) as (post' & -> & n & Hn & Hpost').
  assert (f :: pre ++ t :: post' ≡ₚ L) as Hperm.
  { rewrite <- Hls, Permutation_middle. apply Permutation_app_head, perm_swap. }
  destruct (lists_length _ Hperm) as [_ [Hfn Hnd2]%NoDup_cons].
  assert (path (<[t := n]> (nexts s)) l (pre ++ t :: post') 0) as Hp1.
  { pose proof Hnd2 as (_ & Hd & [Htn _]%NoDup_cons)%NoDup_app. apply path_app. exists t. split.
    - apply path_frame; [|done]. intros Hi. eapply Hd; [exact Hi|by left].
    - split_and!; [done..|]. exists n. rewrite lookup_insert_eq. split; [done|by apply path_frame]. }
  assert (∃ rest, pre ++ t :: post' = l :: rest ∧ l ≠ 0) as (rest & Hrest & Hl0).
  { destruct pre as [|y pre]; simpl in *; destruct Hp1 as (<- & ? & _); eauto. }
  rewrite Hrest in *. destruct Hp1 as (_ & _ & h & Hh & Hp1).
  apply not_elem_of_cons in Hfn as [Hfl Hfr]. apply NoDup_cons in Hnd2 as [Hlr _].
  assert ((l ∈ L) ∧ (f ∈ L)) as [HlL HfL].
  { split; rewrite <- Hperm; [right; by left|by left]. }
  apply wp_bind, wp_read_field with n; [done|].
  apply wp_bind, wp_set_next; [by apply kept_in_heap|]. set (s1 := with_next _ s).
  assert (kept s1) as Hk1 by (by apply kept_with_next).
  apply wp_bind, wp_read_field with h; [done|].
  apply wp_bind, wp_set_next; [by apply kept_in_heap|]. set (s2 := with_next _ s1).
  assert (kept s2) as Hk2 by (by apply kept_with_next).
  apply wp_set_next; [by apply kept_in_heap|]. split; [by apply kept_with_next|]. split.
  - intros x Hx. change (<[l := f]> (<[f := h]> (<[t := n]> (nexts s))) !! x = nexts s !! x).
    by rewrite !lookup_insert_ne by (by intros ->).
  - exists (l :: f :: rest). split; [rewrite <- Hperm; apply perm_swap|].
    change (path (<[l := f]> (<[f := h]> (<[t := n]> (nexts s)))) l (l :: f :: rest) 0).
    split_and!; [done|done|]. exists f. rewrite lookup_insert_eq. split; [done|]. split_and!; [done|done|].
    exists h. rewrite lookup_insert_ne, lookup_insert_eq by done. split; [done|].
    apply path_frame; [done|]. by apply path_frame.
Qed.

Context (Hlen : 3 ≤ ZL L).

Lemma lists_cons s l : lists s l → ∃ x rest, l ≠ 0 ∧ nexts s !! l = Some x ∧ l ∈ L ∧ x ∈ L ∧ x ≠ 0 ∧
  path (nexts s) x (x :: rest) 0 ∧ l :: x :: rest ≡ₚ L.
Proof.
  intros (ls & Hls & Hp). pose proof (Permutation_length Hls) as Hl.
  destruct ls as [|y [|x ls]]; simpl in Hl; [lia|lia|]. destruct Hp as (-> & Hy & n & Hn & -> & Hx & m & Hm & Hp).
  exists x, ls. assert ((y ∈ L) ∧ (x ∈ L)) as [? ?].
  { split; rewrite <- Hls; [by left|right; by left]. }
  split; [done|]. split; [done|]. split; [done|]. split; [done|]. split; [done|]. split; [|done].
  split; [done|]. split; [done|]. by exists m.
Qed.

Lemma lists_reverse s l : kept s → lists s l →
  wp (core_list_reverse l) (λ l' s', kept s' ∧ nexts_kept s s' ∧ lists s' l' ∧
    ∀ x, value s' x = value s x) s.
Proof.
  intros Hk (ls & Hls & Hp). destruct (lists_length ls Hls) as [Hsh Hnd]. eapply wp_mono.
  { apply (reverse_spec s l ls); try done. intros x Hx. apply kept_in_heap; [done|]. by rewrite <- Hls. }
  intros l' s' (nx & -> & Hp' & Hf). split; [by apply kept_with_next|]. split.
  - intros x Hx. apply Hf. by rewrite Hls.
  - split; [|done]. exists (reverse ls). split; [by rewrite reverse_Permutation|done].
Qed.

Lemma find_in_list s l d : kept s → lists s l →
  wp (core_list_find l d) (λ r s', s' = s ∧ (r = 0 ∨ r ∈ L)) s.
Proof.
  intros Hk (ls & Hls & Hp). destruct (lists_length ls Hls) as [Hsh Hnd]. eapply wp_mono.
  { apply (find_spec s l ls d); try done. intros x Hx. apply kept_readable; [done|]. by rewrite <- Hls. }
  intros r s' (-> & pre & suf & -> & Hs & _). split; [done|]. destruct suf as [|y suf]; [by left|].
  destruct Hs as [-> _]. right. rewrite <- Hls. apply elem_of_app. right. by left.
Qed.

Lemma find_one_spec s i r0 l : kept s → lists s l → r0.1.2 = l →
  wp (find_one i r0) (λ '(_, _, _, l', _) s', kept s' ∧ nexts_kept s s' ∧ lists s' l') s.
Proof.
  destruct r0 as [[[[retval found] missed] l0] info_idx]. simpl. intros Hk Hls ->. unfold find_one.
  apply wp_bind. eapply wp_mono; [by apply find_in_list|]. intros t ? (-> & Ht).
  apply wp_bind. eapply wp_mono; [by apply lists_reverse|]. intros l1 s1 (Hk1 & Hf1 & Hl1 & _).
  apply wp_bind. eapply (wp_mono _ (λ _ s', kept s' ∧ nexts_kept s1 s' ∧ lists s' l1)).
  - destruct (Z.eqb_spec t 0) as [->|Ht0].
    + destruct (lists_cons s1 l1 Hl1) as (x & rest & _ & Hx & _ & HxL & _).
      apply wp_bind, wp_read_field with x; [done|].
      destruct (kept_readable s1 x Hk1 HxL) as (ix & d & v & Hix & Hd & _).
      apply wp_bind, wp_read_field with ix; [done|]. apply wp_bind, wp_read_field with d; [done|].
      apply wp_ret. by split.
    + destruct Ht as [|Ht]; [done|]. destruct (kept_readable s1 t Hk1 Ht) as (ix & d & v & Hix & Hd & _).
      apply wp_bind, wp_read_field with ix; [done|]. apply wp_bind, wp_read_field with d; [done|].
      apply wp_bind. eapply wp_mono; [exact (wp_bind_inv _ _ _ _ (cache_spec s1 l1 t Hk1 Hl1 Ht))|].
      intros f s2 Hf2. apply wp_bind. eapply wp_mono; [exact Hf2|]. intros ? s3 H3. by apply wp_ret.
  - intros [[rv fd] ms] s2 (Hk2 & Hf2 & Hl2). apply wp_ret. split; [done|]. split; [|done].
    intros x Hx. by rewrite Hf2, Hf1.
Qed.

Lemma crc_cells_spec s l finder suf rv i d :
  path (nexts s) finder suf 0 → ZL suf < 2 ^ 30 → h_info (heap s) !! l = Some i →
  h_data16 (heap s) !! i = Some d → wp (crc_cells l finder rv) (λ _ s', s' = s) s.
Proof.
  intros Hp Hsh Hi Hd.
  apply (wp_loop_ix (λ n '(f, _) s', s' = s ∧ ∃ suf, n = ZL suf ∧ path (nexts s) f suf 0) _ _ (ZL suf)).
  { split; [done|]. by exists suf. }
  { lia. }
  intros n [f r] s' (-> & suf1 & -> & Hp1). split; [lia|]. destruct (Z.eqb_spec f 0) as [->|Hf]; [by apply wp_ret|].
  destruct (path_cons_inv _ _ _ Hp1 Hf) as (suf2 & -> & m & Hm & Hp2).
  apply wp_bind, wp_read_field with i; [done|]. apply wp_bind, wp_read_field with d; [done|].
  apply wp_bind, wp_read_field with m; [done|]. apply wp_ret. exists (ZL suf2). rewrite length_cons.
  split; [lia|]. split; [done|]. by exists suf2.
Qed.

Lemma lists_crc s l rv : kept s → lists s l →
  wp (finder ← next l; crc_cells l finder rv) (λ _ s', s' = s) s.
Proof.
  intros Hk Hl. destruct (lists_cons s l Hl) as (x & rest & _ & Hx & HlL & _ & _ & Hp & Hperm).
  destruct (kept_readable s l Hk HlL) as (i & d & v & Hi & Hd & _).
  apply wp_bind, wp_read_field with x; [done|]. apply (crc_cells_spec s l x (x :: rest) rv i d); try done.
  apply lists_length in Hperm as [Hsh _]. rewrite !length_cons in *. lia.
Qed.

(** The list without the item of its second cell. *)
Lemma removed_view s l : kept s → lists s l → ∃ b c m ib ic rest, b ≠ c ∧
  nexts s !! l = Some b ∧ nexts s !! b = Some c ∧ nexts s !! c = Some m ∧
  h_info (heap s) !! b = Some ib ∧ h_info (heap s) !! c = Some ic ∧ in_heap s b ∧ in_heap s c ∧
  let s1 := removed b c m ib ic s in
  nexts s1 !! l = Some b ∧ path (nexts s1) l (l :: b :: rest) 0 ∧ ZL (l :: b :: rest) < 2 ^ 30 ∧
  ∀ x, x ∈ l :: b :: rest → readable s1 x.
Proof.
  intros Hk Hl. destruct (lists_cons s l Hl) as (b & rest & Hl0 & Hb & HlL & HbL & Hb0 & Hp & Hperm).
  pose proof (Permutation_length Hperm) as Hln. destruct rest as [|c rest]; [simpl in Hln; lia|].
  destruct (lists_length _ Hperm) as [Hsh Hnd]. destruct Hp as (_ & _ & n & Hn & -> & Hc0 & m & Hm & Hp).
  assert (c ∈ L) as HcL by (rewrite <- Hperm; right; right; by left).
  rewrite !NoDup_cons, !not_elem_of_cons in Hnd. destruct Hnd as ((Hlb & Hlc & Hlr) & (Hbc & Hbr) & Hcr & _).
  destruct (kept_readable s b Hk HbL) as (ib & db & vb & Hib & _).
  destruct (kept_readable s c Hk HcL) as (ic & dc & vc & Hic & Hdc & Hvc).
  exists b, c, m, ib, ic, rest. do 6 (split; [done|]). split; [by apply kept_in_heap|].
  split; [by apply kept_in_heap|]. intros s1.
  assert (nexts s1 = <[c := 0]> (<[b := m]> (nexts s))) as En by done.
  assert (h_info (heap s1) = <[c := ib]> (<[b := ic]> (h_info (heap s)))) as Ei by done.
  assert (nexts s1 !! l = Some b) as Hb1 by (by rewrite En, !lookup_insert_ne).
  split; [done|]. rewrite !length_cons in *. split; [|split; [lia|]].
  - split; [done|]. split; [done|]. exists b. split; [done|]. split; [done|]. split; [done|]. exists m.
    rewrite En, lookup_insert_ne, lookup_insert_eq by done. split; [done|].
    apply path_frame; [done|]. by apply path_frame.
  - intros x Hx. unfold readable. rewrite Ei. destruct (decide (x = b)) as [->|Hxb].
    + exists ic, dc, vc. by rewrite lookup_insert_ne, lookup_insert_eq.
    + assert (x ≠ c) by (intros ->; rewrite !elem_of_cons in Hx; naive_solver).
      rewrite !lookup_insert_ne by done. apply (kept_readable s x Hk). rewrite <- Hperm.
      rewrite !elem_of_cons in *. naive_solver.
Qed.

Lemma crc_without_second_spec s l retval info_idx info_data16 : kept s → lists s l →
  info_data16 ≠ None ∨ 0 ≤ info_idx →
  wp (crc_without_second l retval info_idx info_data16) (λ _ s', s' = s) s.
Proof.
  intros Hk Hl Hd. destruct (removed_view s l Hk Hl) as (b & c & m & ib & ic & rest & Hbc & Hb & Hbn & Hcn &
    Hib & Hic & Hbh & Hch & Hb1 & Hpl & Hsh & Hr1). set (s1 := removed b c m ib ic s) in *.
  apply wp_bind, wp_read_field with b; [done|]. apply wp_bind, (remove_spec s b c m ib ic); try done. fold s1.
  set (suffix := λ (r : Z) s', s' = s1 ∧ ∃ suf, path (nexts s1) r suf 0 ∧ ZL suf < 2 ^ 30).
  apply wp_bind. eapply (wp_mono _ suffix).
  - assert (∀ d, wp (core_list_find l d) suffix s1) as Hf.
    { intros d. eapply wp_mono; [by apply (find_spec s1 l (l :: b :: rest) d)|].
      intros r s' (-> & pre & suf & E & Hs & _). split; [done|]. exists suf. split; [done|].
      rewrite E, length_app in Hsh. lia. }
    destruct info_data16; [apply Hf|]. destruct Hd as [|Hd]; [done|].
    rewrite (proj2 (Z.leb_le _ _) Hd). apply Hf.
  - intros r s' (-> & suf & Hs & Hssh). apply wp_bind. eapply (wp_mono _ suffix).
    { destruct (r =? 0); [apply wp_read_field with b; [done|]|apply wp_ret]; (split; [done|]).
      - exists (b :: rest). destruct Hpl as (_ & _ & b' & Hb' & Hpl). split; [congruence|].
        rewrite !length_cons in *. lia.
      - by exists suf. }
    intros r' s' (-> & suf' & Hs' & Hssh'). destruct (Hr1 l ltac:(by left)) as (i & d & v & Hi & Hd' & _).
    apply wp_bind. eapply wp_mono; [by apply (crc_cells_spec s1 l r' suf' retval i d)|]. intros rv ? ->.
    apply wp_bind, wp_read_field with b; [done|]. apply wp_bind, undo_remove_spec; try done.
Qed.

(** ** The searches all together *)
Lemma find_loop_spec s l find_num finder_idx : kept s → lists s l → find_num < 2 ^ 15 →
  0 < find_num ∨ 0 ≤ finder_idx →
  wp (loop (λ '(i, d, r),
      if i <? find_num then r ← find_one i r; mret (inl (s16 (i + 1), Some (Z.land i 0xff), r))
      else mret (inr (r, d))) (0, None, (0, 0, 0, l, finder_idx)))
    (λ '(_, _, _, l', info_idx, info_data16) s', kept s' ∧ nexts_kept s s' ∧ lists s' l' ∧
       (info_data16 ≠ None ∨ 0 ≤ info_idx)) s.
Proof.
  intros Hk Hl Hf Hd.
  apply (wp_loop_ix (λ n '(i, d, r) s', kept s' ∧ nexts_kept s s' ∧ lists s' r.1.2 ∧ 0 ≤ i ≤ Z.max 0 find_num ∧
    n = Z.max 0 find_num - i ∧ (d = None → i = 0 ∧ r.2 = finder_idx)) _ _ (Z.max 0 find_num)).
  { split; [done|]. split; [done|]. split; [done|]. split; [lia|]. split; [lia|]. done. }
  { lia. }
  intros n [[i d] [[[[rv fd] ms] l1] ix]] s1 (Hk1 & Hf1 & Hl1 & Hi & -> & Hn). split; [lia|].
  simpl in *. destruct (Z.ltb_spec i find_num) as [Hlt|Hge].
  - apply wp_bind. eapply wp_mono; [by apply (find_one_spec s1 i (rv, fd, ms, l1, ix) l1)|].
    intros [[[[rv2 fd2] ms2] l2] ix2] s2 (Hk2 & Hf2 & Hl2). apply wp_ret. rewrite (wraps_small 16) by lia.
    exists (Z.max 0 find_num - (i + 1)). split; [lia|]. split; [done|]. split; [intros x Hx; by rewrite Hf2, Hf1|].
    split; [done|]. split; [lia|]. split; [lia|]. done.
  - apply wp_ret. split; [done|]. split; [done|]. split; [done|]. destruct d; [by left|]. right.
    destruct (Hn eq_refl) as [-> ->]. destruct Hd; lia.
Qed.

(** ** Back to the start *)

(** The list of [s0] is in the order of its indices, and no item is cached. *)
Definition idx_before (x y : Z) : Prop := ∃ i j v w, h_info (heap s0) !! x = Some i ∧
  h_info (heap s0) !! y = Some j ∧ h_idx (heap s0) !! i = Some v ∧ h_idx (heap s0) !! j = Some w ∧ v < w.
Definition items_fresh : Prop := ∀ x i d, x ∈ L → h_info (heap s0) !! x = Some i →
  h_data16 (heap s0) !! i = Some d → fresh d = d.

Lemma before_index s ls x y : kept s → before index ls s x y → index s x ≠ None ∧ index s y ≠ None ∧
  ∃ i j v w, h_info (heap s0) !! x = Some i ∧ h_info (heap s0) !! y = Some j ∧
    h_idx (heap s0) !! i = Some v ∧ h_idx (heap s0) !! j = Some w ∧ v ≤ w.
Proof.
  intros Hk (v & w & Hv & Hw & Hlt). rewrite Hv, Hw. split; [done|]. split; [done|].
  apply index_Some in Hv as (i & d & Hi & _ & _ & Hv). apply index_Some in Hw as (j & e & Hj & _ & _ & Hw).
  exists i, j, v, w. split_and!; done || lia.
Qed.

Lemma sorted_back s ls ls' : kept s → ls' ≡ₚ L → StronglySorted idx_before L →
  StronglySorted (before index ls s) ls' → ls' = L.
Proof.
  intros Hk Hp HL Hs.
  set (R := λ x y, ∃ i j v w, h_info (heap s0) !! x = Some i ∧ h_info (heap s0) !! y = Some j ∧
    h_idx (heap s0) !! i = Some v ∧ h_idx (heap s0) !! j = Some w ∧ v ≤ w).
  assert (∀ x y, x ∈ L → y ∈ L → R x y → R y x → x = y) as Hanti.
  { intros x y Hx Hy (i & j & v & w & Hi & Hj & Hv & Hw & Hle) (j' & i' & w' & v' & Hj' & Hi' & Hw' & Hv' & Hle').
    simplify_eq. destruct (decide (x = y)) as [|Hne]; [done|exfalso].
    assert (idx_before x y ∨ idx_before y x) as [B|B].
    { clear -HL Hx Hy Hne. induction HL as [|a l HL IH Ha]; [by apply elem_of_nil in Hx|].
      rewrite Forall_forall in Ha.
      apply elem_of_cons in Hx as [->|Hx], Hy as [->|Hy]; auto; done. }
    all: destruct B as (? & ? & ? & ? & ? & ? & ? & ? & ?); simplify_eq; lia. }
  apply (StronglySorted_unique_strong R); [| | |done].
  - intros x y Hx Hy. apply Hanti; [by rewrite <- Hp|done].
  - eapply SSorted_impl; [|exact Hs]. intros x y H.
    by destruct (before_index s ls x y Hk H) as (_ & _ & ?).
  - eapply SSorted_impl; [|exact HL]. intros x y (i & j & v & w & ? & ? & ? & ? & ?).
    exists i, j, v, w. split_and!; done || lia.
Qed.

(** In a sorted list of at least two cells every item was looked at. *)
Lemma sorted_all_fresh s ls ls' x : kept s → StronglySorted (before index ls s) ls' → (2 ≤ length ls')%nat →
  x ∈ ls' → index s x ≠ None.
Proof.
  intros Hk Hs Hl2 Hx. destruct Hs as [|a l Hs Ha]; [by apply elem_of_nil in Hx|]. rewrite Forall_forall in Ha.
  apply elem_of_cons in Hx as [->|Hx].
  - destruct l as [|b l]; [simpl in Hl2; lia|]. by destruct (before_index s ls a b Hk (Ha b ltac:(by left))).
  - by destruct (before_index s ls a x Hk (Ha x Hx)) as (_ & ? & _).
Qed.

Lemma heap_restored s l : kept s → nexts_kept s0 s → path (nexts s0) l L 0 → path (nexts s) l L 0 →
  items_fresh → (∀ x, x ∈ L → index s x ≠ None) → heap s = heap s0.
Proof.
  intros Hk Hf Hp0 Hp Hfr Hix. pose proof (k_info s Hk) as E1. pose proof (k_idx s Hk) as E2.
  pose proof (k_lo s Hk) as E3. pose proof (k_hi s Hk) as E4. pose proof (k_items s Hk) as [Hn Hi].
  assert (h_next (heap s) = h_next (heap s0)) as E5.
  { apply map_eq. intros x. destruct (decide (x ∈ L)); [by eapply path_det|by apply Hf]. }
  assert (h_data16 (heap s) = h_data16 (heap s0)) as E6.
  { apply map_eq. intros i. destruct (h_data16 (heap s0) !! i) as [a|] eqn:Ea; [|by apply Hn].
    destruct (Hi i a Ea) as (b & Hb & Hh & _ & Hno). rewrite Hb. f_equal.
    destruct (decide (Exists (λ x, h_info (heap s0) !! x = Some i) L)) as [He|He].
    - apply Exists_exists in He as (x & Hx & Hxi).
      destruct (index s x) as [v|] eqn:Ev; [|by destruct (Hix x Hx)].
      apply index_Some in Ev as (i' & d & Hi' & Hd & Hfd & _). simplify_eq.
      rewrite <- (Hfr x i a Hx Hxi Ea), <- Hfd. by apply fresh_high.
    - apply Hno. intros x Hx Hxi. apply He, Exists_exists. by exists x. }
  destruct (heap s), (heap s0). simpl in *. congruence.
Qed.

Lemma bench_list_spec finder_idx : path (nexts s0) (list_ (res s0)) L 0 → StronglySorted idx_before L →
  items_fresh → seed3 (res s0) < 2 ^ 15 → 0 < seed3 (res s0) ∨ 0 ≤ finder_idx →
  wp (core_bench_list finder_idx) (λ _ s', kept s' ∧ heap s' = heap s0) s0.
Proof.
  intros Hp Hs Hfr Hs3 Hfi. pose proof kept_refl as Hk0. unfold core_bench_list.
  apply wp_bind, wp_gets, wp_bind, wp_gets, wp_bind.
  eapply wp_mono; [apply (find_loop_spec s0 (list_ (res s0))); try done; by exists L|].
  intros [[[[[rv fd] ms] l1] ix] d] s1 (Hk1 & Hf1 & Hl1 & Hd). apply wp_bind.
  assert (L ≠ []) as HLne by (intros ->; simpl in Hlen; lia).
  eapply (wp_mono _ (λ l' s', kept s' ∧ nexts_kept s1 s' ∧ lists s' l')).
  { destruct (0 <? finder_idx); [|by apply wp_ret]. destruct Hl1 as (ls & Hls & Hp1).
    eapply wp_mono; [by apply (sort_by_value s1 l1 ls)|]. intros l2 s2 (Hk2 & Hf2 & ls2 & Hls2 & Hp2 & _).
    split; [done|]. split; [done|]. by exists ls2. }
  intros l2 s2 (Hk2 & Hf2 & Hl2). apply wp_bind.
  eapply wp_mono; [by apply crc_without_second_spec|]. intros rv2 ? ->. apply wp_bind.
  destruct Hl2 as (ls2 & Hls2 & Hp2). eapply wp_mono; [by apply (sort_by_idx s2 l2 ls2)|].
  intros l3 s3 (Hk3 & Hf3 & ls3 & Hls3 & Hp3 & Ho3).
  assert (heap s3 = heap s0) as Hh.
  { assert (∀ x, x ∈ L → index s3 x ≠ None) as Hix.
    { intros x Hx. eapply sorted_all_fresh; [done|exact Ho3| |by rewrite Hls3].
      rewrite (Permutation_length Hls3). lia. }
    pose proof (sorted_back s3 ls2 ls3 Hk3 Hls3 Hs Ho3) as ->.
    assert (nexts_kept s0 s3) as Hf03 by (intros x Hx; by rewrite Hf3, Hf2, Hf1).
    assert (l3 = list_ (res s0)) as ->.
    { destruct L as [|y L']; [done|]. destruct Hp as [-> _], Hp3 as [-> _]. done. }
    by eapply heap_restored. }
  eapply wp_mono; [apply lists_crc; [done|]; by exists ls3|]. by intros ? ? ->.
Qed.
End Bench.

(** * The benchmark as a whole *)

(** A state the initialisation may leave: the list [L] is at res->list, in the order of
    its indices and with fresh items; the matrices and the state block are in place. *)
Record ready (s : core) (L : list Z) : Prop := Ready {
  rd_list : list_ok s L;
  rd_length : 3 ≤ ZL L;
  rd_path : path (nexts s) (list_ (res s)) L 0;
  rd_sorted : StronglySorted (idx_before s) L;
  rd_fresh : items_fresh s L;
  rd_seed3 : seed3 (res s) < 2 ^ 15;
  rd_matrices : matrices_ok (matrices s);
  rd_blk3 : blk3_ok (res s) (blk3 s);
}.

(** [s'] is [s] but for the CRCs, the result matrix and, unless both corruptions of the
    state block cancel, that block. *)
Record back (s s' : core) : Prop := Back {
  bk_heap : heap s' = heap s;
  bk_N : mat_N (matrices s') = mat_N (matrices s);
  bk_A : mat_A (matrices s') = mat_A (matrices s);
  bk_B : mat_B (matrices s') = mat_B (matrices s);
  bk_C : a_len (mat_C (matrices s')) = a_len (mat_C (matrices s));
  bk_res : results_kept (res s) (res s');
  bk_blk3 : blk3_ok (res s) (blk3 s');
  bk_clean : blk3_clean s → blk3 s' = blk3 s;
}.

Lemma kept_back s L s' : blk3_ok (res s) (blk3 s) → kept s L s' → heap s' = heap s → back s s'.
Proof. intros Hb [] Hh. destruct k_matrices0 as (C & E & HC). constructor; auto; by rewrite E. Qed.

Lemma bench_list_back s L finder_idx : ready s L → 0 < seed3 (res s) ∨ 0 ≤ finder_idx →
  wp (core_bench_list finder_idx) (λ _ s', back s s') s.
Proof.
  intros [] Hf. eapply wp_mono; [by apply (bench_list_spec s L)|]. intros ? s' [Hk Hh]. by eapply kept_back.
Qed.

(** C24 core_bench_list ends, whatever the searches find and whatever the comparisons of the
    first sort make of the items, and it leaves everything as it was: every cell, item and
    index of the list, both input matrices and the settings; only the CRCs and the result
    matrix are new, and the state block when the two seeds do not cancel in it. *)
Theorem core_bench_list_restores s L finder_idx :
  ready s L → 0 < seed3 (res s) ∨ 0 ≤ finder_idx →
  wp (core_bench_list finder_idx) (λ _ s',
    heap s' = heap s ∧ mat_A (matrices s') = mat_A (matrices s) ∧ mat_B (matrices s') = mat_B (matrices s) ∧
    results_kept (res s) (res s') ∧ (blk3_clean s → blk3 s' = blk3 s)) s.
Proof. intros Hr Hf. eapply wp_mono; [by eapply bench_list_back|]. intros ? s' []. by split_and!. Qed.

Lemma mergesort_null cmp has_res s : 0 < h_lo (heap s) → core_list_mergesort 0 cmp has_res s = Fault.
Proof.
  intros Hlo. apply loop_fault. unfold mbind, M_bind.
  rewrite (wp_Ret (merge_pass cmp has_res 1 0) s (0, 0, 0) s).
  - unfold set_next, write_field. by rewrite (proj2 (Z.leb_gt _ _) Hlo).
  - apply (wp_loop_ix (λ n a s', n = 0 ∧ a = (0, 0, 0, 0) ∧ s' = s) _ _ 0); [done|lia|].
    intros n a s' (-> & -> & ->). split; [lia|]. by apply wp_ret.
Qed.

(** C25 core_list_mergesort with cmp_idx sorts a list in place: the result is a list of
    exactly the given cells, in the order of the indices of their items and, where indices
    are equal, in the order they had; no other cell is touched, no item changes its upper
    byte or index, and in a list of two or more every lower byte is regenerated.  The
    empty list, which a comment in the source allows for, is a NULL dereference. *)
Theorem core_list_mergesort_sorts s L l :
  list_ok s L → path (nexts s) l L 0 → 0 < h_lo (heap s) →
  if decide (L = []) then core_list_mergesort l cmp_idx false s = Fault
  else wp (core_list_mergesort l cmp_idx false) (λ l' s', ∃ L', L' ≡ₚ L ∧ path (nexts s') l' L' 0 ∧
    StronglySorted (λ x y, ∃ i j v w, h_info (heap s) !! x = Some i ∧ h_info (heap s) !! y = Some j ∧
      h_idx (heap s) !! i = Some v ∧ h_idx (heap s) !! j = Some w ∧
      (v < w ∨ v = w ∧ (place L x < place L y)%nat)) L' ∧
    (∀ x, x ∉ L → nexts s' !! x = nexts s !! x) ∧ h_info (heap s') = h_info (heap s) ∧
    h_idx (heap s') = h_idx (heap s) ∧ same_items s L (h_data16 (heap s')) ∧
    (2 ≤ ZL L → ∀ x i, x ∈ L → h_info (heap s) !! x = Some i →
       ∃ d, h_data16 (heap s') !! i = Some d ∧ fresh d = d)) s.
Proof.
  intros Hok Hp Hlo. destruct (decide (L = [])) as [->|Hne]; [simpl in Hp; subst l; by apply mergesort_null|].
  eapply wp_mono; [by apply (sort_by_idx s L Hok s l L (kept_refl s L))|].
  intros l' s' (Hk & Hf & L' & HL' & Hp' & Ho). exists L'. split; [done|]. split; [done|].
  split; [|split; [done|]; split; [by destruct Hk|]; split; [by destruct Hk|]; split; [by destruct Hk|]].
  - eapply SSorted_impl; [|exact Ho]. intros x y (v & w & Hv & Hw & Hlt).
    apply index_Some in Hv as (i & ? & Hi & _ & _ & Hv). apply index_Some in Hw as (j & ? & Hj & _ & _ & Hw).
    by exists i, j, v, w.
  - intros Hl2 x i Hx Hi. destruct (index s s' x) as [v|] eqn:Ev.
    + apply index_Some in Ev as (i' & d & Hi' & Hd & Hfd & _). simplify_eq. by exists d.
    + exfalso. eapply (sorted_all_fresh s L s' L L' x); try done; [|by rewrite HL'].
      apply Permutation_length in HL'. lia.
Qed.

(** * An example *)
Section Example_heap.
Definition small_heap : lheap :=
  LHeap (list_to_map [(16, 24); (24, 32); (32, 40); (40, 0)]) (list_to_map [(16, 48); (24, 52); (32, 56); (40, 60)])
    (list_to_map [(48, -32640); (52, 0x0909); (56, 0x1212); (60, -1)])
    (list_to_map [(48, 0); (52, 1); (56, 2); (60, 0x7fff)]) 16 64.
Definition small_core : core :=
  Core small_heap (mem_write ∅ 100 [53; 0; 0; 0; 0]) (MatParams 0 (Array 0 ∅) (Array 0 ∅) (Array 0 ∅))
    (CoreResults 0 0 5 100 4 1 7 16 0 0 0 0 0).

Lemma small_list_ok : list_ok small_core [16; 24; 32; 40].
Proof.
  constructor; [|repeat constructor; set_solver|done].
  intros x Hx. split; [|split].
  - rewrite !elem_of_cons, elem_of_nil in Hx. simpl. lia.
  - rewrite !elem_of_cons, elem_of_nil in Hx. simpl. lia.
  - rewrite !elem_of_cons, elem_of_nil in Hx. destruct Hx as [->|[->|[->|[->|[]]]]];
      [exists 48, (-32640), 0|exists 52, 0x0909, 1|exists 56, 0x1212, 2|exists 60, (-1), 0x7fff];
      (split; [reflexivity|]; split; [vm_compute; congruence|]; split; [vm_compute; congruence|];
       split; [reflexivity|]; split; [split; vm_compute; congruence|reflexivity]).
Qed.

Lemma small_ready : ready small_core [16; 24; 32; 40].
Proof.
  constructor.
  - apply small_list_ok.
  - simpl. lia.
  - repeat (split; [done|]; split; [done|]; eexists; split; [reflexivity|]). done.
  - repeat constructor; (eexists _, _, _, _; split; [reflexivity|]; split; [reflexivity|];
      split; [reflexivity|]; split; [reflexivity|done]).
  - intros x i d Hx Hi Hd. rewrite !elem_of_cons, elem_of_nil in Hx.
    destruct Hx as [->|[->|[->|[->|[]]]]]; injection Hi as <-; injection Hd as <-; reflexivity.
  - done.
  - exists (λ _, 0), (λ _, 0). repeat split; simpl; try lia; intros; lia.
  - split; [|split; [simpl; lia|split; [simpl; lia|split]]].
    + apply mem_wf_write; [by intros ???|]. repeat constructor; vm_compute; congruence.
    + eapply mapped_sub; [apply (arr_mapped _ 100 [53; 0; 0; 0; 0]), mem_write_arr|simpl; lia..].
    + exists 101. split; [simpl; lia|]. split; [|split; [reflexivity|]].
      * eapply mapped_sub; [apply (arr_mapped _ 100 [53; 0; 0; 0; 0]), mem_write_arr|simpl; lia..].
      * intros k Hk. unfold visited. simpl. apply Z.eqb_neq.
        rewrite Z.mod_small; lia.
Qed.

Lemma core_bench_list_restores_witness :
  wp (core_bench_list 1) (λ _ s',
    heap s' = heap small_core ∧ mat_A (matrices s') = mat_A (matrices small_core) ∧
    mat_B (matrices s') = mat_B (matrices small_core) ∧
    results_kept (res small_core) (res s') ∧
    (blk3_clean small_core → blk3 s' = blk3 small_core)) small_core.
Proof. apply (core_bench_list_restores small_core [16; 24; 32; 40] 1 small_ready). left. done. Defined.

Lemma core_list_mergesort_sorts_witness :
  wp (core_list_mergesort 16 cmp_idx false) (λ l' s', ∃ L', L' ≡ₚ [16; 24; 32; 40] ∧ path (nexts s') l' L' 0 ∧
    StronglySorted (λ x y, ∃ i j v w, h_info (heap small_core) !! x = Some i ∧ h_info (heap small_core) !! y = Some j ∧
      h_idx (heap small_core) !! i = Some v ∧ h_idx (heap small_core) !! j = Some w ∧
      (v < w ∨ v = w ∧ (place [16; 24; 32; 40]%Z x < place [16; 24; 32; 40]%Z y)%nat)) L' ∧
    (∀ x, x ∉ [16; 24; 32; 40] → nexts s' !! x = nexts small_core !! x) ∧
    h_info (heap s') = h_info (heap small_core) ∧
    h_idx (heap s') = h_idx (heap small_core) ∧ same_items small_core [16; 24; 32; 40] (h_data16 (heap s')) ∧
    (2 ≤ ZL [16; 24; 32; 40] → ∀ x i, x ∈ [16; 24; 32; 40] → h_info (heap small_core) !! x = Some i →
       ∃ d, h_data16 (heap s') !! i = Some d ∧ fresh d = d)) small_core.
Proof.
  apply (core_list_mergesort_sorts small_core [16; 24; 32; 40] 16 small_list_ok).
  - apply (rd_path _ _ small_ready).
  - done.
Defined.
End Example_heap.
