(* ===== verification/CmReady.v ===== *)
(** A checker for the states core_bench_list may start in, and iterate: whatever the number
    of iterations, it ends, leaves the data as it was and reports the CRCs of its first
    iteration. *)
From stdpp Require Import base list list_numbers gmap fin_maps sorting.
From Stdlib Require Import ZArith Lia.
From S2P Require Import Prelude Memory CmUtil CmState CmMatrix CmList CmSort CmBench CmMain.

#[local] Open Scope Z_scope.

(** * Deciding [ready] *)
Section Checker.
Implicit Types (s : core) (x p q n : Z) (l : list Z).

Definition in_rangeb (lo x hi : Z) : bool := (lo <=? x) && (x <? hi).
Definition is_s16b (x : Z) : bool := in_rangeb (-32768) x 32768.

Lemma in_rangeb_spec lo x hi : in_rangeb lo x hi = true → lo ≤ x < hi.
Proof. unfold in_rangeb. rewrite andb_true_iff. lia. Qed.

Lemma is_s16b_spec x : is_s16b x = true → is_s16 x.
Proof. intros H%in_rangeb_spec. done. Qed.

Definition check {A} (o : option A) (f : A → bool) : bool := match o with Some a => f a | None => false end.

Lemma check_spec {A} (o : option A) (f : A → bool) : check o f = true → ∃ a, o = Some a ∧ f a = true.
Proof. destruct o as [a|]; [|done]. intros H. by exists a. Qed.

Fixpoint pathb (nx : gmap Z Z) p l q : bool :=
  match l with
  | [] => p =? q
  | x :: l => (p =? x) && negb (x =? 0) && check (nx !! x) (λ n, pathb nx n l q)
  end.

Lemma pathb_spec nx p l q : pathb nx p l q = true → path nx p l q.
Proof.
  revert p. induction l as [|x l IH]; intros p; simpl; [lia|]. rewrite !andb_true_iff, negb_true_iff.
  intros [[Hp Hx] (n & Hn & H)%check_spec]. split; [lia|]. split; [lia|]. exists n. auto.
Qed.

Definition cell_okb s x : bool :=
  (h_lo (heap s) <=? x) && (x + 8 <=? h_hi (heap s)) && check (h_info (heap s) !! x) (λ i,
    (h_lo (heap s) <=? i) && (i + 4 <=? h_hi (heap s)) &&
    check (h_data16 (heap s) !! i) (λ d, is_s16b d && (fresh d =? d)) && check (h_idx (heap s) !! i) (λ _, true)).

Lemma cell_okb_spec s x : cell_okb s x = true → cell_ok s x ∧
  ∀ i d, h_info (heap s) !! x = Some i → h_data16 (heap s) !! i = Some d → fresh d = d.
Proof.
  unfold cell_okb. rewrite !andb_true_iff. intros [[H1 H2] (i & Hi & H)%check_spec].
  rewrite !andb_true_iff in H. destruct H as [[[H3 H4] (d & Hd & H)%check_spec] (v & Hv & _)%check_spec].
  apply andb_true_iff in H as [Hs Hf]. split.
  - split; [lia|]. split; [lia|]. exists i, d, v. split; [done|]. split; [lia|]. split; [lia|].
    split; [done|]. split; [by apply is_s16b_spec|done].
  - intros i' d' Hi' Hd'. simplify_eq. lia.
Qed.

Definition idx_val s x : option Z := i ← h_info (heap s) !! x; h_idx (heap s) !! i.
Definition idx_beforeb s x y : bool := check (idx_val s x) (λ v, check (idx_val s y) (λ w, v <? w)).
Fixpoint sortedb s l : bool :=
  match l with
  | [] => true
  | x :: l => forallb (idx_beforeb s x) l && sortedb s l
  end.

Lemma idx_beforeb_spec s x y : idx_beforeb s x y = true → idx_before s x y.
Proof.
  intros (v & Hv & (w & Hw & H)%check_spec)%check_spec.
  apply bind_Some in Hv as (i & Hi & Hv). apply bind_Some in Hw as (j & Hj & Hw).
  exists i, j, v, w. split_and!; done || lia.
Qed.

Lemma sortedb_spec s l : sortedb s l = true → StronglySorted (idx_before s) l.
Proof.
  induction l as [|x l IH]; simpl; [constructor|]. rewrite andb_true_iff. intros [Hx Hl].
  constructor; [auto|]. apply Forall_forall. intros y Hy. apply idx_beforeb_spec.
  rewrite forallb_forall in Hx. apply Hx. by apply list_elem_of_In.
Qed.

Definition cellsb (a : array) n (f : Z → bool) : bool :=
  (a_len a =? n) && forallb (λ k, check (a_cells a !! k) f) (seqZ 0 n).

Lemma cellsb_spec a n f : cellsb a n f = true →
  holds a (λ k, default 0 (a_cells a !! k)) n ∧ ∀ k, 0 ≤ k < n → f (default 0 (a_cells a !! k)) = true.
Proof.
  unfold cellsb. rewrite andb_true_iff, forallb_forall. intros [Hl Hc].
  assert (∀ k, 0 ≤ k < n → ∃ v, a_cells a !! k = Some v ∧ f v = true) as Hc'.
  { intros k Hk. apply check_spec, Hc, list_elem_of_In, elem_of_seqZ. lia. }
  split; [split; [lia|]|]; intros k Hk; destruct (Hc' k Hk) as (v & -> & Hv); done.
Qed.

Lemma matrices_okb_spec (p : mat_params) :
  let n := mat_N p * mat_N p in
  (0 <=? mat_N p) && (n <? 2 ^ 32) && cellsb (mat_A p) n is_s16b && cellsb (mat_B p) n (λ _, true) &&
  (a_len (mat_C p) =? n) = true → matrices_ok p.
Proof.
  intros n. rewrite !andb_true_iff. intros [[[[H0 HN] [HA Hs]%cellsb_spec] [HB _]%cellsb_spec] HC].
  exists (λ k, if in_rangeb 0 k n then default 0 (a_cells (mat_A p) !! k) else 0), (λ k, default 0 (a_cells (mat_B p) !! k)).
  subst n. split; [lia|]. split; [lia|]. split; [|split; [done|split; [lia|]]].
  - destruct HA as [Hl HA]. split; [done|]. intros k Hk. rewrite (HA k Hk). unfold in_rangeb.
    by rewrite (proj2 (Z.leb_le 0 k)), (proj2 (Z.ltb_lt k _)) by lia.
  - intros k. destruct (in_rangeb 0 k _) eqn:E; [|done]. apply in_rangeb_spec in E. apply is_s16b_spec, Hs, E.
Qed.

Definition mappedb (m : mem) a n : bool := forallb (λ x, check (m !! x) (λ _, true)) (seqZ a n).

Lemma mappedb_spec m a n : mappedb m a n = true → mapped m a n.
Proof.
  unfold mappedb. rewrite forallb_forall. intros H x Hx.
  destruct (check_spec (m !! x) (λ _, true)) as (v & -> & _); [|by exists v].
  apply H, list_elem_of_In, elem_of_seqZ. lia.
Qed.

Definition terminatorb (m : mem) a n z : bool :=
  check (m !! z) (λ v, v =? 0) && forallb (λ k, negb (visited a (a + n) (17 * k) z)) (seqZ 2 14).

Definition blk3_okb (r : core_results) (m : mem) : bool :=
  forallb (λ '(_, v), in_rangeb 0 v 256) (map_to_list m) && in_rangeb 0 (memblock3 r) (2 ^ 32) &&
  in_rangeb 0 (CmList.size r) (2 ^ 32) && mappedb m (memblock3 r) (CmList.size r) &&
  existsb (terminatorb m (memblock3 r) (CmList.size r)) (seqZ (memblock3 r) (CmList.size r)).

Lemma blk3_okb_spec r m : blk3_okb r m = true → blk3_ok r m.
Proof.
  unfold blk3_okb. rewrite !andb_true_iff. intros [[[[Hw Hp%in_rangeb_spec] Hs%in_rangeb_spec] Hm%mappedb_spec] Hz].
  apply existsb_exists in Hz as (z & Hz & Ht). apply list_elem_of_In, elem_of_seqZ in Hz.
  unfold terminatorb in Ht. apply andb_true_iff in Ht as [(v & Hv & Hv0)%check_spec Hk].
  split; [|split; [done|split; [done|split; [done|]]]].
  - intros x b Hb. rewrite forallb_forall in Hw. apply (in_rangeb_spec 0 b 256), (Hw (x, b)).
    by apply list_elem_of_In, elem_of_map_to_list.
  - exists z. split; [lia|]. split; [eapply mapped_sub; [exact Hm|lia..]|]. split; [rewrite Hv; f_equal; lia|].
    intros k Hk'. rewrite forallb_forall in Hk. apply negb_true_iff, Hk, list_elem_of_In, elem_of_seqZ. lia.
Qed.

Definition readyb s l : bool :=
  forallb (cell_okb s) l && bool_decide (NoDup l) && in_rangeb 3 (ZL l) (2 ^ 30) &&
  pathb (nexts s) (list_ (res s)) l 0 && sortedb s l && (seed3 (res s) <? 2 ^ 15) &&
  (let p := matrices s in let n := mat_N p * mat_N p in
   (0 <=? mat_N p) && (n <? 2 ^ 32) && cellsb (mat_A p) n is_s16b && cellsb (mat_B p) n (λ _, true) &&
   (a_len (mat_C p) =? n)) && blk3_okb (res s) (blk3 s).

Lemma readyb_spec s l : readyb s l = true → ready s l.
Proof.
  unfold readyb. rewrite (andb_true_iff _ (blk3_okb _ _)), andb_true_iff.
  intros [[H Hm%matrices_okb_spec] Hb%blk3_okb_spec]. rewrite !andb_true_iff in H.
  destruct H as [[[[[Hc Hn%bool_decide_eq_true] Hl%in_rangeb_spec] Hp%pathb_spec] Hs%sortedb_spec] H3].
  rewrite forallb_forall in Hc. assert (∀ x, x ∈ l → cell_okb s x = true) as Hc'.
  { intros x Hx. by apply Hc, list_elem_of_In. }
  constructor; try done; try lia.
  - constructor; [|done|lia]. intros x Hx. by apply cell_okb_spec, Hc'.
  - intros x i d Hx. by apply cell_okb_spec, Hc'.
Qed.
End Checker.

(** * Iterations *)
Section Iterations.
Implicit Types (s : core) (L : list Z).

Lemma settings_same r r' : set_crcs 0 0 0 0 r' = set_crcs 0 0 0 0 r →
  seed1 r' = seed1 r ∧ seed2 r' = seed2 r ∧ seed3 r' = seed3 r ∧ memblock3 r' = memblock3 r ∧
  CmList.size r' = CmList.size r ∧ iterations r' = iterations r ∧ list_ r' = list_ r.
Proof. destruct r, r'. intros [= -> -> -> -> -> -> -> -> ->]. done. Qed.

(** The data of [s'] is that of [s]; nothing is said of the CRCs. *)
Definition same_data (s s' : core) : Prop :=
  heap s' = heap s ∧ mat_N (matrices s') = mat_N (matrices s) ∧ mat_A (matrices s') = mat_A (matrices s) ∧
  mat_B (matrices s') = mat_B (matrices s) ∧ a_len (mat_C (matrices s')) = a_len (mat_C (matrices s)) ∧
  set_crcs 0 0 0 0 (res s') = set_crcs 0 0 0 0 (res s) ∧ blk3_ok (res s) (blk3 s') ∧
  (blk3_clean s → blk3 s' = blk3 s).

Lemma same_data_refl s L : ready s L → same_data s s.
Proof. intros Hr. do 6 (split; [done|]). split; [apply (rd_blk3 s L Hr)|done]. Qed.

Lemma blk3_ok_same r r' m : set_crcs 0 0 0 0 r' = set_crcs 0 0 0 0 r → blk3_ok r m → blk3_ok r' m.
Proof. intros (_ & _ & _ & E1 & E2 & _)%settings_same. unfold blk3_ok. by rewrite E1, E2. Qed.

Lemma same_data_trans s1 s2 s3 : same_data s1 s2 → same_data s2 s3 → same_data s1 s3.
Proof.
  intros (H1 & N1 & A1 & B1 & C1 & R1 & K1 & D1) (H2 & N2 & A2 & B2 & C2 & R2 & K2 & D2).
  do 6 (split; [congruence|]). split; [by eapply (blk3_ok_same (res s2))|].
  intros Hc. rewrite D2; [by apply D1|]. destruct Hc as [Hs Hb].
  destruct (settings_same _ _ R1) as (E1 & E2 & _ & E3 & E4 & _). unfold blk3_clean.
  rewrite E1, E2, E3, E4, (D1 (conj Hs Hb)). done.
Qed.

Lemma same_data_ready s s' L : same_data s s' → ready s L → ready s' L.
Proof.
  intros (H & N & A & B & C & R & K & _) Hr. destruct (settings_same _ _ R) as (_ & _ & E3 & _ & _ & _ & E7).
  constructor.
  - destruct (rd_list s L Hr) as [Hc ? ?]. constructor; try done. unfold cell_ok. by rewrite H.
  - apply (rd_length s L Hr).
  - unfold nexts. rewrite H, E7. apply (rd_path s L Hr).
  - eapply SSorted_impl; [|exact (rd_sorted s L Hr)]. intros x y. unfold idx_before. by rewrite H.
  - unfold items_fresh. rewrite H. apply (rd_fresh s L Hr).
  - rewrite E3. apply (rd_seed3 s L Hr).
  - destruct (rd_matrices s L Hr) as (fa & fb & Hm). exists fa, fb. by rewrite N, A, B, C.
  - by eapply (blk3_ok_same (res s)).
Qed.

Lemma back_same_data s s' : back s s' → same_data s s'.
Proof. intros [H1 H2 H3 H4 H5 [H6 _] H7 H8]. by do 7 (split; [done|]). Qed.

Lemma same_data_res s r : blk3_ok (res s) (blk3 s) → set_crcs 0 0 0 0 r = set_crcs 0 0 0 0 (res s) →
  same_data s (set_res r s).
Proof. intros Hb Hr. by do 7 (split; [done|]). Qed.

(** What an iteration but the first one leaves of the three reported CRCs. *)
Definition same_crcs (s s' : core) : Prop :=
  crclist (res s') = crclist (res s) ∧ (crcmatrix (res s) ≠ 0 → crcmatrix (res s') = crcmatrix (res s)) ∧
  (crcstate (res s) ≠ 0 → crcstate (res s') = crcstate (res s)).

Lemma same_crcs_trans s1 s2 s3 : same_crcs s1 s2 → same_crcs s2 s3 → same_crcs s1 s3.
Proof.
  intros (L1 & M1 & S1) (L2 & M2 & S2). split; [congruence|]. split; intros H.
  - rewrite M2; [by apply M1|]. by rewrite M1.
  - rewrite S2; [by apply S1|]. by rewrite S1.
Qed.

Lemma bench_list_crc_spec s L finder_idx : ready s L → 0 < seed3 (res s) →
  wp (bench_list_crc finder_idx) (λ _ s', same_data s s' ∧ same_crcs s s') s.
Proof.
  intros Hr H3. apply wp_bind. eapply wp_mono; [apply (bench_list_back s L); [done|by left]|].
  intros c s1 Hb. pose proof (back_same_data _ _ Hb) as Hd. apply wp_bind, wp_gets, wp_modify. split.
  - eapply same_data_trans; [exact Hd|]. apply same_data_res; [|done].
    apply (rd_blk3 s1 L). by eapply same_data_ready.
  - by destruct Hb as [_ _ _ _ _ (_ & ? & ? & ?) _ _].
Qed.

Lemma iteration_spec s L i : ready s L → 0 < seed3 (res s) →
  wp (iteration i) (λ _ s', same_data s s' ∧ (i ≠ 0 → same_crcs s s')) s.
Proof.
  intros Hr H3. unfold iteration. apply wp_bind. eapply wp_mono; [by eapply bench_list_crc_spec|].
  intros ? s1 [Hd1 Hc1]. pose proof (same_data_ready _ _ _ Hd1 Hr) as Hr1. apply wp_bind.
  eapply wp_mono; [apply (bench_list_crc_spec s1 L); [done|]|].
  { destruct Hd1 as (_ & _ & _ & _ & _ & R & _). by destruct (settings_same _ _ R) as (_ & _ & -> & _). }
  intros ? s2 [Hd2 Hc2]. pose proof (same_data_trans _ _ _ Hd1 Hd2) as Hd.
  pose proof (same_crcs_trans _ _ _ Hc1 Hc2) as Hc. apply wp_bind, wp_gets. unfold when.
  destruct (Z.eqb_spec i 0) as [->|]; [|by apply wp_ret]. apply wp_modify. split; [|done].
  eapply same_data_trans; [exact Hd|]. apply same_data_res; [|done].
  apply (rd_blk3 s2 L). by eapply same_data_ready.
Qed.

(** The state [iterate] starts its loop in. *)
Definition cleared s : core := set_res (set_crcs 0 0 0 0 (res s)) s.

Lemma cleared_ready s L : ready s L → ready (cleared s) L ∧ same_data s (cleared s).
Proof.
  intros Hr. assert (same_data s (cleared s)) as Hd by (apply same_data_res; [apply (rd_blk3 s L Hr)|done]).
  split; [by eapply same_data_ready|done].
Qed.

Lemma iterate_spec s L : ready s L → 0 < seed3 (res s) → 0 ≤ iterations (res s) < 2 ^ 32 →
  wp iterate (λ _ s', same_data s s' ∧
    (0 < iterations (res s) → ∃ s1, iteration 0 (cleared s) = Ret ((), s1) ∧ same_crcs s1 s')) s.
Proof.
  intros Hr H3 Hn. destruct (cleared_ready s L Hr) as [Hr0 Hd0]. unfold iterate.
  apply wp_bind, wp_gets. do 4 apply wp_bind, wp_modify. change (wp (loop _ 0) ?Q (set_res _ _)) with (wp (loop
    (λ i, if i <? iterations (res s) then iteration i;; mret (inl (u32 (i + 1))) else mret (inr ())) 0) Q (cleared s)).
  apply (wp_loop_ix (λ n i s', n = iterations (res s) - i ∧ 0 ≤ i ≤ iterations (res s) ∧ same_data s s' ∧
    (i = 0 → s' = cleared s) ∧ (0 < i → ∃ s1, iteration 0 (cleared s) = Ret ((), s1) ∧ same_crcs s1 s'))
    _ _ (iterations (res s))).
  { split; [lia|]. split; [lia|]. split; [done|]. split; [done|lia]. }
  { lia. }
  intros n i s' (-> & Hi & Hd & Hz & Hp). split; [lia|]. destruct (Z.ltb_spec i (iterations (res s))) as [Hlt|Hge].
  - apply wp_bind. pose proof (same_data_ready _ _ _ Hd Hr) as Hr'.
    assert (0 < seed3 (res s')) as H3'.
    { destruct Hd as (_ & _ & _ & _ & _ & R & _). by destruct (settings_same _ _ R) as (_ & _ & -> & _). }
    destruct (wp_inv _ _ _ (iteration_spec s' L i Hr' H3')) as ([] & s2 & E & Hd2 & Hc2).
    apply (wp_eq _ _ _ _ _ E), wp_ret. rewrite (wrapu_small 32) by lia.
    exists (iterations (res s) - (i + 1)). split; [lia|]. split; [done|]. split; [lia|].
    split; [by eapply same_data_trans|]. split; [lia|]. intros _.
    destruct (Z.eq_dec i 0) as [->|Hne].
    + exists s2. rewrite <- (Hz eq_refl). split; [done|]. by split_and!.
    + destruct Hp as (s1 & E1 & Hc1); [lia|]. exists s1. split; [done|]. eapply same_crcs_trans; [exact Hc1|auto].
  - apply wp_ret. split; [done|]. intros. apply Hp. lia.
Qed.

(** C25 iterate ends after any number of iterations with the list, the input matrices and the
    settings as they were, and the state block too when the seeds cancel in it; and the CRC
    of the list, and every non-zero CRC of the matrix and the state, are those the first
    iteration computes, whatever the number of iterations. *)
Theorem iterate_reports_first s L :
  ready s L → 0 < seed3 (res s) → 0 < iterations (res s) < 2 ^ 32 →
  wp iterate (λ _ s',
    heap s' = heap s ∧ mat_A (matrices s') = mat_A (matrices s) ∧ mat_B (matrices s') = mat_B (matrices s) ∧
    set_crcs 0 0 0 0 (res s') = set_crcs 0 0 0 0 (res s) ∧ (blk3_clean s → blk3 s' = blk3 s) ∧
    ∃ s1, iteration 0 (cleared s) = Ret ((), s1) ∧ crclist (res s') = crclist (res s1) ∧
      (crcmatrix (res s1) ≠ 0 → crcmatrix (res s') = crcmatrix (res s1)) ∧
      (crcstate (res s1) ≠ 0 → crcstate (res s') = crcstate (res s1))) s.
Proof.
  intros Hr H3 Hn. eapply wp_mono; [apply (iterate_spec s L); done || lia|].
  intros ? s' [(H & _ & HA & HB & _ & R & _ & Hb) Hc]. destruct Hc as (s1 & E & Hl & Hm & Hst); [lia|].
  do 5 (split; [done|]). by exists s1.
Qed.
End Iterations.
