(* ===== verification/CmKnown.v ===== *)
(** The published results: on the known settings main ends with no errors for every number
    of iterations, the CRCs being those of the tables of coremark.c. *)
From stdpp Require Import base list list_numbers gmap fin_maps sorting.
From Stdlib Require Import ZArith Lia.
From S2P Require Import Prelude Memory CmUtil CmState CmMatrix CmList CmSort CmBench CmMain CmReady.

#[local] Open Scope Z_scope.

(** The cells of the list at [p]. *)
Fixpoint walk (nx : gmap Z Z) (p : Z) (n : nat) : list Z :=
  match n with
  | O => []
  | S n => if p =? 0 then [] else p :: match nx !! p with Some q => walk nx q n | None => [] end
  end.
Definition cells (s : core) : list Z := walk (nexts s) (list_ (res s)) 1000.

(** The arguments of the known runs: three seeds and the size of the whole block, 0 for
    the default. *)
Definition known_args (id : Z) : Z * Z * Z * Z :=
  if id =? 2 then (8, 8, 8, 1200)
  else if id =? 3 then (0, 0, 0, 0)
  else (1, 0, 0, 0).

Definition block_addr : Z := 0x20000.
Definition start (id n : Z) : M core () :=
  let '(s1, s2, s3, ov) := known_args id in
  configure block_addr (s16 s1) (s16 s2) (s16 s3) n 0 (s16 ov).

Definition any_core : core :=
  Core (LHeap ∅ ∅ ∅ ∅ 0 0) ∅ (MatParams 0 (Array 0 ∅) (Array 0 ∅) (Array 0 ∅))
    (CoreResults 0 0 0 0 0 0 0 0 0 0 0 0 0).

(** What a run of the initialisation and the first iteration shows. *)
Definition first_round (id n : Z) : option (bool * Z * Z * Z * Z * Z * Z) :=
  match start id n any_core with
  | Ret (_, s) =>
      match iteration 0 (cleared s) with
      | Ret (_, s1) => Some (readyb s (cells s) && (0 <? seed3 (res s)), iterations (res s), execs (res s), seed_crc (res s),
                             crclist (res s1), crcmatrix (res s1), crcstate (res s1))
      | _ => None
      end
  | _ => None
  end.

Lemma first_round_2 n : first_round 2 n = Some (true, n, 7, 0x4eaf, 0x6a79, 0x5608, 0xe5a4).
Proof. vm_compute. reflexivity. Qed.

Lemma first_round_3 n : first_round 3 n = Some (true, n, 7, 0xe9f5, 0xe714, 0x1fd7, 0x8e3a).
Proof. vm_compute. reflexivity. Qed.

Lemma first_round_4 n : first_round 4 n = Some (true, n, 7, 0x18f2, 0xe3c1, 0x0747, 0x8d84).
Proof. vm_compute. reflexivity. Qed.

(** * main on the known settings *)
Section Known.
Implicit Types (id n : Z) (s : core).

Lemma start_any id n s : start id n s = start id n any_core.
Proof.
  unfold start, configure. destruct (known_args id) as [[[s1 s2] s3] ov].
  destruct (default_seeds _) as [[t1 t2] t3]. unfold layout. by destruct (_ =? 0).
Qed.

(** [start] and the first iteration, from [first_round]. *)
Lemma first_round_inv id n ok it ex sc cl cm cs : first_round id n = Some (ok, it, ex, sc, cl, cm, cs) →
  ∃ s s1, start id n any_core = Ret ((), s) ∧ iteration 0 (cleared s) = Ret ((), s1) ∧
    ok = readyb s (cells s) && (0 <? seed3 (res s)) ∧ it = iterations (res s) ∧ ex = execs (res s) ∧ sc = seed_crc (res s) ∧
    cl = crclist (res s1) ∧ cm = crcmatrix (res s1) ∧ cs = crcstate (res s1).
Proof.
  unfold first_round. destruct (start id n any_core) as [[[] s]| |]; [|done..].
  destruct (iteration 0 (cleared s)) as [[[] s1]| |] eqn:E; [|done..]. intros H. simplify_eq. by exists s, s1.
Qed.

Lemma first_round_known id n : 2 ≤ id ≤ 4 → ∃ cl cm cs sc, first_round id n = Some (true, n, 7, sc, cl, cm, cs) ∧
  known_id sc = id ∧ cl = known list_known_crc id ∧ cm = known matrix_known_crc id ∧ cs = known state_known_crc id ∧
  cm ≠ 0 ∧ cs ≠ 0.
Proof.
  intros Hid. assert (id = 2 ∨ id = 3 ∨ id = 4) as [->|[->| ->]] by lia.
  - rewrite first_round_2. by eexists _, _, _, _.
  - rewrite first_round_3. by eexists _, _, _, _.
  - rewrite first_round_4. by eexists _, _, _, _.
Qed.

Lemma execs_same r r' : set_crcs 0 0 0 0 r' = set_crcs 0 0 0 0 r → execs r' = execs r ∧ seed_crc r' = seed_crc r.
Proof. destruct r, r'. intros [= -> -> -> -> -> -> -> -> ->]. done. Qed.

(** The check against the tables counts no error when all three CRCs agree. *)
Lemma check_results_ok s id : known_id (seed_crc (res s)) = id → 0 ≤ id →
  crclist (res s) = known list_known_crc id → crcmatrix (res s) = known matrix_known_crc id →
  crcstate (res s) = known state_known_crc id → check_results s = Ret (0, set_res (set_err 0 (res s)) s).
Proof.
  intros Hid H0 Hl Hm Hs. unfold check_results, results, gets, mbind, M_bind. cbn beta iota. rewrite Hid.
  rewrite (proj2 (Z.ltb_ge id 0)) by done. cbn zeta. rewrite Hl, Hm, Hs, !Z.eqb_refl, !andb_false_r. done.
Qed.

Lemma wp_get_seed_32 argc argv m i v (Q : Z → core → Prop) s :
  get_seed_args i argc argv m = Ret (v, m) → Q v s → wp (get_seed_32 argc argv m i) Q s.
Proof. intros E HQ. unfold wp, get_seed_32. by rewrite E. Qed.

Lemma wp_get_seed argc argv m i v (Q : Z → core → Prop) s :
  get_seed_args i argc argv m = Ret (v, m) → Q (s16 v) s → wp (get_seed argc argv m i) Q s.
Proof. intros E HQ. apply wp_bind. by apply (wp_get_seed_32 _ _ _ _ v). Qed.

(** C26 The published results of CoreMark: on the settings of the profile run (8, 8, 8 with
    400 bytes per algorithm), the performance run (no seeds given) and the validation run
    (1, 0, 0), and for every number of iterations, main recognises the settings, the three
    CRCs are those of the tables in coremark.c, no error is counted, and the only thing left
    to complain about is a run of less than ten seconds.  Malloc's answer is [block_addr]. *)
Theorem main_known_results id n argc argv arg_mem rdtime s :
  2 ≤ id ≤ 4 → 0 < n < 2 ^ 31 →
  (let '(s1, s2, s3, ov) := known_args id in
   get_seed_args 1 argc argv arg_mem = Ret (s1, arg_mem) ∧ get_seed_args 2 argc argv arg_mem = Ret (s2, arg_mem) ∧
   get_seed_args 3 argc argv arg_mem = Ret (s3, arg_mem) ∧ get_seed_args 7 argc argv arg_mem = Ret (ov, arg_mem)) →
  get_seed_args 4 argc argv arg_mem = Ret (n, arg_mem) → get_seed_args 5 argc argv arg_mem = Ret (0, arg_mem) →
  wp (main argc argv arg_mem block_addr rdtime) (λ total_errors s',
    total_errors = (if secs_between rdtime 0 <? 10 then 1 else 0) ∧ err (res s') = 0 ∧
    known_id (seed_crc (res s')) = id ∧ crclist (res s') = known list_known_crc id ∧
    crcmatrix (res s') = known matrix_known_crc id ∧ crcstate (res s') = known state_known_crc id) s.
Proof.
  intros Hid Hn Hargs H4 H5.
  destruct (first_round_known id n Hid) as (cl & cm & cs & sc & Hfr & Hsc & Hcl & Hcm & Hcs & Hm0 & Hs0).
  destruct (first_round_inv _ _ _ _ _ _ _ _ _ Hfr) as (s0 & s1 & Hst & Hit & Hok & Hn0 & Hex & -> & -> & -> & ->).
  symmetry in Hok. apply andb_true_iff in Hok as [Hr%readyb_spec H3].
  unfold start in Hst. destruct (known_args id) as [[[a1 a2] a3] ov] eqn:Ea. destruct Hargs as (A1 & A2 & A3 & A7).
  unfold main. apply wp_bind, (wp_get_seed _ _ _ _ _ _ _ A1), wp_bind, (wp_get_seed _ _ _ _ _ _ _ A2), wp_bind,
    (wp_get_seed _ _ _ _ _ _ _ A3), wp_bind, (wp_get_seed_32 _ _ _ _ _ _ _ H4), wp_bind,
    (wp_get_seed_32 _ _ _ _ _ _ _ H5), wp_bind, (wp_get_seed _ _ _ _ _ _ _ A7), wp_bind.
  rewrite (wrapu_small 32) by lia.
  assert (configure block_addr (s16 a1) (s16 a2) (s16 a3) n 0 (s16 ov) s = Ret ((), s0)) as Hcf.
  { rewrite <- Hst. pose proof (start_any id n s) as E. unfold start in E. by rewrite Ea in E. }
  apply (wp_eq _ _ _ _ _ Hcf), wp_bind. unfold auto_iterations. apply wp_bind, wp_gets.
  rewrite <- Hn0, (proj2 (Z.eqb_neq n 0)) by lia. apply wp_ret, wp_bind.
  eapply wp_mono; [apply (iterate_spec s0 (cells s0)); [done|lia|lia]|].
  intros [] s2 [(_ & _ & _ & _ & _ & R & _) Hc]. destruct Hc as (s1' & Hit' & Hl & Hm & Hs); [lia|].
  assert (s1' = s1) as -> by congruence. destruct (execs_same _ _ R) as [_ Hsd].
  apply wp_bind. eapply wp_eq.
  { apply (check_results_ok s2 id); [congruence|lia|congruence| |]; [rewrite Hm|rewrite Hs]; congruence. }
  apply wp_ret. split; [by destruct (_ <? 10)|]. split; [done|]. simpl.
  split; [exact (eq_trans (f_equal known_id Hsd) Hsc)|].
  split; [congruence|]. split; [rewrite Hm|rewrite Hs]; congruence.
Qed.
End Known.

(** * Examples *)
Section Examples.

(** With the seeds 5, 5, 8 and 400 bytes two items get the index 2, and core_bench_list
    leaves their cells in the other order. *)
Definition list_kept_by_bench (seeds : Z * Z * Z) : option bool :=
  match (layout block_addr 1200 ALL_ALGORITHMS_MASK 1 seeds;; call_inits block_addr) any_core with
  | Ret (_, s) =>
      match core_bench_list 1 s with
      | Ret (_, s') => Some (bool_decide (nexts s' = nexts s))
      | _ => None
      end
  | _ => None
  end.

Lemma duplicate_indices_reorder : list_kept_by_bench (5, 5, 8) = Some false ∧ list_kept_by_bench (8, 8, 8) = Some true.
Proof. by vm_compute. Qed.

(** Unknown settings and a short run cancel: main counts 0 errors. *)
Lemma unknown_settings_short_run s : known_id (seed_crc (res s)) < 0 →
  check_results s = Ret (-1, s) ∧ s16 (-1 + 1) = 0.
Proof.
  intros H. unfold check_results, results, gets, mbind, M_bind. cbn beta iota.
  by rewrite (proj2 (Z.ltb_lt _ _) H).
Qed.

(** coremark 0 0 0 25 *)
Definition arg_strings : mem := mem_write ∅ 16 [48; 0; 50; 53; 0].

Lemma main_known_results_witness :
  wp (main 5 [0; 16; 16; 16; 18] arg_strings block_addr (λ k, k * 2000000000)) (λ total_errors s',
    total_errors = (if secs_between (λ k, k * 2000000000) 0 <? 10 then 1 else 0) ∧ err (res s') = 0 ∧
    known_id (seed_crc (res s')) = 3 ∧ crclist (res s') = known list_known_crc 3 ∧
    crcmatrix (res s') = known matrix_known_crc 3 ∧ crcstate (res s') = known state_known_crc 3) any_core.
Proof.
  apply (main_known_results 3 25 5 [0; 16; 16; 16; 18] arg_strings (λ k, k * 2000000000) any_core);
    [lia|lia|repeat split; vm_compute; reflexivity|vm_compute; reflexivity|vm_compute; reflexivity].
Defined.

Lemma iterate_reports_first_witness :
  wp iterate (λ _ s',
    heap s' = heap small_core ∧ mat_A (matrices s') = mat_A (matrices small_core) ∧
    mat_B (matrices s') = mat_B (matrices small_core) ∧
    set_crcs 0 0 0 0 (res s') = set_crcs 0 0 0 0 (res small_core) ∧
    (blk3_clean small_core → blk3 s' = blk3 small_core) ∧
    ∃ s1, iteration 0 (cleared small_core) = Ret ((), s1) ∧ crclist (res s') = crclist (res s1) ∧
      (crcmatrix (res s1) ≠ 0 → crcmatrix (res s') = crcmatrix (res s1)) ∧
      (crcstate (res s1) ≠ 0 → crcstate (res s') = crcstate (res s1))) small_core.
Proof.
  apply (iterate_reports_first small_core [16; 24; 32; 40] small_ready); simpl; lia.
Defined.
End Examples.
