(* ===== verification/Sort.v ===== *)
(** qsort.c (a comb sort) and bsearch.c on tables of equal-sized elements in the byte
    memory, with the comparison function as a parameter. *)
From stdpp Require Import base list gmap fin_maps sorting.
From Stdlib Require Import ZArith Lia.
From S2P Require Import Prelude Memory LibcMem.

#[local] Open Scope Z_scope.

(** * The code *)
Definition newgap (gap : Z) : Z :=
  let gap := u32 (gap * 10) / 13 in
  let gap := if (gap =? 9) || (gap =? 10) then 11 else gap in
  if gap <? 1 then 1 else gap.

(** The [for] loop of qsort; answers [swapped]. *)
Definition comb_pass (compar : Z → Z → M mem Z) (base nmemb size gap : Z) : M mem bool :=
  loop (λ '(i, p1, swapped),
    if i <? u32 (nmemb - gap) then
      let j := u32 (i + gap) in
      let p2 := base + u32 (j * size) in
      r ← compar p1 p2;
      if 0 <? r then
        memswap p1 p2 size;;
        mret (inl (u32 (i + 1), p1 + size, true))
      else mret (inl (u32 (i + 1), p1 + size, swapped))
    else mret (inr swapped)) (0, base, false).

Definition qsort (base nmemb size : Z) (compar : Z → Z → M mem Z) : M mem () :=
  if nmemb =? 0 then mret ()
  else
    loop (λ gap,
      let gap := newgap gap in
      swapped ← comb_pass compar base nmemb size gap;
      if (1 <? gap) || swapped then mret (inl gap) else mret (inr ())) nmemb.

Definition bsearch (key base nmemb size : Z) (cmp : Z → Z → M mem Z) : M mem Z :=
  loop (λ '(base, nmemb),
    if nmemb =? 0 then mret (inr NULL)
    else
      let mididx := nmemb / 2 in
      let midobj := base + u32 (mididx * size) in
      diff ← cmp key midobj;
      if diff =? 0 then mret (inr midobj)
      else if 0 <? diff then mret (inl (midobj + size, u32 (nmemb - (mididx + 1))))
      else mret (inl (base, mididx))) (base, nmemb).

(** * The gaps *)
Lemma newgap_le gap : 0 < gap < 2 ^ 32 → 1 ≤ newgap gap ∧ (gap = 1 → newgap gap = 1) ∧ (1 < gap → newgap gap < gap).
Proof.
  intros Hg. unfold newgap, wrapu. set (g := (gap * 10) mod 2 ^ 32).
  assert (0 ≤ g ≤ gap * 10) as Hle.
  { subst g. pose proof (Z.mod_pos_bound (gap * 10) (2 ^ 32)). pose proof (Z.mod_le (gap * 10) (2 ^ 32)). lia. }
  assert (gap < 100 → g = gap * 10) as Hsmall by (intros; apply Z.mod_small; lia). clearbody g.
  assert (0 ≤ g / 13 ≤ gap * 10 / 13) as Hd by (split; [apply Z.div_pos; lia|apply Z.div_le_mono; lia]).
  assert (gap * 10 / 13 ≤ gap) by (Z.div_mod_to_equations; lia).
  assert (1 < gap → gap * 10 / 13 < gap) by (Z.div_mod_to_equations; lia).
  destruct (Z.eqb_spec (g / 13) 9) as [E|E]; [|destruct (Z.eqb_spec (g / 13) 10) as [E2|E2]]; simpl.
  - split; [lia|]. split; [intros ->; rewrite Hsmall in E by lia; done|]. intros.
    destruct (Z.lt_ge_cases gap 100) as [Hl|]; [|lia]. rewrite Hsmall in E by lia. Z.div_mod_to_equations. lia.
  - split; [lia|]. split; [intros ->; rewrite Hsmall in E2 by lia; done|]. intros.
    destruct (Z.lt_ge_cases gap 100) as [Hl|]; [|lia]. rewrite Hsmall in E2 by lia. Z.div_mod_to_equations. lia.
  - destruct (Z.ltb_spec (g / 13) 1); (split; [lia|]; split; lia).
Qed.

(** * Tables *)
Lemma mem_write_mid m a l1 l2 l3 l2' : length l2' = length l2 →
  mem_write (mem_write m a (l1 ++ l2 ++ l3)) (a + ZL l1) l2' = mem_write m a (l1 ++ l2' ++ l3).
Proof.
  intros Hl. apply map_eq. intros x. rewrite !mem_write_lookup, !length_app, Hl.
  destruct (decide (a + ZL l1 ≤ x < a + ZL l1 + ZL l2)) as [Hin|Hout].
  - rewrite decide_True by lia. rewrite lookup_app_r by lia. rewrite lookup_app_l by lia. f_equal. lia.
  - destruct (decide (a ≤ x < a + _)) as [Hx|]; [|done].
    destruct (Z.lt_ge_cases x (a + ZL l1)).
    + rewrite !lookup_app_l by lia. done.
    + rewrite !lookup_app_r by lia. by rewrite Hl.
Qed.

Lemma list_split2 {A} (l : list A) i j : (i < j < length l)%nat → ∃ a x b y c,
  l = a ++ x :: b ++ y :: c ∧ length a = i ∧ (S (length a + length b) = j)%nat.
Proof.
  intros Hij. destruct (lookup_lt_is_Some_2 l i) as [x Hx]; [lia|].
  apply list_elem_of_split_length in Hx as (a & r & -> & Ha). rewrite length_app in Hij. simpl in Hij.
  destruct (lookup_lt_is_Some_2 r (j - S i)) as [y Hy]; [lia|].
  apply list_elem_of_split_length in Hy as (b & c & -> & Hb). exists a, x, b, y, c.
  split; [done|]. split; [done|]. lia.
Qed.

Section Sorting.
(** Elements of [sz] bytes that satisfy [P]; [compar] compares them as the total preorder
    [le] does, and reads memory only. *)
Context (compar : Z → Z → M mem Z) (sz : Z) (P : list Z → Prop) (le : list Z → list Z → bool).
Context (sz_pos : 0 ≤ sz) (P_bytes : ∀ x, P x → Forall is_byte x).
Context (compar_spec : ∀ m p q x y, arr m p x → arr m q y → ZL x = sz → ZL y = sz → P x → P y →
  wp (compar p q) (λ r m', m' = m ∧ (r ≤ 0 ↔ le x y = true) ∧ (0 ≤ r ↔ le y x = true)) m).
Context (le_total : ∀ x y, P x → P y → le x y = true ∨ le y x = true).
Context (le_trans : ∀ x y z, P x → P y → P z → le x y = true → le y z = true → le x z = true).

Definition elements (xs : list (list Z)) : Prop := Forall (λ x, ZL x = sz ∧ P x) xs.

Lemma elements_perm xs ys : elements xs → ys ≡ₚ xs → elements ys.
Proof. unfold elements. by intros ? ->. Qed.

Lemma concat_length xs : elements xs → ZL (concat xs) = ZL xs * sz.
Proof. intros H. induction H as [|x xs [Hx _] _ IH]; simpl; [done|]. rewrite length_app. lia. Qed.

Lemma elements_split a x b y c : elements (a ++ x :: b ++ y :: c) →
  elements a ∧ (ZL x = sz ∧ P x) ∧ elements b ∧ (ZL y = sz ∧ P y) ∧ elements c.
Proof. unfold elements. rewrite Forall_app, Forall_cons, Forall_app, Forall_cons. tauto. Qed.

(** Two elements of a table in memory, and the table with the two exchanged. *)
Lemma table_two m base a x b y c : elements (a ++ x :: b ++ y :: c) →
  let xs := a ++ x :: b ++ y :: c in
  let m1 := mem_write m base (concat xs) in
  let i := ZL a in let j := ZL a + 1 + ZL b in
  arr m1 (base + i * sz) x ∧ arr m1 (base + j * sz) y ∧
  mem_write (mem_write m1 (base + i * sz) y) (base + j * sz) x = mem_write m base (concat (a ++ y :: b ++ x :: c)).
Proof.
  intros He xs m1 i j. destruct (elements_split _ _ _ _ _ He) as (Ha & [Hx _] & Hb & [Hy _] & Hc).
  pose proof (concat_length a Ha) as La. pose proof (concat_length b Hb) as Lb.
  assert (concat xs = concat a ++ x ++ concat b ++ y ++ concat c) as E.
  { subst xs. by rewrite concat_app, concat_cons, concat_app, concat_cons. }
  assert (arr m1 base (concat xs)) as Harr by apply mem_write_arr. rewrite E in Harr.
  rewrite !arr_app in Harr. destruct Harr as (_ & Hax & _ & Hay & _).
  replace (base + ZL (concat a)) with (base + i * sz) in Hax by (subst i; lia).
  replace (base + ZL (concat a) + ZL x + ZL (concat b)) with (base + j * sz) in Hay by (subst j; lia).
  split; [done|]. split; [done|]. subst m1. rewrite E.
  replace (base + i * sz) with (base + ZL (concat a)) by (subst i; lia).
  rewrite mem_write_mid by lia.
  replace (base + j * sz) with (base + ZL (concat a ++ y ++ concat b)) by (subst j; rewrite !length_app; lia).
  replace (concat a ++ y ++ concat b ++ y ++ concat c) with ((concat a ++ y ++ concat b) ++ y ++ concat c)
    by (by rewrite <- !app_assoc).
  rewrite mem_write_mid by lia. f_equal. by rewrite concat_app, concat_cons, concat_app, concat_cons, <- !app_assoc.
Qed.

(** ** Inversions *)
Fixpoint inversions (xs : list (list Z)) : nat :=
  match xs with
  | [] => 0
  | x :: xs => length (filter (λ y, le x y = false) xs) + inversions xs
  end.

Lemma inversions_bound xs : (inversions xs ≤ length xs * length xs)%nat.
Proof.
  induction xs as [|x xs IH]; simpl; [lia|].
  pose proof (length_filter (λ y, le x y = false) xs). nia.
Qed.

Lemma inversions_swap a x y c : elements (a ++ x :: y :: c) → le x y = false →
  (inversions (a ++ y :: x :: c) + 1 ≤ inversions (a ++ x :: y :: c))%nat.
Proof.
  intros He Hxy. induction a as [|z a IH]; simpl.
  - simpl in He. unfold elements in He. rewrite !Forall_cons in He. destruct He as ([_ Hx] & [_ Hy] & _).
    assert (le y x = true) as Hyx by (destruct (le_total x y Hx Hy); congruence).
    rewrite (filter_cons_True _ y c) by done. rewrite (filter_cons_False _ x c) by (by rewrite Hyx). simpl. lia.
  - simpl in He. unfold elements in He. rewrite Forall_cons in He. specialize (IH (proj2 He)).
    rewrite (Permutation_length (l := filter _ (a ++ y :: x :: c)) (l' := filter (λ w, le z w = false) (a ++ x :: y :: c))); [lia|].
    apply filter_Permutation, Permutation_app_head, perm_swap.
Qed.

(** ** A pass *)
Lemma pass_lookups (xs : list (list Z)) i g : (0 < g)%nat → (i + g < length xs)%nat →
  ∃ a x b y c, xs = a ++ x :: b ++ y :: c ∧ length a = i ∧ (S (length b) = g)%nat.
Proof.
  intros Hg Hi. destruct (list_split2 xs i (i + g)) as (a & x & b & y & c & E & Ha & Hb); [lia|].
  exists a, x, b, y, c. split; [done|]. split; [done|]. lia.
Qed.

(** After [k] comparisons at the distance [g]. *)
Definition pass_inv (m0 : mem) (base : Z) xs (g k : nat) (ys : list (list Z)) (swapped : bool) (m : mem) : Prop :=
  (k + g ≤ length xs)%nat ∧ ys ≡ₚ xs ∧ m = mem_write m0 base (concat ys) ∧
  (swapped = false → ys = xs ∧ ∀ i x y, (i < k)%nat → xs !! i = Some x → xs !! (i + g)%nat = Some y → le x y = true) ∧
  (g = 1%nat → inversions ys + (if swapped then 1 else 0) ≤ inversions xs)%nat.

Lemma pass_swap m0 base xs g a x b y c swapped m : elements xs → (S (length b) = g) → (S (length a) + g ≤ length xs)%nat →
  le x y = false → pass_inv m0 base xs g (length a) (a ++ x :: b ++ y :: c) swapped m →
  pass_inv m0 base xs g (S (length a)) (a ++ y :: b ++ x :: c) true (mem_write m0 base (concat (a ++ y :: b ++ x :: c))).
Proof.
  intros He Hb Hk Hxy (_ & Hp & _ & _ & Hinv). split; [done|]. split.
  { rewrite <- Hp. apply Permutation_app_head. rewrite <- !Permutation_middle. apply perm_swap. }
  split; [done|]. split; [done|]. intros Hg1. specialize (Hinv Hg1). destruct b; [|simpl in Hb; lia].
  pose proof (inversions_swap a x y c (elements_perm _ _ He Hp) Hxy). simpl in *. destruct swapped; lia.
Qed.

Lemma pass_skip m0 base xs g a x b y c swapped m : (S (length b) = g) → (S (length a) + g ≤ length xs)%nat →
  le x y = true → pass_inv m0 base xs g (length a) (a ++ x :: b ++ y :: c) swapped m →
  pass_inv m0 base xs g (S (length a)) (a ++ x :: b ++ y :: c) swapped m.
Proof.
  intros Hb Hk Hxy (_ & Hp & Hm & Hsw & Hinv). split; [done|]. split; [done|]. split; [done|]. split; [|done].
  intros Hf. destruct (Hsw Hf) as [E Hle]. split; [done|]. intros i x' y' Hi Hx' Hy'.
  destruct (decide (i = length a)) as [->|]; [|apply (Hle i); done || lia].
  rewrite <- E in Hx', Hy'. rewrite lookup_app_r, Nat.sub_diag in Hx' by lia. injection Hx' as <-.
  rewrite lookup_app_r in Hy' by lia. replace (length a + g - length a)%nat with (S (length b)) in Hy' by lia.
  simpl in Hy'. rewrite lookup_app_r, Nat.sub_diag in Hy' by lia. by injection Hy' as <-.
Qed.

Lemma table_wf m0 base xs : mem_wf m0 → elements xs → mem_wf (mem_write m0 base (concat xs)).
Proof.
  intros Hw He. apply mem_wf_write; [done|]. apply Forall_concat. eapply Forall_impl; [exact He|].
  intros z [_ Hz]. by apply P_bytes.
Qed.

Lemma comb_pass_spec m0 base xs (g : nat) : mem_wf m0 → elements xs → (1 ≤ g ≤ length xs)%nat →
  ZL xs < 2 ^ 32 → ZL xs * sz < 2 ^ 32 →
  wp (comb_pass compar base (ZL xs) sz (Z.of_nat g)) (λ swapped m', ∃ ys,
    pass_inv m0 base xs g (length xs - g) ys swapped m') (mem_write m0 base (concat xs)).
Proof.
  intros Hw He Hg Hn Hsz.
  apply (wp_loop_ix (λ n '(i, p1, swapped) m', ∃ (k : nat) ys, i = Z.of_nat k ∧ p1 = base + i * sz ∧
    n = ZL xs - Z.of_nat g - i ∧ pass_inv m0 base xs g k ys swapped m') _ _ (ZL xs - Z.of_nat g)).
  { exists 0%nat, xs. split; [done|]. split; [lia|]. split; [lia|]. split; [lia|]. split; [done|]. split; [done|].
    split; [split; [done|lia]|lia]. }
  { lia. }
  intros n [[i p1] swapped] m' (k & ys & -> & -> & -> & Hi). pose proof Hi as (Hk & Hp & -> & _). split; [lia|].
  pose proof (Permutation_length Hp) as Hl. pose proof (elements_perm _ _ He Hp) as Hey.
  rewrite (wrapu_small 32 (ZL xs - _)) by lia. destruct (Z.ltb_spec (Z.of_nat k) (ZL xs - Z.of_nat g)) as [Hlt|Hge].
  - destruct (pass_lookups ys k g) as (a & x & b & y & c & -> & Ha & Hb); [lia|lia|].
    destruct (table_two m0 base a x b y c Hey) as (Hax & Hay & Hswap).
    destruct (elements_split _ _ _ _ _ Hey) as (Hea & [Hx Px] & Heb & [Hy Py] & Hec).
    cbn zeta. rewrite (wrapu_small 32 (Z.of_nat k + Z.of_nat g)) by lia. rewrite (wrapu_small 32 (_ * sz)) by nia.
    replace (Z.of_nat k + Z.of_nat g) with (ZL a + 1 + ZL b) by lia. subst k.
    apply wp_bind. eapply wp_mono; [by apply (compar_spec _ _ _ x y)|]. intros r ? (-> & Hr1 & Hr2).
    rewrite (wrapu_small 32) by lia.
    destruct (Z.ltb_spec 0 r) as [Hpos|Hneg].
    + assert (le x y = false) as Hxy by (destruct (le x y); [lia|done]).
      apply wp_bind. rewrite <- Hx at 3. eapply wp_mono.
      { apply (memswap_spec _ (base + ZL a * sz) (base + (ZL a + 1 + ZL b) * sz) x y);
          [by apply table_wf|done|done|lia|nia|left; nia]. }
      intros ? m' ->. apply wp_ret. rewrite Hswap. exists (ZL xs - Z.of_nat g - (ZL a + 1)). split; [lia|].
      exists (S (length a)), (a ++ y :: b ++ x :: c). split; [lia|]. split; [lia|]. split; [lia|].
      eapply pass_swap; done || lia.
    + apply wp_ret. exists (ZL xs - Z.of_nat g - (ZL a + 1)). split; [lia|].
      exists (S (length a)), (a ++ x :: b ++ y :: c). split; [lia|]. split; [lia|]. split; [lia|].
      apply pass_skip; [done|lia|by apply Hr1|done].
  - apply wp_ret. exists ys. by replace (length xs - g)%nat with k by lia.
Qed.

(** ** The sort *)
Definition sorted : list (list Z) → Prop := StronglySorted (λ x y, le x y = true).

Lemma adjacent_sorted xs : elements xs →
  (∀ k x y, xs !! k = Some x → xs !! (k + 1)%nat = Some y → le x y = true) → sorted xs.
Proof.
  intros He. induction He as [|x xs [_ Hx] He IH]; intros Hadj; [constructor|].
  assert (sorted xs) as Hs.
  { apply IH. intros k a b Ha Hb. by apply (Hadj (S k)). }
  constructor; [done|]. destruct xs as [|y xs]; [constructor|].
  assert (le x y = true) as Hxy by (by apply (Hadj 0%nat)). constructor; [done|].
  apply StronglySorted_inv in Hs as [_ Hy]. rewrite !Forall_forall in *. intros z Hz.
  apply (le_trans x y z); [done| | |done|by apply Hy].
  - apply (He y). by left.
  - apply (He z). by right.
Qed.

Lemma qsort_spec m0 base xs : mem_wf m0 → elements xs → ZL xs < 2 ^ 32 → ZL xs * sz < 2 ^ 32 →
  wp (qsort base (ZL xs) sz compar) (λ _ m', ∃ ys, ys ≡ₚ xs ∧ sorted ys ∧ m' = mem_write m0 base (concat ys))
    (mem_write m0 base (concat xs)).
Proof.
  intros Hw He Hn Hsz. unfold qsort. destruct (Z.eqb_spec (ZL xs) 0) as [E|Hne].
  { destruct xs; [|done]. apply wp_ret. exists []. by repeat constructor. }
  set (N := ZL xs * ZL xs).
  apply (wp_loop_ix (λ n gap m', ∃ ys, ys ≡ₚ xs ∧ m' = mem_write m0 base (concat ys) ∧ 1 ≤ gap ≤ ZL xs ∧
    n = if gap =? 1 then Z.of_nat (inversions ys) else gap + N) _ _
    (if ZL xs =? 1 then Z.of_nat (inversions xs) else ZL xs + N)).
  { exists xs. split; [done|]. split; [done|]. split; [lia|done]. }
  { pose proof (inversions_bound xs). destruct (_ =? 1); subst N; nia. }
  intros n gap m' (ys & Hp & -> & Hg & ->). split; [destruct (gap =? 1); subst N; nia|].
  destruct (newgap_le gap) as (Hg1 & Hgs & Hgl); [lia|]. set (g := newgap gap) in *.
  pose proof (Permutation_length Hp) as Hl. pose proof (elements_perm _ _ He Hp) as Hey.
  assert (g ≤ gap) by (destruct (Z.eq_dec gap 1); [lia|specialize (Hgl ltac:(lia)); lia]).
  apply wp_bind. rewrite <- (Z2Nat.id g), <- Hl by lia.
  eapply wp_mono; [apply (comb_pass_spec m0 base ys (Z.to_nat g)); [done|done|lia|lia|by rewrite Hl]|].
  intros swapped m' (zs & _ & Hpz & -> & Hsw & Hinv). rewrite Z2Nat.id by lia.
  destruct ((1 <? g) || swapped) eqn:Eloop; apply wp_ret.
  - eexists. split; [|exists zs; split; [by rewrite Hpz|]; split; [done|]; split; [lia|reflexivity]].
    pose proof (inversions_bound zs) as Hb. rewrite (Permutation_length Hpz), Hl in Hb.
    assert (Z.of_nat (inversions zs) ≤ N) by (subst N; nia).
    destruct (Z.eqb_spec gap 1) as [->|Hgap].
    + rewrite Hgs in * by done. destruct swapped; [|done]. specialize (Hinv eq_refl). simpl. lia.
    + specialize (Hgl ltac:(lia)). destruct (Z.eqb_spec g 1); lia.
  - apply orb_false_iff in Eloop as [Eg ->]. assert (g = 1) as Hg' by lia. rewrite Hg' in *.
    destruct (Hsw eq_refl) as [-> Hle]. exists ys. split; [done|]. split; [|done].
    apply adjacent_sorted; [done|]. intros k x y Hx Hy. apply (Hle k); [|done|done].
    pose proof (lookup_lt_Some _ _ _ Hy). lia.
Qed.

(** ** The search *)
Lemma table_one m base xs k x : elements xs → arr m base (concat xs) → xs !! k = Some x →
  arr m (base + Z.of_nat k * sz) x ∧ ZL x = sz ∧ P x.
Proof.
  intros He Ha Hx. apply list_elem_of_split_length in Hx as (a & c & -> & ->).
  unfold elements in He. rewrite Forall_app, Forall_cons in He. destruct He as (Hea & [Hx Px] & _).
  rewrite concat_app, concat_cons, !arr_app in Ha. destruct Ha as (_ & Ha & _).
  by rewrite (concat_length a Hea) in Ha.
Qed.

Lemma sorted_lookup xs i j x y : sorted xs → xs !! i = Some x → xs !! j = Some y → (i < j)%nat → le x y = true.
Proof.
  intros Hs. revert i j. induction Hs as [|z xs Hs IH Hz]; intros i j Hi Hj Hij; [done|].
  destruct i as [|i], j as [|j]; simpl in *; try lia; [|apply (IH i j); done || lia].
  injection Hi as <-. rewrite Forall_forall in Hz. apply Hz. by eapply list_elem_of_lookup_2.
Qed.

(** [x] is an element the search for [k] may stop at. *)
Definition equal (k x : list Z) : Prop := le x k = true ∧ le k x = true.

Lemma bsearch_spec m key base k xs : arr m key k → ZL k = sz → P k → elements xs → arr m base (concat xs) →
  sorted xs → ZL xs < 2 ^ 32 → ZL xs * sz < 2 ^ 32 →
  wp (bsearch key base (ZL xs) sz compar) (λ r m', m' = m ∧
    ((r = NULL ∧ ∀ x, x ∈ xs → ¬ equal k x) ∨ ∃ i x, xs !! i = Some x ∧ r = base + Z.of_nat i * sz ∧ equal k x)) m.
Proof.
  intros Hkey Hk Pk He Ha Hs Hn Hsz.
  apply (wp_loop_ix (λ n '(b, cnt) m', m' = m ∧ ∃ lo : nat, n = cnt ∧ b = base + Z.of_nat lo * sz ∧ 0 ≤ cnt ∧
    Z.of_nat lo + cnt ≤ ZL xs ∧ (∀ i x, xs !! i = Some x → (i < lo)%nat → le k x = false) ∧
    (∀ i x, xs !! i = Some x → Z.of_nat lo + cnt ≤ Z.of_nat i → le x k = false)) _ _ (ZL xs)).
  { split; [done|]. exists 0%nat. split_and!; try done; try lia. intros i x Hx ?.
    pose proof (lookup_lt_Some _ _ _ Hx). lia. }
  { lia. }
  intros n [b cnt] m' (-> & lo & -> & -> & Hc & Hle & Hlo & Hhi). split; [done|].
  destruct (Z.eqb_spec cnt 0) as [->|Hne].
  { apply wp_ret. split; [done|]. left. split; [done|]. intros x (i & Hi)%list_elem_of_lookup [H1 H2].
    destruct (decide (i < lo)%nat); [rewrite (Hlo i x) in H2 by done|rewrite (Hhi i x) in H1 by (done || lia)]; done. }
  cbn zeta. set (mid := cnt / 2). assert (0 ≤ mid < cnt) as Hmid by (subst mid; Z.div_mod_to_equations; lia).
  rewrite (wrapu_small 32 (mid * sz)) by nia.
  destruct (lookup_lt_is_Some_2 xs (lo + Z.to_nat mid)) as [x Hx]; [lia|].
  destruct (table_one m base xs _ x He Ha Hx) as (Hax & Hxs & Px).
  replace (base + Z.of_nat lo * sz + mid * sz) with (base + Z.of_nat (lo + Z.to_nat mid) * sz) by lia.
  apply wp_bind. eapply wp_mono; [by apply (compar_spec m key _ k x)|]. intros r ? (-> & Hr1 & Hr2).
  destruct (Z.eqb_spec r 0) as [->|Hr].
  { apply wp_ret. split; [done|]. right. exists (lo + Z.to_nat mid)%nat, x. split; [done|]. split; [done|].
    split; [by apply Hr2|by apply Hr1]. }
  assert (∀ a c, elements xs → xs !! a = Some c → P c) as HP.
  { intros a c _ Hac. by destruct (table_one m base xs a c He Ha Hac) as (_ & _ & ?). }
  destruct (Z.ltb_spec 0 r) as [Hpos|Hneg]; apply wp_ret.
  - assert (le k x = false) as Hkx by (destruct (le k x); [lia|done]).
    rewrite (wrapu_small 32) by lia. exists (cnt - (mid + 1)). split; [lia|]. split; [done|].
    exists (lo + Z.to_nat mid + 1)%nat. split_and!; [lia|lia|lia|lia| |].
    + intros i y Hy Hi. destruct (decide (i = lo + Z.to_nat mid)%nat) as [->|]; [by simplify_eq|].
      destruct (le k y) eqn:Eky; [|done]. rewrite <- Hkx. symmetry.
      apply (le_trans k y x); eauto. apply (sorted_lookup xs i (lo + Z.to_nat mid)); done || lia.
    + intros i y Hy Hi. apply (Hhi i); [done|lia].
  - assert (le x k = false) as Hxk by (destruct (le x k); [lia|done]).
    exists mid. split; [lia|]. split; [done|]. exists lo. split_and!; [lia|lia|lia|lia|done|].
    intros i y Hy Hi. destruct (decide (i = lo + Z.to_nat mid)%nat) as [->|]; [by simplify_eq|].
    destruct (le y k) eqn:Eyk; [|done]. rewrite <- Hxk. symmetry.
    apply (le_trans x y k); eauto. apply (sorted_lookup xs (lo + Z.to_nat mid) i); done || lia.
Qed.
End Sorting.

(** * Sorting and searching with the same comparison *)

(** What a comparison function owes qsort and bsearch. *)
Record compares (compar : Z → Z → M mem Z) (sz : Z) (P : list Z → Prop) (le : list Z → list Z → bool) : Prop := {
  cmp_size : 0 ≤ sz;
  cmp_bytes : ∀ x, P x → Forall is_byte x;
  cmp_reads : ∀ m p q x y, arr m p x → arr m q y → ZL x = sz → ZL y = sz → P x → P y →
    wp (compar p q) (λ r m', m' = m ∧ (r ≤ 0 ↔ le x y = true) ∧ (0 ≤ r ↔ le y x = true)) m;
  cmp_total : ∀ x y, P x → P y → le x y = true ∨ le y x = true;
  cmp_trans : ∀ x y z, P x → P y → P z → le x y = true → le y z = true → le x z = true;
}.

(** C30 qsort ends for every table and every comparison that is a total preorder, leaves a
    sorted permutation of the elements in the table and touches nothing else; bsearch then
    finds an element equal to the key exactly when the table had one, and answers NULL
    otherwise. *)
Theorem qsort_then_bsearch compar sz P le m base key k xs :
  compares compar sz P le → mem_wf m → elements sz P xs → arr m base (concat xs) →
  arr m key k → ZL k = sz → P k → key + sz ≤ base ∨ base + ZL xs * sz ≤ key →
  ZL xs < 2 ^ 32 → ZL xs * sz < 2 ^ 32 →
  wp (qsort base (ZL xs) sz compar;; bsearch key base (ZL xs) sz compar) (λ r m', ∃ ys,
    ys ≡ₚ xs ∧ sorted le ys ∧ m' = mem_write m base (concat ys) ∧
    ((r = NULL ∧ ∀ x, x ∈ xs → ¬ equal le k x) ∨
     ∃ i x, ys !! i = Some x ∧ r = base + Z.of_nat i * sz ∧ equal le k x)) m.
Proof.
  intros [Hsz Hb Hr Ht Htr] Hw He Ha Hkey Hk Pk Hd Hn Hn2. apply wp_bind.
  pose proof (qsort_spec compar sz P le Hsz Hb Hr Ht Htr m base xs Hw He Hn Hn2) as Hq.
  rewrite (mem_write_id m base (concat xs) Ha) in Hq. eapply wp_mono; [exact Hq|].
  intros ? m' (ys & Hp & Hs & ->). pose proof (elements_perm sz P xs ys He Hp) as Hey.
  pose proof (Permutation_length Hp) as Hl. rewrite <- Hl in *.
  eapply wp_mono.
  { apply (bsearch_spec compar sz P le Hsz Hr Htr _ key base k ys); try done; [|by apply mem_write_arr].
    apply mem_write_arr_out; [|done]. rewrite (concat_length sz P ys Hey). lia. }
  intros r ? [-> H]. exists ys. split; [done|]. split; [done|]. split; [done|].
  destruct H as [[-> Hno]|H]; [left|by right]. split; [done|]. intros x Hx. apply Hno. by rewrite Hp.
Qed.

(** * An example: single bytes *)
Definition compare_bytes (p q : Z) : M mem Z := x ← loadb p; y ← loadb q; mret (x - y).
Definition byte_le (x y : list Z) : bool := hd 0 x <=? hd 0 y.

Lemma compare_bytes_ok : compares compare_bytes 1 (Forall is_byte) byte_le.
Proof.
  split; [done|done| | |].
  - intros m p q x y Hx Hy Hlx Hly _ _. destruct x as [|a [|]]; simpl in Hlx; try lia.
    destruct y as [|b [|]]; simpl in Hly; try lia. destruct Hx as [Hx _], Hy as [Hy _].
    apply wp_bind, wp_loadb with a; [done|]. apply wp_bind, wp_loadb with b; [done|].
    apply wp_ret. split; [done|]. unfold byte_le. simpl. lia.
  - intros x y _ _. unfold byte_le. lia.
  - intros x y z _ _ _. unfold byte_le. lia.
Qed.

Lemma qsort_then_bsearch_witness :
  let m := mem_write (mem_write ∅ 16 [7; 3; 9; 3]) 32 [9] in
  wp (qsort 16 (ZL [[7]; [3]; [9]; [3]]) 1 compare_bytes;; bsearch 32 16 (ZL [[7]; [3]; [9]; [3]]) 1 compare_bytes)
    (λ r m', ∃ ys, ys ≡ₚ [[7]; [3]; [9]; [3]] ∧ sorted byte_le ys ∧ m' = mem_write m 16 (concat ys) ∧
    ((r = NULL ∧ ∀ x, x ∈ [[7]; [3]; [9]; [3]] → ¬ equal byte_le [9] x) ∨
     ∃ i x, ys !! i = Some x ∧ r = 16 + Z.of_nat i * 1 ∧ equal byte_le [9] x)) m.
Proof.
  intros m. apply (qsort_then_bsearch compare_bytes 1 (Forall is_byte) byte_le m 16 32 [9] [[7]; [3]; [9]; [3]]).
  - apply compare_bytes_ok.
  - do 2 (apply mem_wf_write; [|repeat constructor; done]). by intros ???.
  - repeat constructor; done.
  - repeat split; reflexivity.
  - repeat split; reflexivity.
  - done.
  - repeat constructor; done.
  - right. simpl. lia.
  - done.
  - done.
Defined.
