(* ===== verification/Rand48.v ===== *)
(** The 48-bit generators (jrand48.c, lrand48.c, mrand48.c, nrand48.c, srand48.c; rand and
    srand of stdlib.h) against the linear congruential sequence they stand for. *)
From stdpp Require Import base list.
From Stdlib Require Import ZArith Lia.
From S2P Require Import Prelude.

#[local] Open Scope Z_scope.

(** The three half words of [xsubi], low one first; the state of lrand48, mrand48 and
    srand48 is [__rand48_seed]. *)
Record xsubi : Type := Xsubi {
  xsubi0 : Z;
  xsubi1 : Z;
  xsubi2 : Z;
}.

Definition jrand48 : M xsubi Z :=
  s ← get_st;
  let x := u64 (u64 (u16 (xsubi0 s) + u64 (Z.shiftl (u16 (xsubi1 s)) 16)) + u64 (Z.shiftl (u16 (xsubi2 s)) 32)) in
  let x := u64 (u64 (0x5deece66d * x) + 0xb) in
  put_st (Xsubi (u16 x) (u16 (Z.shiftr x 16)) (u16 (Z.shiftr x 32)));;
  mret (s32 (Z.shiftr x 16)).

Definition lrand48 : M xsubi Z := r ← jrand48; mret (Z.shiftr (u32 r) 1).
Definition mrand48 : M xsubi Z := jrand48.
Definition nrand48 : M xsubi Z := r ← jrand48; mret (s32 (Z.shiftr (u32 r) 1)).
Definition srand48 (seedval : Z) : M xsubi () :=
  put_st (Xsubi 0x330e (u16 seedval) (u16 (Z.shiftr (u32 seedval) 16))).

Definition rand : M xsubi Z := r ← lrand48; mret (s32 r).
Definition srand (s : Z) : M xsubi () := srand48 (s32 s).

(** * The sequence *)
Definition well_formed (s : xsubi) : Prop :=
  0 ≤ xsubi0 s < 2 ^ 16 ∧ 0 ≤ xsubi1 s < 2 ^ 16 ∧ 0 ≤ xsubi2 s < 2 ^ 16.
Definition number (s : xsubi) : Z := xsubi0 s + xsubi1 s * 2 ^ 16 + xsubi2 s * 2 ^ 32.
Definition lcg (x : Z) : Z := (0x5deece66d * x + 0xb) mod 2 ^ 48.

(** Cutting a number into half words and putting it together again. *)
Lemma number_halves x : number (Xsubi (u16 x) (u16 (Z.shiftr x 16)) (u16 (Z.shiftr x 32))) = x mod 2 ^ 48.
Proof.
  unfold number, wrapu. simpl. rewrite !Z.shiftr_div_pow2 by done.
  change (2 ^ 16) with 65536. change (2 ^ 32) with 4294967296. change (2 ^ 48) with 281474976710656.
  Z.div_mod_to_equations. lia.
Qed.

Lemma number_range s : well_formed s → 0 ≤ number s < 2 ^ 48.
Proof. unfold well_formed, number. lia. Qed.

Lemma number_inj s t : well_formed s → well_formed t → number s = number t → s = t.
Proof.
  destruct s as [a b c], t as [a' b' c']. unfold well_formed, number. simpl. intros ?? E.
  assert (a = a') by (assert (a = (a + b * 2 ^ 16 + c * 2 ^ 32) mod 2 ^ 16) as -> by (Z.div_mod_to_equations; lia);
    rewrite E; Z.div_mod_to_equations; lia).
  assert (b = b') by (Z.div_mod_to_equations; lia). f_equal; lia.
Qed.

Lemma jrand48_spec s : well_formed s →
  wp jrand48 (λ r s', well_formed s' ∧ number s' = lcg (number s) ∧ r = s32 (number s' / 2 ^ 16)) s.
Proof.
  intros Hs. unfold jrand48. apply wp_bind, wp_get_st. cbn zeta.
  assert (u64 (u64 (u16 (xsubi0 s) + u64 (Z.shiftl (u16 (xsubi1 s)) 16)) + u64 (Z.shiftl (u16 (xsubi2 s)) 32)) = number s) as ->.
  { destruct Hs as (H0 & H1 & H2). rewrite !(wrapu_small 16), !Z.shiftl_mul_pow2 by done.
    rewrite (wrapu_small 64 (xsubi1 s * _)), (wrapu_small 64 (xsubi2 s * _)) by lia.
    rewrite (wrapu_small 64 (xsubi0 s + _)) by lia. by rewrite wrapu_small by lia. }
  set (x := u64 (u64 (0x5deece66d * number s) + 0xb)). apply wp_bind, wp_put_st, wp_ret.
  assert (x mod 2 ^ 48 = lcg (number s)) as Hx.
  { subst x. unfold lcg. rewrite wrapu_add_l. unfold wrapu.
    apply Z.mod_mod_divide. by exists (2 ^ 16). }
  rewrite number_halves, Hx. split; [|split; [done|]].
  - repeat split; apply wrapu_range; done.
  - unfold wraps. rewrite <- Hx, Z.shiftr_div_pow2 by done.
    change (2 ^ 16) with 65536. change (2 ^ 48) with 281474976710656. change (2 ^ 32) with 4294967296.
    change (2 ^ (32 - 1)) with 2147483648. Z.div_mod_to_equations. lia.
Qed.

(** The multiplier is odd, so no two states meet. *)
Lemma lcg_inj x y : 0 ≤ x < 2 ^ 48 → 0 ≤ y < 2 ^ 48 → lcg x = lcg y → x = y.
Proof.
  intros Hx Hy E. assert (∀ z, 0 ≤ z < 2 ^ 48 → (0xdfe05bcb1365 * (lcg z - 0xb)) mod 2 ^ 48 = z) as Hinv.
  { intros z Hz. unfold lcg. rewrite Zmult_mod, Zminus_mod_idemp_l, <- Zmult_mod.
    replace (0xdfe05bcb1365 * (0x5deece66d * z + 0xb - 0xb)) with (z + (z * 22050866921) * 2 ^ 48) by lia.
    rewrite Z.mod_add by done. by apply Z.mod_small. }
  by rewrite <- (Hinv x), <- (Hinv y), E.
Qed.

(** * Drawing numbers *)
Fixpoint draws (draw : M xsubi Z) (n : nat) : M xsubi (list Z) :=
  match n with
  | O => mret []
  | S n => r ← draw; l ← draws draw n; mret (r :: l)
  end.

(** The states behind the first [n] draws from the state [x]. *)
Fixpoint states (x : Z) (n : nat) : list Z :=
  match n with
  | O => []
  | S n => lcg x :: states (lcg x) n
  end.

Lemma draws_spec draw f n s : (∀ s, well_formed s →
    wp draw (λ r s', well_formed s' ∧ number s' = lcg (number s) ∧ r = f (number s')) s) → well_formed s →
  wp (draws draw n) (λ l s', l = map f (states (number s) n)) s.
Proof.
  intros Hd. revert s. induction n as [|n IH]; intros s Hs; [done|]. simpl.
  apply wp_bind. eapply wp_mono; [by apply Hd|]. intros r s1 (Hs1 & Hn & ->).
  apply wp_bind. eapply wp_mono; [by apply IH|]. intros l ? ->. apply wp_ret. by rewrite Hn.
Qed.

(** The upper 31 bits of a state: what lrand48, nrand48 and rand answer. *)
Lemma upper_31 x : 0 ≤ x < 2 ^ 48 → Z.shiftr (u32 (s32 (x / 2 ^ 16))) 1 = x / 2 ^ 17 ∧ 0 ≤ x / 2 ^ 17 < 2 ^ 31.
Proof.
  intros Hx. unfold wraps, wrapu. rewrite Z.shiftr_div_pow2 by done.
  change (2 ^ 16) with 65536. change (2 ^ 48) with 281474976710656 in Hx. change (2 ^ 32) with 4294967296.
  change (2 ^ (32 - 1)) with 2147483648. change (2 ^ 17) with 131072. change (2 ^ 31) with 2147483648.
  change (2 ^ 1) with 2. Z.div_mod_to_equations. lia.
Qed.

Lemma upper_31_draw (g : Z → Z) s : well_formed s → (∀ v, 0 ≤ v < 2 ^ 31 → g v = v) →
  wp (r ← jrand48; mret (g (Z.shiftr (u32 r) 1)))
    (λ r s', well_formed s' ∧ number s' = lcg (number s) ∧ r = number s' / 2 ^ 17) s.
Proof.
  intros Hs Hg. apply wp_bind. eapply wp_mono; [by apply jrand48_spec|]. intros r s1 (Hs1 & Hn & ->).
  destruct (upper_31 (number s1) (number_range _ Hs1)) as [E Hr].
  apply wp_ret. rewrite E. split; [done|]. split; [done|]. by apply Hg.
Qed.

(** C31 After srand48 the generators run through the linear congruential sequence x -> 0x5deece66d
    x + 0xb modulo 2^48 from the seed: jrand48 and mrand48 answer the upper 32 bits of each
    state as a signed number, lrand48, nrand48 and rand the upper 31 bits, never negative;
    and two different states never meet again. *)
Theorem rand48_sequence v n :
  let seed := u32 v * 2 ^ 16 + 0x330e in
  (∀ draw, draw = jrand48 ∨ draw = mrand48 →
     wp (srand48 v;; draws draw n) (λ l _, l = map (λ x, s32 (x / 2 ^ 16)) (states seed n)) (Xsubi 0 0 0)) ∧
  (∀ draw, draw = lrand48 ∨ draw = nrand48 ∨ draw = rand →
     wp (srand48 v;; draws draw n) (λ l _, l = map (λ x, x / 2 ^ 17) (states seed n) ∧
       Forall (λ r, 0 ≤ r < 2 ^ 31) l) (Xsubi 0 0 0)) ∧
  (∀ s t, well_formed s → well_formed t → number s ≠ number t → lcg (number s) ≠ lcg (number t)).
Proof.
  intros seed. set (s0 := Xsubi 0x330e (u16 v) (u16 (Z.shiftr (u32 v) 16))).
  assert (well_formed s0 ∧ number s0 = seed) as [Hs0 Hn0].
  { split; [repeat split; (done || apply wrapu_range; done)|]. subst s0 seed. unfold number, wrapu. simpl.
    rewrite Z.shiftr_div_pow2 by done. change (2 ^ 16) with 65536. change (2 ^ 32) with 4294967296.
    Z.div_mod_to_equations. lia. }
  split; [|split].
  - intros draw Hd. apply wp_bind, wp_put_st. fold s0. rewrite <- Hn0.
    apply (draws_spec draw (λ x, s32 (x / 2 ^ 16))); [|done]. intros s Hs. destruct Hd as [-> | ->]; by apply jrand48_spec.
  - intros draw Hd. apply wp_bind, wp_put_st. fold s0. rewrite <- Hn0.
    assert (∀ s, well_formed s →
      wp draw (λ r s', well_formed s' ∧ number s' = lcg (number s) ∧ r = number s' / 2 ^ 17) s) as Hspec.
    { intros s Hs. destruct Hd as [-> |[-> | ->]].
      - by apply (upper_31_draw (λ v, v)).
      - apply (upper_31_draw s32); [done|]. intros. apply wraps_small; lia.
      - unfold rand, lrand48. apply wp_bind. eapply wp_mono; [by apply (upper_31_draw (λ v, v))|].
        intros r s1 (Hs1 & Hn & ->). apply wp_ret. split; [done|]. split; [done|].
        destruct (upper_31 (number s1) (number_range _ Hs1)). apply wraps_small; lia. }
    eapply wp_mono; [by apply (draws_spec draw (λ x, x / 2 ^ 17))|]. intros l _ ->. split; [done|].
    generalize (number s0). induction n as [|n IH]; intros x; simpl; [constructor|]. constructor; [|apply IH].
    assert (0 ≤ lcg x < 2 ^ 48) by (by apply Z.mod_pos_bound). by destruct (upper_31 (lcg x)).
  - intros s t Hs Ht Hne E. apply Hne, lcg_inj; [by apply number_range..|done].
Qed.

Lemma rand48_sequence_witness :
  let seed := u32 1 * 2 ^ 16 + 0x330e in
  (∀ draw, draw = jrand48 ∨ draw = mrand48 →
     wp (srand48 1;; draws draw 3) (λ l _, l = map (λ x, s32 (x / 2 ^ 16)) (states seed 3)) (Xsubi 0 0 0)) ∧
  (∀ draw, draw = lrand48 ∨ draw = nrand48 ∨ draw = rand →
     wp (srand48 1;; draws draw 3) (λ l _, l = map (λ x, x / 2 ^ 17) (states seed 3) ∧
       Forall (λ r, 0 ≤ r < 2 ^ 31) l) (Xsubi 0 0 0)) ∧
  (∀ s t, well_formed s → well_formed t → number s ≠ number t → lcg (number s) ≠ lcg (number t)).
Proof. apply (rand48_sequence 1 3). Defined.
