(* ===== verification/Strto.v ===== *)
(** Integer parsing: strntoumax.c and the strto..., ato... functions that the templates
    strtox.c and atox.c generate, on C strings in the byte memory. *)
From stdpp Require Import base list gmap fin_maps.
From Stdlib Require Import ZArith Lia.
From S2P Require Import Prelude Memory LibcMem LibcStr.

#[local] Open Scope Z_scope.

(** * The code *)
Definition digitval (ch : Z) : Z :=
  if (48 <=? ch) && (ch <=? 57) then ch - 48
  else if (65 <=? ch) && (ch <=? 90) then ch - 65 + 10
  else if (97 <=? ch) && (ch <=? 122) then ch - 97 + 10
  else -1.

(** The test for a leading [0x] with [n] bytes left. *)
Definition hex_prefix (nptr n : Z) : M mem bool :=
  if 2 <=? n then
    c0 ← loadb nptr;
    if c0 =? 48 then c1 ← loadb (nptr + 1); mret ((c1 =? 120) || (c1 =? 88))
    else mret false
  else mret false.

(** strntoumax with the final position of [nptr] as part of the answer: the value and
    what is stored through [endptr]. *)
Definition strntoumax_scan (nptr base n : Z) : M mem (Z * Z) :=
  '(nptr, n) ← loop (λ '(nptr, n),
    if n =? 0 then mret (inr (nptr, n))
    else c ← loadb nptr;
         mret (if isspace c then inl (nptr + 1, n - 1) else inr (nptr, n))) (nptr, n);
  '(minus, nptr, n) ←
    (if n =? 0 then mret (false, nptr, n)
     else c ← loadb nptr;
          mret (if (c =? 45) || (c =? 43) then (c =? 45, nptr + 1, n - 1) else (false, nptr, n)));
  '(base, nptr, n) ←
    (if base =? 0 then
       hex ← hex_prefix nptr n;
       if (hex : bool) then mret (16, nptr + 2, n - 2)
       else if 1 <=? n then
         c ← loadb nptr;
         mret (if c =? 48 then (8, nptr + 1, n - 1) else (10, nptr, n))
       else mret (10, nptr, n)
     else if base =? 16 then
       hex ← hex_prefix nptr n;
       mret (if (hex : bool) then (base, nptr + 2, n - 2) else (base, nptr, n))
     else mret (base, nptr, n));
  '(v, nptr) ← loop (λ '(nptr, n, v),
    if n =? 0 then mret (inr (v, nptr))
    else c ← loadb nptr;
         let d := digitval c in
         mret (if (0 <=? d) && (d <? base) then inl (nptr + 1, n - 1, u64 (u64 (v * u64 base) + d))
               else inr (v, nptr))) (nptr, n, 0);
  mret (if (minus : bool) then u64 (- v) else v, nptr).

Definition strntoumax (nptr endptr base n : Z) : M mem Z :=
  '(v, nptr) ← strntoumax_scan nptr base n;
  when (negb (endptr =? NULL)) (stw endptr nptr);;
  mret v.

Definition strntoimax (nptr endptr base n : Z) : M mem Z :=
  v ← strntoumax nptr endptr base n; mret (s64 v).

(** strtox.c and atox.c, with the conversion to TYPE as an argument. *)
Definition strtox (TYPE : Z → Z) (nptr endptr base : Z) : M mem Z :=
  v ← strntoumax nptr endptr base (u32 (Z.lnot 0)); mret (TYPE v).
Definition atox (TYPE : Z → Z) (nptr : Z) : M mem Z :=
  v ← strntoumax nptr NULL 10 (u32 (Z.lnot 0)); mret (TYPE v).

Definition strtoimax : Z → Z → Z → M mem Z := strtox s64.
Definition strtoumax : Z → Z → Z → M mem Z := strtox u64.
Definition strtol : Z → Z → Z → M mem Z := strtox s32.
Definition strtoll : Z → Z → Z → M mem Z := strtox s64.
Definition strtoul : Z → Z → Z → M mem Z := strtox u32.
Definition strtoull : Z → Z → Z → M mem Z := strtox u64.
Definition atoi : Z → M mem Z := atox s32.
Definition atol : Z → M mem Z := atox s32.
Definition atoll : Z → M mem Z := atox s64.

(** * The reference: reading a numeral from a list of bytes *)
Definition is_digit (base c : Z) : bool := (0 <=? digitval c) && (digitval c <? base).
Definition value (base : Z) (ds : list Z) : Z := foldl (λ v d, v * base + digitval d) 0 ds.

Definition read_sign (l : list Z) : bool * list Z :=
  match l with
  | c :: l' => if (c =? 45) || (c =? 43) then (c =? 45, l') else (false, l)
  | [] => (false, l)
  end.

Definition starts_hex (l : list Z) : bool :=
  match l with
  | a :: b :: _ => (a =? 48) && ((b =? 120) || (b =? 88))
  | _ => false
  end.

Definition read_prefix (base : Z) (l : list Z) : Z * list Z :=
  if base =? 0 then
    if starts_hex l then (16, drop 2 l)
    else match l with
         | c :: l' => if c =? 48 then (8, l') else (10, l)
         | [] => (10, l)
         end
  else if base =? 16 then if starts_hex l then (base, drop 2 l) else (base, l)
  else (base, l).

(** The signed value a string stands for, and the bytes after it. *)
Definition read_number (base : Z) (l : list Z) : Z * list Z :=
  let l1 := drop (span_len isspace l) l in
  let '(minus, l2) := read_sign l1 in
  let '(base, l3) := read_prefix base l2 in
  let k := span_len (is_digit base) l3 in
  let v := value base (take k l3) in
  (if minus then - v else v, drop k l3).

(** * Correctness of the scanner *)
Lemma value_snoc base ds d : value base (ds ++ [d]) = value base ds * base + digitval d.
Proof. unfold value. by rewrite foldl_app. Qed.

Section Scanner.
Context (m : mem).

(** [seen p n l]: [l] is what a scanner sees from [p] with [n] bytes left. *)
Definition seen (p n : Z) (l : list Z) : Prop :=
  0 ≤ n ∧ ∃ k, cstr m p k ∧ l = take (Z.to_nat n) k.

Lemma seen_length p n l : seen p n l → ZL l ≤ n.
Proof. intros (? & k & _ & ->). rewrite length_take. lia. Qed.

(** The next byte: the end of the string reads as NUL. *)
Lemma seen_step p n l : seen p n l → n ≠ 0 →
  ∃ c, m !! p = Some c ∧
    ((c = 0 ∧ l = []) ∨ (c ≠ 0 ∧ ∃ l', l = c :: l' ∧ seen (p + 1) (n - 1) l')).
Proof.
  intros (Hn & k & Hk & ->) Hne. replace (Z.to_nat n) with (S (Z.to_nat (n - 1))) by lia.
  destruct k as [|c k].
  - apply cstr_nil in Hk. exists 0. split; [done|]. by left.
  - apply cstr_cons in Hk as (Hc & Hnz & Hk). exists c. split; [done|]. right. split; [done|].
    eexists. split; [done|]. split; [lia|eauto].
Qed.

Lemma seen_nil p l : seen p 0 l → l = [].
Proof. intros (_ & k & _ & ->). done. Qed.

(** A loop that runs over the longest prefix of bytes that satisfy [P]. *)
Lemma seen_span P p n l : seen p n l → P 0 = false →
  seen (p + Z.of_nat (span_len P l)) (n - Z.of_nat (span_len P l)) (drop (span_len P l) l).
Proof.
  revert p n. induction l as [|c l IH]; intros p n Hl HP; simpl.
  { by rewrite Z.add_0_r, Z.sub_0_r. }
  destruct (P c) eqn:Hc; [|by rewrite Z.add_0_r, Z.sub_0_r].
  destruct (decide (n = 0)) as [->|Hne]; [by apply seen_nil in Hl|].
  destruct (seen_step _ _ _ Hl Hne) as (b & _ & [[_ ?]|(_ & l' & [= -> ->] & Hl')]); [done|].
  specialize (IH _ _ Hl' HP). simpl.
  replace (p + Z.of_nat (S (span_len P l'))) with (p + 1 + Z.of_nat (span_len P l')) by lia.
  by replace (n - Z.of_nat (S (span_len P l'))) with (n - 1 - Z.of_nat (span_len P l')) by lia.
Qed.

Lemma skip_spaces_spec p n l : seen p n l → n < 2 ^ 32 →
  wp (loop (λ '(nptr, n),
    if n =? 0 then mret (inr (nptr, n))
    else c ← loadb nptr;
         mret (if isspace c then inl (nptr + 1, n - 1) else inr (nptr, n))) (p, n))
    (λ '(q, n') m', m' = m ∧ seen q n' (drop (span_len isspace l) l) ∧ n' < 2 ^ 32 ∧
       q = p + Z.of_nat (span_len isspace l)) m.
Proof.
  intros Hl Hn. apply wp_loop with
    (I := λ '(q, k) m', m' = m ∧ k < 2 ^ 32 ∧ ∃ l', seen q k l' ∧
       drop (span_len isspace l') l' = drop (span_len isspace l) l ∧
       q + Z.of_nat (span_len isspace l') = p + Z.of_nat (span_len isspace l))
    (f := λ '(_, k) _, k); [|lia|].
  { split; [done|]. split; [done|]. by exists l. }
  intros [q k] m' (-> & Hk & l' & Hl' & Hd & Hq). split; [by destruct Hl'|].
  assert (0 ≤ k) by (by destruct Hl').
  destruct (Z.eqb_spec k 0) as [->|Hne].
  { pose proof (seen_nil _ _ Hl') as ->. apply wp_ret. rewrite <- Hd. simpl in *.
    split_and!; [done|done|lia|lia]. }
  destruct (seen_step _ _ _ Hl' Hne) as (c & Hc & [[-> ->]|(Hnz & l2 & -> & Hl2)]);
    apply wp_bind; (eapply wp_loadb; [done|]); apply wp_ret.
  - simpl. rewrite <- Hd. simpl in *. split_and!; [done|done|lia|lia].
  - simpl in Hd, Hq. destruct (isspace c) eqn:Hs.
    + split; [|lia]. split; [done|]. split; [lia|]. exists l2. split_and!; [done..|lia].
    + rewrite <- Hd. split_and!; [done|done|lia|lia].
Qed.

Lemma hex_prefix_spec p n l : seen p n l →
  wp (hex_prefix p n) (λ r m', m' = m ∧ r = starts_hex l ∧ (r = true → seen (p + 2) (n - 2) (drop 2 l))) m.
Proof.
  intros Hl. unfold hex_prefix. destruct (Z.leb_spec 2 n) as [Hn|Hn].
  - destruct (seen_step _ _ _ Hl ltac:(lia)) as (a & Ha & [[-> ->]|(Hnz & l1 & -> & Hl1)]);
      apply wp_bind; (eapply wp_loadb; [done|]); [by apply wp_ret|].
    simpl. destruct (Z.eqb_spec a 48) as [->|]; simpl; [|apply wp_ret; by destruct l1].
    destruct (seen_step _ _ _ Hl1 ltac:(lia)) as (b & Hb & [[-> ->]|(Hnz2 & l2 & -> & Hl2)]);
      apply wp_bind; (eapply wp_loadb; [done|]); apply wp_ret; [done|].
    split; [done|]. split; [done|]. intros _.
    replace (p + 2) with (p + 1 + 1) by lia. by replace (n - 2) with (n - 1 - 1) by lia.
  - apply wp_ret. pose proof (seen_length _ _ _ Hl). destruct l as [|a [|b l]]; simpl in *; try done. lia.
Qed.

Lemma read_digits_spec base p n l : seen p n l → n < 2 ^ 32 →
  wp (loop (λ '(nptr, n, v),
    if n =? 0 then mret (inr (v, nptr))
    else c ← loadb nptr;
         let d := digitval c in
         mret (if (0 <=? d) && (d <? base) then inl (nptr + 1, n - 1, u64 (u64 (v * u64 base) + d))
               else inr (v, nptr))) (p, n, 0))
    (λ '(v, q) m', m' = m ∧ v = u64 (value base (take (span_len (is_digit base) l) l)) ∧
       q = p + Z.of_nat (span_len (is_digit base) l)) m.
Proof.
  intros Hl Hn. set (k := span_len (is_digit base) l). set (R := value base (take k l)).
  apply wp_loop with
    (I := λ '(q, n', v) m', m' = m ∧ n' < 2 ^ 32 ∧ ∃ done todo, l = done ++ todo ∧ seen q n' todo ∧
       v = u64 (value base done) ∧ q = p + ZL done ∧ (length done + span_len (is_digit base) todo)%nat = k)
    (f := λ '(_, n', _) _, n'); [|lia|].
  { split; [done|]. split; [done|]. exists [], l. split_and!; [done|done|done|simpl; lia|done]. }
  intros [[q n'] v] m' (-> & Hn' & d & t & El & Ht & -> & -> & Hk). assert (0 ≤ n') by (by destruct Ht).
  split; [done|].
  assert (span_len (is_digit base) t = 0%nat → u64 (value base d) = u64 R ∧ ZL d = Z.of_nat k) as Hstop.
  { intros E. rewrite E, Nat.add_0_r in Hk. split; [|lia].
    subst R. by rewrite El, <- Hk, take_app_length. }
  destruct (Z.eqb_spec n' 0) as [->|Hne].
  { apply seen_nil in Ht as ->. destruct Hstop as [-> ->]; [done|]. by apply wp_ret. }
  destruct (seen_step _ _ _ Ht Hne) as (c & Hc & [[-> ->]|(Hnz & t' & -> & Ht')]);
    apply wp_bind; (eapply wp_loadb; [done|]); cbn zeta; apply wp_ret.
  { destruct Hstop as [-> ->]; done. }
  change ((0 <=? digitval c) && (digitval c <? base)) with (is_digit base c).
  simpl in Hk, Hstop. destruct (is_digit base c) eqn:Hd.
  - split; [|lia]. split; [done|]. split; [lia|]. exists (d ++ [c]), t'.
    rewrite length_app, <- app_assoc. simpl. split_and!; [done|done| |lia|lia].
    by rewrite value_snoc, wrapu_mul_l, wrapu_add_l, <- wrapu_add_l, wrapu_mul_r, wrapu_add_l.
  - destruct Hstop as [-> ->]; done.
Qed.

Lemma read_sign_spec p n l : seen p n l →
  wp (if n =? 0 then mret (false, p, n)
      else c ← loadb p;
           mret (if (c =? 45) || (c =? 43) then (c =? 45, p + 1, n - 1) else (false, p, n)))
    (λ '(minus, q, n') m', m' = m ∧ n' ≤ n ∧ ∃ l', read_sign l = (minus, l') ∧ seen q n' l' ∧
       q = p + ZL l - ZL l') m.
Proof.
  intros Hl. destruct (Z.eqb_spec n 0) as [->|Hne].
  { pose proof (seen_nil _ _ Hl) as ->. apply wp_ret. split; [done|]. split; [done|].
    exists []. split_and!; [done|done|lia]. }
  destruct (seen_step _ _ _ Hl Hne) as (c & Hc & [[-> ->]|(Hnz & l1 & -> & Hl1)]);
    apply wp_bind; (eapply wp_loadb; [done|]); apply wp_ret; simpl.
  - split; [done|]. split; [done|]. exists []. split_and!; [done|done|simpl; lia].
  - destruct (_ || _); (split; [done|]; split; [lia|]).
    + exists l1. split_and!; [done..|lia].
    + exists (c :: l1). split_and!; [done..|simpl; lia].
Qed.

Lemma read_prefix_spec base p n l : seen p n l →
  wp (if base =? 0 then
       hex ← hex_prefix p n;
       if (hex : bool) then mret (16, p + 2, n - 2)
       else if 1 <=? n then
         c ← loadb p;
         mret (if c =? 48 then (8, p + 1, n - 1) else (10, p, n))
       else mret (10, p, n)
     else if base =? 16 then
       hex ← hex_prefix p n;
       mret (if (hex : bool) then (base, p + 2, n - 2) else (base, p, n))
     else mret (base, p, n))
    (λ '(b, q, n') m', m' = m ∧ n' ≤ n ∧ ∃ l', read_prefix base l = (b, l') ∧ seen q n' l' ∧
       q = p + ZL l - ZL l') m.
Proof.
  intros Hl. unfold read_prefix.
  assert (starts_hex l = true → p + 2 = p + ZL l - ZL (drop 2 l)) as Hlen.
  { destruct l as [|a [|b l]]; try done. intros _. change (drop 2 (a :: b :: l)) with l. simpl. lia. }
  destruct (base =? 0); [|destruct (base =? 16)].
  - apply wp_bind. eapply wp_mono; [by apply hex_prefix_spec|]. intros hex ? (-> & -> & Hhex).
    destruct (starts_hex l).
    { apply wp_ret. split; [done|]. split; [lia|]. eexists. split_and!; [done|by apply Hhex|by apply Hlen]. }
    destruct (Z.leb_spec 1 n) as [Hn|Hn].
    + destruct (seen_step _ _ _ Hl ltac:(lia)) as (c & Hc & [[-> ->]|(Hnz & l1 & -> & Hl1)]);
        apply wp_bind; (eapply wp_loadb; [done|]); apply wp_ret; simpl.
      { split; [done|]. split; [done|]. exists []. split_and!; [done|done|simpl; lia]. }
      destruct (c =? 48); (split; [done|]; split; [lia|]); eexists; (split; [done|]); (split; [done|simpl; lia]).
    + apply wp_ret. split; [done|]. split; [done|]. exists l.
      pose proof (seen_length _ _ _ Hl). destruct l; [|simpl in *; lia]. split_and!; [done|done|lia].
  - apply wp_bind. eapply wp_mono; [by apply hex_prefix_spec|]. intros hex ? (-> & -> & Hhex).
    apply wp_ret. destruct (starts_hex l); (split; [done|]; split; [lia|]); eexists; (split; [done|]).
    + split; [by apply Hhex|by apply Hlen].
    + split; [done|lia].
  - apply wp_ret. split; [done|]. split; [done|]. exists l. split_and!; [done|done|lia].
Qed.

Lemma span_drop_length P (l : list Z) : ZL (drop (span_len P l) l) = ZL l - Z.of_nat (span_len P l).
Proof. rewrite length_drop. pose proof (span_len_le P l). lia. Qed.

Lemma strntoumax_scan_spec p base n l : seen p n l → n < 2 ^ 32 →
  wp (strntoumax_scan p base n) (λ '(v, q) m', m' = m ∧
    v = u64 (read_number base l).1 ∧ q = p + ZL l - ZL (read_number base l).2) m.
Proof.
  intros Hl Hn. unfold strntoumax_scan, read_number.
  apply wp_bind. eapply wp_mono; [by apply skip_spaces_spec|]. intros [p1 n1] ? (-> & Hl1 & Hn1 & ->).
  apply wp_bind. eapply wp_mono; [by apply read_sign_spec|].
  intros [[minus p2] n2] ? (-> & Hn2 & l2 & -> & Hl2 & ->).
  apply wp_bind. eapply wp_mono; [by apply (read_prefix_spec base)|].
  intros [[b p3] n3] ? (-> & Hn3 & l3 & -> & Hl3 & ->).
  apply wp_bind. eapply wp_mono; [apply (read_digits_spec b _ n3 l3); [done|lia]|].
  intros [v q] ? (-> & -> & ->). apply wp_ret. split; [done|]. rewrite !span_drop_length. cbn [fst snd].
  split.
  - destruct minus; [|done]. set (x := value b _). unfold wrapu.
    by rewrite <- !Z.sub_0_l, Zminus_mod_idemp_r.
  - rewrite span_drop_length. lia.
Qed.
End Scanner.

(** * Numerals *)

(** [radix base pre b]: with the argument [base], a numeral written with the prefix [pre]
    is read in base [b]. *)
Inductive radix : Z → list Z → Z → Prop :=
  | radix_given b : 2 ≤ b ≤ 36 → radix b [] b
  | radix_hex base x : base = 0 ∨ base = 16 → x = 120 ∨ x = 88 → radix base [48; x] 16
  | radix_octal : radix 0 [48] 8
  | radix_decimal : radix 0 [] 10.

Definition sign_of (minus : bool) (sg : list Z) : Prop :=
  if minus then sg = [45] else sg = [] ∨ sg = [43].

(** The digits and what follows them do not look like a prefix. *)
Definition unambiguous (base : Z) (pre ds rest : list Z) : Prop :=
  pre = [] → (base = 0 → head ds ≠ Some 48) ∧ (base = 16 → starts_hex (ds ++ rest) = false).

Definition stops (P : Z → bool) (l : list Z) : Prop := ∀ c, head l = Some c → P c = false.

Lemma span_len_app P l1 l2 : Forall (λ c, P c = true) l1 → stops P l2 → span_len P (l1 ++ l2) = length l1.
Proof.
  induction 1 as [|c l1 Hc _ IH]; intros Hs; simpl.
  - destruct l2 as [|c l2]; [done|]. simpl. by rewrite (Hs c).
  - rewrite Hc. f_equal. by apply IH.
Qed.

Lemma digitval_range base c : is_digit base c = true →
  (48 ≤ c ≤ 57 ∧ digitval c = c - 48) ∨ (65 ≤ c ≤ 90 ∧ digitval c = c - 55) ∨ (97 ≤ c ≤ 122 ∧ digitval c = c - 87).
Proof.
  unfold is_digit, digitval. intros [H _]%andb_true_iff. revert H.
  repeat match goal with |- context [if ?b then _ else _] => destruct b eqn:? end; lia.
Qed.

Lemma digit_not_space base c : is_digit base c = true → isspace c = false ∧ c ≠ 45 ∧ c ≠ 43.
Proof.
  intros Hc. assert (48 ≤ c) by (apply digitval_range in Hc; lia). unfold isspace. split; [|lia].
  repeat (apply orb_false_intro); apply Z.eqb_neq; lia.
Qed.

Lemma read_sign_app minus sg l : sign_of minus sg → (∀ c, head l = Some c → c ≠ 45 ∧ c ≠ 43) →
  read_sign (sg ++ l) = (minus, l).
Proof.
  intros Hs Hl. destruct minus; [by rewrite Hs|]. destruct Hs as [-> | ->]; [|done].
  destruct l as [|c l]; [done|]. simpl. destruct (Hl c) as [? ?]; [done|].
  by destruct (Z.eqb_spec c 45), (Z.eqb_spec c 43).
Qed.

Lemma starts_hex_digit b c l : is_digit b c = true → b ≤ 33 → starts_hex (48 :: c :: l) = false.
Proof.
  intros Hc Hb. simpl. pose proof (digitval_range _ _ Hc). unfold is_digit in Hc.
  apply andb_true_iff in Hc as [_ ?%Z.ltb_lt]. apply orb_false_intro; apply Z.eqb_neq; lia.
Qed.

Lemma read_prefix_app base pre b ds rest : radix base pre b → ds ≠ [] →
  Forall (λ c, is_digit b c = true) ds → unambiguous base pre ds rest →
  read_prefix base (pre ++ ds ++ rest) = (b, ds ++ rest).
Proof.
  intros Hr Hne Hds Hu. destruct ds as [|d ds]; [done|]. apply Forall_cons in Hds as [Hd _].
  unfold read_prefix. destruct Hr as [b Hb|base x Hb Hx| |].
  - destruct (Hu eq_refl) as [_ Hh]. destruct (Z.eqb_spec b 0); [lia|].
    destruct (Z.eqb_spec b 16); [|done]. cbn [app] in Hh |- *. by rewrite Hh.
  - assert (starts_hex ([48; x] ++ (d :: ds) ++ rest) = true) as -> by (destruct Hx as [-> | ->]; done).
    by destruct Hb as [-> | ->].
  - simpl. change (starts_hex (48 :: d :: ds ++ rest)) with ((d =? 120) || (d =? 88)).
    change ((d =? 120) || (d =? 88)) with (starts_hex (48 :: d :: ds ++ rest)). by rewrite (starts_hex_digit 8).
  - destruct (Hu eq_refl) as [Hh _]. simpl in Hh. simpl ([] ++ _).
    assert (d ≠ 48) by (specialize (Hh eq_refl); congruence).
    simpl. destruct (Z.eqb_spec d 48); [done|]. by destruct (ds ++ rest).
Qed.

Lemma read_number_numeral base pre b ws minus sg ds rest :
  radix base pre b → Forall (λ c, isspace c = true) ws → sign_of minus sg → ds ≠ [] →
  Forall (λ c, is_digit b c = true) ds → stops (is_digit b) rest → unambiguous base pre ds rest →
  read_number base (ws ++ sg ++ pre ++ ds ++ rest) = (if minus then - value b ds else value b ds, rest).
Proof.
  intros Hr Hws Hsg Hne Hds Hrest Hu.
  assert (∀ c, head (pre ++ ds ++ rest) = Some c → isspace c = false ∧ c ≠ 45 ∧ c ≠ 43) as Hhead.
  { destruct ds as [|d ds]; [done|]. apply Forall_cons in Hds as [Hd _].
    destruct Hr; simpl; intros ? [= <-]; (done || by eapply digit_not_space). }
  unfold read_number. rewrite span_len_app, drop_app_length; [|done|].
  - rewrite (read_sign_app minus) by (done || intros; by apply Hhead).
    rewrite (read_prefix_app _ _ b) by done. rewrite span_len_app by done.
    by rewrite take_app_length, drop_app_length.
  - intros c. destruct minus; simpl in Hsg; [subst; by intros [= <-]|].
    destruct Hsg as [-> | ->]; [|by intros [= <-]]. intros Hc. by apply Hhead in Hc as [? _].
Qed.

(** * The functions of the library *)
Definition end_stored (endptr q : Z) (m : mem) : mem :=
  if endptr =? NULL then m else wrw m endptr q.

Lemma strntoumax_spec m s endptr base n l : seen m s n l → n < 2 ^ 32 →
  endptr = NULL ∨ mapped m endptr 4 →
  wp (strntoumax s endptr base n) (λ v m', v = u64 (read_number base l).1 ∧
    m' = end_stored endptr (s + ZL l - ZL (read_number base l).2) m) m.
Proof.
  intros Hl Hn He. unfold strntoumax, end_stored. apply wp_bind. eapply wp_mono; [by apply strntoumax_scan_spec|].
  intros [v q] ? (-> & -> & ->). apply wp_bind. destruct (Z.eqb_spec endptr NULL); simpl; [by apply wp_ret, wp_ret|].
  destruct He as [?|He]; [done|]. apply wp_stw; [done|]. by apply wp_ret.
Qed.

Lemma seen_all m s l : cstr m s l → ZL l < 2 ^ 32 - 1 → seen m s (u32 (Z.lnot 0)) l.
Proof.
  intros Hs Hl. change (u32 (Z.lnot 0)) with (2 ^ 32 - 1). split; [lia|]. exists l. split; [done|].
  rewrite take_ge by lia. done.
Qed.

Lemma strtox_spec TYPE m s endptr base l : cstr m s l → ZL l < 2 ^ 32 - 1 →
  endptr = NULL ∨ mapped m endptr 4 →
  wp (strtox TYPE s endptr base) (λ v m', v = TYPE (u64 (read_number base l).1) ∧
    m' = end_stored endptr (s + ZL l - ZL (read_number base l).2) m) m.
Proof.
  intros. unfold strtox. apply wp_bind. eapply wp_mono; [apply strntoumax_spec; [by apply seen_all|done..]|].
  intros v ? [-> ->]. by apply wp_ret.
Qed.

Lemma atox_spec TYPE m s l : cstr m s l → ZL l < 2 ^ 32 - 1 →
  wp (atox TYPE s) (λ v m', v = TYPE (u64 (read_number 10 l).1) ∧ m' = m) m.
Proof.
  intros. unfold atox. apply wp_bind. eapply wp_mono; [apply strntoumax_spec; [by apply seen_all|done|by left]|].
  intros v ? [-> ->]. by apply wp_ret.
Qed.

Lemma mod_divides a b x : (b | a) → 0 < a → 0 < b → (x mod a) mod b = x mod b.
Proof. intros. by apply Z.mod_mod_divide. Qed.

Lemma u32_u64 x : u32 (u64 x) = u32 x.
Proof. apply mod_divides; [by exists (2 ^ 32)|done..]. Qed.

Lemma s32_u64 x : s32 (u64 x) = s32 x.
Proof.
  unfold wraps. f_equal. change (u32 (u64 x + 2 ^ 31) = u32 (x + 2 ^ 31)).
  by rewrite <- (u32_u64 (u64 x + _)), wrapu_add_l, u32_u64.
Qed.

Lemma s64_u64 x : s64 (u64 x) = s64 x.
Proof. unfold wraps. f_equal. apply wrapu_add_l. Qed.

(** C31 The strto... and ato... functions read any string as the reference reader does, in one
    pass and without touching memory but for the end pointer: the value is the one the
    reference reader finds, reduced to the width of the function's type, and [endptr] gets
    the address of the first byte after the number.  On a numeral (white space, an optional
    sign, the base's prefix, digits, then something else) the reference reader answers its
    positional value and stops at the end of the digits. *)
Theorem strto_reads_numbers (m : mem) (s endptr base : Z) (l : list Z) :
  cstr m s l → ZL l < 2 ^ 32 - 1 → endptr = NULL ∨ mapped m endptr 4 →
  let v := (read_number base l).1 in
  let m2 := end_stored endptr (s + ZL l - ZL (read_number base l).2) m in
  wp (strtol s endptr base) (λ r m', r = s32 v ∧ m' = m2) m ∧
  wp (strtoul s endptr base) (λ r m', r = u32 v ∧ m' = m2) m ∧
  wp (strtoll s endptr base) (λ r m', r = s64 v ∧ m' = m2) m ∧
  wp (strtoull s endptr base) (λ r m', r = u64 v ∧ m' = m2) m ∧
  wp (atoi s) (λ r m', r = s32 (read_number 10 l).1 ∧ m' = m) m ∧
  wp (atoll s) (λ r m', r = s64 (read_number 10 l).1 ∧ m' = m) m ∧
  (∀ pre b ws minus sg ds rest, l = ws ++ sg ++ pre ++ ds ++ rest →
     radix base pre b → Forall (λ c, isspace c = true) ws → sign_of minus sg → ds ≠ [] →
     Forall (λ c, is_digit b c = true) ds → stops (is_digit b) rest → unambiguous base pre ds rest →
     v = (if minus then - value b ds else value b ds) ∧
     m2 = end_stored endptr (s + ZL (ws ++ sg ++ pre ++ ds)) m).
Proof.
  intros Hs Hl He v m2.
  assert (∀ TYPE (f : Z → Z), (∀ x, TYPE (u64 x) = f x) →
    wp (strtox TYPE s endptr base) (λ r m', r = f v ∧ m' = m2) m) as Hstrto.
  { intros TYPE f Hf. eapply wp_mono; [by apply strtox_spec|]. intros r ? [-> ->]. by rewrite Hf. }
  assert (∀ TYPE (f : Z → Z), (∀ x, TYPE (u64 x) = f x) →
    wp (atox TYPE s) (λ r m', r = f (read_number 10 l).1 ∧ m' = m) m) as Hato.
  { intros TYPE f Hf. eapply wp_mono; [by apply atox_spec|]. intros r ? [-> ->]. by rewrite Hf. }
  split_and!; [apply Hstrto, s32_u64|apply Hstrto, u32_u64|apply Hstrto, s64_u64|apply Hstrto, wrapu_idemp
    |apply Hato, s32_u64|apply Hato, s64_u64|].
  intros pre b ws minus sg ds rest El **. subst v m2.
  rewrite El, (read_number_numeral _ _ b _ minus) by done. split; [done|]. cbn [fst snd].
  rewrite !length_app. f_equal. lia.
Qed.

(** The string " -0x1fz" at 256, with room for an end pointer at 264. *)
Definition num_mem : mem := mem_at [32; 45; 48; 120; 49; 102; 122; 0; 1; 1; 1; 1].

Lemma strto_reads_numbers_witness :
  wp (strtol 256 264 16) (λ r m', r = -31 ∧ m' = wrw num_mem 264 262) num_mem ∧
  (read_number 0 [32; 45; 48; 120; 49; 102; 122]).1 = - value 16 [49; 102].
Proof.
  assert (cstr num_mem 256 [32; 45; 48; 120; 49; 102; 122]) as Hs.
  { split; [by repeat constructor|]. apply arr_lookup. intros i b Hi.
    pose proof (lookup_lt_Some _ _ _ Hi). simpl in *.
    do 8 (destruct i as [|i]; [by injection Hi as <-|]). lia. }
  assert (mapped num_mem 264 4) as He by (apply mem_at_mapped; simpl; lia).
  split.
  - apply (strto_reads_numbers num_mem 256 264 16 [32; 45; 48; 120; 49; 102; 122] Hs ltac:(simpl; lia) (or_intror He)).
  - pose proof (strto_reads_numbers num_mem 256 264 0 [32; 45; 48; 120; 49; 102; 122] Hs ltac:(simpl; lia)
      (or_intror He)) as H. cbv zeta in H. destruct H as (_ & _ & _ & _ & _ & _ & H).
    apply (H [48; 120] 16 [32] true [45] [49; 102] [122]); try done.
    + apply radix_hex; by left.
    + by repeat constructor.
    + by repeat constructor.
    + by intros ? [= <-].
Defined.
