(* ===== verification/Stdio.v ===== *)
(** The streams of the C library: stdio.h, memfile.c and fgets.c.  A stream is an instance
    of [FILE]: a state that holds the byte memory, and the two methods of its table, either
    of which may be missing.  The streams of the program are the memory files of memfile.c
    and the console of the UART driver. *)
From stdpp Require Import base list gmap fin_maps.
From Stdlib Require Import ZArith Lia.
From S2P Require Import Prelude Memory LibcMem LibcStr ConsProd Csr Uart.

#[local] Open Scope Z_scope.

Definition EOF : Z := -1.

(** [struct File] with its [File_methods]; a method gets the address of the caller's buffer
    and a length and answers the number of bytes it moved. *)
Class FILE (T : Type) : Type := {
  f_mem : T → mem;
  f_set_mem : mem → T → T;
  vmt_write : option (Z → Z → M T Z);
  vmt_read : option (Z → Z → M T Z);
  f_mem_set : ∀ m t, f_mem (f_set_mem m t) = m;
  f_set_id : ∀ t, f_set_mem (f_mem t) t = t;
}.

(** * stdio.h

    [ch_loc] is the address of the local variable [ch] of fputc and fgetc. *)
Section Stdio.
Context {T : Type} `{FILE T}.

Definition in_fmem {A} (m : M mem A) : M T A := zoom f_mem f_set_mem m.

Definition fread (buf size nmemb : Z) : M T Z :=
  match vmt_read with
  | None => mret 0
  | Some read => r ← read buf (u32 (size * nmemb)); mret (r / size)
  end.

Definition fwrite (buf size nmemb : Z) : M T Z :=
  match vmt_write with
  | None => mret 0
  | Some write => r ← write buf (u32 (size * nmemb)); mret (r / size)
  end.

Definition fputs (s : Z) : M T Z :=
  n ← in_fmem (strlen s); r ← fwrite s 1 n; mret (s32 r).

Definition fputc (ch_loc c : Z) : M T Z :=
  in_fmem (storeb ch_loc c);;
  r ← fwrite ch_loc 1 1;
  if r =? 1 then in_fmem (loadb ch_loc) else mret EOF.

Definition fgetc (ch_loc : Z) : M T Z :=
  r ← fread ch_loc 1 1;
  if r =? 1 then in_fmem (loadb ch_loc) else mret EOF.

(** fgets.c *)
Definition fgets (ch_loc s n : Z) : M T Z :=
  '(eof, p, n) ← loop (λ '(p, n),
    if 1 <? n then
      ch ← fgetc ch_loc;
      if ch =? EOF then mret (inr (true, p, n))
      else
        in_fmem (storeb p ch);;
        if ch =? 10 then mret (inr (false, p + 1, n - 1))
        else mret (inl (p + 1, n - 1))
    else mret (inr (false, p, n))) (s, n);
  if (eof : bool) then in_fmem (storeb p 0);; mret NULL
  else when (negb (n =? 0)) (in_fmem (storeb p 0));; mret s.
End Stdio.

(** * memfile.c *)
Record MemFile : Type := Memfile {
  buffer : Z;
  bytes_written : Z;
  mf_size : Z;
}.

Definition fmemopen_w (buffer size : Z) : MemFile := Memfile buffer 0 size.

Definition memfile_write (bp n : Z) : M (mem * MemFile) Z :=
  loop (λ '(bp, n, i),
    if n =? 0 then mret (inr i)
    else
      modify (λ '(m, f), (m, Memfile (buffer f) (u32 (bytes_written f + 1)) (mf_size f)));;
      f ← gets snd;
      if bytes_written f <=? mf_size f then
        c ← zoom fst (λ m t, (m, t.2)) (loadb bp);
        zoom fst (λ m t, (m, t.2)) (storeb (buffer f) c);;
        modify (λ '(m, f), (m, Memfile (buffer f + 1) (bytes_written f) (mf_size f)));;
        mret (inl (bp + 1, n - 1, i + 1))
      else mret (inl (bp, n - 1, i))) (bp, n, 0).

#[export, refine] Instance MemFile_methods : FILE (mem * MemFile) :=
  {| f_mem := fst; f_set_mem m t := (m, t.2);
     vmt_write := Some memfile_write; vmt_read := None |}.
Proof. - done. - by intros []. Defined.

(** * The console: the methods of uart0.c

    The state carries the interrupts that are still to come while a call waits. *)
Definition on_console {A} (m : list (irq uart) → M uart (A * list (irq uart))) : M (uart * list (irq uart)) A :=
  λ '(u, irqs),
    match m irqs u with
    | Ret ((a, irqs'), u') => Ret (a, (u', irqs'))
    | Fault => Fault
    | Spin => Spin
    end.

#[export, refine] Instance uart0_fmethods : FILE (uart * list (irq uart)) :=
  {| f_mem t := u_mem t.1; f_set_mem m t := (set_mem m t.1, t.2);
     vmt_write := Some (λ buf len, on_console (λ irqs, uart0_blocking_write_multiple irqs buf len));
     vmt_read := Some (λ buf len, on_console (λ irqs, uart0_blocking_read_multiple irqs buf len)) |}.
Proof. - done. - by intros [[] ?]. Defined.

Definition puts (s newline : Z) : M (uart * list (irq uart)) Z :=
  n ← in_fmem (strlen s);
  a ← fwrite s 1 n;
  b ← fwrite newline 1 1;
  mret (s32 (u32 (a + b))).
