(* ===== verification/Printf.v ===== *)
(** The formatter of tinyprintf.c, compiled without PRINTF_LONG_SUPPORT: the conversions of
    numbers to digits, the padded output of a field, and the interpreter of the format
    string, on any stream of [Stdio]; then what a format means, and that the formatter
    sends exactly those bytes to the stream. *)
From stdpp Require Import base list gmap fin_maps.
From Stdlib Require Import ZArith Lia.
From S2P Require Import Prelude Memory LibcMem LibcStr Strto Stdio.

#[local] Open Scope Z_scope.

(** * The code *)
Record param : Type := Param {
  width : Z;
  lz : Z;
  sign : Z;
  alt : Z;
  base : Z;
  uc : Z;
  bf : Z;
}.

Definition set_width (w : Z) (p : param) : param :=
  Param w (lz p) (sign p) (alt p) (base p) (uc p) (bf p).
Definition set_lz (x : Z) (p : param) : param :=
  Param (width p) x (sign p) (alt p) (base p) (uc p) (bf p).
Definition set_sign (x : Z) (p : param) : param :=
  Param (width p) (lz p) x (alt p) (base p) (uc p) (bf p).
Definition set_alt (x : Z) (p : param) : param :=
  Param (width p) (lz p) (sign p) x (base p) (uc p) (bf p).
Definition set_base (x : Z) (p : param) : param :=
  Param (width p) (lz p) (sign p) (alt p) x (uc p) (bf p).
Definition set_uc (x : Z) (p : param) : param :=
  Param (width p) (lz p) (sign p) (alt p) (base p) x (bf p).
Definition set_bf (x : Z) (p : param) : param :=
  Param (width p) (lz p) (sign p) (alt p) (base p) (uc p) x.

(** The character of a digit. *)
Definition digit_char (upper : bool) (dgt : Z) : Z :=
  dgt + (if dgt <? 10 then 48 else (if upper then 65 else 97) - 10).

(** The divisions are of [unsigned int]; a division by 0 cannot happen, [d] being the power
    of the base that the first loop ends with. *)
Definition ui2a (num : Z) (p : param) : M mem () :=
  d ← loop (λ d,
    mret (if base p <=? num / d then inl (u32 (d * base p)) else inr d)) 1;
  b ← loop (λ '(n, num, d, b),
    if d =? 0 then mret (inr b)
    else
      let dgt := num / d in
      let num := num mod d in
      let d := d / base p in
      if negb (n =? 0) || (0 <? dgt) || (d =? 0) then
        storeb b (digit_char (negb (uc p =? 0)) dgt);;
        mret (inl (s32 (n + 1), num, d, b + 1))
      else mret (inl (n, num, d, b))) (0, num, d, bf p);
  storeb b 0.

Definition i2a (num : Z) (p : param) : M mem param :=
  if num <? 0 then
    let p := set_sign 45 p in
    ui2a (u32 (s32 (- num))) p;; mret p
  else ui2a (u32 num) p;; mret p.

Definition a2d (ch : Z) : Z :=
  if (48 <=? ch) && (ch <=? 57) then ch - 48
  else if (97 <=? ch) && (ch <=? 102) then ch - 97 + 10
  else if (65 <=? ch) && (ch <=? 70) then ch - 65 + 10
  else -1.

(** Answers the next character, the position in the format and the number. *)
Definition a2i (ch src base : Z) : M mem (Z * Z * Z) :=
  loop (λ '(ch, p, num),
    let digit := a2d ch in
    if 0 <=? digit then
      if base <? digit then mret (inr (ch, p, num))
      else
        let num := s32 (num * base + digit) in
        ch ← loadb p;
        mret (inl (ch, p + 1, num))
    else mret (inr (ch, p, num))) (ch, src, 0).

(** [va_arg]: the arguments are words. *)
Definition va_arg {S} (va : list Z) : M S (Z * list Z) :=
  match va with
  | x :: va => mret (x, va)
  | [] => fault
  end.

(** The flags after a percent sign: the character after them, the position, the parameters. *)
Definition read_flags (fmt : Z) (p : param) : M mem (Z * Z * param) :=
  loop (λ '(fmt, p),
    ch ← loadb fmt;
    let fmt := fmt + 1 in
    if ch =? 0 then mret (inr (ch, fmt, p))
    else if ch =? 48 then mret (inl (fmt, set_lz 1 p))
    else if ch =? 35 then mret (inl (fmt, set_alt 1 p))
    else mret (inr (ch, fmt, p))) (fmt, p).

Section Format.
Context {T : Type} `{FILE T}.

(** The stack frames: [ch_loc] is where fputc has its [ch], [bf_loc] where tfp_format has
    its [bf], and [garbage] is what its [p] holds before it is set. *)
Context (ch_loc bf_loc : Z) (garbage : param).

Definition putf (c : Z) : M T Z :=
  r ← fputc ch_loc c;
  mret (if r =? EOF then 0 else 1).

(** [while (n-- > 0) written += putf(putp, c);] *)
Definition fill (c n written : Z) : M T Z :=
  loop (λ '(n, written),
    if 0 <? n then r ← putf c; mret (inl (n - 1, u32 (written + r)))
    else mret (inr written)) (n, written).

Definition putchw (p : param) : M T Z :=
  n ← in_fmem (loop (λ '(b, n),
    c ← loadb b;
    mret (if negb (c =? 0) && (0 <? n) then inl (b + 1, n - 1) else inr n)) (bf p, width p));
  let n := if negb (sign p =? 0) then s32 (n - 1) else n in
  let n := if negb (alt p =? 0) && (base p =? 16) then s32 (n - 2)
           else if negb (alt p =? 0) && (base p =? 8) then s32 (n - 1) else n in
  written ← (if lz p =? 0 then fill 32 n 0 else mret 0);
  written ← (if negb (sign p =? 0) then r ← putf (sign p); mret (u32 (written + r))
             else mret written);
  written ← (if negb (alt p =? 0) && (base p =? 16) then
               r ← putf 48;
               r' ← putf (if negb (uc p =? 0) then 88 else 120);
               mret (u32 (u32 (written + r) + r'))
             else if negb (alt p =? 0) && (base p =? 8) then
               r ← putf 48; mret (u32 (written + r))
             else mret written);
  written ← (if negb (lz p =? 0) then fill 48 n written else mret written);
  loop (λ '(b, written),
    ch ← in_fmem (loadb b);
    if ch =? 0 then mret (inr written)
    else r ← putf ch; mret (inl (b + 1, u32 (written + r)))) (bf p, written).

(** The conversion [ch]: the count, the arguments left and the parameters. *)
Definition convert (ch : Z) (va : list Z) (p : param) (written : Z) : M T (Z * list Z * param) :=
  if ch =? 117 then
    let p := set_base 10 p in
    '(x, va) ← va_arg va;
    in_fmem (ui2a (u32 x) p);;
    r ← putchw p; mret (u32 (written + r), va, p)
  else if (ch =? 100) || (ch =? 105) then
    let p := set_base 10 p in
    '(x, va) ← va_arg va;
    p ← in_fmem (i2a (s32 x) p);
    r ← putchw p; mret (u32 (written + r), va, p)
  else if (ch =? 120) || (ch =? 88) then
    let p := set_uc (if ch =? 88 then 1 else 0) (set_base 16 p) in
    '(x, va) ← va_arg va;
    in_fmem (ui2a (u32 x) p);;
    r ← putchw p; mret (u32 (written + r), va, p)
  else if ch =? 111 then
    let p := set_base 8 p in
    '(x, va) ← va_arg va;
    in_fmem (ui2a (u32 x) p);;
    r ← putchw p; mret (u32 (written + r), va, p)
  else if ch =? 99 then
    '(x, va) ← va_arg va;
    r ← putf (u8 x); mret (u32 (written + r), va, p)
  else if ch =? 115 then
    '(x, va) ← va_arg va;
    r ← putchw (set_bf x p); mret (u32 (written + r), va, set_bf bf_loc p)
  else if ch =? 37 then r ← putf ch; mret (u32 (written + r), va, p)
  else mret (written, va, p).

(** One round of the main loop of tfp_format. *)
Definition format_round (fmt : Z) (va : list Z) (p : param) (written : Z) :
    M T (Z * list Z * param * Z + Z) :=
  ch ← in_fmem (loadb fmt);
  let fmt := fmt + 1 in
  if ch =? 0 then mret (inr written)
  else if negb (ch =? 37) then
    r ← putf ch; mret (inl (fmt, va, p, u32 (written + r)))
  else
    let p := set_sign 0 (set_width 0 (set_alt 0 (set_lz 0 p))) in
    '(ch, fmt, p) ← in_fmem (read_flags fmt p);
    '(ch, fmt, p) ←
      (if (48 <=? ch) && (ch <=? 57) then
         '(ch, fmt, w) ← in_fmem (a2i ch fmt 10);
         mret (ch, fmt, set_width w p)
       else mret (ch, fmt, p));
    '(ch, fmt) ← (if ch =? 108 then ch ← in_fmem (loadb fmt); mret (ch, fmt + 1)
                  else mret (ch, fmt));
    if ch =? 0 then mret (inr written)
    else
      '(written, va, p) ← convert ch va p written;
      mret (inl (fmt, va, p, written)).

Definition tfp_format (fmt : Z) (va : list Z) : M T Z :=
  loop (λ '(fmt, va, p, written), format_round fmt va p written) (fmt, va, set_bf bf_loc garbage, 0).

Definition vfprintf (fmt : Z) (va : list Z) : M T Z := r ← tfp_format fmt va; mret (s32 r).
Definition fprintf (fmt : Z) (args : list Z) : M T Z := vfprintf fmt args.
End Format.

(** * Digits *)

(** The digits of a number, the reference: at most [k] of them. *)
Fixpoint digits_upto (k : nat) (upper : bool) (b n : Z) : list Z :=
  match k with
  | O => []
  | S k =>
      if n <? b then [digit_char upper n]
      else digits_upto k upper b (n / b) ++ [digit_char upper (n mod b)]
  end.
Definition digits : bool → Z → Z → list Z := digits_upto 32.

(** Exactly [j] digits, the highest first: the order in which ui2a produces them. *)
Fixpoint fixed_digits (upper : bool) (b : Z) (j : nat) (n : Z) : list Z :=
  match j with
  | O => []
  | S j => digit_char upper (n / b ^ Z.of_nat j) :: fixed_digits upper b j (n mod b ^ Z.of_nat j)
  end.

Section Digits.
Context (upper : bool) (b : Z) (Hb : 2 ≤ b).

Lemma pow_S (j : nat) : b ^ Z.of_nat (S j) = b * b ^ Z.of_nat j.
Proof. rewrite Nat2Z.inj_succ, Z.pow_succ_r by lia. done. Qed.

Lemma pow_pos_nat (j : nat) : 0 < b ^ Z.of_nat j.
Proof. apply Z.pow_pos_nonneg; lia. Qed.

Lemma fixed_digits_snoc (j : nat) n : 0 ≤ n < b ^ Z.of_nat (S j) →
  fixed_digits upper b (S j) n = fixed_digits upper b j (n / b) ++ [digit_char upper (n mod b)].
Proof.
  revert n. induction j as [|j IH]; intros n Hn.
  - simpl. rewrite Z.div_1_r, Z.mod_small; [done|]. rewrite pow_S in Hn. simpl in Hn. lia.
  - pose proof (pow_pos_nat j). pose proof (pow_pos_nat (S j)).
    change (fixed_digits upper b (S (S j)) n) with
      (digit_char upper (n / b ^ Z.of_nat (S j)) :: fixed_digits upper b (S j) (n mod b ^ Z.of_nat (S j))).
    rewrite IH by (apply Z.mod_pos_bound; lia). cbn [fixed_digits app]. rewrite !pow_S.
    rewrite Z.rem_mul_r by lia. f_equal; [f_equal; rewrite Z.div_div by lia; done|].
    replace (n mod b + b * ((n / b) mod b ^ Z.of_nat j)) with
      (n mod b + (n / b) mod b ^ Z.of_nat j * b) by lia.
    rewrite Z.div_add, Z.mod_add by lia. rewrite Z.div_small, Z.mod_mod by (first [lia|apply Z.mod_pos_bound; lia]).
    done.
Qed.

Lemma digits_upto_fixed (k j : nat) n : (j < k)%nat → 0 ≤ n < b ^ Z.of_nat (S j) →
  j = 0%nat ∨ b ^ Z.of_nat j ≤ n → digits_upto k upper b n = fixed_digits upper b (S j) n.
Proof.
  revert j n. induction k as [|k IH]; intros j n Hk Hn Hj; [lia|]. cbn [digits_upto].
  destruct (Z.ltb_spec n b) as [Hlt|Hge].
  - assert (j = 0%nat) as ->.
    { destruct Hj as [|Hj]; [done|]. destruct j as [|j]; [done|]. rewrite pow_S in Hj.
      pose proof (pow_pos_nat j). nia. }
    simpl. by rewrite Z.div_1_r.
  - destruct j as [|j].
    { rewrite pow_S in Hn. simpl in Hn. lia. }
    destruct Hj as [|Hj]; [done|]. rewrite fixed_digits_snoc by done.
    rewrite pow_S in Hj. rewrite (pow_S (S j)) in Hn. f_equal. apply IH; [lia| |right].
    + split; [apply Z.div_pos; lia|]. apply Z.div_lt_upper_bound; lia.
    + apply Z.div_le_lower_bound; lia.
Qed.

Lemma length_fixed_digits j n : length (fixed_digits upper b j n) = j.
Proof. revert n. induction j; intros; simpl; auto. Qed.

(** The power of the base just below a number. *)
Lemma digits_top n : 0 ≤ n < 2 ^ 32 →
  ∃ j : nat, (j < 32)%nat ∧ n < b ^ Z.of_nat (S j) ∧ (j = 0%nat ∨ b ^ Z.of_nat j ≤ n).
Proof.
  intros Hn. assert (∃ j : nat, (j < 32)%nat ∧ n < b ^ Z.of_nat (S j)) as Hex.
  { exists 31%nat. split; [lia|]. pose proof (Z.pow_le_mono_l 2 b 32). simpl Z.of_nat. lia. }
  destruct Hex as (j & Hj & Hlt). induction j as [|j IH]; [exists 0%nat; auto|].
  destruct (Z.lt_ge_cases n (b ^ Z.of_nat (S j))); [apply IH; [lia|done]|]. exists (S j). auto.
Qed.
End Digits.

Lemma digit_char_range upper d : 0 ≤ d < 16 → 48 ≤ digit_char upper d < 103.
Proof. unfold digit_char. destruct (Z.ltb_spec d 10); [lia|]. destruct upper; lia. Qed.

Lemma digit_char_value upper d : 0 ≤ d < 16 → digitval (digit_char upper d) = d.
Proof.
  intros Hd. unfold digit_char, digitval. destruct (Z.ltb_spec d 10); [|destruct upper];
    repeat match goal with |- context [if ?c then _ else _] => destruct c eqn:? end; lia.
Qed.

Lemma digits_upto_Forall (P : Z → Prop) k upper b n : 2 ≤ b ≤ 16 → 0 ≤ n →
  (∀ d, 0 ≤ d < b → P (digit_char upper d)) → Forall P (digits_upto k upper b n).
Proof.
  intros Hb Hn HP. revert n Hn. induction k as [|k IH]; intros n Hn; simpl; [done|].
  destruct (Z.ltb_spec n b); [constructor; [apply HP; lia|done]|].
  apply Forall_app. split; [apply IH, Z.div_pos; lia|]. constructor; [|done].
  apply HP, Z.mod_pos_bound. lia.
Qed.

(** Reading the digits of a number back. *)
Lemma digits_value upper b n : 2 ≤ b ≤ 16 → 0 ≤ n < 2 ^ 32 → value b (digits upper b n) = n.
Proof.
  intros Hb Hn. unfold digits. assert (n < b ^ Z.of_nat 32) as Hk.
  { pose proof (Z.pow_le_mono_l 2 b 32). simpl Z.of_nat. lia. }
  assert (0 ≤ n) as Hn0 by lia. clear Hn. revert n Hn0 Hk.
  generalize 32%nat. intros k. induction k as [|k IH]; intros n Hn Hk; cbn [digits_upto].
  { simpl in Hk. unfold value. simpl. lia. }
  destruct (Z.ltb_spec n b).
  { unfold value. simpl. rewrite digit_char_value; lia. }
  pose proof (Z.mod_pos_bound n b ltac:(lia)).
  rewrite value_snoc, digit_char_value by lia. rewrite IH; [|apply Z.div_pos; lia|].
  - pose proof (Z.div_mod n b ltac:(lia)). lia.
  - rewrite pow_S in Hk. apply Z.div_lt_upper_bound; lia.
Qed.

Lemma digits_ok upper b n : 2 ≤ b ≤ 16 → 0 ≤ n →
  nonzero (digits upper b n) ∧ Forall is_byte (digits upper b n) ∧
  Forall (λ c, is_digit b c = true) (digits upper b n).
Proof.
  intros Hb Hn. split_and!; apply digits_upto_Forall; try done; intros d Hd;
    pose proof (digit_char_range upper d); unfold is_byte; try lia.
  unfold is_digit. rewrite digit_char_value by lia. lia.
Qed.

(** Below base 10 the case of the letters does not matter. *)
Lemma digits_decimal upper b n : 2 ≤ b ≤ 10 → 0 ≤ n → digits upper b n = digits false b n.
Proof.
  intros Hb. unfold digits. revert n. generalize 32%nat. intros k.
  induction k as [|k IH]; intros n Hn; cbn [digits_upto]; [done|].
  assert (∀ d, 0 ≤ d < b → digit_char upper d = digit_char false d) as Hd.
  { intros d Hd. unfold digit_char. by rewrite (proj2 (Z.ltb_lt d 10)) by lia. }
  destruct (Z.ltb_spec n b); [f_equal; apply Hd; lia|].
  rewrite IH by (apply Z.div_pos; lia). do 2 f_equal. apply Hd, Z.mod_pos_bound. lia.
Qed.

Lemma digits_nonempty upper b n : digits upper b n ≠ [].
Proof.
  unfold digits. generalize 31%nat. intros k. cbn [digits_upto].
  destruct (n <? b); [done|]. apply not_eq_sym, app_cons_not_nil.
Qed.

Lemma digits_length_32 upper b n : (length (digits upper b n) ≤ 32)%nat.
Proof.
  unfold digits. revert n. generalize 32%nat. intros k. induction k as [|k IH]; intros n; cbn [digits_upto].
  { done. }
  destruct (n <? b); [simpl; lia|]. rewrite length_app. specialize (IH (n / b)). simpl. lia.
Qed.

Lemma digits_fixed upper b (j : nat) n : 2 ≤ b → 0 ≤ n < 2 ^ 32 → n < b ^ Z.of_nat (S j) →
  j = 0%nat ∨ b ^ Z.of_nat j ≤ n → digits upper b n = fixed_digits upper b (S j) n.
Proof.
  intros Hb Hn Hlt Hj. apply digits_upto_fixed; [done| |lia|done]. destruct Hj as [-> | Hj]; [lia|].
  destruct (Nat.lt_ge_cases j 32) as [|Hbig]; [done|exfalso].
  pose proof (Z.pow_le_mono_r b 32 (Z.of_nat j) ltac:(lia) ltac:(lia)).
  pose proof (Z.pow_le_mono_l 2 b 32 ltac:(lia)). lia.
Qed.

(** Eleven characters and a NUL: the 12 bytes of tfp_format's buffer. *)
Lemma digits_length upper b n : 8 ≤ b → 0 ≤ n < 2 ^ 32 → (length (digits upper b n) ≤ 11)%nat.
Proof.
  intros Hb Hn. destruct (digits_top b ltac:(lia) n Hn) as (j & Hj & Hlt & Hge).
  unfold digits. rewrite (digits_upto_fixed upper b ltac:(lia) 32 j) by (lia || done).
  rewrite length_fixed_digits. destruct Hge as [->|Hge]; [lia|].
  destruct (Nat.le_gt_cases j 10) as [|Hbig]; [lia|]. exfalso.
  pose proof (Z.pow_le_mono_r b 11 (Z.of_nat j) ltac:(lia) ltac:(lia)).
  pose proof (Z.pow_le_mono_l 8 b 11 ltac:(lia)). lia.
Qed.

#[global] Opaque digits.

(** * ui2a and i2a *)
Section Numbers.
Implicit Types (m : mem) (p : param).

Lemma ui2a_top num p m : 2 ≤ base p ≤ 16 → 0 ≤ num < 2 ^ 32 →
  wp (loop (λ d, mret (if base p <=? num / d then inl (u32 (d * base p)) else inr d)) 1)
    (λ d m', m' = m ∧ ∃ j : nat, d = base p ^ Z.of_nat j ∧ num < base p ^ Z.of_nat (S j) ∧
       (j = 0%nat ∨ d ≤ num)) m.
Proof.
  intros Hb Hn. set (b := base p) in *. apply wp_loop with
    (I := λ d m', m' = m ∧ ∃ j : nat, d = b ^ Z.of_nat j ∧ (j = 0%nat ∨ d ≤ num))
    (f := λ d _, 2 ^ 33 - d); [|lia|].
  { split; [done|]. exists 0%nat. auto. }
  intros d m' (-> & j & -> & Hj). pose proof (pow_pos_nat b ltac:(lia) j) as Hp.
  assert (b ^ Z.of_nat j < 2 ^ 33) by (destruct Hj as [-> | Hj]; simpl; lia).
  split; [lia|]. apply wp_ret. destruct (Z.leb_spec b (num / b ^ Z.of_nat j)) as [Hle|Hlt].
  - assert (b ^ Z.of_nat j * b ≤ num).
    { transitivity (b ^ Z.of_nat j * (num / b ^ Z.of_nat j)); [by apply Z.mul_le_mono_nonneg_l; lia|].
      apply Z.mul_div_le. lia. }
    rewrite wrapu_small by nia. split; [|nia]. split; [done|]. exists (S j). rewrite pow_S.
    split; [lia|]. right. lia.
  - split; [done|]. exists j. split; [done|]. split; [|done]. rewrite pow_S.
    destruct (Z.lt_ge_cases num (b * b ^ Z.of_nat j)); [done|exfalso].
    assert (b ≤ num / b ^ Z.of_nat j); [|lia]. apply Z.div_le_lower_bound; lia.
Qed.

(** What is left to print: [num] in [S j] digits from [d = b ^ j], or nothing any more. *)
Definition ui2a_rest (upper : bool) (b : Z) (num d : Z) (l : list Z) : Prop :=
  d = 0 ∧ l = [] ∨
  ∃ j : nat, d = b ^ Z.of_nat j ∧ 0 ≤ num < b ^ Z.of_nat (S j) ∧ l = fixed_digits upper b (S j) num.

Lemma ui2a_rest_step upper b num d l : 2 ≤ b ≤ 16 → d ≠ 0 → ui2a_rest upper b num d l →
  0 < d ∧ 0 ≤ num / d < b ∧ 0 ≤ d / b < d ∧ ∃ l', l = digit_char upper (num / d) :: l' ∧
    ui2a_rest upper b (num mod d) (d / b) l'.
Proof.
  intros Hb Hd [[? _]|(j & -> & Hnum & ->)]; [done|]. pose proof (pow_pos_nat b ltac:(lia) j) as Hp.
  split; [done|]. split; [|split].
  - rewrite pow_S in Hnum. split; [by apply Z.div_pos; lia|]. apply Z.div_lt_upper_bound; lia.
  - split; [apply Z.div_pos; lia|]. apply Z.div_lt; lia.
  - eexists. split; [done|]. destruct j as [|j].
    + left. split; [apply Z.div_small; simpl; lia|done].
    + right. exists j. rewrite pow_S in Hp |- *. split; [|split; [apply Z.mod_pos_bound; lia|done]].
      rewrite Z.mul_comm. apply Z.div_mul. lia.
Qed.

Lemma ui2a_spec num p m : 2 ≤ base p ≤ 16 → 0 ≤ num < 2 ^ 32 →
  mapped m (bf p) (ZL (digits (negb (uc p =? 0)) (base p) num) + 1) →
  wp (ui2a num p) (λ _ m', m' = mem_write m (bf p) (digits (negb (uc p =? 0)) (base p) num ++ [0])) m.
Proof.
  intros Hb Hn Hm. set (up := negb (uc p =? 0)) in *. set (D := digits up (base p) num) in *.
  unfold ui2a. fold up. apply wp_bind. eapply wp_mono; [by apply ui2a_top|]. intros d ? (-> & j & -> & Hlt & Hj).
  assert (D = fixed_digits up (base p) (S j) num) as HD.
  { by apply digits_fixed; [lia|..]. }
  apply wp_bind, wp_loop with
    (I := λ '(n, nm, d, b) m', ∃ pre rest, D = pre ++ rest ∧ m' = mem_write m (bf p) pre ∧
       b = bf p + ZL pre ∧ n = ZL pre ∧ ui2a_rest up (base p) nm d rest ∧
       (pre = [] → 0 < nm / d ∨ d = 1))
    (f := λ '(_, _, d, _) _, d).
  { exists [], D. split; [done|]. split; [done|]. split; [simpl; lia|]. split; [done|].
    split; [right; exists j; split; [done|split; [lia|done]]|]. intros _.
    destruct Hj as [-> | Hj]; [by right|left]. apply Z.div_str_pos. split; [|done]. apply pow_pos_nat. lia. }
  { destruct Hj as [-> | Hj]; simpl; lia. }
  intros [[[n nm] d] b] m' (pre & rest & E & -> & -> & -> & Hr & Hfirst).
  destruct (Z.eqb_spec d 0) as [->|Hd0].
  - split; [done|]. apply wp_ret. destruct Hr as [[_ ->]|(k & Hk & _)].
    + rewrite app_nil_r in E. subst pre. apply wp_storeb.
      { apply (mapped_write m (bf p) (ZL D + 1)); [done|lia]. }
      by rewrite (mem_write_snoc m (bf p) D 0).
    + pose proof (pow_pos_nat (base p) ltac:(lia) k). lia.
  - destruct (ui2a_rest_step up (base p) nm d rest Hb Hd0 Hr) as (Hpos & Hdig & Hdd & rest' & -> & Hr').
    split; [lia|]. cbn zeta.
    assert (negb (ZL pre =? 0) || (0 <? nm / d) || (d / base p =? 0) = true) as ->.
    { destruct pre as [|c pre]; [|done]. destruct (Hfirst eq_refl) as [?| ->].
      - by rewrite (proj2 (Z.ltb_lt 0 (nm / d))).
      - rewrite (Z.div_small 1 (base p)) by lia. by rewrite orb_true_r. }
    assert (ZL D = ZL pre + 1 + ZL rest') as HL by (rewrite E, length_app; simpl; lia).
    pose proof (digits_length_32 up (base p) num : (length D ≤ 32)%nat).
    apply wp_bind, wp_storeb; [apply (mapped_write m (bf p) (ZL D + 1)); [done|lia]|]. apply wp_ret.
    split; [|lia]. exists (pre ++ [digit_char up (nm / d)]), rest'.
    rewrite length_app. cbn [length]. rewrite <- app_assoc. split; [done|].
    pose proof (digit_char_range up (nm / d) ltac:(lia)). rewrite u8_small by (unfold is_byte; lia).
    split; [by rewrite mem_write_snoc|]. split; [lia|]. split; [rewrite wraps_small by lia; lia|].
    split; [done|]. intros Hnil. by apply app_nil in Hnil as [_ ?].
Qed.
End Numbers.

Lemma i2a_spec x p m : base p = 10 → - 2 ^ 31 ≤ x < 2 ^ 31 → mapped m (bf p) 12 →
  wp (i2a x p) (λ p' m', p' = (if x <? 0 then set_sign 45 p else p) ∧
    m' = mem_write m (bf p) (digits false 10 (Z.abs x) ++ [0])) m.
Proof.
  intros Hb Hx Hm.
  assert (∀ n q, n = Z.abs x → base q = 10 → bf q = bf p →
    wp (ui2a n q) (λ _ m', m' = mem_write m (bf p) (digits false 10 (Z.abs x) ++ [0])) m) as Hui.
  { intros n q -> Hbq Hbf. assert (0 ≤ Z.abs x < 2 ^ 32) by lia.
    pose proof (digits_length (negb (uc q =? 0)) 10 (Z.abs x) ltac:(lia) ltac:(lia)).
    eapply wp_mono; [apply ui2a_spec; rewrite ?Hbq, ?Hbf; [lia|done|]|].
    - eapply mapped_sub; [done|lia|lia].
    - intros ? ? ->. by rewrite Hbq, Hbf, digits_decimal by lia. }
  unfold i2a. destruct (Z.ltb_spec x 0); apply wp_bind; (eapply wp_mono; [apply Hui|]; [|done..|]).
  - unfold wraps, wrapu. change (2 ^ 32) with 4294967296. change (2 ^ (32 - 1)) with 2147483648.
    Z.div_mod_to_equations. lia.
  - intros ? ? ->. by apply wp_ret.
  - rewrite wrapu_small; lia.
  - intros ? ? ->. by apply wp_ret.
Qed.

(** * Sinks: what the formatter needs of a stream

    [I out w t]: the bytes [out] were put into the stream, which accepted [w] of them, and
    its state is [t].  The stream takes at least [limit] bytes, keeps the stack frames of the
    formatter and the strings [texts] that the call reads. *)
Definition local_bytes (ch_loc bf_loc x : Z) : Prop := x = ch_loc ∨ bf_loc ≤ x < bf_loc + 12.

Class Sink {T} `{FILE T} (I : list Z → Z → T → Prop) (limit : Z) (ch_loc bf_loc : Z)
    (texts : list (Z * list Z)) : Prop := {
  sink_frames : ¬ bf_loc ≤ ch_loc < bf_loc + 12;
  sink_mapped : ∀ out w t, I out w t → mapped (f_mem t) ch_loc 1 ∧ mapped (f_mem t) bf_loc 12;
  sink_local : ∀ out w t m, I out w t →
    (∀ x, ¬ local_bytes ch_loc bf_loc x → m !! x = f_mem t !! x) →
    (∀ x, is_Some (f_mem t !! x) → is_Some (m !! x)) → I out w (f_set_mem m t);
  sink_text : ∀ out w t a l, I out w t → (a, l) ∈ texts → cstr (f_mem t) a l;
  sink_bytes : ∀ a l, (a, l) ∈ texts → Forall is_byte l ∧ ZL l < 2 ^ 31;
  sink_put : ∀ out w t c, I out w t → ZL out < limit → is_byte c → f_mem t !! ch_loc = Some c →
    wp (fwrite ch_loc 1 1) (λ r t', (r = 0 ∨ r = 1) ∧ I (out ++ [c]) (w + r) t' ∧
      ∀ x, local_bytes ch_loc bf_loc x → f_mem t' !! x = f_mem t !! x) t;
}.

Section Sinks.
Context {T : Type} `{FILE T} (I : list Z → Z → T → Prop) (limit ch_loc bf_loc : Z)
  (texts : list (Z * list Z)) `{!Sink I limit ch_loc bf_loc texts}.
Implicit Types (t : T) (out l : list Z).

Lemma wp_in_fmem {A} (m : M mem A) (Q : A → T → Prop) t :
  wp m (λ a m', Q a (f_set_mem m' t)) (f_mem t) → wp (in_fmem m) Q t.
Proof. apply wp_zoom. Qed.

(** A read of the memory. *)
Lemma wp_in_fmem_read {A} (m : M mem A) (Q : A → T → Prop) t :
  wp m (λ a m', m' = f_mem t ∧ Q a t) (f_mem t) → wp (in_fmem m) Q t.
Proof.
  intros Hm. apply wp_in_fmem. eapply wp_mono; [exact Hm|]. intros a ? [-> HQ]. by rewrite f_set_id.
Qed.

Lemma wp_in_fmem_load a b (Q : Z → T → Prop) t : f_mem t !! a = Some b → Q b t → wp (in_fmem (loadb a)) Q t.
Proof. intros Ha HQ. apply wp_in_fmem_read. by eapply wp_loadb. Qed.

(** The buffer of the formatter is the same. *)
Definition kept t t' : Prop := ∀ x, bf_loc ≤ x < bf_loc + 12 → f_mem t' !! x = f_mem t !! x.

#[local] Instance kept_refl : Reflexive kept.
Proof. by intros t x. Qed.
#[local] Instance kept_trans : Transitive kept.
Proof. intros t1 t2 t3 H1 H2 x Hx. by rewrite H2, H1. Qed.

Lemma putf_spec out w t c : I out w t → ZL out < limit → is_byte c →
  wp (putf ch_loc c) (λ r t', (r = 0 ∨ r = 1) ∧ I (out ++ [c]) (w + r) t' ∧ kept t t') t.
Proof.
  intros HI Hlim Hc. unfold putf, fputc.
  destruct (sink_mapped _ _ _ HI) as [Hch _]. pose proof sink_frames as Hfr.
  set (t1 := f_set_mem (<[ch_loc := c]> (f_mem t)) t).
  assert (kept t t1) as Hk1.
  { intros x Hx. subst t1. rewrite f_mem_set, lookup_insert_ne; [done|]. intros ->. by apply Hfr. }
  assert (I out w t1) as HI1.
  { apply sink_local; [done|intros x Hx; apply lookup_insert_ne; intros ->; apply Hx; by left|].
    intros x Hx. destruct (decide (ch_loc = x)) as [->|]; [rewrite lookup_insert_eq; eauto|].
    by rewrite lookup_insert_ne. }
  apply wp_bind, wp_bind, wp_in_fmem, wp_storeb; [apply Hch; lia|]. rewrite u8_small by done. fold t1.
  apply wp_bind. eapply wp_mono.
  { apply (sink_put out w t1 c); [done..|]. subst t1. rewrite f_mem_set. apply lookup_insert_eq. }
  intros r t2 (Hr & HI2 & Hsame). assert (f_mem t2 !! ch_loc = Some c) as Hload.
  { rewrite Hsame by (by left). subst t1. rewrite f_mem_set. apply lookup_insert_eq. }
  assert (kept t t2) as Hk2 by (transitivity t1; [done|]; intros x Hx; apply Hsame; by right).
  destruct Hr as [-> | ->]; simpl.
  - apply wp_ret, wp_ret. auto.
  - eapply wp_in_fmem_load; [done|]. apply wp_ret.
    destruct (Z.eqb_spec c EOF) as [->|]; [by destruct Hc|]. auto.
Qed.

(** The state in the middle of a call that started at [t0] with the count [w0]. *)
Definition sent t0 (w0 : Z) out (written : Z) t : Prop :=
  ∃ w, I out w t ∧ written = u32 (w - w0) ∧ kept t0 t.

Lemma sent_put t0 w0 out wr t c : sent t0 w0 out wr t → ZL out < limit → is_byte c →
  wp (putf ch_loc c) (λ r t', sent t0 w0 (out ++ [c]) (u32 (wr + r)) t') t.
Proof.
  intros (w & HI & -> & Hk) Hlim Hc. eapply wp_mono; [by apply putf_spec|]. intros r t' (Hr & HI' & Hk').
  exists (w + r). split; [done|]. split; [|by transitivity t]. rewrite wrapu_add_l. f_equal. lia.
Qed.

Lemma fill_spec t0 w0 out wr t c n : sent t0 w0 out wr t → n < 2 ^ 32 →
  ZL out + Z.max 0 n ≤ limit → is_byte c →
  wp (fill ch_loc c n wr) (λ wr' t', sent t0 w0 (out ++ replicate (Z.to_nat n) c) wr' t') t.
Proof.
  intros Hs Hn Hlim Hc. apply wp_loop with
    (I := λ '(k, wr) t, k ≤ n ∧ (n ≤ 0 → k = n) ∧ (0 < n → 0 ≤ k) ∧
       sent t0 w0 (out ++ replicate (Z.to_nat (n - k)) c) wr t)
    (f := λ '(k, _) _, Z.max 0 k); [|lia|].
  { split_and!; [done|done|lia|]. rewrite Z.sub_diag. by rewrite app_nil_r. }
  intros [k wr1] t1 (Hk & Hneg & Hpos & Hs1). split; [lia|].
  destruct (Z.ltb_spec 0 k) as [Hlt|Hge].
  - apply wp_bind. eapply wp_mono; [apply (sent_put t0 w0 _ wr1 t1 c Hs1)|]; [|done|].
    { rewrite length_app, length_replicate. lia. }
    intros r t2 Hs2. apply wp_ret. split; [|lia]. split_and!; [lia|lia|lia|].
    replace (Z.to_nat (n - (k - 1))) with (Z.to_nat (n - k) + 1)%nat by lia.
    by rewrite replicate_add, app_assoc.
  - apply wp_ret. destruct (Z.le_gt_cases n 0) as [Hn0|Hn0].
    + rewrite Hneg in Hs1 by done. rewrite Z.sub_diag, app_nil_r in Hs1.
      replace (Z.to_nat n) with 0%nat by lia. by rewrite app_nil_r.
    + assert (k = 0) as -> by lia. by rewrite Z.sub_0_r in Hs1.
Qed.

(** A string that stays where it is during the call: an argument or the buffer. *)
Definition stable_text t0 (a : Z) l : Prop :=
  ∀ out w t, I out w t → kept t0 t → cstr (f_mem t) a l.

Lemma put_text_spec t0 w0 out wr t a l : sent t0 w0 out wr t → stable_text t0 a l →
  Forall is_byte l → ZL l < 2 ^ 31 → ZL out + ZL l ≤ limit →
  wp (loop (λ '(b, written),
    ch ← in_fmem (loadb b);
    if ch =? 0 then mret (inr written)
    else r ← putf ch_loc ch; mret (inl (b + 1, u32 (written + r)))) (a, wr))
    (λ wr' t', sent t0 w0 (out ++ l) wr' t') t.
Proof.
  intros Hs Hst Hl Hlen Hlim. apply wp_loop with
    (I := λ '(b, wr) t, ∃ i : nat, (i ≤ length l)%nat ∧ b = a + Z.of_nat i ∧ sent t0 w0 (out ++ take i l) wr t)
    (f := λ '(b, _) _, a + ZL l - b); [|lia|].
  { exists 0%nat. rewrite app_nil_r. split_and!; [lia|lia|done]. }
  intros [b wr1] t1 (i & Hi & -> & Hs1). split; [lia|].
  assert (cstr (f_mem t1) a l) as Hcs by (destruct Hs1 as (w & HI & _ & Hk); eapply Hst; eauto).
  destruct (cstr_step _ _ _ i Hcs Hi) as (c & Hc & [[-> ->]|(Hnz & Hlt & Hli)]);
    apply wp_bind; (eapply wp_in_fmem_load; [done|]).
  - apply wp_ret. by rewrite firstn_all in Hs1.
  - destruct (Z.eqb_spec c 0); [done|]. apply wp_bind.
    eapply wp_mono; [apply (sent_put t0 w0 _ wr1 t1 c Hs1)|].
    + rewrite length_app, length_take. lia.
    + by eapply Forall_lookup_1.
    + intros r t2 Hs2. apply wp_ret. split; [|lia]. exists (S i). rewrite (take_S_r _ _ c) by done.
      rewrite app_assoc. split_and!; [lia|lia|done].
Qed.

(** ** The padded field *)
Definition field (zeros : bool) (w : Z) (sg pre body : list Z) : list Z :=
  let n := Z.to_nat (w - ZL (sg ++ pre ++ body)) in
  if zeros then sg ++ pre ++ replicate n 48 ++ body else replicate n 32 ++ sg ++ pre ++ body.

Definition sign_part (p : param) : list Z := if sign p =? 0 then [] else [sign p].
Definition alt_part (p : param) : list Z :=
  if negb (alt p =? 0) && (base p =? 16) then [48; if negb (uc p =? 0) then 88 else 120]
  else if negb (alt p =? 0) && (base p =? 8) then [48] else [].

Lemma measure_spec m a l n : cstr m a l → 0 ≤ n < 2 ^ 31 →
  wp (loop (λ '(b, n),
    c ← loadb b;
    mret (if negb (c =? 0) && (0 <? n) then inl (b + 1, n - 1) else inr n)) (a, n))
    (λ r m', m' = m ∧ r = Z.max 0 (n - ZL l)) m.
Proof.
  intros Hs Hn. apply wp_loop with
    (I := λ '(b, k) m', m' = m ∧ ∃ i : nat, (i ≤ length l)%nat ∧ b = a + Z.of_nat i ∧ k = n - Z.of_nat i ∧ 0 ≤ k)
    (f := λ '(_, k) _, k); [|lia|].
  { split; [done|]. exists 0%nat. lia. }
  intros [b k] m' (-> & i & Hi & -> & -> & Hk). split; [lia|].
  destruct (cstr_step _ _ _ i Hs Hi) as (c & Hc & [[-> ->]|(Hnz & Hlt & _)]);
    apply wp_bind; (eapply wp_loadb; [done|]); apply wp_ret.
  - split; [done|]. simpl. lia.
  - destruct (Z.eqb_spec c 0); [done|]. simpl. destruct (Z.ltb_spec 0 (n - Z.of_nat i)).
    + split; [|lia]. split; [done|]. exists (S i). lia.
    + split; [done|lia].
Qed.

Lemma put_sign_spec t0 w0 out wr t p : sent t0 w0 out wr t → is_byte (sign p) →
  ZL out + ZL (sign_part p) ≤ limit →
  wp (if negb (sign p =? 0) then r ← putf ch_loc (sign p); mret (u32 (wr + r)) else mret wr)
    (λ wr' t', sent t0 w0 (out ++ sign_part p) wr' t') t.
Proof.
  intros Hs Hb Hlim. unfold sign_part in *. destruct (Z.eqb_spec (sign p) 0); simpl in *.
  - apply wp_ret. by rewrite app_nil_r.
  - apply wp_bind. eapply wp_mono; [apply sent_put; [done|lia|done]|]. intros r t' Hs'. by apply wp_ret.
Qed.

Lemma put_alt_spec t0 w0 out wr t p : sent t0 w0 out wr t → ZL out + ZL (alt_part p) ≤ limit →
  wp (if negb (alt p =? 0) && (base p =? 16) then
        r ← putf ch_loc 48;
        r' ← putf ch_loc (if negb (uc p =? 0) then 88 else 120);
        mret (u32 (u32 (wr + r) + r'))
      else if negb (alt p =? 0) && (base p =? 8) then
        r ← putf ch_loc 48; mret (u32 (wr + r))
      else mret wr)
    (λ wr' t', sent t0 w0 (out ++ alt_part p) wr' t') t.
Proof.
  intros Hs Hlim. unfold alt_part in *. destruct (_ && (base p =? 16)); [|destruct (_ && _)]; simpl in *.
  - apply wp_bind. eapply wp_mono; [apply sent_put; [done|lia|done]|]. intros r t1 Hs1.
    apply wp_bind. eapply wp_mono; [apply sent_put; [exact Hs1| |destruct (uc p =? 0); unfold is_byte; simpl; lia]|].
    { rewrite length_app. simpl. lia. }
    intros r' t2 Hs2. apply wp_ret. by rewrite <- app_assoc in Hs2.
  - apply wp_bind. eapply wp_mono; [apply sent_put; [done|lia|done]|]. intros r t1 Hs1. by apply wp_ret.
  - apply wp_ret. by rewrite app_nil_r.
Qed.

Lemma pad_count p n (body : list Z) : 0 ≤ n < 2 ^ 31 →
  let k := Z.max 0 (n - ZL body) in
  let k' := if negb (sign p =? 0) then s32 (k - 1) else k in
  (if negb (alt p =? 0) && (base p =? 16) then s32 (k' - 2)
   else if negb (alt p =? 0) && (base p =? 8) then s32 (k' - 1) else k')
  = k - ZL (sign_part p) - ZL (alt_part p).
Proof.
  intros Hn. cbn zeta. unfold sign_part, alt_part.
  destruct (sign p =? 0), (alt p =? 0), (base p =? 16), (base p =? 8); simpl;
    rewrite ?wraps_small; try lia; rewrite ?wraps_small; lia.
Qed.

Lemma putchw_spec out w t p (body : list Z) : I out w t → stable_text t (bf p) body →
  Forall is_byte body → ZL body < 2 ^ 31 → 0 ≤ width p < 2 ^ 31 → is_byte (sign p) →
  ZL out + ZL (field (negb (lz p =? 0)) (width p) (sign_part p) (alt_part p) body) ≤ limit →
  wp (putchw ch_loc p) (λ wr t', sent t w
    (out ++ field (negb (lz p =? 0)) (width p) (sign_part p) (alt_part p) body) wr t') t.
Proof.
  intros HI Hst Hb Hlen Hw Hsg Hlim. unfold putchw. set (F := field _ _ _ _ _) in *.
  apply wp_bind, wp_in_fmem_read. eapply wp_mono; [apply measure_spec; [by eapply Hst|done]|].
  intros n ? [-> ->]. split; [done|]. rewrite (pad_count p (width p) body Hw).
  set (N := Z.max 0 (width p - ZL body) - ZL (sign_part p) - ZL (alt_part p)).
  assert (Z.to_nat N = Z.to_nat (width p - ZL (sign_part p ++ alt_part p ++ body))) as HN
    by (rewrite !length_app; lia).
  set (sp := if lz p =? 0 then replicate (Z.to_nat N) 32 else []).
  set (ze := if lz p =? 0 then [] else replicate (Z.to_nat N) 48).
  assert (F = sp ++ sign_part p ++ alt_part p ++ ze ++ body) as HF.
  { subst F sp ze. unfold field. rewrite HN. by destruct (lz p =? 0). }
  rewrite HF in *. clear HF F. assert (0 ≤ ZL out) by lia. rewrite !length_app in Hlim.
  assert (lz p ≠ 0 ∨ ZL sp = Z.max 0 N) as Hsp.
  { subst sp. destruct (Z.eqb_spec (lz p) 0); [right|by left]. rewrite length_replicate. lia. }
  assert (lz p = 0 ∨ ZL ze = Z.max 0 N) as Hze.
  { subst ze. destruct (Z.eqb_spec (lz p) 0); [by left|right]. rewrite length_replicate. lia. }
  apply wp_bind, (wp_mono _ (λ wr t', sent t w (out ++ sp) wr t')).
  { assert (sent t w out 0 t) as Hs0 by (exists w; by rewrite Z.sub_diag).
    subst sp. destruct (Z.eqb_spec (lz p) 0); [|apply wp_ret; by rewrite app_nil_r].
    apply fill_spec; [done|lia|lia|done]. }
  intros wr1 t1 Hs1. apply wp_bind. eapply wp_mono; [eapply (put_sign_spec t w); [exact Hs1|done|]|].
  { rewrite length_app. lia. }
  intros wr2 t2 Hs2. apply wp_bind. eapply wp_mono; [eapply (put_alt_spec t w); [exact Hs2|]|].
  { rewrite !length_app. lia. }
  intros wr3 t3 Hs3. apply wp_bind, (wp_mono _ (λ wr t', sent t w ((((out ++ sp) ++ sign_part p) ++ alt_part p) ++ ze) wr t')).
  { subst ze. destruct (Z.eqb_spec (lz p) 0); simpl; [apply wp_ret; by rewrite app_nil_r|].
    eapply fill_spec; [exact Hs3|lia|rewrite !length_app; lia|done]. }
  intros wr4 t4 Hs4. eapply wp_mono; [eapply (put_text_spec t w); [exact Hs4|done|done|done|]|].
  { rewrite !length_app. lia. }
  intros wr5 t5 Hs5. by rewrite <- !app_assoc in Hs5.
Qed.
End Sinks.

(** * The meaning of a format *)

(** The base and the case of the unsigned conversions u, o, x and X. *)
Definition radix_of (c : Z) : option (Z * bool) :=
  if c =? 117 then Some (10, false)
  else if c =? 111 then Some (8, false)
  else if c =? 120 then Some (16, false)
  else if c =? 88 then Some (16, true)
  else None.

Definition alt_prefix (altf : bool) (b : Z) (upper : bool) : list Z :=
  if altf then if b =? 16 then [48; if upper then 88 else 120] else if b =? 8 then [48] else [] else [].

(** [conversion texts zeros altf w c va o va']: with the flags and the width, the conversion
    character [c] uses up the arguments [va] down to [va'] and prints [o]; [texts] are the
    strings at the addresses among the arguments. *)
Inductive conversion (texts : list (Z * list Z)) (zeros altf : bool) (w : Z) :
    Z → list Z → list Z → list Z → Prop :=
  | cv_unsigned c b upper x va : radix_of c = Some (b, upper) →
      conversion texts zeros altf w c (x :: va)
        (field zeros w [] (alt_prefix altf b upper) (digits upper b (u32 x))) va
  | cv_signed c x va : c = 100 ∨ c = 105 →
      conversion texts zeros altf w c (x :: va)
        (field zeros w (if s32 x <? 0 then [45] else []) [] (digits false 10 (Z.abs (s32 x)))) va
  | cv_char x va : conversion texts zeros altf w 99 (x :: va) [u8 x] va
  | cv_string a l va : altf = false → (a, l) ∈ texts →
      conversion texts zeros altf w 115 (a :: va) (field zeros w [] [] l) va
  | cv_percent va : conversion texts zeros altf w 37 va [37] va
  | cv_other c va : radix_of c = None → c ∉ [100; 105; 99; 115; 37; 0; 108; 97; 65] → is_digit 10 c = false →
      c ≠ 35 → conversion texts zeros altf w c va [] va.

(** [means texts f va out]: the format [f] with the arguments [va] stands for [out].  A
    directive is a percent sign, flags (0 and #), a width, an ignored l and a conversion
    character; a format that ends in the middle of a directive ends the output. *)
Definition directive (fl ds lng : list Z) : Prop :=
  Forall (λ x, x = 48 ∨ x = 35) fl ∧ Forall (λ c, is_digit 10 c = true) ds ∧ head ds ≠ Some 48 ∧
  value 10 ds < 2 ^ 31 ∧ (lng = [] ∨ lng = [108]).

Inductive means (texts : list (Z * list Z)) : list Z → list Z → list Z → Prop :=
  | means_end va : means texts [] va []
  | means_char c f va out : c ≠ 37 → means texts f va out → means texts (c :: f) va (c :: out)
  | means_conversion fl ds lng c f va va' o out : directive fl ds lng →
      conversion texts (bool_decide (48 ∈ fl)) (bool_decide (35 ∈ fl)) (value 10 ds) c va o va' →
      means texts f va' out → means texts (37 :: fl ++ ds ++ lng ++ c :: f) va (o ++ out)
  | means_cut fl ds lng va : directive fl ds lng → means texts (37 :: fl ++ ds ++ lng) va [].

Section Conversions.
Context {T : Type} `{FILE T} (I : list Z → Z → T → Prop) (limit ch_loc bf_loc : Z)
  (texts : list (Z * list Z)) `{!Sink I limit ch_loc bf_loc texts}.
Implicit Types (t : T) (out l o : list Z).

(** A number that was just written to the buffer. *)
Lemma write_buffer out w t D : I out w t → nonzero D → ZL D ≤ 11 →
  let t1 := f_set_mem (mem_write (f_mem t) bf_loc (D ++ [0])) t in
  I out w t1 ∧ stable_text I bf_loc t1 bf_loc D.
Proof.
  intros HI Hnz Hlen t1. assert (ZL (D ++ [0]) ≤ 12) as Hl by (rewrite length_app; simpl; lia). split.
  - apply sink_local; [done| |].
    + intros x Hx. apply mem_write_lookup_out.
      destruct (Z.lt_ge_cases x bf_loc); [by left|right]. destruct (Z.le_gt_cases (bf_loc + ZL (D ++ [0])) x); [done|].
      exfalso. apply Hx. right. lia.
    + intros x Hx. rewrite mem_write_lookup. case_decide; [|done]. apply lookup_lt_is_Some_2. lia.
  - intros out' w' t' _ Hk. split; [done|]. apply arr_lookup. intros i b Hi.
    pose proof (lookup_lt_Some _ _ _ Hi). rewrite Hk by lia. subst t1. rewrite f_mem_set.
    pose proof (mem_write_arr (f_mem t) bf_loc (D ++ [0])) as Ha. rewrite arr_lookup in Ha. by apply Ha.
Qed.

(** What a conversion leaves behind; [w0] is the count at the start of the call. *)
Definition converted (w0 : Z) out (va : list Z) (r : Z * list Z * param) t : Prop :=
  ∃ w, I out w t ∧ r.1.1 = u32 (w - w0) ∧ r.1.2 = va ∧ bf r.2 = bf_loc.

Lemma put_field out w w0 t p q body o va : I out w t → stable_text I bf_loc t (bf p) body →
  Forall is_byte body → ZL body < 2 ^ 31 → 0 ≤ width p < 2 ^ 31 → is_byte (sign p) → bf q = bf_loc →
  o = field (negb (lz p =? 0)) (width p) (sign_part p) (alt_part p) body → ZL out + ZL o ≤ limit →
  wp (r ← putchw ch_loc p; mret (u32 (u32 (w - w0) + r), va, q)) (converted w0 (out ++ o) va) t.
Proof.
  intros HI Hst Hb Hlen Hw Hs Hq -> Hlim. apply wp_bind.
  eapply wp_mono; [eapply (putchw_spec I limit ch_loc bf_loc texts); done|].
  intros r t' (w' & HI' & -> & _). apply wp_ret. exists w'. split; [done|]. split; [|done]. simpl.
  rewrite wrapu_add_l, wrapu_add_r. f_equal. lia.
Qed.

Lemma put_number out w w0 t p D o va : I out w t → nonzero D → ZL D ≤ 11 → Forall is_byte D →
  bf p = bf_loc → 0 ≤ width p < 2 ^ 31 → is_byte (sign p) →
  o = field (negb (lz p =? 0)) (width p) (sign_part p) (alt_part p) D → ZL out + ZL o ≤ limit →
  wp (r ← putchw ch_loc p; mret (u32 (u32 (w - w0) + r), va, p)) (converted w0 (out ++ o) va)
    (f_set_mem (mem_write (f_mem t) (bf p) (D ++ [0])) t).
Proof.
  intros HI Hnz Hlen Hb Hbf Hw Hs Ho Hlim. rewrite Hbf.
  destruct (write_buffer out w t D HI Hnz Hlen) as [HI1 Hst].
  eapply put_field; [exact HI1|by rewrite Hbf|done|lia|done..].
Qed.

Lemma unsigned_spec out w w0 t p x b o va : I out w t → base p = b → b = 8 ∨ b = 10 ∨ b = 16 →
  0 ≤ x < 2 ^ 32 → bf p = bf_loc → 0 ≤ width p < 2 ^ 31 → is_byte (sign p) →
  o = field (negb (lz p =? 0)) (width p) (sign_part p) (alt_part p) (digits (negb (uc p =? 0)) b x) →
  ZL out + ZL o ≤ limit →
  wp (in_fmem (ui2a x p);; r ← putchw ch_loc p; mret (u32 (u32 (w - w0) + r), va, p))
    (converted w0 (out ++ o) va) t.
Proof.
  intros HI <- Hb Hx Hbf Hw Hs Ho Hlim. set (D := digits (negb (uc p =? 0)) (base p) x) in *.
  destruct (digits_ok (negb (uc p =? 0)) (base p) x ltac:(lia) ltac:(lia)) as (Hnz & HbD & _).
  pose proof (digits_length (negb (uc p =? 0)) (base p) x ltac:(lia) ltac:(lia)) as HlD. fold D in Hnz, HbD, HlD.
  apply wp_bind, wp_in_fmem. eapply wp_mono.
  { apply ui2a_spec; [lia|done|]. fold D. rewrite Hbf. destruct (sink_mapped _ _ _ HI) as [_ Hm].
    eapply mapped_sub; [done|lia|lia]. }
  intros ? ? ->. fold D. eapply (put_number out w w0 t p D); (done || lia).
Qed.

(** The parameters when the conversion starts. *)
Record ready (zeros altf : bool) (wd : Z) (p : param) : Prop := Ready {
  ready_lz : lz p = Z.b2z zeros;
  ready_alt : alt p = Z.b2z altf;
  ready_width : width p = wd;
  ready_sign : sign p = 0;
  ready_bf : bf p = bf_loc;
}.

Lemma negb_b2z b : negb (Z.b2z b =? 0) = b.
Proof. by destruct b. Qed.

Lemma va_arg_cons {S B} x va (f : Z * list Z → M S B) : mbind f (va_arg (x :: va)) = f (x, va).
Proof. reflexivity. Qed.

(** The conversions u, o, x and X print a number with some parameters [q]. *)
Lemma convert_number c b upper x va p wr : radix_of c = Some (b, upper) →
  (b = 8 ∨ b = 10 ∨ b = 16) ∧ ∃ q,
  convert ch_loc bf_loc c (x :: va) p wr =
    (in_fmem (ui2a (u32 x) q);; r ← putchw ch_loc q; mret (u32 (wr + r), va, q)) ∧
  base q = b ∧ bf q = bf p ∧ width q = width p ∧ sign q = sign p ∧ lz q = lz p ∧ alt q = alt p ∧
  (b ≤ 10 ∨ negb (uc q =? 0) = upper).
Proof.
  unfold radix_of. intros Hr.
  destruct (Z.eqb_spec c 117) as [->|]; [|destruct (Z.eqb_spec c 111) as [->|];
    [|destruct (Z.eqb_spec c 120) as [->|]; [|destruct (Z.eqb_spec c 88) as [->|]; [|done]]]];
    injection Hr as <- <-; (split; [lia|]).
  - exists (set_base 10 p). split; [by unfold convert; cbn [Z.eqb Pos.eqb orb]; rewrite va_arg_cons|].
    split_and!; try done. by left.
  - exists (set_base 8 p). split; [by unfold convert; cbn [Z.eqb Pos.eqb orb]; rewrite va_arg_cons|].
    split_and!; try done. by left.
  - exists (set_uc 0 (set_base 16 p)). split; [by unfold convert; cbn [Z.eqb Pos.eqb orb]; rewrite va_arg_cons|].
    split_and!; try done. by right.
  - exists (set_uc 1 (set_base 16 p)). split; [by unfold convert; cbn [Z.eqb Pos.eqb orb]; rewrite va_arg_cons|].
    split_and!; try done. by right.
Qed.

Lemma convert_unsigned out w w0 t zeros altf wd p c b upper x va :
  I out w t → ready zeros altf wd p → 0 ≤ wd < 2 ^ 31 → radix_of c = Some (b, upper) →
  let o := field zeros wd [] (alt_prefix altf b upper) (digits upper b (u32 x)) in
  ZL out + ZL o ≤ limit →
  wp (convert ch_loc bf_loc c (x :: va) p (u32 (w - w0))) (converted w0 (out ++ o) va) t.
Proof.
  intros HI [Hlz Halt Hwd Hsg Hbf] Hw Hr o Hlim. subst o wd.
  assert (0 ≤ u32 x < 2 ^ 32) as Hx by (by apply wrapu_range).
  destruct (convert_number c b upper x va p (u32 (w - w0)) Hr) as
    (Hb & q & -> & Hbq & Hbfq & Hwq & Hsq & Hlq & Haq & Huq).
  assert (alt_part q = alt_prefix altf b upper) as Hap.
  { unfold alt_part, alt_prefix. rewrite Haq, Hbq, Halt, negb_b2z. destruct altf; [|done].
    destruct (Z.eqb_spec b 16); [|by destruct (b =? 8)]. destruct Huq as [?| ->]; [lia|done]. }
  assert (digits (negb (uc q =? 0)) b (u32 x) = digits upper b (u32 x)) as Hdq.
  { destruct Huq as [?| ->]; [|done]. rewrite (digits_decimal upper) by lia. apply digits_decimal; lia. }
  eapply (unsigned_spec out w w0 t q (u32 x) b); [done..| | | | |done].
  - by rewrite Hbfq.
  - by rewrite Hwq.
  - by rewrite Hsq, Hsg.
  - unfold sign_part. by rewrite Hsq, Hlq, Hwq, Hap, Hdq, Hlz, Hsg, negb_b2z.
Qed.

(** The conversions d and i. *)
Lemma convert_signed out w w0 t zeros altf wd p x va :
  I out w t → ready zeros altf wd p → 0 ≤ wd < 2 ^ 31 →
  let o := field zeros wd (if s32 x <? 0 then [45] else []) [] (digits false 10 (Z.abs (s32 x))) in
  ZL out + ZL o ≤ limit →
  wp (p ← in_fmem (i2a (s32 x) (set_base 10 p)); r ← putchw ch_loc p; mret (u32 (u32 (w - w0) + r), va, p))
    (converted w0 (out ++ o) va) t.
Proof.
  intros HI [Hlz Halt Hwd Hsg Hbf] Hw o Hlim. subst wd.
  pose proof (wraps_range 32 x ltac:(done) : - 2 ^ 31 ≤ s32 x < 2 ^ 31) as Hx.
  destruct (digits_ok false 10 (Z.abs (s32 x)) ltac:(lia) ltac:(lia)) as (Hnz & HbD & _).
  pose proof (digits_length false 10 (Z.abs (s32 x)) ltac:(lia) ltac:(lia)) as HlD.
  apply wp_bind, wp_in_fmem. eapply wp_mono.
  { apply i2a_spec; [done|done|]. simpl. rewrite Hbf. by destruct (sink_mapped _ _ _ HI). }
  intros p' ? [-> ->].
  set (q := if s32 x <? 0 then _ else _). assert (bf q = bf p ∧ width q = width p ∧ lz q = lz p ∧
      sign_part q = (if s32 x <? 0 then [45] else []) ∧ alt_part q = [] ∧ is_byte (sign q)) as (Eb & Ew & El & Es & Ea & Eby).
  { subst q. unfold sign_part, alt_part. destruct (s32 x <? 0); simpl; rewrite ?Hsg, ?andb_false_r;
      split_and!; done. }
  change (bf (set_base 10 p)) with (bf p). rewrite <- Eb.
  eapply (put_number out w w0 t q); [done|done|lia|done| | |done| |done].
  - by rewrite Eb.
  - by rewrite Ew.
  - by rewrite El, Ew, Es, Ea, Hlz, negb_b2z.
Qed.

Lemma u8_word c : is_byte c → u8 c = c.
Proof. apply u8_small. Qed.

(** A single character. *)
Lemma put_char out w w0 t q c va : I out w t → is_byte c → ZL out < limit → bf q = bf_loc →
  wp (r ← putf ch_loc c; mret (u32 (u32 (w - w0) + r), va, q)) (converted w0 (out ++ [c]) va) t.
Proof.
  intros HI Hc Hlim Hq. apply wp_bind.
  eapply wp_mono; [eapply (putf_spec I limit ch_loc bf_loc texts); done|].
  intros r t' (_ & HI' & _). apply wp_ret. exists (w + r). split; [done|]. split; [|done]. simpl.
  rewrite wrapu_add_l. f_equal. lia.
Qed.

Lemma convert_spec out w w0 t zeros altf wd p c va va' o :
  I out w t → ready zeros altf wd p → 0 ≤ wd < 2 ^ 31 → conversion texts zeros altf wd c va o va' →
  ZL out + ZL o ≤ limit →
  wp (convert ch_loc bf_loc c va p (u32 (w - w0))) (converted w0 (out ++ o) va') t.
Proof.
  intros HI Hp Hw Hc Hlim. destruct Hc as [c b upper x va Hr|c x va Hc|x va|a l va -> Hin|va|c va Hr Hc _ _].
  - by eapply convert_unsigned.
  - assert (convert ch_loc bf_loc c (x :: va) p (u32 (w - w0)) =
      (p ← in_fmem (i2a (s32 x) (set_base 10 p)); r ← putchw ch_loc p; mret (u32 (u32 (w - w0) + r), va, p))) as ->.
    { unfold convert. destruct Hc as [-> | ->]; cbn [Z.eqb Pos.eqb orb]; by rewrite va_arg_cons. }
    by eapply convert_signed.
  - unfold convert. cbn [Z.eqb Pos.eqb orb]. rewrite va_arg_cons.
    apply put_char; [done|apply u8_is_byte|simpl in Hlim; lia|by destruct Hp].
  - destruct Hp as [Hlz Halt Hwd Hsg Hbf]. unfold convert. cbn [Z.eqb Pos.eqb orb]. rewrite va_arg_cons.
    destruct (sink_bytes a l Hin) as [Hb Hl].
    eapply (put_field out w w0 t (set_bf a p) (set_bf bf_loc p)); simpl; [done| |done|done|lia|by rewrite Hsg|done| |done].
    + intros out' w' t' HI' _. by eapply sink_text.
    + unfold sign_part, alt_part. simpl. by rewrite Hsg, Halt, Hlz, Hwd, negb_b2z.
  - unfold convert. cbn [Z.eqb Pos.eqb orb].
    apply put_char; [done|done|simpl in Hlim; lia|by destruct Hp].
  - assert (convert ch_loc bf_loc c va p (u32 (w - w0)) = mret (u32 (w - w0), va, p)) as ->.
    { rewrite !not_elem_of_cons in Hc. destruct Hc as (?&?&?&?&?&_). revert Hr. unfold radix_of, convert.
      repeat match goal with |- context [Z.eqb c ?n] => destruct (Z.eqb_spec c n); [done|] end. done. }
    apply wp_ret. rewrite app_nil_r. exists w. destruct Hp. done.
Qed.
End Conversions.

(** * Reading a directive *)

(** The character at the start of a string, NUL at its end. *)
Definition next_char (l : list Z) : Z := default 0 (head l).

Lemma next_char_load m a l : cstr m a l → m !! a = Some (next_char l).
Proof. destruct l as [|c l]; [by intros ?%cstr_nil|by intros (? & _)%cstr_cons]. Qed.

Definition with_flags (fl : list Z) (p : param) : param :=
  set_alt (if bool_decide (35 ∈ fl) then 1 else alt p) (set_lz (if bool_decide (48 ∈ fl) then 1 else lz p) p).

Lemma with_flags_cons c fl p : c = 48 ∨ c = 35 →
  with_flags fl (if c =? 48 then set_lz 1 p else set_alt 1 p) = with_flags (c :: fl) p.
Proof.
  intros Hc. unfold with_flags. rewrite !(bool_decide_ext (_ ∈ c :: fl) _ (elem_of_cons _ _ _)).
  destruct Hc as [-> | ->]; simpl; unfold set_alt, set_lz; simpl; f_equal; repeat case_bool_decide; naive_solver.
Qed.

Lemma read_flags_spec m a fl l p : cstr m a (fl ++ l) → Forall (λ x, x = 48 ∨ x = 35) fl →
  next_char l ≠ 48 → next_char l ≠ 35 → ZL fl < 2 ^ 32 →
  wp (read_flags a p) (λ r m', m' = m ∧ r = (next_char l, a + ZL fl + 1, with_flags fl p)) m.
Proof.
  intros Hs Hfl H48 H35 Hlen. apply wp_loop_ix with (n := ZL fl)
    (I := λ n '(b, q) m', m' = m ∧ ∃ fl', n = ZL fl' ∧ b = a + ZL fl - ZL fl' ∧ cstr m b (fl' ++ l) ∧
       Forall (λ x, x = 48 ∨ x = 35) fl' ∧ with_flags fl' q = with_flags fl p); [|lia|].
  { split; [done|]. exists fl. split_and!; try done. lia. }
  intros n [b q] m' (-> & fl' & -> & -> & Hb & Hf & Hq). split; [lia|].
  destruct fl' as [|c fl'].
  - apply wp_bind. eapply wp_loadb; [by apply next_char_load|]. cbn zeta. simpl app.
    assert (wp (mret (inr (next_char l, a + ZL fl - ZL (@nil Z) + 1, q)) : M mem (Z * param + _))
      (λ r m', match r with inl _ => False | inr v => m' = m ∧ v = (next_char l, a + ZL fl + 1, with_flags fl p) end) m) as Hstop.
    { apply wp_ret. split; [done|]. rewrite <- Hq. destruct q. simpl. f_equal. f_equal. lia. }
    rewrite (proj2 (Z.eqb_neq _ _) H48), (proj2 (Z.eqb_neq _ _) H35).
    destruct (next_char l =? 0); (eapply wp_mono; [exact Hstop|]); by intros [?|?] ?.
  - simpl in Hb. apply cstr_cons in Hb as (Hc & Hnz & Hb). apply Forall_cons in Hf as [Hfc Hf].
    apply wp_bind. eapply wp_loadb; [done|]. cbn zeta. destruct (Z.eqb_spec c 0); [done|].
    rewrite <- (with_flags_cons c fl' q Hfc) in Hq.
    assert (∀ q', with_flags fl' q' = with_flags fl p →
      wp (mret (inl (a + ZL fl - ZL (c :: fl') + 1, q')) : M mem (Z * param + Z * Z * param))
       (λ r m', match r with inl (b, q) => ∃ n', n' < ZL (c :: fl') ∧ m' = m ∧ ∃ fl', n' = ZL fl' ∧ b = a + ZL fl - ZL fl' ∧
          cstr m b (fl' ++ l) ∧ Forall (λ x, x = 48 ∨ x = 35) fl' ∧ with_flags fl' q = with_flags fl p | inr _ => False end) m) as Hgo.
    { intros q' Hq'. apply wp_ret. exists (ZL fl'). split; [simpl; lia|]. split; [done|]. exists fl'.
      split_and!; [done|simpl; lia|done..]. }
    destruct Hfc as [-> | ->]; simpl in Hq |- *; (eapply wp_mono; [by apply Hgo|]); by intros [[? ?]|?] ?.
Qed.

Lemma a2d_digit c : is_digit 10 c = true → a2d c = digitval c ∧ 0 ≤ digitval c ≤ 9.
Proof.
  intros Hc. pose proof (digitval_range _ _ Hc). unfold is_digit in Hc. apply andb_true_iff in Hc as [?%Z.leb_le ?%Z.ltb_lt].
  unfold a2d. rewrite (proj2 (andb_true_iff _ _)) by (rewrite !Z.leb_le; lia). lia.
Qed.

Lemma a2d_other c : is_digit 10 c = false → c ∉ [97; 65] → a2d c < 0 ∨ 10 < a2d c.
Proof.
  rewrite !not_elem_of_cons. intros Hc (? & ? & _). unfold is_digit, digitval in Hc. unfold a2d.
  destruct ((48 <=? c) && (c <=? 57)) eqn:E; [lia|].
  repeat match goal with |- context [if ?b then _ else _] => destruct b eqn:? end; lia.
Qed.

Lemma value_app_le ds pre : Forall (λ c, is_digit 10 c = true) ds → 0 ≤ value 10 pre →
  value 10 pre ≤ value 10 (pre ++ ds).
Proof.
  intros Hds. revert pre. induction Hds as [|c ds Hc _ IH]; intros pre Hpre; [by rewrite app_nil_r|].
  destruct (a2d_digit c Hc) as [_ ?].
  change (c :: ds) with ([c] ++ ds). rewrite app_assoc. rewrite <- IH; rewrite value_snoc; lia.
Qed.

Lemma a2i_spec m a d ds l : cstr m a (ds ++ l) → Forall (λ c, is_digit 10 c = true) (d :: ds) →
  is_digit 10 (next_char l) = false → next_char l ∉ [97; 65] → value 10 (d :: ds) < 2 ^ 31 → ZL ds < 2 ^ 32 →
  wp (a2i d a 10) (λ r m', m' = m ∧ r = (next_char l, a + ZL ds + 1, value 10 (d :: ds))) m.
Proof.
  intros Hs Hds Hn Hn' Hval Hlen.
  apply wp_loop_ix with (n := ZL ds + 1)
    (I := λ n '(ch, b, num) m', m' = m ∧ 0 ≤ num ∧ ∃ pre ds', d :: ds = pre ++ ds' ∧ num = value 10 pre ∧ n = ZL ds' ∧
       b = a + ZL ds - ZL ds' + 1 ∧ ch = next_char (ds' ++ l) ∧ (ds' ≠ [] → cstr m b (tail ds' ++ l))); [|lia|].
  { split; [done|]. split; [done|]. exists [], (d :: ds). split_and!; try done; simpl; lia. }
  intros n [[ch b] num] m' (-> & Hnum & pre & ds' & E & -> & -> & -> & -> & Hb). split; [lia|]. cbn zeta.
  destruct ds' as [|c ds'].
  - rewrite app_nil_r in E. rewrite <- E. simpl app.
    assert (a + ZL ds - ZL (@nil Z) + 1 = a + ZL ds + 1) as -> by (simpl; lia).
    destruct (a2d_other _ Hn Hn').
    + rewrite (proj2 (Z.leb_gt 0 _)) by lia. by apply wp_ret.
    + rewrite (proj2 (Z.leb_le 0 _)), (proj2 (Z.ltb_lt 10 _)) by lia. by apply wp_ret.
  - assert (Forall (λ c, is_digit 10 c = true) (c :: ds')) as Hds' by (rewrite E in Hds; by apply Forall_app in Hds as [_ ?]).
    apply Forall_cons in Hds' as [Hc Hds']. destruct (a2d_digit c Hc) as [Ha Hr]. change (next_char ((c :: ds') ++ l)) with c. rewrite Ha.
    rewrite (proj2 (Z.leb_le 0 _)), (proj2 (Z.ltb_ge 10 _)) by lia.
    assert (d :: ds = (pre ++ [c]) ++ ds') as E' by (by rewrite <- app_assoc).
    assert (0 ≤ value 10 (pre ++ [c]) < 2 ^ 31) as Hv.
    { rewrite value_snoc. split; [lia|]. rewrite <- value_snoc. eapply Z.le_lt_trans; [|exact Hval].
      rewrite E'. apply value_app_le; [done|]. rewrite value_snoc. lia. }
    rewrite value_snoc in Hv. rewrite wraps_small by lia.
    apply wp_bind. eapply wp_loadb; [by apply next_char_load, Hb|]. apply wp_ret. exists (ZL ds').
    cbn [length]. split; [lia|]. split; [done|]. split; [lia|]. exists (pre ++ [c]), ds'. rewrite value_snoc.
    specialize (Hb ltac:(done)). simpl in Hb. split_and!; try done; [lia|]. intros Hne.
    destruct ds' as [|c' ds']; [done|]. apply cstr_cons in Hb as (_ & _ & Hb). simpl.
    by replace (a + ZL ds - Z.of_nat (S (length ds')) + 1) with (a + ZL ds - Z.of_nat (S (S (length ds'))) + 1 + 1) by lia.
Qed.

(** A character that can follow the width of a directive. *)
Definition plain (c : Z) : Prop := is_digit 10 c = false ∧ c ≠ 35 ∧ c ≠ 108 ∧ c ≠ 97 ∧ c ≠ 65.

Lemma conversion_plain texts zeros altf w c va o va' :
  conversion texts zeros altf w c va o va' → plain c ∧ c ≠ 0.
Proof.
  intros Hc. destruct Hc as [c b upper x va Hr|c x va [-> | ->]|x va|a l va _ _|va|c va _ Hc Hd H35]; try done.
  - unfold radix_of in Hr.
    repeat match type of Hr with context [Z.eqb c ?n] => destruct (Z.eqb_spec c n) as [->|]; [done|] end. done.
  - rewrite !not_elem_of_cons in Hc. unfold plain. tauto.
Qed.

Lemma digit_test c : (48 <=? c) && (c <=? 57) = is_digit 10 c.
Proof.
  unfold is_digit, digitval. destruct ((48 <=? c) && (c <=? 57)) eqn:E; [lia|].
  repeat match goal with |- context [if ?b then _ else _] => destruct b eqn:? end; lia.
Qed.

Section Directives.
Context {T : Type} `{FILE T} (bf_loc : Z).
Implicit Types (t : T).

Lemma read_width t a ds l q : cstr (f_mem t) a (ds ++ l) → Forall (λ c, is_digit 10 c = true) ds →
  is_digit 10 (next_char l) = false → next_char l ∉ [97; 65] → value 10 ds < 2 ^ 31 → ZL ds < 2 ^ 32 → width q = 0 →
  wp (if (48 <=? next_char (ds ++ l)) && (next_char (ds ++ l) <=? 57) then
        '(ch, fmt, w) ← in_fmem (a2i (next_char (ds ++ l)) (a + 1) 10);
        mret (ch, fmt, set_width w q)
      else mret (next_char (ds ++ l), a + 1, q))
    (λ r t', t' = t ∧ r = (next_char l, a + ZL ds + 1, set_width (value 10 ds) q)) t.
Proof.
  intros Hs Hds Hd Hn Hval Hlen Hq. rewrite digit_test. destruct ds as [|d ds].
  - change ([] ++ l) with l. rewrite Hd. apply wp_ret. split; [done|]. destruct q. simpl in Hq |- *.
    f_equal; [f_equal; lia|by rewrite Hq].
  - apply Forall_cons in Hds as Hdd. destruct Hdd as [Hdd _]. change (next_char ((d :: ds) ++ l)) with d. rewrite Hdd.
    simpl in Hs. apply cstr_cons in Hs as (_ & _ & Hs).
    apply wp_bind, wp_in_fmem_read. eapply wp_mono; [eapply (a2i_spec _ _ d ds l); try done; simpl in Hlen; lia|].
    intros ? ? [-> ->]. split; [done|]. apply wp_ret. split; [done|]. f_equal. f_equal. simpl. lia.
Qed.

(** The part of a round that reads the flags, the width and the l. *)
Lemma read_directive {B} (k : Z → Z → param → M T B) Q t a fl ds lng rest p :
  cstr (f_mem t) a (fl ++ ds ++ lng ++ rest) → directive fl ds lng → plain (next_char rest) →
  ZL (fl ++ ds ++ lng) < 2 ^ 32 → bf p = bf_loc →
  (∀ q, ready bf_loc (bool_decide (48 ∈ fl)) (bool_decide (35 ∈ fl)) (value 10 ds) q →
     wp (k (next_char rest) (a + ZL (fl ++ ds ++ lng) + 1) q) Q t) →
  wp ('(ch, fmt, p) ← in_fmem (read_flags a (set_sign 0 (set_width 0 (set_alt 0 (set_lz 0 p)))));
      '(ch, fmt, p) ←
        (if (48 <=? ch) && (ch <=? 57) then
           '(ch, fmt, w) ← in_fmem (a2i ch fmt 10);
           mret (ch, fmt, set_width w p)
         else mret (ch, fmt, p));
      '(ch, fmt) ← (if ch =? 108 then (ch ← in_fmem (loadb fmt); mret (ch, fmt + 1)) else mret (ch, fmt));
      k ch fmt p) Q t.
Proof.
  intros Hs (Hfl & Hds & H48 & Hval & Hlng) (Hplain & H35 & H108 & H97 & H65) Hlen Hbf Hk.
  rewrite !length_app in Hlen, Hk.
  set (l2 := lng ++ rest) in *.
  assert (is_digit 10 (next_char l2) = false ∧ (next_char l2 ∉ [97; 65]) ∧ next_char l2 ≠ 35) as (Hd2 & Hn2 & Hn35).
  { rewrite !not_elem_of_cons. subst l2. destruct Hlng as [-> | ->]; (split; [done|split; [|done]]);
      (split; [done|split; [done|apply not_elem_of_nil]]). }
  assert (next_char (ds ++ l2) ≠ 48 ∧ next_char (ds ++ l2) ≠ 35) as [Hc48 Hc35].
  { destruct ds as [|d ds]; [split; [intros E; change (next_char l2 = 48) in E; by rewrite E in Hd2|done]|].
    apply Forall_cons in Hds as [Hd _]. change (next_char ((d :: ds) ++ l2)) with d.
    split; intros ->; [by apply H48|done]. }
  apply wp_bind, wp_in_fmem_read. eapply wp_mono; [eapply (read_flags_spec _ a fl (ds ++ l2)); [done..|lia]|].
  intros r ? [-> ->]. split; [done|]. cbn beta iota.
  assert (cstr (f_mem t) (a + ZL fl) (ds ++ l2)) as Hs2.
  { rewrite <- (drop_app_length fl (ds ++ l2)). apply cstr_drop; [rewrite length_app; lia|done]. }
  set (q := with_flags fl _).
  apply wp_bind. eapply wp_mono; [eapply read_width; [done|done|done|done|done|lia|done]|]. intros ? ? [-> ->]. cbn beta iota.
  assert (ready bf_loc (bool_decide (48 ∈ fl)) (bool_decide (35 ∈ fl)) (value 10 ds) (set_width (value 10 ds) q)) as Hq.
  { subst q. split; simpl; try done; by case_bool_decide. }
  specialize (Hk _ Hq). assert (cstr (f_mem t) (a + ZL fl + ZL ds) l2) as Hs3.
  { rewrite <- (drop_app_length ds l2). apply cstr_drop; [rewrite length_app; lia|done]. }
  apply wp_bind. subst l2. destruct Hlng as [-> | ->]; simpl app in *.
  - rewrite (proj2 (Z.eqb_neq _ _) H108). apply wp_ret.
    replace (a + ZL fl + ZL ds + 1) with (a + Z.of_nat (length fl + (length ds + length (@nil Z))) + 1); [done|simpl; lia].
  - simpl. apply cstr_cons in Hs3 as (_ & _ & Hs3). apply wp_bind.
    eapply wp_in_fmem_load; [by apply next_char_load|]. apply wp_ret.
    replace (a + ZL fl + ZL ds + 1 + 1) with (a + Z.of_nat (length fl + (length ds + length [108])) + 1); [done|simpl; lia].
Qed.
End Directives.

(** * The formatter *)
Section Formatter.
Context {T : Type} `{FILE T} (I : list Z → Z → T → Prop) (limit ch_loc bf_loc : Z) (garbage : param)
  (texts : list (Z * list Z)) `{!Sink I limit ch_loc bf_loc texts}.
Implicit Types (t : T) (out o : list Z).

(** The state between two rounds: the rest of the format at [fmt] stands for the rest of the
    output. *)
Record formatting (fa : Z) (F total : list Z) (w0 : Z) (fmt : Z) (va : list Z) (p : param) (written : Z)
    (f : list Z) t : Prop := Formatting {
  fm_at : ∃ i : nat, (i ≤ length F)%nat ∧ fmt = fa + Z.of_nat i ∧ f = drop i F;
  fm_buffer : bf p = bf_loc;
  fm_out : ∃ out o w, I out w t ∧ means texts f va o ∧ out ++ o = total ∧ written = u32 (w - w0);
}.

Lemma formatting_text fa F total w0 fmt va p wr f t : (fa, F) ∈ texts →
  formatting fa F total w0 fmt va p wr f t → cstr (f_mem t) fmt f.
Proof.
  intros Hin [(i & Hi & -> & ->) _ (out & o & w & HI & _)]. apply cstr_drop; [done|]. by eapply sink_text.
Qed.

Lemma formatting_next fa F total w0 fmt va p wr k f t va' p' wr' out o w :
  formatting fa F total w0 fmt va p wr (k ++ f) t → bf p' = bf_loc → ∀ t',
  I out w t' → means texts f va' o → out ++ o = total → wr' = u32 (w - w0) →
  formatting fa F total w0 (fmt + ZL k) va' p' wr' f t'.
Proof.
  intros [(i & Hi & -> & E) _ _] Hp t' HI Hm Ho Hw. split; [|done|by exists out, o, w].
  assert (length (k ++ f) = length F - i)%nat as Hl by (by rewrite E, length_drop).
  rewrite length_app in Hl. exists (i + length k)%nat. split; [lia|]. split; [lia|].
  by rewrite <- drop_drop, <- E, drop_app_length.
Qed.

Definition round_done (fa : Z) (F total : list Z) (w0 : Z) (n : Z) (r : Z * list Z * param * Z + Z) t : Prop :=
  match r with
  | inl (fmt, va, p, wr) => ∃ f, ZL f < n ∧ formatting fa F total w0 fmt va p wr f t
  | inr wr => ∃ w, I total w t ∧ wr = u32 (w - w0)
  end.

Lemma format_round_spec fa F total w0 fmt va p wr f t : (fa, F) ∈ texts → ZL total ≤ limit →
  formatting fa F total w0 fmt va p wr f t →
  wp (format_round ch_loc bf_loc fmt va p wr) (round_done fa F total w0 (ZL f)) t.
Proof.
  intros Hin Hlim Hf. pose proof (formatting_text _ _ _ _ _ _ _ _ _ _ Hin Hf) as Hs.
  pose proof Hf as [Hat Hbf (out & o & w & HI & Hm & Ho & Hw)].
  assert (ZL f < 2 ^ 31) as Hlen.
  { destruct Hat as (i & _ & _ & ->). destruct (sink_bytes _ _ Hin) as [_ ?]. rewrite length_drop. lia. }
  unfold format_round. apply wp_bind. eapply wp_in_fmem_load; [by apply next_char_load|]. cbn zeta.
  destruct Hm as [va|c f va o Hc Hm|fl ds lng c f va va' o1 o2 Hd Hconv Hm|fl ds lng va Hd].
  - apply wp_ret. exists w. by rewrite <- Ho, app_nil_r.
  - apply cstr_cons in Hs as (_ & Hnz & _). change (next_char (c :: f)) with c.
    rewrite (proj2 (Z.eqb_neq c 0)), (proj2 (Z.eqb_neq c 37)) by done. simpl negb.
    assert (is_byte c) as Hb.
    { destruct Hat as (i & _ & _ & E). destruct (sink_bytes _ _ Hin) as [Hb _].
      apply (Forall_lookup_1 _ F i); [exact Hb|]. rewrite <- (Nat.add_0_r i), <- lookup_drop, <- E. done. }
    rewrite <- Ho, length_app in Hlim. cbn [length] in Hlim.
    apply wp_bind. eapply wp_mono; [eapply (putf_spec I limit ch_loc bf_loc texts); [done|lia|done]|].
    intros r t' (_ & HI' & _). apply wp_ret. exists f. split; [simpl; lia|].
    eapply (formatting_next _ _ _ _ _ _ _ _ [c]); [exact Hf|done|exact HI'|done|by rewrite <- app_assoc|].
    rewrite Hw, wrapu_add_l. f_equal. lia.
  - apply cstr_cons in Hs as (_ & _ & Hs). change (next_char (37 :: fl ++ ds ++ lng ++ c :: f)) with 37. cbn [Z.eqb Pos.eqb negb].
    destruct (conversion_plain _ _ _ _ _ _ _ _ Hconv) as [Hpl Hnz].
    simpl in Hlen. rewrite !length_app in Hlen. rewrite <- Ho, !length_app in Hlim.
    apply (read_directive bf_loc _ _ t (fmt + 1) fl ds lng (c :: f)); [done|done|done|rewrite !length_app; lia|done|].
    intros q Hq. change (next_char (c :: f)) with c. rewrite (proj2 (Z.eqb_neq c 0)) by done. rewrite Hw.
    apply wp_bind. eapply wp_mono.
    { eapply (convert_spec I limit ch_loc bf_loc texts out w w0 t); [done|exact Hq| |exact Hconv|lia].
      destruct Hd as (_ & Hds & _ & Hv & _). split; [|done]. by apply (value_app_le ds []). }
    intros [[wr' va2] p'] t' (w' & HI' & Hwr & Hva & Hp). simpl in Hwr, Hva, Hp. subst va2. apply wp_ret.
    exists f. split; [simpl; rewrite !length_app; simpl; lia|].
    replace (fmt + 1 + ZL (fl ++ ds ++ lng) + 1) with (fmt + ZL (37 :: fl ++ ds ++ lng ++ [c]))
      by (simpl; rewrite !length_app; simpl; lia).
    eapply formatting_next; [|done|exact HI'|done|by rewrite <- Ho, app_assoc|done].
    simpl. rewrite <- !app_assoc. exact Hf.
  - apply cstr_cons in Hs as (_ & _ & Hs). change (next_char (37 :: fl ++ ds ++ lng)) with 37. cbn [Z.eqb Pos.eqb negb].
    simpl in Hlen. rewrite <- (app_nil_r lng) in Hs.
    apply (read_directive bf_loc _ _ t (fmt + 1) fl ds lng []); [done|done|done|lia|done|].
    intros q Hq. simpl. apply wp_ret. exists w. by rewrite <- Ho, app_nil_r.
Qed.

Lemma tfp_format_spec fa F va out o w t : (fa, F) ∈ texts → means texts F va o → I out w t →
  ZL out + ZL o ≤ limit →
  wp (tfp_format ch_loc bf_loc garbage fa va) (λ r t', ∃ w', I (out ++ o) w' t' ∧ r = u32 (w' - w)) t.
Proof.
  intros Hin Hm HI Hlim. destruct (sink_bytes _ _ Hin) as [_ Hl].
  apply wp_loop_ix with (n := ZL F)
    (I := λ n '(fmt, va, p, wr) t, ∃ f, n = ZL f ∧ formatting fa F (out ++ o) w fmt va p wr f t); [|lia|].
  { exists F. split; [done|]. split; [|done|].
    - exists 0%nat. split_and!; [lia|lia|done].
    - exists out, o, w. by rewrite Z.sub_diag. }
  intros n [[[fmt va'] p] wr] t' (f & -> & Hf). split; [lia|].
  eapply wp_mono; [eapply format_round_spec; [exact Hin| |exact Hf]; by rewrite length_app, Nat2Z.inj_add|].
  intros [[[[fmt2 va2] p2] wr2]|wr2] t2; simpl; [|done].
  intros (f2 & Hf2 & Hfm). exists (ZL f2). eauto.
Qed.
End Formatter.
