(* ===== verification/PrintApi.v ===== *)
(** The callers of the formatter: printing into memory (vsnprintf, snprintf, vsprintf,
    sprintf, vasprintf and asprintf) and on the console (printf and vprintf).  The memory
    files and the console are sinks of [Printf]; what is printed can be read back by
    [Strto]. *)
From stdpp Require Import base list gmap fin_maps.
From Stdlib Require Import ZArith Lia.
From S2P Require Import Prelude Memory LibcMem LibcStr DList Malloc ConsProd Csr Uart Strto Stdio Printf.

#[local] Open Scope Z_scope.

Definition PTRDIFF_MAX : Z := 2 ^ 31 - 1.

Section Memory_printing.
Context (ch_loc bf_loc : Z) (garbage : param).

Definition vsnprintf (str size fmt : Z) (va : list Z) : M mem Z := λ m,
  match tfp_format ch_loc bf_loc garbage fmt va (m, fmemopen_w str (u32 (size - 1))) with
  | Ret (_, (m', state)) => (storeb (buffer state) 0;; mret (s32 (bytes_written state))) m'
  | Fault => Fault
  | Spin => Spin
  end.

Definition snprintf (str size fmt : Z) (args : list Z) : M mem Z := vsnprintf str size fmt args.
Definition vsprintf (buffer fmt : Z) (va : list Z) : M mem Z := vsnprintf buffer PTRDIFF_MAX fmt va.
Definition sprintf (buffer fmt : Z) (args : list Z) : M mem Z := vsnprintf buffer PTRDIFF_MAX fmt args.

(** Two passes: the first one measures. *)
Section Allocating.
Context (__malloc_head : Z) (lk : malloc_locking).

Definition asprintf (bufp format : Z) (args : list Z) : M mem Z :=
  n ← vsnprintf NULL 0 format args;
  let bytes := s32 (n + 1) in
  p ← malloc __malloc_head lk (u32 bytes);
  stw bufp p;;
  if p =? NULL then mret (-1)
  else vsnprintf p (u32 bytes) format args.

Definition vasprintf (bufp format : Z) (ap : list Z) : M mem Z :=
  n ← vsnprintf NULL 0 format ap;
  let bytes := s32 (n + 1) in
  p ← malloc __malloc_head lk (u32 bytes);
  stw bufp p;;
  if p =? NULL then mret (-1)
  else vsnprintf p (u32 bytes) format ap.
End Allocating.
End Memory_printing.

Section Console_printing.
Context (ch_loc bf_loc : Z) (garbage : param).

Definition printf (fmt : Z) (args : list Z) : M (uart * list (irq uart)) Z :=
  vfprintf ch_loc bf_loc garbage fmt args.
Definition vprintf (fmt : Z) (va : list Z) : M (uart * list (irq uart)) Z :=
  vfprintf ch_loc bf_loc garbage fmt va.
End Console_printing.

(** * Memory files are sinks *)
Section Memory_sink.
Context (ch_loc bf_loc : Z) (m0 : mem) (str cap len : Z) (texts : list (Z * list Z)).

(** The frames of the calls, the strings and the destination of [len] bytes and a NUL, of
    which [cap] bytes are kept, lie apart. *)
Record printable : Prop := Printable {
  pr_cap : 0 ≤ cap < 2 ^ 32;
  pr_len : 0 ≤ len < 2 ^ 31;
  pr_frames : ¬ bf_loc ≤ ch_loc < bf_loc + 12;
  pr_mapped : mapped m0 ch_loc 1 ∧ mapped m0 bf_loc 12;
  pr_dest : mapped m0 str (Z.min len cap + 1);
  pr_apart : ∀ x, str ≤ x ≤ str + Z.min len cap → ¬ local_bytes ch_loc bf_loc x;
  pr_texts : ∀ a l, (a, l) ∈ texts → cstr m0 a l ∧ Forall is_byte l ∧ ZL l < 2 ^ 31 ∧
    ∀ x, a ≤ x ≤ a + ZL l → ¬ local_bytes ch_loc bf_loc x ∧ ¬ str ≤ x < str + Z.min len cap;
}.

Definition kept_bytes (out : list Z) : list Z := take (Z.to_nat cap) out.

Definition in_file (out : list Z) (w : Z) (t : mem * MemFile) : Prop :=
  ZL out ≤ len ∧ t.2 = Memfile (str + ZL (kept_bytes out)) (ZL out) cap ∧
  (∀ x, ¬ local_bytes ch_loc bf_loc x → t.1 !! x = mem_write m0 str (kept_bytes out) !! x) ∧
  (∀ x, is_Some (m0 !! x) → is_Some (t.1 !! x)).

Lemma kept_bytes_length out : 0 ≤ cap → ZL (kept_bytes out) = Z.min (ZL out) cap.
Proof. intros. unfold kept_bytes. rewrite length_take. lia. Qed.

Lemma kept_bytes_snoc out c : 0 ≤ cap →
  kept_bytes (out ++ [c]) = kept_bytes out ++ (if ZL out <? cap then [c] else []).
Proof.
  intros. unfold kept_bytes. rewrite take_app. f_equal.
  destruct (Z.ltb_spec (ZL out) cap).
  - rewrite take_ge; [done|simpl; lia].
  - by replace (Z.to_nat cap - length out)%nat with 0%nat by lia.
Qed.

Context (Hpr : printable).

Lemma memfile_put out w t c : in_file out w t → ZL out < len → is_byte c → t.1 !! ch_loc = Some c →
  wp (memfile_write ch_loc 1) (λ r t', (r = 0 ∨ r = 1) ∧ in_file (out ++ [c]) (w + r) t' ∧
    ∀ x, local_bytes ch_loc bf_loc x → t'.1 !! x = t.1 !! x) t.
Proof.
  destruct t as [m f]. intros (Hlen & Hf & Hm & Hdom) Hlt Hc Hch. simpl in *. subst f.
  destruct Hpr as [Hcap Hl Hfr Hmap Hdest Hap Htx].
  pose proof (kept_bytes_length out ltac:(lia)) as Hkl. pose proof (kept_bytes_snoc out c ltac:(lia)) as Hsn.
  set (A := str + ZL (kept_bytes out)) in *.
  assert (ZL (out ++ [c]) = ZL out + 1) as Hl1 by (rewrite length_app; simpl; lia).
  apply wp_loop_ix with (n := 1)
    (I := λ n '(bp, k, i) t, (n = 1 ∧ bp = ch_loc ∧ k = 1 ∧ i = 0 ∧ t = (m, Memfile A (ZL out) cap)) ∨
       (n = 0 ∧ k = 0 ∧ (i = 0 ∨ i = 1) ∧ in_file (out ++ [c]) (w + i) t ∧
        ∀ x, local_bytes ch_loc bf_loc x → t.1 !! x = m !! x)); [by left|lia|].
  intros n [[bp k] i] t [(-> & -> & -> & -> & ->)|(-> & -> & Hi & Hin & Hloc)]; (split; [done|]).
  2: { by apply wp_ret. }
  change (1 =? 0) with false. cbv iota. apply wp_bind, wp_modify. apply wp_bind, wp_gets. simpl snd. simpl bytes_written.
  rewrite (wrapu_small 32 (ZL out + 1)) by lia. simpl.
  destruct (Z.leb_spec (ZL out + 1) cap) as [Hle|Hgt].
  - rewrite (proj2 (Z.ltb_lt (ZL out) cap)) in Hsn by lia.
    assert (¬ local_bytes ch_loc bf_loc A) as HA by (apply Hap; lia).
    apply wp_bind, wp_zoom. eapply wp_loadb; [done|]. apply wp_bind, wp_zoom, wp_storeb.
    { simpl. apply Hdom, Hdest. lia. }
    simpl. apply wp_bind, wp_modify, wp_ret. exists 0. split; [lia|]. right.
    rewrite (u8_small c) by done. split_and!; try done; [by right| |].
    + split; [lia|]. rewrite Hsn, Hl1, length_app. simpl. split; [f_equal; lia|]. split.
      * intros x Hx. rewrite mem_write_snoc. fold A. destruct (decide (x = A)) as [->|Hne].
        { by rewrite !lookup_insert_eq. }
        rewrite !lookup_insert_ne by done. by apply Hm.
      * intros x Hx. destruct (decide (A = x)) as [->|]; [rewrite lookup_insert_eq; eauto|].
        rewrite lookup_insert_ne by done. by apply Hdom.
    + intros x Hx. simpl. apply lookup_insert_ne. intros ->. by apply HA.
  - rewrite (proj2 (Z.ltb_ge (ZL out) cap)), app_nil_r in Hsn by lia.
    apply wp_ret. exists 0. split; [lia|]. right. split_and!; try done; [by left|].
    split; [lia|]. rewrite Hsn, Hl1. by split_and!.
Qed.

Lemma in_file_sink : Sink in_file len ch_loc bf_loc texts.
Proof.
  destruct Hpr as [Hcap Hl Hfr Hmap Hdest Hap Htx]. split.
  - done.
  - intros out w [m f] (_ & _ & _ & Hdom). destruct Hmap as [H1 H2].
    split; intros x Hx; apply Hdom; [by apply H1|by apply H2].
  - intros out w [m f] m' (Hlen & Hf & Hm & Hdom) Hsame Hdom'. simpl in *.
    split; [done|]. split; [done|]. split; [intros x Hx; simpl; by rewrite Hsame, Hm|]. intros x Hx. by apply Hdom', Hdom.
  - intros out w [m f] a l (Hlen & _ & Hm & _) Hin. simpl in *.
    destruct (Htx a l Hin) as ([Hnz Ha] & _ & _ & Hout). split; [done|].
    rewrite arr_lookup in Ha |- *. intros i b Hi. pose proof (lookup_lt_Some _ _ _ Hi) as Hli.
    rewrite length_app in Hli. simpl in Hli. destruct (Hout (a + Z.of_nat i)) as [Hnl Hnd]; [lia|].
    rewrite Hm, mem_write_lookup_out; [by apply Ha|rewrite kept_bytes_length by lia; lia|done].
  - intros a l Hin. destruct (Htx a l Hin) as (_ & ? & ? & _). done.
  - intros out w t c HI Hlt Hc Hch. unfold fwrite. simpl vmt_write. cbv iota.
    apply wp_bind. eapply wp_mono; [by apply (memfile_put out w t c)|].
    intros r t' (Hr & HI' & Hloc). apply wp_ret. rewrite Z.div_1_r. done.
Qed.
End Memory_sink.

(** * The console is a sink *)
Section Console_sink.
Context (ch_loc bf_loc : Z) (u0 : uart) (irqs0 : list (irq uart)) (q0 : list Z) (texts : list (Z * list Z)).

(** The frames of the calls and the strings lie apart from each other and from the
    transmit ring, which holds [q0]. *)
Record console_ready : Prop := ConsoleReady {
  cr_ring : same_buffer tx_area (g_uart0_tx_cp u0);
  cr_queue : queue (g_uart0_tx_cp u0) (u_mem u0) q0;
  cr_frames : ¬ bf_loc ≤ ch_loc < bf_loc + 12;
  cr_mapped : mapped (u_mem u0) ch_loc 1 ∧ mapped (u_mem u0) bf_loc 12;
  cr_apart : ∀ x, local_bytes ch_loc bf_loc x → ¬ 0x2000 ≤ x < 0x3000;
  cr_texts : ∀ a l, (a, l) ∈ texts → cstr (u_mem u0) a l ∧ Forall is_byte l ∧ ZL l < 2 ^ 31 ∧
    ∀ x, a ≤ x ≤ a + ZL l → ¬ local_bytes ch_loc bf_loc x ∧ ¬ 0x2000 ≤ x < 0x3000;
}.

(** The globals of the driver that have nothing to do with transmission. *)
Definition receiving (u : uart) : consprod_t * Z * Z * Z * csr_state :=
  (g_uart0_rx_cp u, g_uart0_flags u, g_uart0_rx_lastpos u, s_uart0_tx_active u, u_csr u).

(** [out] was put into the ring behind [q0]; nothing else of the driver changed. *)
Definition on_line (out : list Z) (w : Z) (t : uart * list (irq uart)) : Prop :=
  w = ZL out ∧ t.2 = irqs0 ∧ same_buffer tx_area (g_uart0_tx_cp t.1) ∧
  queue (g_uart0_tx_cp t.1) (u_mem t.1) (q0 ++ out) ∧
  receiving t.1 = receiving u0 ∧
  (∀ x, ¬ local_bytes ch_loc bf_loc x → ¬ 0x2000 ≤ x < 0x3000 → u_mem t.1 !! x = u_mem u0 !! x) ∧
  (∀ x, is_Some (u_mem u0 !! x) → is_Some (u_mem t.1 !! x)).

Definition room : Z := capacity tx_area - ZL q0.

Lemma uart_put_byte irqs u q c : same_buffer tx_area (g_uart0_tx_cp u) →
  queue (g_uart0_tx_cp u) (u_mem u) q → u_mem u !! ch_loc = Some c → is_byte c →
  ¬ 0x2000 ≤ ch_loc < 0x3000 → ZL q < capacity tx_area →
  wp (uart0_blocking_write_multiple irqs ch_loc 1) (λ r u', r = (1, irqs) ∧ ∃ ring,
    u' = with_ring (HasRing := tx_ring) ring u ∧ produced (g_uart0_tx_cp u) (u_mem u) q [c] 1 ring) u.
Proof.
  intros Hsb Hq Hc Hb Hout Hroom. apply wp_loop_ix with (n := 1)
    (I := λ n '(w, i) u', i = irqs ∧ ((n = 1 ∧ w = 0 ∧ u' = u) ∨ (n = 0 ∧ w = 1 ∧ ∃ ring,
       u' = with_ring (HasRing := tx_ring) ring u ∧ produced (g_uart0_tx_cp u) (u_mem u) q [c] 1 ring)));
    [by auto|lia|].
  intros n [w i] u' (-> & [(-> & -> & ->)|(-> & -> & Hdone)]); (split; [done|]).
  - simpl Z.ltb. cbv iota zeta. apply wp_bind. rewrite Z.add_0_r.
    eapply wp_mono; [apply (produce_room_spec (H := tx_ring) u q irqs ch_loc [c] true)|].
    + done.
    + done.
    + intros a Ha Hin. apply (in_tx_area _ a) in Hin; [|done]. apply Hout. simpl in Ha. lia.
    + by constructor.
    + change (cp_of (H := tx_ring) u) with (g_uart0_tx_cp u).
      rewrite (same_buffer_capacity _ _ Hsb). simpl. lia.
    + intros [r i] u1 (ring & -> & -> & -> & Hp). apply wp_ret. exists 0. split; [lia|]. split; [done|].
      right. split; [done|]. split; [done|]. by exists ring.
  - apply wp_ret. by split.
Qed.

Context (Hcr : console_ready).

Lemma console_sink : Sink on_line room ch_loc bf_loc texts.
Proof.
  destruct Hcr as [Hring Hqueue Hfr Hmap Hap Htx]. split.
  - done.
  - intros out w [u i] (_ & _ & _ & _ & _ & _ & Hdom). destruct Hmap as [H1 H2].
    split; intros x Hx; apply Hdom; [by apply H1|by apply H2].
  - intros out w [u i] m' (Hw & Hi & Hsb & Hq & Hrx & Hm & Hdom) Hsame Hdom'. simpl in *.
    split_and!; try done.
    + eapply queue_frame; [exact Hq|]. intros a Ha. apply Hsame. intros Hl.
      apply (in_tx_area _ a) in Ha; [|done]. by apply (Hap a).
    + intros x Hx Hx'. simpl. by rewrite Hsame, Hm.
    + intros x Hx. by apply Hdom', Hdom.
  - intros out w [u i] a l (_ & _ & _ & _ & _ & Hm & _) Hin. simpl in *.
    destruct (Htx a l Hin) as ([Hnz Ha] & _ & _ & Hout). split; [done|].
    rewrite arr_lookup in Ha |- *. intros j b Hj. pose proof (lookup_lt_Some _ _ _ Hj) as Hli.
    rewrite length_app in Hli. simpl in Hli. destruct (Hout (a + Z.of_nat j)) as [Hnl Hnd]; [lia|].
    rewrite Hm by done. by apply Ha.
  - intros a l Hin. destruct (Htx a l Hin) as (_ & ? & ? & _). done.
  - intros out w [u i] c (-> & Hi & Hsb & Hq & Hrx & Hm & Hdom) Hlt Hc Hch. simpl in *. subst i.
    unfold fwrite. cbn [vmt_write uart0_fmethods]. apply wp_bind. unfold on_console, wp.
    cbn beta iota. change (u32 (1 * 1)) with 1.
    assert (¬ 0x2000 ≤ ch_loc < 0x3000) as Hcl by (apply Hap; by left).
    destruct (wp_inv _ _ _ (uart_put_byte irqs0 u (q0 ++ out) c Hsb Hq Hch Hc Hcl
      ltac:(unfold room in Hlt; rewrite length_app; lia))) as (r & u' & -> & -> & ring & -> & Hq' & Hsb' & Hcons & Hfr').
    rewrite Z.div_1_r. split; [by right|]. simpl in *. split.
    + split_and!; try done.
      * rewrite length_app. simpl. lia.
      * by eapply same_buffer_trans.
      * by rewrite app_assoc.
      * intros x Hx Hx'. rewrite Hfr'; [by apply Hm|]. intros Hin. by apply (in_tx_area _ x) in Hin.
      * intros x Hx. simpl. destruct (decide (0x2000 ≤ x < 0x3000)) as [Hin|Hin].
        { apply (q_mapped _ _ _ Hq'). destruct Hsb' as [E1 E2], Hsb as [E3 E4]. unfold ring_size.
          rewrite E1, E2, E3, E4. change (buffer_start tx_area) with 0x2000. change (buffer_end tx_area) with 0x3000. lia. }
        rewrite Hfr'; [by apply Hdom|]. intros Hin'. by apply (in_tx_area _ x) in Hin'.
    + intros x Hx. apply Hfr'. intros Hin. apply (in_tx_area _ x) in Hin; [|done]. by apply (Hap x).
Qed.
End Console_sink.

(** * Printing into memory *)
Section Vsnprintf.
Context (ch_loc bf_loc : Z) (garbage : param).
Implicit Types (m : mem) (o : list Z).

Lemma vsnprintf_spec m str size fa F va o texts : (fa, F) ∈ texts → means texts F va o →
  printable ch_loc bf_loc m str (u32 (size - 1)) (ZL o) texts →
  wp (vsnprintf ch_loc bf_loc garbage str size fa va) (λ r m', r = ZL o ∧
    ∀ x, ¬ local_bytes ch_loc bf_loc x →
      m' !! x = mem_write m str (take (Z.to_nat (u32 (size - 1))) o ++ [0]) !! x) m.
Proof.
  intros Hin Hm Hpr. set (cap := u32 (size - 1)) in *.
  pose proof (in_file_sink _ _ _ _ _ _ _ Hpr) as Hsink. destruct Hpr as [Hcap Hl Hfr Hmap Hdest Hap Htx].
  assert (in_file ch_loc bf_loc m str cap (ZL o) [] 0 (m, fmemopen_w str cap)) as Hstart.
  { split; [simpl; lia|]. unfold kept_bytes. rewrite take_nil. simpl. split; [|done]. unfold fmemopen_w. f_equal. lia. }
  destruct (wp_inv _ _ _ (tfp_format_spec (in_file ch_loc bf_loc m str cap (ZL o)) (ZL o) ch_loc bf_loc garbage texts
    fa F va [] o 0 _ Hin Hm Hstart ltac:(simpl; lia))) as (r & [m1 f] & E & w & (_ & Hf & Hm1 & Hdom) & _).
  simpl in Hf, Hm1, Hdom. subst f. unfold vsnprintf, wp. fold cap. rewrite E. simpl buffer. simpl bytes_written.
  pose proof (kept_bytes_length cap o ltac:(lia)) as Hk. unfold kept_bytes in *.
  set (k := take (Z.to_nat cap) o) in *. apply wp_bind, wp_storeb.
  { apply Hdom, Hdest. lia. }
  apply wp_ret. split; [apply wraps_small; lia|]. intros x Hx.
  rewrite mem_write_snoc. destruct (decide (x = str + ZL k)) as [->|Hne]; [by rewrite !lookup_insert_eq|].
  rewrite !lookup_insert_ne by done. by apply Hm1.
Qed.

(** C33 vsnprintf, and with it snprintf, sprintf and vsprintf, prints what the format means: it
    answers the full length of the output, stores its first size - 1 bytes and a NUL at the
    destination, never more than size bytes, and changes nothing else but its own stack frames; with
    size 0 the bound size - 1 wraps around and all of the output is stored. *)
Theorem vsnprintf_prints m str size fa F va o texts : (fa, F) ∈ texts → means texts F va o → 0 ≤ size < 2 ^ 32 →
  printable ch_loc bf_loc m str (u32 (size - 1)) (ZL o) texts →
  let stored := take (Z.to_nat (u32 (size - 1))) o ++ [0] in
  let printed s := λ r m', r = ZL o ∧ ∀ x, ¬ local_bytes ch_loc bf_loc x → m' !! x = mem_write m str s !! x in
  wp (vsnprintf ch_loc bf_loc garbage str size fa va) (printed stored) m ∧
  wp (snprintf ch_loc bf_loc garbage str size fa va) (printed stored) m ∧
  (size = PTRDIFF_MAX → ZL o < PTRDIFF_MAX →
   wp (sprintf ch_loc bf_loc garbage str fa va) (printed (o ++ [0])) m ∧
   wp (vsprintf ch_loc bf_loc garbage str fa va) (printed (o ++ [0])) m) ∧
  (0 < size → ZL stored ≤ size) ∧ (size = 0 → stored = o ++ [0]).
Proof.
  intros Hin Hm Hsize Hpr stored printed.
  pose proof (vsnprintf_spec m str size fa F va o texts Hin Hm Hpr) as Hv. fold stored in Hv.
  assert (Z.of_nat (length o) ≤ u32 (size - 1) → stored = o ++ [0]) as Hall.
  { intros Hle. subst stored. rewrite take_ge; [done|lia]. }
  split; [exact Hv|]. split; [exact Hv|]. split; [|split].
  - intros -> Ho. rewrite Hall in Hv by (rewrite wrapu_small; unfold PTRDIFF_MAX in *; lia). done.
  - intros Hpos. subst stored. rewrite length_app, length_take. rewrite wrapu_small by lia. simpl. lia.
  - intros ->. apply Hall. destruct Hpr as [_ Hl _ _ _ _ _]. change (u32 (0 - 1)) with (2 ^ 32 - 1). lia.
Qed.
End Vsnprintf.

(** * Printing on the console *)

Lemma vfprintf_on_console ch_loc bf_loc garbage u irqs q fa F va o texts :
  (fa, F) ∈ texts → means texts F va o → ZL o ≤ room q →
  console_ready ch_loc bf_loc u q texts →
  wp (vfprintf ch_loc bf_loc garbage fa va) (λ r t, r = ZL o ∧ on_line ch_loc bf_loc u irqs q o (ZL o) t) (u, irqs).
Proof.
  intros Hin Hm Hroom Hcr. pose proof (console_sink ch_loc bf_loc u irqs q texts Hcr) as Hsink.
  assert (on_line ch_loc bf_loc u irqs q [] 0 (u, irqs)) as Hstart.
  { destruct Hcr. split_and!; try done. by rewrite app_nil_r. }
  apply wp_bind. eapply wp_mono.
  { by eapply (tfp_format_spec (on_line ch_loc bf_loc u irqs q) (room q) ch_loc bf_loc garbage texts fa F va [] o 0). }
  intros r t (w & Ht & ->). apply wp_ret. pose proof Ht as (-> & _). rewrite Z.sub_0_r. simpl app in *.
  split; [|done]. destruct Hcr as [_ Hq _ _ _ _]. pose proof (q_room _ _ _ Hq).
  unfold room in Hroom. change (capacity tx_area) with 4094 in Hroom.
  rewrite wrapu_small, wraps_small by lia. done.
Qed.

(** C37 printf and vprintf append what the format means, byte for byte, to the transmit queue
    of the UART driver as long as there is room for it, and answer its length; no interrupt is needed,
    and apart from the ring and the stack frames of the calls memory, the receive ring and
    the control registers stay as they are. *)
Theorem printf_on_console ch_loc bf_loc garbage u irqs q fa F va o texts :
  (fa, F) ∈ texts → means texts F va o → ZL o ≤ room q →
  console_ready ch_loc bf_loc u q texts →
  let transmitted := λ r t, r = ZL o ∧ on_line ch_loc bf_loc u irqs q o (ZL o) t in
  wp (printf ch_loc bf_loc garbage fa va) transmitted (u, irqs) ∧
  wp (vprintf ch_loc bf_loc garbage fa va) transmitted (u, irqs).
Proof. intros ????. split; by eapply vfprintf_on_console. Qed.

(** * Reading back what was printed *)
Lemma value_zeros b n D : value b (replicate n 48 ++ D) = value b D.
Proof.
  unfold value. rewrite foldl_app. f_equal. induction n as [|n IH]; [done|]. rewrite replicate_S_end, foldl_app, IH.
  simpl. change (digitval 48) with 0. lia.
Qed.

Lemma digits_no_prefix b ds : b ≤ 33 → Forall (λ c, is_digit b c = true) ds → starts_hex (ds ++ []) = false.
Proof.
  intros Hb Hds. rewrite app_nil_r. destruct Hds as [|d ds Hd [|c ds' Hc _]]; [done..|].
  destruct (decide (d = 48)) as [->|Hne]; [by eapply starts_hex_digit|].
  simpl. by rewrite (proj2 (Z.eqb_neq d 48)).
Qed.

(** A printed number is a numeral: the reader gets it back from any padded field. *)
Lemma read_field b pre zeros wd (minus : bool) D n : 8 ≤ b ≤ 16 → radix b pre b ∨ pre = [48] →
  Forall (λ c, is_digit b c = true) D → D ≠ [] → value b D = n →
  (read_number b (field zeros wd (if minus then [45] else []) pre D)).1 = (if minus then - n else n).
Proof.
  intros Hb Hpre HD Hne <-. unfold field. set (k := Z.to_nat _).
  assert (∀ i, Forall (λ c, is_digit b c = true) (replicate i 48)) as Hz.
  { intros i. apply Forall_replicate. unfold is_digit. change (digitval 48) with 0. lia. }
  assert (∀ pre' ws i, radix b pre' b → Forall (λ c, isspace c = true) ws →
    (read_number b (ws ++ (if minus then [45] else []) ++ pre' ++ (replicate i 48 ++ D))).1 =
      (if minus then - value b D else value b D)) as Hnum.
  { intros pre' ws i Hr Hws. rewrite <- (app_nil_r (replicate i 48 ++ D)).
    assert (Forall (λ c, is_digit b c = true) (replicate i 48 ++ D)) as HD' by (by apply Forall_app).
    rewrite (read_number_numeral b pre' b ws minus); [by rewrite value_zeros|done|done| | |done|done|].
    - destruct minus; [done|by left].
    - intros E. by apply app_nil in E as [_ ?].
    - intros _. split; [lia|]. intros ->. by apply (digits_no_prefix 16). }
  assert (∀ ws i, Forall (λ c, isspace c = true) ws →
    (read_number b (ws ++ (if minus then [45] else []) ++ pre ++ (replicate i 48 ++ D))).1 =
      (if minus then - value b D else value b D)) as Hread.
  { intros ws i Hws. destruct Hpre as [Hr| ->]; [by apply Hnum|].
    apply (Hnum [] ws (S i)); [constructor; lia|done]. }
  destruct zeros; [by apply (Hread [])|]. apply (Hread _ 0%nat). by apply Forall_replicate.
Qed.

Lemma alt_prefix_radix altf b upper : 2 ≤ b ≤ 36 →
  radix b (alt_prefix altf b upper) b ∨ alt_prefix altf b upper = [48].
Proof.
  intros Hb. unfold alt_prefix. destruct altf; [|left; by apply radix_given].
  destruct (Z.eqb_spec b 16) as [->|]; [left; apply radix_hex; [by right|destruct upper; auto]|].
  destruct (b =? 8); [by right|left; by apply radix_given].
Qed.

(** The characters of a field. *)
Lemma field_bytes zeros wd sg pre D (P : Z → Prop) : P 32 → P 48 → Forall P sg → Forall P pre → Forall P D →
  Forall P (field zeros wd sg pre D).
Proof.
  intros. unfold field. destruct zeros; rewrite !Forall_app; split_and!; try done; by apply Forall_replicate.
Qed.

Section Roundtrip.
Context (ch_loc bf_loc : Z) (garbage : param) (fl ds lng : list Z) (Hdir : directive fl ds lng).
Context (m : mem) (str size fa : Z) (Hsize : 0 < size < 2 ^ 31).

Definition one_number (c : Z) : list Z := 37 :: fl ++ ds ++ lng ++ [c].

Definition number_field (sg pre D : list Z) : list Z := field (bool_decide (48 ∈ fl)) (value 10 ds) sg pre D.

Lemma printed_reads {A} (k : M mem A) (Q : A → mem → Prop) c x o : 
  means [(fa, one_number c)] (one_number c) [x] o →
  Forall (λ c, c ≠ 0) o → ZL o < size →
  printable ch_loc bf_loc m str (size - 1) (ZL o) [(fa, one_number c)] →
  (∀ m', cstr m' str o → wp k Q m') →
  wp (snprintf ch_loc bf_loc garbage str size fa [x];; k) Q m.
Proof.
  intros Hm Hnz Hlen Hpr Hk. apply wp_bind.
  assert (u32 (size - 1) = size - 1) as Ec by (apply wrapu_small; lia).
  eapply wp_mono; [eapply (vsnprintf_spec ch_loc bf_loc garbage m str size fa (one_number c));
    [by apply list_elem_of_singleton|exact Hm|by rewrite Ec]|].
  rewrite Ec. rewrite take_ge by lia. intros r m' [_ Hm']. apply Hk. split; [done|].
  apply arr_lookup. intros i b Hi. pose proof (lookup_lt_Some _ _ _ Hi) as Hli. rewrite length_app in Hli. simpl in Hli.
  rewrite Hm' by (apply (pr_apart _ _ _ _ _ _ _ Hpr); lia).
  pose proof (mem_write_arr m str (o ++ [0])) as Ha. rewrite arr_lookup in Ha. by apply Ha.
Qed.

Lemma directive_means texts c x o : conversion texts (bool_decide (48 ∈ fl)) (bool_decide (35 ∈ fl)) (value 10 ds) c [x] o [] →
  means texts (one_number c) [x] o.
Proof.
  intros Hc. rewrite <- (app_nil_r o). eapply means_conversion; [done|exact Hc|apply means_end].
Qed.
End Roundtrip.

(** C32 What snprintf prints of a number is read back: with any flags and width, atoi gets the
    argument of d or i back from the buffer, and strtoul with the base of the conversion the
    argument of u, o, x or X, whenever the buffer is large enough. *)
Theorem print_then_read ch_loc bf_loc garbage fl ds lng m str size fa c x :
  directive fl ds lng → 0 < size < 2 ^ 31 →
  let F := one_number fl ds lng c in
  let fits o := ZL o < size ∧ printable ch_loc bf_loc m str (size - 1) (ZL o) [(fa, F)] in
  (c = 100 ∨ c = 105 →
   fits (number_field fl ds (if s32 x <? 0 then [45] else []) [] (digits false 10 (Z.abs (s32 x)))) →
   wp (snprintf ch_loc bf_loc garbage str size fa [x];; atoi str) (λ r _, r = s32 x) m) ∧
  (∀ b upper, radix_of c = Some (b, upper) →
   fits (number_field fl ds [] (alt_prefix (bool_decide (35 ∈ fl)) b upper) (digits upper b (u32 x))) →
   wp (snprintf ch_loc bf_loc garbage str size fa [x];; strtoul str NULL b) (λ r _, r = u32 x) m).
Proof.
  intros Hdir Hsize F fits. unfold number_field. split.
  - intros Hc [Hlen Hpr]. pose proof (wraps_range 32 x ltac:(done) : - 2 ^ 31 ≤ s32 x < 2 ^ 31) as Hx.
    destruct (digits_ok false 10 (Z.abs (s32 x)) ltac:(lia) ltac:(lia)) as (Hnz & _ & Hdg).
    eapply (printed_reads ch_loc bf_loc garbage fl ds lng m str size fa Hsize);
      [by apply directive_means, cv_signed| |exact Hlen|exact Hpr|].
    { apply field_bytes; try done. destruct (s32 x <? 0); by repeat constructor. }
    intros m' Hs. eapply wp_mono; [apply atox_spec; [exact Hs|lia]|]. intros r ? [-> _]. rewrite s32_u64.
    pose proof (read_field 10 [] (bool_decide (48 ∈ fl)) (value 10 ds) (s32 x <? 0) _ (Z.abs (s32 x)) ltac:(lia)
      (or_introl (radix_given 10 ltac:(lia))) Hdg (digits_nonempty _ _ _) (digits_value false 10 (Z.abs (s32 x)) ltac:(lia) ltac:(lia))) as Hr.
    rewrite Hr. destruct (Z.ltb_spec (s32 x) 0); rewrite wraps_small by lia; lia.
  - intros b upper Hr [Hlen Hpr]. assert (0 ≤ u32 x < 2 ^ 32) as Hx by (by apply wrapu_range).
    destruct (convert_number 0 0 c b upper x [] garbage 0 Hr) as [Hb _].
    destruct (digits_ok upper b (u32 x) ltac:(lia) ltac:(lia)) as (Hnz & _ & Hdg).
    eapply (printed_reads ch_loc bf_loc garbage fl ds lng m str size fa Hsize);
      [by apply directive_means, cv_unsigned| |exact Hlen|exact Hpr|].
    { apply field_bytes; try done. unfold alt_prefix. repeat case_match; by repeat constructor. }
    intros m' Hs. eapply wp_mono; [apply strtox_spec; [exact Hs|lia|by left]|]. intros r ? [-> _]. rewrite u32_u64.
    set (pre := alt_prefix _ b upper).
    pose proof (alt_prefix_radix (bool_decide (35 ∈ fl)) b upper ltac:(lia) : radix b pre b ∨ pre = [48]) as Hpre.
    pose proof (read_field b pre (bool_decide (48 ∈ fl)) (value 10 ds) false _ (u32 x) ltac:(lia) Hpre
      Hdg (digits_nonempty _ _ _) (digits_value upper b (u32 x) ltac:(lia) ltac:(lia))) as Hread.
    rewrite Hread. apply wrapu_idemp.
Qed.

(** * Examples *)
Section Examples.
(** A format at 256; the frames of the calls at 300 and 310, the destination at 330. *)
Definition print_mem (F : list Z) : mem := mem_write ∅ 256 (F ++ replicate 100 0).

Lemma print_mem_mapped F a n : 256 ≤ a → a + n ≤ 356 → mapped (print_mem F) a n.
Proof.
  intros Ha Hn x Hx. apply (arr_mapped _ 256 (F ++ replicate 100 0)); [apply mem_write_arr|].
  rewrite length_app, length_replicate. lia.
Qed.

Lemma print_mem_text F : nonzero F → cstr (print_mem F) 256 F.
Proof.
  intros HF. split; [done|]. pose proof (mem_write_arr ∅ 256 (F ++ replicate 100 0)) as Ha.
  change (replicate 100 0) with ([0] ++ replicate 99 0) in Ha at 2. rewrite app_assoc, arr_app in Ha. apply Ha.
Qed.

Lemma print_mem_ok F cap len : nonzero F → Forall is_byte F → ZL F < 40 → 0 ≤ cap < 2 ^ 32 → 0 ≤ len ≤ 20 →
  printable 300 310 (print_mem F) 330 cap len [(256, F)].
Proof.
  intros Hnz HF Hl Hcap Hlen. split; try lia.
  - split; apply print_mem_mapped; lia.
  - apply print_mem_mapped; lia.
  - unfold local_bytes. lia.
  - intros a l Hin. apply list_elem_of_singleton in Hin as [= -> ->]. split; [by apply print_mem_text|].
    split; [done|]. split; [lia|]. unfold local_bytes. lia.
Qed.

Definition no_param : param := Param 7 7 7 7 7 7 7.

(** %05d of -42 is -0042. *)
Lemma d5_means texts : means texts [37; 48; 53; 100] [-42] [45; 48; 48; 52; 50].
Proof.
  apply (means_conversion texts [48] [53] [] 100 [] [-42] [] [45; 48; 48; 52; 50] []).
  - split_and!; [repeat constructor|by repeat constructor|done|done|by left].
  - exact (cv_signed texts true false 5 100 (-42) [] (or_introl eq_refl)).
  - apply means_end.
Qed.

Lemma vsnprintf_prints_witness :
  wp (vsnprintf 300 310 no_param 330 4 256 [-42]) (λ r m', r = 5 ∧ ∀ x, ¬ local_bytes 300 310 x →
    m' !! x = mem_write (print_mem [37; 48; 53; 100]) 330 [45; 48; 48; 0] !! x) (print_mem [37; 48; 53; 100]).
Proof.
  pose proof (vsnprintf_prints 300 310 no_param (print_mem [37; 48; 53; 100]) 330 4 256 [37; 48; 53; 100] [-42]
    [45; 48; 48; 52; 50] [(256, [37; 48; 53; 100])]) as H. cbv zeta in H. change (u32 (4 - 1)) with 3 in H.
  destruct H as [H _]; [by apply list_elem_of_singleton|apply d5_means|lia| |exact H].
  apply print_mem_ok; [by repeat constructor|by repeat constructor|simpl; lia|by split|simpl; lia].
Defined.

Lemma print_then_read_witness :
  wp (snprintf 300 310 no_param 330 8 256 [-42];; atoi 330) (λ r _, r = s32 (-42)) (print_mem [37; 48; 53; 100]).
Proof.
  pose proof (print_then_read 300 310 no_param [48] [53] [] (print_mem [37; 48; 53; 100]) 330 8 256 100 (-42)) as H.
  cbv zeta in H. destruct H as [H _].
  - split_and!; [repeat constructor|by repeat constructor|done|done|by left].
  - lia.
  - apply H; [by left|].
    assert (number_field [48] [53] (if s32 (-42) <? 0 then [45] else []) [] (digits false 10 (Z.abs (s32 (-42))))
      = [45; 48; 48; 52; 50]) as -> by by vm_compute. split; [simpl; lia|].
    apply print_mem_ok; [by repeat constructor|by repeat constructor|simpl; lia|by split|simpl; lia].
Defined.

(** A driver with a string at 0x3100. *)
Definition with_text (l : list Z) (u : uart) : uart := set_mem (mem_write (u_mem u) 0x3100 (l ++ [0])) u.

Lemma with_text_ready l u : nonzero l → Forall is_byte l → ZL l < 0x80 →
  same_buffer tx_area (g_uart0_tx_cp u) → queue (g_uart0_tx_cp u) (u_mem u) [] →
  mapped (u_mem u) 0x3000 0x1000 → console_ready 0x3200 0x3210 (with_text l u) [] [(0x3100, l)].
Proof.
  intros Hnz Hb Hl Htx Hq Hm. split; unfold with_text; destruct u as [m tx rx fl lp ac c]; simpl u_mem in *; simpl g_uart0_tx_cp in *.
  - done.
  - eapply queue_frame; [exact Hq|]. intros a Ha. apply (in_tx_area _ a) in Ha; [|done].
    apply mem_write_lookup_out. lia.
  - lia.
  - split; apply mapped_write; (eapply mapped_sub; [exact Hm|lia|lia]).
  - unfold local_bytes. lia.
  - intros a k Hin. apply list_elem_of_singleton in Hin as [= -> ->]. split; [split; [done|apply mem_write_arr]|].
    split; [done|]. split; [lia|]. unfold local_bytes. lia.
Qed.

Lemma greeting_ready : console_ready 0x3200 0x3210 (with_text [104; 105] one_byte) [] [(0x3100, [104; 105])].
Proof.
  destruct one_byte_ok as [Htx _ Hq _ _ _ _].
  apply with_text_ready; [by repeat constructor|by repeat constructor|done|exact Htx|exact Hq|].
  by apply mapped_insert, zeros_mapped.
Qed.

Lemma printf_on_console_witness :
  wp (printf 0x3200 0x3210 no_param 0x3100 []) (λ r t, r = 2 ∧ on_line 0x3200 0x3210 (with_text [104; 105] one_byte) [] [] [104; 105] 2 t)
    (with_text [104; 105] one_byte, []).
Proof.
  pose proof (printf_on_console 0x3200 0x3210 no_param (with_text [104; 105] one_byte) [] [] 0x3100 [104; 105] [] [104; 105]
    [(0x3100, [104; 105])]) as H. cbv zeta in H.
  destruct H as [H _]; [by apply list_elem_of_singleton| |by vm_compute|apply greeting_ready|exact H].
  do 2 (apply means_char; [done|]). apply means_end.
Defined.
End Examples.
