(* ===== verification/Scanf.v ===== *)
(** Formatted input: vsscanf.c and sscanf.c.  The interpreter of the format is a state
    machine that looks at one character of the format per round; its local variables are
    a record, the strings it reads and the places it stores to are in the byte memory.
    Then a reference semantics on lists of directives, which the machine refines. *)
From stdpp Require Import base list gmap fin_maps.
From Stdlib Require Import ZArith Lia.
From S2P Require Import Prelude Memory LibcMem LibcStr Strto Printf.

#[local] Open Scope Z_scope.

(** * The code *)
Definition LONG_BIT : Z := 32.
Definition UINT_MAX : Z := 2 ^ 32 - 1.

Definition FL_SPLAT : Z := 1.
Definition FL_INV : Z := 2.
Definition FL_WIDTH : Z := 4.

Definition rank_char : Z := -2.
Definition rank_short : Z := -1.
Definition rank_int : Z := 0.
Definition rank_long : Z := 1.
Definition rank_longlong : Z := 2.
Definition rank_ptr : Z := 2 ^ 31 - 1.

Inductive bail_kind : Type := bail_none | bail_eof | bail_err.

Inductive scan_state : Type :=
  | st_normal
  | st_flags
  | st_width
  | st_modifiers
  | st_match_init
  | st_match
  | st_match_range.

Definition skipspace (p : Z) : M mem Z :=
  loop (λ p, c ← loadb p; mret (if isspace c then inl (p + 1) else inr p)) p.

(** The bitmap is an array of [unsigned long]; [bit] is an [unsigned char], so the index is
    always in the array. *)
Definition set_bit (bitmap : list Z) (bit : Z) : list Z :=
  alter (λ w, Z.lor w (u32 (Z.shiftl 1 (bit mod LONG_BIT)))) (Z.to_nat (bit / LONG_BIT)) bitmap.
Definition test_bit (bitmap : list Z) (bit : Z) : Z :=
  Z.land (s32 (Z.shiftr (default 0 (bitmap !! Z.to_nat (bit / LONG_BIT))) (bit mod LONG_BIT))) 1.

(** The local variables of vsscanf. *)
Record scanner : Type := Scan {
  p : Z;
  q : Z;
  ap : list Z;
  rank : Z;
  width : Z;
  flags : Z;
  state : scan_state;
  sarg : Z;
  bail : bail_kind;
  converted : Z;
  matchmap : list Z;
  matchinv : Z;
  range_start : Z;
}.

Definition set_p x s := Scan x (q s) (ap s) (rank s) (width s) (flags s) (state s) (sarg s) (bail s) (converted s) (matchmap s) (matchinv s) (range_start s).
Definition set_q x s := Scan (p s) x (ap s) (rank s) (width s) (flags s) (state s) (sarg s) (bail s) (converted s) (matchmap s) (matchinv s) (range_start s).
Definition set_ap x s := Scan (p s) (q s) x (rank s) (width s) (flags s) (state s) (sarg s) (bail s) (converted s) (matchmap s) (matchinv s) (range_start s).
Definition set_rank x s := Scan (p s) (q s) (ap s) x (width s) (flags s) (state s) (sarg s) (bail s) (converted s) (matchmap s) (matchinv s) (range_start s).
Definition set_width x s := Scan (p s) (q s) (ap s) (rank s) x (flags s) (state s) (sarg s) (bail s) (converted s) (matchmap s) (matchinv s) (range_start s).
Definition set_flags x s := Scan (p s) (q s) (ap s) (rank s) (width s) x (state s) (sarg s) (bail s) (converted s) (matchmap s) (matchinv s) (range_start s).
Definition set_state x s := Scan (p s) (q s) (ap s) (rank s) (width s) (flags s) x (sarg s) (bail s) (converted s) (matchmap s) (matchinv s) (range_start s).
Definition set_sarg x s := Scan (p s) (q s) (ap s) (rank s) (width s) (flags s) (state s) x (bail s) (converted s) (matchmap s) (matchinv s) (range_start s).
Definition set_bail x s := Scan (p s) (q s) (ap s) (rank s) (width s) (flags s) (state s) (sarg s) x (converted s) (matchmap s) (matchinv s) (range_start s).
Definition set_converted x s := Scan (p s) (q s) (ap s) (rank s) (width s) (flags s) (state s) (sarg s) (bail s) x (matchmap s) (matchinv s) (range_start s).
Definition set_matchmap x s := Scan (p s) (q s) (ap s) (rank s) (width s) (flags s) (state s) (sarg s) (bail s) (converted s) x (matchinv s) (range_start s).
Definition set_matchinv x s := Scan (p s) (q s) (ap s) (rank s) (width s) (flags s) (state s) (sarg s) (bail s) (converted s) (matchmap s) x (range_start s).
Definition set_range_start x s := Scan (p s) (q s) (ap s) (rank s) (width s) (flags s) (state s) (sarg s) (bail s) (converted s) (matchmap s) (matchinv s) x.

Definition has (flag : Z) (s : scanner) : bool := negb (Z.land (flags s) flag =? 0).
Definition count (s : scanner) : scanner := set_converted (s32 (converted s + 1)) s.

(** The cases of the switch on [state], one character [ch] each. *)
Definition in_normal (ch : Z) (s : scanner) : M mem scanner :=
  if ch =? 37 then
    mret (set_width UINT_MAX (set_rank rank_int (set_flags 0 (set_state st_flags s))))
  else if isspace ch then q' ← skipspace (q s); mret (set_q q' s)
  else
    c ← loadb (q s);
    mret (if c =? ch then set_q (q s + 1) s else set_bail bail_err s).

Definition in_flags (ch : Z) (s : scanner) : scanner :=
  if ch =? 42 then set_flags (Z.lor (flags s) FL_SPLAT) s
  else if (48 <=? ch) && (ch <=? 57) then
    set_flags (Z.lor (flags s) FL_WIDTH) (set_state st_width (set_width (ch - 48) s))
  else set_p (p s - 1) (set_state st_modifiers s).

Definition in_width (ch : Z) (s : scanner) : scanner :=
  if (48 <=? ch) && (ch <=? 57) then set_width (u32 (width s * 10 + (ch - 48))) s
  else set_p (p s - 1) (set_state st_modifiers s).

(** The label set_integer: the store through the next argument, as wide as the rank. *)
Definition store_ranked (rank ptr val : Z) : M mem () :=
  if rank =? rank_char then storeb ptr val
  else if rank =? rank_short then storeb ptr val;; storeb (ptr + 1) (Z.shiftr val 8)
  else if (rank =? rank_int) || (rank =? rank_long) || (rank =? rank_ptr) then stw ptr val
  else if rank =? rank_longlong then stw ptr val;; stw (ptr + 4) (Z.shiftr val 32)
  else mret ().

Definition set_integer (val : Z) (s : scanner) : M mem scanner :=
  if has FL_SPLAT s then mret s
  else
    '(ptr, ap) ← va_arg (ap s);
    store_ranked (rank s) ptr val;;
    mret (set_ap ap s).

(** The label scan_int: white space is skipped, then the number is read. *)
Definition read_int (base : Z) (s : scanner) : M mem scanner :=
  c ← loadb (q s);
  if c =? 0 then mret (set_bail bail_eof s)
  else
    '(val, qq) ← strntoumax_scan (q s) base (width s);
    if qq =? q s then mret (set_bail bail_err s)
    else
      let s := set_q qq s in
      set_integer val (if has FL_SPLAT s then s else count s).

Definition scan_int (base : Z) (s : scanner) : M mem scanner :=
  q' ← skipspace (q s); read_int base (set_q q' s).

Definition scan_chars (s : scanner) : M mem scanner :=
  let w := if has FL_WIDTH s then width s else 1 in
  if has FL_SPLAT s then
    eof ← loop (λ w,
      if w =? 0 then mret (inr false)
      else c ← loadb (q s); mret (if c =? 0 then inr true else inl (w - 1))) w;
    mret (if (eof : bool) then set_bail bail_eof s else s)
  else
    '(sarg, ap) ← va_arg (ap s);
    '(eof, sarg, q') ← loop (λ '(w, sarg, q'),
      if w =? 0 then mret (inr (false, sarg, q'))
      else
        c ← loadb q';
        if c =? 0 then mret (inr (true, sarg, q'))
        else storeb sarg c;; mret (inl (w - 1, sarg + 1, q' + 1))) (w, sarg, q s);
    let s := set_q q' (set_sarg sarg (set_ap ap s)) in
    mret (if (eof : bool) then set_bail bail_eof s else count s).

Definition scan_string (s : scanner) : M mem scanner :=
  if has FL_SPLAT s then
    '(uc, q') ← loop (λ '(w, uc, q'),
      if w =? 0 then mret (inr (uc, q'))
      else
        uc ← loadb q';
        mret (if (uc =? 0) || isspace uc then inr (uc, q') else inl (w - 1, uc, q' + 1)))
      (width s, 1, q s);
    let s := set_q q' s in
    mret (if uc =? 0 then set_bail bail_eof s else s)
  else
    '(sarg, ap) ← va_arg (ap s);
    '(uc, sp, q') ← loop (λ '(w, uc, sp, q'),
      if w =? 0 then mret (inr (uc, sp, q'))
      else
        uc ← loadb q';
        if (uc =? 0) || isspace uc then mret (inr (uc, sp, q'))
        else storeb sp uc;; mret (inl (w - 1, uc, sp + 1, q' + 1)))
      (width s, 1, sarg, q s);
    let s := set_q q' (set_sarg sarg (set_ap ap s)) in
    s ← (if negb (sarg =? sp) then storeb sp 0;; mret (count s) else mret s);
    mret (if uc =? 0 then set_bail bail_eof s else s).

(** The label match_run. *)
Definition match_run (s : scanner) : M mem scanner :=
  '(uc, sarg', q') ← loop (λ '(uc, sarg, q'),
    if width s =? 0 then mret (inr (uc, sarg, q'))
    else
      uc ← loadb q';
      if (uc =? 0) || (Z.lxor (test_bit (matchmap s) uc) (matchinv s) =? 0) then mret (inr (uc, sarg, q'))
      else if negb (sarg =? NULL) then storeb sarg uc;; mret (inl (uc, sarg + 1, q' + 1))
      else mret (inl (uc, sarg, q' + 1))) (1, sarg s, q s);
  let s1 := set_q q' (set_sarg sarg' s) in
  s1 ← (if negb (q' =? q s) && negb (sarg' =? NULL) then storeb sarg' 0;; mret (count s1)
        else mret (set_bail bail_err s1));
  mret (if uc =? 0 then set_bail bail_eof s1 else s1).

(** The conversions; [buffer] is the start of the input. *)
Definition convert_scan (buffer ch : Z) (s : scanner) : M mem scanner :=
  if (ch =? 80) || (ch =? 112) then scan_int 0 (set_rank rank_ptr s)
  else if ch =? 105 then scan_int 0 s
  else if ch =? 100 then scan_int 10 s
  else if ch =? 111 then scan_int 8 s
  else if ch =? 117 then scan_int 10 s
  else if (ch =? 120) || (ch =? 88) then scan_int 16 s
  else if ch =? 110 then set_integer (u64 (q s - buffer)) s
  else if ch =? 99 then scan_chars s
  else if ch =? 115 then scan_string s
  else if ch =? 91 then
    let start (s : scanner) := set_state st_match_init (set_matchinv 0 (set_matchmap (replicate 8 0) s)) in
    if has FL_SPLAT s then mret (start (set_sarg NULL s))
    else '(sarg, ap) ← va_arg (ap s); mret (start (set_sarg sarg (set_ap ap s)))
  else if ch =? 37 then
    c ← loadb (q s);
    mret (if c =? 37 then set_q (q s + 1) s else set_bail bail_err s)
  else mret (set_bail bail_err s).

Definition in_modifiers (buffer ch : Z) (s : scanner) : M mem scanner :=
  if ch =? 104 then mret (set_rank (s32 (rank s - 1)) s)
  else if ch =? 108 then mret (set_rank (s32 (rank s + 1)) s)
  else if ch =? 106 then mret (set_rank rank_longlong s)
  else if ch =? 122 then mret (set_rank rank_long s)
  else if ch =? 116 then mret (set_rank rank_long s)
  else if (ch =? 76) || (ch =? 113) then mret (set_rank rank_longlong s)
  else
    let r := if rank s <? rank_char then rank_char
             else if rank_longlong <? rank s then rank_longlong else rank s in
    convert_scan buffer ch (set_rank r (set_state st_normal s)).

Definition in_match_init (ch : Z) (s : scanner) : scanner :=
  if (ch =? 94) && negb (has FL_INV s) then set_matchinv 1 s
  else set_state st_match (set_matchmap (set_bit (matchmap s) ch) s).

Definition in_match (ch : Z) (s : scanner) : M mem scanner :=
  if ch =? 93 then match_run s
  else if ch =? 45 then mret (set_state st_match_range (set_range_start ch s))
  else mret (set_matchmap (set_bit (matchmap s) ch) s).

Definition in_match_range (ch : Z) (s : scanner) : M mem scanner :=
  if ch =? 93 then match_run (set_matchmap (set_bit (matchmap s) 45) s)
  else
    mret (set_state st_match
      (set_matchmap (foldl (λ bm i, set_bit bm (range_start s + Z.of_nat i)) (matchmap s)
        (seq 0 (Z.to_nat (ch - range_start s)))) s)).

(** The switch on [state]. *)
Definition scan_step (buffer ch : Z) (s : scanner) : M mem scanner :=
  match state s with
  | st_normal => in_normal ch s
  | st_flags => mret (in_flags ch s)
  | st_width => mret (in_width ch s)
  | st_modifiers => in_modifiers buffer ch s
  | st_match_init => mret (in_match_init ch s)
  | st_match => in_match ch s
  | st_match_range => in_match_range ch s
  end.

Definition vsscanf_round (buffer : Z) (s : scanner) : M mem (scanner + Z) :=
  ch ← loadb (p s);
  let s := set_p (p s + 1) s in
  match bail s with
  | bail_none =>
      if ch =? 0 then mret (inr (converted s)) else s ← scan_step buffer ch s; mret (inl s)
  | bail_eof => mret (inr (if converted s =? 0 then -1 else converted s))
  | bail_err => mret (inr (converted s))
  end.

(** [garbage] is what the uninitialised [matchmap] holds. *)
Definition vsscanf (garbage : list Z) (buffer format : Z) (args : list Z) : M mem Z :=
  loop (vsscanf_round buffer)
    (Scan format buffer args rank_int UINT_MAX 0 st_normal NULL bail_none 0 garbage 0 0).

Definition sscanf (garbage : list Z) (str format : Z) (args : list Z) : M mem Z :=
  vsscanf garbage str format args.

(** * The reference: directives and what they do *)

(** A conversion is written with an optional star, the digits of a width, length modifiers
    and the conversion character. *)
Inductive directive : Type :=
  | Space (c : Z)
  | Literal (c : Z)
  | Conversion (splat : bool) (ds mods : list Z) (c : Z).

Definition text (d : directive) : list Z :=
  match d with
  | Space c | Literal c => [c]
  | Conversion splat ds mods c => 37 :: (if splat then [42] else []) ++ ds ++ mods ++ [c]
  end.

Definition modifier (c : Z) : Prop := c ∈ [104; 108; 106; 122; 116; 76; 113].

(** A scan set is not a directive of the reference: see [set_swallows_format]. *)
Definition wf_directive (d : directive) : Prop :=
  match d with
  | Space c => isspace c = true
  | Literal c => isspace c = false ∧ c ≠ 37 ∧ c ≠ 0
  | Conversion splat ds mods c =>
      Forall (λ c, is_digit 10 c = true) ds ∧ Forall modifier mods ∧
      is_digit 10 c = false ∧ ¬ modifier c ∧ c ≠ 42 ∧ c ≠ 91 ∧ c ≠ 0
  end.

Definition rank_step (r c : Z) : Z :=
  if c =? 104 then s32 (r - 1)
  else if c =? 108 then s32 (r + 1)
  else if c =? 106 then rank_longlong
  else if c =? 122 then rank_long
  else if c =? 116 then rank_long
  else rank_longlong.
Definition clamp (r : Z) : Z :=
  if r <? rank_char then rank_char else if rank_longlong <? r then rank_longlong else r.
Definition width_of (ds : list Z) : Z := match ds with [] => UINT_MAX | _ => u32 (value 10 ds) end.

(** How far a scan has come: the input and the arguments left, the conversions counted, and
    the stores made. *)
Record progress : Type := Progress {
  rest : list Z;
  left : list Z;
  counted : Z;
  stores : list (Z * list Z);
}.

Definition with_rest (l : list Z) (st : progress) : progress := Progress l (left st) (counted st) (stores st).

Definition store_size (rank : Z) : nat :=
  if rank =? rank_char then 1 else if rank =? rank_short then 2 else if rank =? rank_longlong then 8 else 4.

(** The next argument gets some bytes; a conversion may be counted. *)
Definition counting (counts : bool) (n : Z) : Z := if counts then s32 (n + 1) else n.
Definition give (counts : bool) (bs : list Z) (st : progress) : option progress :=
  match left st with
  | [] => None
  | a :: va => Some (Progress (rest st) va (counting counts (counted st)) (stores st ++ [(a, bs)]))
  end.

Definition skip_spaces (st : progress) : progress :=
  with_rest (drop (span_len isspace (rest st)) (rest st)) st.

Definition sem_number (base rank w : Z) (splat : bool) (st : progress) : option (progress * bail_kind) :=
  if bool_decide (rest st = []) then Some (st, bail_eof)
  else
    let l := take (Z.to_nat w) (rest st) in
    let k := (length l - length (read_number base l).2)%nat in
    let v := (read_number base l).1 in
    if (k =? 0)%nat then Some (st, bail_err)
    else
      let st := with_rest (drop k (rest st)) st in
      if splat then Some (st, bail_none)
      else st ← give true (le_bytes (store_size rank) (u64 v)) st; Some (st, bail_none).

Definition sem_int (base rank w : Z) (splat : bool) (st : progress) : option (progress * bail_kind) :=
  sem_number base rank w splat (skip_spaces st).

Definition sem_chars (w : Z) (splat : bool) (st : progress) : option (progress * bail_kind) :=
  let l := rest st in
  if splat then Some (st, if (0 <? w) && (ZL l =? 0) then bail_eof else bail_none)
  else
    let k := Z.to_nat w in
    if ZL l <? w then st ← give false l (with_rest [] st); Some (st, bail_eof)
    else st ← give true (take k l) (with_rest (drop k l) st); Some (st, bail_none).

Definition sem_string (w : Z) (splat : bool) (st : progress) : option (progress * bail_kind) :=
  let l := rest st in
  let k := Nat.min (Z.to_nat w) (span_len (negb ∘ isspace) l) in
  let b := if (length l =? k)%nat && (Z.of_nat k <? w) then bail_eof else bail_none in
  let st := with_rest (drop k l) st in
  if splat then Some (st, b)
  else
    match left st with
    | [] => None
    | a :: va => Some (if (k =? 0)%nat then Progress (rest st) va (counted st) (stores st)
                       else Progress (rest st) va (s32 (counted st + 1)) (stores st ++ [(a, take k l ++ [0])]), b)
    end.

Definition sem_char (c : Z) (st : progress) : progress * bail_kind :=
  match rest st with
  | x :: l => if x =? c then (with_rest l st, bail_none) else (st, bail_err)
  | [] => (st, bail_err)
  end.

(** [start] is the length of the whole input, for the conversion n. *)
Definition sem (start : Z) (d : directive) (st : progress) : option (progress * bail_kind) :=
  match d with
  | Space _ => Some (skip_spaces st, bail_none)
  | Literal c => Some (sem_char c st)
  | Conversion splat ds mods c =>
      let rank := clamp (foldl rank_step rank_int mods) in
      let w := width_of ds in
      if (c =? 80) || (c =? 112) then sem_int 0 rank_ptr w splat st
      else if c =? 105 then sem_int 0 rank w splat st
      else if c =? 100 then sem_int 10 rank w splat st
      else if c =? 111 then sem_int 8 rank w splat st
      else if c =? 117 then sem_int 10 rank w splat st
      else if (c =? 120) || (c =? 88) then sem_int 16 rank w splat st
      else if c =? 110 then
        if splat then Some (st, bail_none)
        else st ← give false (le_bytes (store_size rank) (start - ZL (rest st))) st; Some (st, bail_none)
      else if c =? 99 then sem_chars (if bool_decide (ds = []) then 1 else w) splat st
      else if c =? 115 then sem_string w splat st
      else if c =? 37 then Some (sem_char 37 st)
      else Some (st, bail_err)
  end.

(** A whole format: the answer of the call; -1 when the input ended before any conversion. *)
Fixpoint sem_all (start : Z) (ds : list directive) (st : progress) : option (progress * Z) :=
  match ds with
  | [] => Some (st, counted st)
  | d :: ds =>
      '(st, b) ← sem start d st;
      match b with
      | bail_none => sem_all start ds st
      | bail_eof => Some (st, if counted st =? 0 then -1 else counted st)
      | bail_err => Some (st, counted st)
      end
  end.

(** * The conversions *)
Definition apply_stores (m : mem) (l : list (Z * list Z)) : mem :=
  foldl (λ m '(a, bs), mem_write m a bs) m l.

Section Conversions.
Context (buffer fmt : Z) (B F : list Z).
Implicit Types (m : mem) (s : scanner) (st : progress) (l : list Z).

(** The input and the format are where they were. *)
Definition intact m : Prop := cstr m buffer B ∧ cstr m fmt F.

(** A store through an argument hits neither of them. *)
Definition store_ok m (x : Z * list Z) : Prop :=
  mapped m x.1 (ZL x.2) ∧ ∀ y, x.1 ≤ y < x.1 + ZL x.2 →
    ¬ buffer ≤ y ≤ buffer + ZL B ∧ ¬ fmt ≤ y ≤ fmt + ZL F.

Lemma cstr_untouched m a l x bs : cstr m a l → (∀ y, x ≤ y < x + ZL bs → ¬ a ≤ y ≤ a + ZL l) →
  cstr (mem_write m x bs) a l.
Proof.
  intros [Hnz Ha] Hd. split; [done|]. rewrite arr_lookup in Ha |- *. intros i b Hi.
  pose proof (lookup_lt_Some _ _ _ Hi) as Hl. rewrite length_app in Hl. simpl in Hl.
  rewrite mem_write_lookup. case_decide; [|by apply Ha]. exfalso. by apply (Hd (a + Z.of_nat i)); lia.
Qed.

Lemma intact_write m x bs : intact m → store_ok m (x, bs) → intact (mem_write m x bs).
Proof.
  intros [H1 H2] [_ Hd]. split; (apply cstr_untouched; [done|]); intros y Hy; by apply Hd.
Qed.

Lemma store_ok_write m x bs y : store_ok m y → store_ok (mem_write m x bs) y.
Proof. intros [Hm Hd]. split; [by apply mapped_write|done]. Qed.

Lemma apply_stores_snoc m (l : list (Z * list Z)) x bs : apply_stores m (l ++ [(x, bs)]) = mem_write (apply_stores m l) x bs.
Proof. unfold apply_stores. by rewrite foldl_app. Qed.

(** The machine [s] in memory [m] is as far as [st]; [m0] is the memory at the start. *)
Record at_progress (m0 : mem) st m s : Prop := AtProgress {
  at_mem : m = apply_stores m0 (stores st);
  at_intact : intact m;
  at_rest : ∃ i : nat, (i ≤ length B)%nat ∧ q s = buffer + Z.of_nat i ∧ rest st = drop i B;
  at_args : ap s = left st;
  at_count : converted s = counted st;
}.

Lemma at_input m0 st m s : at_progress m0 st m s → cstr m (q s) (rest st).
Proof. intros [_ [Hb _] (i & Hi & -> & ->) _ _]. by apply cstr_drop. Qed.

(** Moving on in the input. *)
Lemma at_move m0 st m s (k : nat) s' : at_progress m0 st m s → (k ≤ length (rest st))%nat →
  q s' = q s + Z.of_nat k → ap s' = ap s → converted s' = converted s →
  at_progress m0 (with_rest (drop k (rest st)) st) m s'.
Proof.
  intros [Hm Hi (i & Hle & Hq & Hr) Ha Hc] Hk Hq' Ha' Hc'. split; simpl; try congruence.
  rewrite Hr, length_drop in Hk. exists (i + k)%nat. split_and!; [lia|lia|by rewrite Hr, drop_drop].
Qed.

(** A store through the next argument. *)
Lemma at_give m0 st m s counts a va bs s' : at_progress m0 st m s → left st = a :: va → store_ok m (a, bs) →
  q s' = q s → ap s' = va → converted s' = counting counts (counted st) →
  at_progress m0 (Progress (rest st) va (counting counts (counted st)) (stores st ++ [(a, bs)])) (mem_write m a bs) s'.
Proof.
  intros [Hm Hi Hr Ha Hc] Hl Hok Hq' Ha' Hc'. split; simpl; try congruence.
  - by rewrite apply_stores_snoc, <- Hm.
  - by apply intact_write.
  - by rewrite Hq'.
Qed.

Lemma store_ok_later m0 (l : list (Z * list Z)) x : store_ok m0 x → store_ok (apply_stores m0 l) x.
Proof.
  revert m0. induction l as [|[a bs] l IH]; intros m0 Hx; [done|]. by apply IH, store_ok_write.
Qed.

(** What a conversion leaves behind. *)
Definition after m0 st (b : bail_kind) s s' m' : Prop :=
  at_progress m0 st m' s' ∧ bail s' = b ∧ p s' = p s ∧ state s' = state s.

Lemma at_same m0 st m s s' : at_progress m0 st m s → q s' = q s → ap s' = ap s → converted s' = converted s →
  at_progress m0 st m s'.
Proof. intros [Hm Hi Hr Ha Hc] Hq Ha' Hc'. split; congruence || done || by rewrite Hq. Qed.

Lemma after_bail m0 st m s b : at_progress m0 st m s → after m0 st b s (set_bail b s) m.
Proof. intros Hat. split; [by eapply at_same|done]. Qed.

Lemma after_none m0 st m s s' : at_progress m0 st m s' → bail s' = bail_none → p s' = p s → state s' = state s →
  after m0 st bail_none s s' m.
Proof. by intros. Qed.

Lemma skipspace_spec m a l : cstr m a l → ZL l < 2 ^ 32 →
  wp (skipspace a) (λ r m', m' = m ∧ r = a + Z.of_nat (span_len isspace l)) m.
Proof.
  intros Hs Hl. apply (wp_span_loop isspace (λ p, p) _ m a l); [done|done| |].
  - intros x c Q Hx _ Hc HQ. apply wp_bind. eapply wp_loadb; [done|]. apply wp_ret. by rewrite Hc.
  - intros x c Hx Hc -> _ _. apply wp_bind. eapply wp_loadb; [done|]. apply wp_ret.
    assert (isspace c = false) as -> by (by destruct Hc as [-> |]). done.
Qed.

Lemma stw_spec m a v : mapped m a 4 → wp (stw a v) (λ _ m', m' = mem_write m a (le_bytes 4 v)) m.
Proof. intros Hm. by apply wp_stw. Qed.

Lemma le_bytes_8 v : le_bytes 8 v = le_bytes 4 v ++ le_bytes 4 (Z.shiftr v 32).
Proof. simpl. by rewrite !Z.shiftr_shiftr by done. Qed.

Lemma store_ranked_spec m r a v :
  r = rank_ptr ∨ rank_char ≤ r ≤ rank_longlong → mapped m a (Z.of_nat (store_size r)) →
  wp (store_ranked r a v) (λ _ m', m' = mem_write m a (le_bytes (store_size r) v)) m.
Proof.
  intros Hr Hm. unfold store_ranked, store_size in *.
  unfold rank_ptr, rank_char, rank_short, rank_int, rank_long, rank_longlong in *.
  destruct (Z.eqb_spec r (-2)); [apply wp_storeb; [apply Hm; lia|done]|].
  destruct (Z.eqb_spec r (-1)).
  { apply wp_bind, wp_storeb; [apply Hm; lia|]. apply wp_storeb; [|done]. by apply (mapped_insert m a 2); [|lia]. }
  destruct (Z.eqb_spec r 2) as [->|].
  - simpl orb. cbv iota. apply wp_bind. eapply wp_mono; [apply stw_spec; eapply mapped_sub; [exact Hm|lia|lia]|].
    intros ? ? ->. eapply wp_mono; [apply stw_spec, mapped_write; eapply mapped_sub; [exact Hm|lia|lia]|].
    intros ? ? ->. rewrite le_bytes_8, mem_write_app, length_le_bytes. done.
  - assert ((r =? 0) || (r =? 1) || (r =? 2 ^ 31 - 1) = true) as -> by lia. by apply stw_spec.
Qed.

Definition rank_ok (r : Z) : Prop := r = rank_ptr ∨ rank_char ≤ r ≤ rank_longlong.

Lemma store_bits m0 st m x : at_progress m0 st m x → ∀ y, store_ok m0 y → store_ok m y.
Proof. intros [-> _ _ _ _] y. apply store_ok_later. Qed.

Lemma set_integer_spec m0 st m s0 s counts v st' : at_progress m0 st m s0 → rank_ok (rank s) →
  q s = q s0 → ap s = ap s0 → converted s = counting counts (counted st) → has FL_SPLAT s = false →
  give counts (le_bytes (store_size (rank s)) v) st = Some st' → Forall (store_ok m0) (stores st') →
  wp (set_integer v s) (after m0 st' (bail s) s) m.
Proof.
  intros Hat Hr Hq Ha Hc Hsp Hg Hok. unfold set_integer. rewrite Hsp, Ha. unfold give in Hg.
  pose proof (at_args _ _ _ _ Hat) as Hl. rewrite Hl.
  destruct (left st) as [|a va] eqn:El; [done|]. injection Hg as <-. simpl in Hok.
  apply Forall_app in Hok as [_ Hok]. apply Forall_inv in Hok. pose proof (store_bits _ _ _ _ Hat _ Hok) as Hok'.
  rewrite va_arg_cons. apply wp_bind. eapply wp_mono; [apply store_ranked_spec; [done|]|].
  { destruct Hok' as [Hm _]. simpl in Hm. by rewrite length_le_bytes in Hm. }
  intros ? ? ->. apply wp_ret. split; [|done]. by eapply at_give.
Qed.

Lemma at_seen m0 st m s w : at_progress m0 st m s → 0 ≤ w → seen m (q s) w (take (Z.to_nat w) (rest st)).
Proof. intros Hat Hw. split; [done|]. exists (rest st). split; [by eapply at_input|done]. Qed.

Lemma rest_length m0 st m s : at_progress m0 st m s → (length (rest st) ≤ length B)%nat.
Proof. intros [_ _ (i & _ & _ & ->) _ _]. rewrite length_drop. lia. Qed.

Context (HB : ZL B < 2 ^ 32) (HBb : Forall is_byte B).

Lemma read_number_rest base l : (length (read_number base l).2 ≤ length l)%nat.
Proof.
  unfold read_number. set (l1 := drop _ l). assert (length l1 ≤ length l)%nat as H1 by (subst l1; rewrite length_drop; lia).
  assert (length (read_sign l1).2 ≤ length l1)%nat as H2.
  { destruct l1 as [|c l']; [done|]. simpl. destruct (_ || _); simpl; lia. }
  destruct (read_sign l1) as [minus l2]. simpl in H2.
  assert (length (read_prefix base l2).2 ≤ length l2)%nat as H3.
  { unfold read_prefix. destruct (base =? 0); [|destruct (base =? 16)]; try done;
      destruct (starts_hex l2); cbn [snd]; rewrite ?length_drop; try lia.
    destruct l2 as [|c l']; [done|]. destruct (c =? 48); simpl; lia. }
  destruct (read_prefix base l2) as [b l3]. simpl in *. rewrite length_drop. lia.
Qed.

Lemma read_int_spec m0 st m s base st' b : at_progress m0 st m s → bail s = bail_none →
  rank_ok (rank s) → 0 ≤ width s < 2 ^ 32 →
  sem_number base (rank s) (width s) (has FL_SPLAT s) st = Some (st', b) → Forall (store_ok m0) (stores st') →
  wp (read_int base s) (after m0 st' b s) m.
Proof.
  intros Hat Hb Hr Hw Hsem Hok. unfold read_int, sem_number in *.
  pose proof (at_input _ _ _ _ Hat) as Hin. case_bool_decide as Hnil.
  { injection Hsem as <- <-. rewrite Hnil in Hin. apply cstr_nil in Hin.
    apply wp_bind. eapply wp_loadb; [done|]. by apply wp_ret, after_bail. }
  assert (∃ c, m !! q s = Some c ∧ c ≠ 0) as (c & Hc & Hnz).
  { destruct (rest st); [done|]. apply cstr_cons in Hin as (? & ? & _). eauto. }
  apply wp_bind. eapply wp_loadb; [done|]. destruct (Z.eqb_spec c 0); [done|].
  set (t := take (Z.to_nat (width s)) (rest st)) in *. pose proof (read_number_rest base t) as Hrn.
  assert (length t ≤ length (rest st))%nat as Ht by (subst t; rewrite length_take; lia).
  apply wp_bind. eapply wp_mono.
  { apply (strntoumax_scan_spec m _ base (width s) t); [|lia]. exact (at_seen m0 st m s (width s) Hat ltac:(lia)). }
  intros [v' q'] ? (-> & -> & ->). cbn zeta in Hsem.
  set (k := (length t - length (read_number base t).2)%nat) in *.
  replace (q s + ZL t - ZL (read_number base t).2) with (q s + Z.of_nat k) by lia.
  destruct (Nat.eqb_spec k 0) as [Ek|Hk].
  { injection Hsem as <- <-. rewrite (proj2 (Z.eqb_eq _ _)) by lia. by apply wp_ret, after_bail. }
  rewrite (proj2 (Z.eqb_neq _ _)) by lia. set (s1 := set_q _ s).
  assert (at_progress m0 (with_rest (drop k (rest st)) st) m s1) as Hat1 by (eapply at_move; (done || lia)).
  change (has FL_SPLAT s1) with (has FL_SPLAT s). destruct (has FL_SPLAT s) eqn:Hsp.
  - injection Hsem as <- <-. unfold set_integer. change (has FL_SPLAT s1) with (has FL_SPLAT s). rewrite Hsp.
    by apply wp_ret.
  - destruct (give _ _ _) as [st2|] eqn:Hg; [|done]. injection Hsem as <- <-.
    eapply wp_mono; [eapply (set_integer_spec m0 _ m s1 (count s1) true); try done|].
    + simpl. by rewrite (at_count _ _ _ _ Hat).
    + intros s' m' (? & Hbb & ? & ?). split; [done|]. simpl in Hbb. by rewrite Hbb, Hb.
Qed.

Lemma skip_spaces_at m0 st m s : at_progress m0 st m s →
  wp (skipspace (q s)) (λ q' m', m' = m ∧ at_progress m0 (skip_spaces st) m (set_q q' s)) m.
Proof.
  intros Hat. pose proof (rest_length _ _ _ _ Hat) as Hlen. pose proof (span_len_le isspace (rest st)).
  eapply wp_mono; [apply (skipspace_spec m (q s) (rest st)); [by eapply at_input|lia]|].
  intros q' ? [-> ->]. split; [done|]. by eapply at_move.
Qed.

Lemma scan_int_spec m0 st m s base st' b : at_progress m0 st m s → bail s = bail_none →
  rank_ok (rank s) → 0 ≤ width s < 2 ^ 32 →
  sem_int base (rank s) (width s) (has FL_SPLAT s) st = Some (st', b) → Forall (store_ok m0) (stores st') →
  wp (scan_int base s) (after m0 st' b s) m.
Proof.
  intros Hat Hb Hr Hw Hsem Hok. apply wp_bind. eapply wp_mono; [by apply skip_spaces_at|].
  intros q' ? [-> Hat1]. by apply (read_int_spec m0 (skip_spaces st) m (set_q q' s) base st' b).
Qed.

(** Reading the input while bytes go to a place apart from it. *)
Lemma input_untouched m0 st m s a bs : at_progress m0 st m s → store_ok m (a, bs) → ∀ i : nat, (i ≤ length bs)%nat →
  cstr (mem_write m a (take i bs)) (q s) (rest st).
Proof.
  intros Hat [_ Hd] i Hi. apply cstr_untouched; [by eapply at_input|].
  destruct Hat as [_ _ (j & Hj & -> & ->) _ _]. rewrite length_take, length_drop.
  intros y Hy Hy'. destruct (Hd y) as [Hb _]; simpl; lia.
Qed.

Lemma write_take_S m a bs (i : nat) c : bs !! i = Some c →
  <[a + Z.of_nat i := c]> (mem_write m a (take i bs)) = mem_write m a (take (S i) bs).
Proof.
  intros Hc. rewrite (take_S_r _ _ c) by done. rewrite mem_write_snoc, length_take_le; [done|].
  apply lookup_lt_Some in Hc. lia.
Qed.

(** The conversion s. *)
Definition word (w : Z) (l : list Z) : nat := Nat.min (Z.to_nat w) (span_len (negb ∘ isspace) l).
Definition at_end (w : Z) (l : list Z) : bool := (length l =? word w l)%nat && (Z.of_nat (word w l) <? w).

Lemma word_next w l (i : nat) : (i ≤ word w l)%nat → 0 ≤ w →
  (Z.of_nat i = w ∧ word w l = i) ∨
  (Z.of_nat i < w ∧ i = length l ∧ word w l = i) ∨
  (Z.of_nat i < w ∧ ∃ c, l !! i = Some c ∧
     if isspace c then word w l = i else (i < word w l)%nat).
Proof.
  intros Hi Hw. unfold word in *. set (n := span_len (negb ∘ isspace) l) in *.
  pose proof (span_len_le (negb ∘ isspace) l : (n ≤ _)%nat) as Hn.
  destruct (decide (Z.of_nat i = w)); [left; lia|]. assert (Z.of_nat i < w) by lia. right.
  destruct (decide (i = length l)); [left; lia|right]. split; [done|].
  destruct (lookup_lt_is_Some_2 l i ltac:(lia)) as [c Hc]. exists c. split; [done|].
  destruct (decide (i = n)) as [->|].
  - apply span_len_stop in Hc. simpl in Hc. apply negb_false_iff in Hc. rewrite Hc. lia.
  - assert (i < n)%nat as Hlt by lia. apply (span_len_take _ l) with (b := c) in Hlt; [|done]. simpl in Hlt.
    apply negb_true_iff in Hlt. rewrite Hlt. lia.
Qed.

Lemma skip_word_spec m a l w : cstr m a l → 0 ≤ w < 2 ^ 32 → ZL l < 2 ^ 32 →
  wp (loop (λ '(w, uc, q'),
      if w =? 0 then mret (inr (uc, q'))
      else
        uc ← loadb q';
        mret (if (uc =? 0) || isspace uc then inr (uc, q') else inl (w - 1, uc, q' + 1))) (w, 1, a))
    (λ r m', m' = m ∧ (r.1 =? 0) = at_end w l ∧ r.2 = a + Z.of_nat (word w l)) m.
Proof.
  intros Hs Hw Hl. apply wp_loop with
    (I := λ '(k, uc, q') m', m' = m ∧ uc ≠ 0 ∧ ∃ i : nat, (i ≤ word w l)%nat ∧ k = w - Z.of_nat i ∧ q' = a + Z.of_nat i)
    (f := λ '(k, _, _) _, k); [|lia|].
  { split; [done|]. split; [done|]. exists 0%nat. lia. }
  intros [[k uc] q'] m' (-> & Huc & i & Hi & -> & ->).
  assert (word w l ≤ length l)%nat as Hwl by (unfold word; pose proof (span_len_le (negb ∘ isspace) l); lia).
  assert (Z.of_nat (word w l) ≤ w) as Hww by (unfold word; lia). split; [lia|]. unfold at_end.
  destruct (word_next w l i Hi ltac:(lia)) as [[Hiw E]|[(Hlt & -> & E)|(Hlt & c & Hc & Hif)]].
  - rewrite (proj2 (Z.eqb_eq _ _)) by lia. apply wp_ret. simpl. rewrite E, (proj2 (Z.eqb_neq uc 0)) by done.
    rewrite (proj2 (Z.ltb_ge (Z.of_nat i) w)), andb_false_r by lia. done.
  - rewrite (proj2 (Z.eqb_neq _ _)) by lia. apply wp_bind. eapply wp_loadb; [by apply cstr_end|]. apply wp_ret. simpl.
    rewrite E, Nat.eqb_refl, (proj2 (Z.ltb_lt _ w)) by lia. done.
  - rewrite (proj2 (Z.eqb_neq _ _)) by lia. destruct (cstr_lookup _ _ _ _ _ Hs Hc) as [Hld Hnz].
    apply wp_bind. eapply wp_loadb; [done|]. apply wp_ret. rewrite (proj2 (Z.eqb_neq c 0)) by done. simpl.
    destruct (isspace c).
    + pose proof (lookup_lt_Some _ _ _ Hc). simpl. rewrite Hif, (proj2 (Z.eqb_neq c 0)) by done.
      by rewrite (proj2 (Nat.eqb_neq (length l) i)) by lia.
    + split; [|lia]. split; [done|]. split; [done|]. exists (S i). lia.
Qed.

Lemma copy_word_spec m0 st m s a bs w : at_progress m0 st m s → 0 ≤ w < 2 ^ 32 →
  (length (rest st) ≤ length B)%nat →
  take (word w (rest st)) (rest st) = take (word w (rest st)) bs →
  (word w (rest st) ≤ length bs)%nat → (0 < word w (rest st) → store_ok m (a, bs))%nat → Forall is_byte (rest st) →
  wp (loop (λ '(w, uc, sp, q'),
      if w =? 0 then mret (inr (uc, sp, q'))
      else
        uc ← loadb q';
        if (uc =? 0) || isspace uc then mret (inr (uc, sp, q'))
        else storeb sp uc;; mret (inl (w - 1, uc, sp + 1, q' + 1))) (w, 1, a, q s))
    (λ r m', m' = mem_write m a (take (word w (rest st)) bs) ∧ (r.1.1 =? 0) = at_end w (rest st) ∧
       r.1.2 = a + Z.of_nat (word w (rest st)) ∧ r.2 = q s + Z.of_nat (word w (rest st))) m.
Proof.
  intros Hat Hw Hl Htk Hbs Hok Hby. set (l := rest st) in *. set (K := word w l) in *. apply wp_loop with
    (I := λ '(k, uc, sp, q') m', uc ≠ 0 ∧ ∃ i : nat, (i ≤ K)%nat ∧ m' = mem_write m a (take i bs) ∧
       k = w - Z.of_nat i ∧ sp = a + Z.of_nat i ∧ q' = q s + Z.of_nat i)
    (f := λ '(k, _, _, _) _, k); [|lia|].
  { split; [done|]. exists 0%nat. split_and!; (done || lia). }
  intros [[[k uc] sp] q'] m' (Huc & i & Hi & -> & -> & -> & ->).
  assert (Z.of_nat K ≤ w) as Hww by (subst K; unfold word; lia). split; [lia|]. unfold at_end. fold K.
  assert (cstr (mem_write m a (take i bs)) (q s) l) as Hs.
  { destruct i as [|i]; [by eapply at_input|]. eapply input_untouched; [done|apply Hok; lia|lia]. }
  destruct (word_next w l i Hi ltac:(lia)) as [[Hiw E]|[(Hlt & Hil & E)|(Hlt & c & Hc & Hif)]]; try fold K in E.
  - rewrite (proj2 (Z.eqb_eq _ _)) by lia. apply wp_ret. simpl. rewrite E, (proj2 (Z.eqb_neq uc 0)) by done.
    rewrite (proj2 (Z.ltb_ge (Z.of_nat i) w)), andb_false_r by lia. done.
  - rewrite (proj2 (Z.eqb_neq _ _)) by lia. pose proof (cstr_end _ _ _ Hs) as He. rewrite <- Hil in He.
    apply wp_bind. eapply wp_loadb; [exact He|].
    apply wp_ret. simpl. rewrite E, <- Hil, Nat.eqb_refl, (proj2 (Z.ltb_lt _ w)) by lia. done.
  - rewrite (proj2 (Z.eqb_neq _ _)) by lia. destruct (cstr_lookup _ _ _ _ _ Hs Hc) as [Hld Hnz].
    apply wp_bind. eapply wp_loadb; [done|]. rewrite (proj2 (Z.eqb_neq c 0)) by done. simpl orb.
    pose proof (lookup_lt_Some _ _ _ Hc). destruct (isspace c); fold K in Hif.
    + apply wp_ret. simpl. rewrite Hif, (proj2 (Z.eqb_neq c 0)) by done.
      by rewrite (proj2 (Nat.eqb_neq (length l) i)) by lia.
    + assert (bs !! i = Some c) as Hbc.
      { rewrite <- (lookup_take_lt bs K i), <- Htk, lookup_take_lt by lia. done. }
      destruct (Hok ltac:(lia)) as [Hmp _]. simpl in Hmp.
      apply wp_bind, wp_storeb; [apply (mapped_write m a (ZL bs) a (take i bs) Hmp); lia|]. apply wp_ret. split; [|lia].
      split; [done|]. exists (S i). rewrite u8_small by (by eapply Forall_lookup_1).
      rewrite write_take_S by done. split_and!; (done || lia).
Qed.

Lemma rest_bytes m0 st m s : at_progress m0 st m s → Forall is_byte (rest st).
Proof. intros [_ _ (i & _ & _ & ->) _ _]. by apply Forall_drop. Qed.

Lemma word_le w l : (word w l ≤ length l)%nat.
Proof. unfold word. pose proof (span_len_le (negb ∘ isspace) l). lia. Qed.

Lemma scan_string_spec m0 st m s st' b : at_progress m0 st m s → bail s = bail_none → 0 ≤ width s < 2 ^ 32 →
  sem_string (width s) (has FL_SPLAT s) st = Some (st', b) → Forall (store_ok m0) (stores st') →
  wp (scan_string s) (after m0 st' b s) m.
Proof.
  intros Hat Hb Hw Hsem Hok. pose proof (rest_length _ _ _ _ Hat) as Hlen.
  pose proof (word_le (width s) (rest st)) as Hk. unfold scan_string, sem_string in *. cbn zeta in Hsem.
  fold (word (width s) (rest st)) in Hsem. fold (at_end (width s) (rest st)) in Hsem.
  set (k := word (width s) (rest st)) in *. change (left (with_rest (drop k (rest st)) st)) with (left st) in Hsem.
  destruct (has FL_SPLAT s).
  - injection Hsem as <- <-. apply wp_bind.
    eapply wp_mono; [apply (skip_word_spec m (q s) (rest st)); [by eapply at_input|done|lia]|].
    intros [uc q'] ? (-> & Huc & Hq). simpl in Huc, Hq. subst q'. apply wp_ret. rewrite Huc. fold k.
    assert (at_progress m0 (with_rest (drop k (rest st)) st) m (set_q (q s + Z.of_nat k) s)) as Hat1 by (by eapply at_move).
    destruct (at_end _ _); [exact (after_bail _ _ _ _ bail_eof Hat1)|by split].
  - destruct (left st) as [|a va] eqn:El; [done|]. rewrite (at_args _ _ _ _ Hat), El, va_arg_cons. cbn beta iota.
    set (bs := take k (rest st) ++ [0]).
    assert (take k (rest st) = take k bs) as Htk by (subst bs; rewrite take_app_le, take_take, Nat.min_id by (rewrite length_take; lia); done).
    assert (length bs = k + 1)%nat as Hbs by (subst bs; rewrite length_app, length_take; simpl; lia).
    assert (0 < k → store_ok m (a, bs))%nat as Hst.
    { intros Hpos. eapply store_bits; [exact Hat|]. rewrite (proj2 (Nat.eqb_neq k 0)) in Hsem by lia.
      injection Hsem as <- _. simpl in Hok. apply Forall_app in Hok as [_ Hok]. by apply Forall_inv in Hok. }
    apply wp_bind. eapply wp_mono; [eapply (copy_word_spec m0 st m s a bs); try done|].
    { fold k. lia. }
    { by eapply rest_bytes. }
    intros [[uc sp] q'] ? (-> & Huc & Hsp & Hq). simpl in Huc, Hsp, Hq. subst sp q'. fold k. fold k in Huc.
    cbn beta iota zeta. set (s1 := set_q _ _).
    assert (at_progress m0 (with_rest (drop k (rest st)) st) m (set_ap (left st) s1)) as Hat1.
    { eapply at_move; try done. by rewrite (at_args _ _ _ _ Hat). }
    destruct (Nat.eqb_spec k 0) as [Ek|Ek].
    + rewrite (proj2 (Z.eqb_eq a _)) by lia. apply wp_bind, wp_ret, wp_ret. rewrite Huc.
      injection Hsem as <- <-. rewrite Ek. simpl take. simpl mem_write.
      assert (at_progress m0 (Progress (rest st) va (counted st) (stores st)) m s1) as Hat2.
      { destruct Hat1 as [A1 A2 (i & A3 & A4 & A5) A6 A7]. rewrite Ek in A5. split; try done. exists i. by rewrite drop_0 in A5. }
      rewrite drop_0. destruct (at_end _ _); [exact (after_bail _ _ _ _ bail_eof Hat2)|by split].
    + rewrite (proj2 (Z.eqb_neq a _)) by lia. simpl negb. cbv iota. injection Hsem as <- <-.
      destruct (Hst ltac:(lia)) as [Hmp _]. simpl in Hmp.
      apply wp_bind, wp_bind, wp_storeb; [apply (mapped_write m a (ZL bs) a (take k bs) Hmp); lia|].
      change (u8 0) with 0. rewrite write_take_S by (apply list_lookup_middle; rewrite length_take; lia).
      rewrite (take_ge bs) by lia. apply wp_ret, wp_ret. rewrite Huc.
      assert (at_progress m0 (Progress (drop k (rest st)) va (s32 (counted st + 1)) (stores st ++ [(a, bs)])) (mem_write m a bs)
        (count s1)) as Hat2.
      { eapply (at_give m0 _ m _ true a va bs (count s1) Hat1); try done; [apply Hst; lia|].
        simpl. by rewrite (at_count _ _ _ _ Hat). }
      destruct (at_end _ _); [exact (after_bail _ _ _ _ bail_eof Hat2)|by split].
Qed.

(** The conversion c. *)
Lemma copy_chars_spec m0 st m s a w (bs := take (Z.to_nat w) (rest st)) : at_progress m0 st m s → 0 ≤ w < 2 ^ 32 →
  store_ok m (a, bs) →
  wp (loop (λ '(w, sarg, q'),
      if w =? 0 then mret (inr (false, sarg, q'))
      else
        c ← loadb q';
        if c =? 0 then mret (inr (true, sarg, q'))
        else storeb sarg c;; mret (inl (w - 1, sarg + 1, q' + 1))) (w, a, q s))
    (λ r m', m' = mem_write m a bs ∧ r.1.1 = (ZL (rest st) <? w) ∧ r.2 = q s + ZL bs) m.
Proof.
  intros Hat Hw Hok. pose proof (length_take (rest st) (Z.to_nat w)) as Hbl. fold bs in Hbl.
  destruct (Hok) as [Hmp _]. simpl in Hmp. apply wp_loop with
    (I := λ '(k, sp, q') m', ∃ i : nat, (i ≤ length bs)%nat ∧ m' = mem_write m a (take i bs) ∧
       k = w - Z.of_nat i ∧ sp = a + Z.of_nat i ∧ q' = q s + Z.of_nat i)
    (f := λ '(k, _, _) _, k); [|lia|].
  { exists 0%nat. split_and!; (done || lia). }
  intros [[k sp] q'] m' (i & Hi & -> & -> & -> & ->). split; [lia|].
  pose proof (input_untouched _ _ _ _ _ _ Hat Hok i Hi) as Hs.
  destruct (Z.eqb_spec (w - Z.of_nat i) 0) as [E|E].
  - apply wp_ret. simpl. assert (i = length bs) as -> by lia. rewrite firstn_all.
    by rewrite (proj2 (Z.ltb_ge _ _)) by lia.
  - destruct (cstr_step _ _ _ i Hs ltac:(lia)) as (c & Hc & [[-> ->]|(Hnz & Hlt & Hli)]);
      apply wp_bind; (eapply wp_loadb; [done|]).
    + apply wp_ret. simpl. rewrite (proj2 (Z.ltb_lt _ _)) by lia. rewrite take_ge by lia. split_and!; [done|done|lia].
    + rewrite (proj2 (Z.eqb_neq c 0)) by done.
      assert (bs !! i = Some c) as Hbc by (subst bs; rewrite lookup_take_lt by lia; done).
      pose proof (Forall_lookup_1 _ _ _ _ (rest_bytes _ _ _ _ Hat) Hli) as Hcb. pose proof (lookup_lt_Some _ _ _ Hbc).
      apply wp_bind, wp_storeb; [apply (mapped_write m a (ZL bs) a (take i bs) Hmp); lia|]. apply wp_ret. split; [|lia].
      exists (S i). rewrite (u8_small c) by done. rewrite write_take_S by done. split_and!; (done || lia).
Qed.

Lemma scan_chars_spec m0 st m s st' b (w := if has FL_WIDTH s then width s else 1) :
  at_progress m0 st m s → bail s = bail_none → 0 ≤ width s < 2 ^ 32 →
  sem_chars w (has FL_SPLAT s) st = Some (st', b) → Forall (store_ok m0) (stores st') →
  wp (scan_chars s) (after m0 st' b s) m.
Proof.
  intros Hat Hb Hw Hsem Hok. pose proof (rest_length _ _ _ _ Hat) as Hlen.
  assert (0 ≤ w < 2 ^ 32) as Hw' by (subst w; destruct (has FL_WIDTH s); lia). unfold scan_chars, sem_chars in *.
  fold w. cbn zeta in Hsem. destruct (has FL_SPLAT s).
  - injection Hsem as <- <-. apply wp_bind.
    eapply (wp_mono _ (λ eof m', m' = m ∧ eof = ((0 <? w) && (ZL (rest st) =? 0)))).
    { pose proof (at_input _ _ _ _ Hat) as Hin. apply wp_loop with
        (I := λ k m', m' = m ∧ 0 ≤ k ≤ w ∧ (k < w → rest st ≠ [])) (f := λ k _, k); [|lia|].
      { split; [done|]. split; [lia|]. lia. }
      intros k m' (-> & Hk & Hne). split; [lia|]. destruct (Z.eqb_spec k 0) as [->|].
      - apply wp_ret. split; [done|]. destruct (Z.ltb_spec 0 w); [|done]. by destruct (rest st); [exfalso; apply Hne|].
      - rewrite (proj2 (Z.ltb_lt 0 w)) by lia. destruct (rest st) as [|c l].
        + apply cstr_nil in Hin. apply wp_bind. eapply wp_loadb; [done|]. by apply wp_ret.
        + apply cstr_cons in Hin as (Hc & Hnz & _). apply wp_bind. eapply wp_loadb; [done|]. apply wp_ret.
          rewrite (proj2 (Z.eqb_neq c 0)) by done. split; [|lia]. split; [done|]. split; [lia|done]. }
    intros eof ? [-> ->]. apply wp_ret. destruct (_ && _); [by apply after_bail|by split].
  - set (bs := take (Z.to_nat w) (rest st)). assert (∃ counts a va, left st = a :: va ∧
      b = (if ZL (rest st) <? w then bail_eof else bail_none) ∧ counts = (if ZL (rest st) <? w then false else true) ∧
      st' = Progress (drop (length bs) (rest st)) va (counting counts (counted st)) (stores st ++ [(a, bs)])) as (counts & a & va & El & -> & En & ->).
    { subst bs. unfold give in Hsem. pose proof (length_take (rest st) (Z.to_nat w)). 
      destruct (Z.ltb_spec (ZL (rest st)) w); simpl in Hsem; (destruct (left st) as [|a va]; [done|]); injection Hsem as <- <-;
        eexists _, a, va; (split; [done|]; split; [done|]; split; [done|]).
      - by rewrite take_ge, drop_all by lia.
      - f_equal. f_equal. lia. }
    apply Forall_app in Hok as [_ Hok]. apply Forall_inv in Hok. pose proof (store_bits _ _ _ _ Hat _ Hok) as Hst.
    rewrite (at_args _ _ _ _ Hat), El, va_arg_cons. cbn beta iota.
    apply wp_bind. eapply wp_mono; [apply (copy_chars_spec m0 st m s a w); done|]. fold bs.
    intros [[eof sa] q'] ? (-> & He & Hq). simpl in He, Hq. subst eof q'. cbn beta iota zeta. apply wp_ret.
    assert (at_progress m0 (with_rest (drop (length bs) (rest st)) st) m (set_q (q s + ZL bs) s)) as Hat1.
    { eapply at_move; try done. subst bs. rewrite length_take. lia. }
    destruct (ZL (rest st) <? w); subst counts.
    + assert (at_progress m0 (Progress (drop (length bs) (rest st)) va (counted st) (stores st ++ [(a, bs)]))
        (mem_write m a bs) (set_q (q s + ZL bs) (set_sarg sa (set_ap va s)))) as Hat2.
      { eapply (at_give m0 _ m _ false a va bs _ Hat1); try done. simpl. by rewrite (at_count _ _ _ _ Hat). }
      exact (after_bail _ _ _ _ bail_eof Hat2).
    + assert (at_progress m0 (Progress (drop (length bs) (rest st)) va (s32 (counted st + 1)) (stores st ++ [(a, bs)]))
        (mem_write m a bs) (count (set_q (q s + ZL bs) (set_sarg sa (set_ap va s))))) as Hat2.
      { eapply (at_give m0 _ m _ true a va bs _ Hat1); try done. simpl. by rewrite (at_count _ _ _ _ Hat). }
      by split.
Qed.

(** A character that has to match. *)
Lemma match_char_spec m0 st m s c : at_progress m0 st m s → bail s = bail_none → c ≠ 0 →
  wp (x ← loadb (q s); mret (if x =? c then set_q (q s + 1) s else set_bail bail_err s))
    (after m0 (sem_char c st).1 (sem_char c st).2 s) m.
Proof.
  intros Hat Hb Hc. pose proof (at_input _ _ _ _ Hat) as Hin. unfold sem_char.
  destruct (rest st) as [|x l] eqn:El.
  - apply cstr_nil in Hin. apply wp_bind. eapply wp_loadb; [done|]. apply wp_ret.
    rewrite (proj2 (Z.eqb_neq 0 c)) by done. by apply after_bail.
  - apply cstr_cons in Hin as (Hx & _ & _). apply wp_bind. eapply wp_loadb; [done|]. apply wp_ret.
    destruct (x =? c); [|by apply after_bail]. split; [|done].
    replace l with (drop 1 (rest st)) by (by rewrite El). eapply at_move; try done. rewrite El. simpl. lia.
Qed.

Lemma clamp_ok r : rank_ok (clamp r).
Proof.
  right. unfold clamp, rank_char, rank_longlong. destruct (Z.ltb_spec r (-2)); [lia|]. destruct (Z.ltb_spec 2 r); lia.
Qed.

Lemma width_of_range ds : 0 ≤ width_of ds < 2 ^ 32.
Proof. unfold width_of, UINT_MAX. destruct ds; [lia|]. by apply wrapu_range. Qed.

Lemma consumed_spec m0 st m s : at_progress m0 st m s → u64 (q s - buffer) = u64 (ZL B - ZL (rest st)).
Proof. intros [_ _ (i & Hi & -> & ->) _ _]. rewrite length_drop. f_equal. lia. Qed.

Lemma le_bytes_u64 n v : (n ≤ 8)%nat → le_bytes n (u64 v) = le_bytes n v.
Proof.
  intros Hn. unfold wrapu. assert (∀ k v, (n ≤ k)%nat → le_bytes n (v mod 2 ^ (8 * Z.of_nat k)) = le_bytes n v) as Hgen.
  { clear. induction n as [|n IH]; intros k v Hk; [done|]. destruct k as [|k]; [lia|]. cbn [le_bytes].
    replace (8 * Z.of_nat (S k)) with (8 + 8 * Z.of_nat k) by lia. rewrite Z.pow_add_r by lia.
    rewrite Z.rem_mul_r by lia. set (h := (v / 2 ^ 8) mod _).
    assert (u8 (v mod 2 ^ 8 + 2 ^ 8 * h) = u8 v) as ->.
    { unfold wrapu. rewrite Z.mul_comm, Z.mod_add by done. by rewrite Z.mod_mod. }
    f_equal. rewrite !Z.shiftr_div_pow2 by done.
    assert ((v mod 2 ^ 8 + 2 ^ 8 * h) / 2 ^ 8 = h) as ->.
    { rewrite Z.mul_comm, Z.div_add by done. rewrite Z.div_small; [lia|]. by apply Z.mod_pos_bound. }
    subst h. apply IH. lia. }
  by apply (Hgen 8%nat).
Qed.

Lemma store_size_le r : (store_size r ≤ 8)%nat.
Proof. unfold store_size. repeat case_match; lia. Qed.

Lemma convert_scan_spec m0 st m s c ds mods st' b : at_progress m0 st m s → bail s = bail_none →
  rank s = clamp (foldl rank_step rank_int mods) → width s = width_of ds →
  has FL_WIDTH s = negb (bool_decide (ds = [])) → c ≠ 91 →
  sem (ZL B) (Conversion (has FL_SPLAT s) ds mods c) st = Some (st', b) → Forall (store_ok m0) (stores st') →
  wp (convert_scan buffer c s) (after m0 st' b s) m.
Proof.
  intros Hat Hb Hr Hw Hfw Hc Hsem Hok. pose proof (width_of_range ds) as Hwr. rewrite <- Hw in Hwr.
  assert (rank_ok (rank s)) as Hrok by (rewrite Hr; apply clamp_ok).
  unfold convert_scan, sem in *. cbv zeta in Hsem. rewrite <- Hr, <- Hw in Hsem.
  destruct ((c =? 80) || (c =? 112)).
  { apply (scan_int_spec m0 st m (set_rank rank_ptr s) 0); try done; [by eapply at_same|by left]. }
  destruct (c =? 105); [by apply (scan_int_spec m0 st)|]. destruct (c =? 100); [by apply (scan_int_spec m0 st)|].
  destruct (c =? 111); [by apply (scan_int_spec m0 st)|]. destruct (c =? 117); [by apply (scan_int_spec m0 st)|].
  destruct ((c =? 120) || (c =? 88)); [by apply (scan_int_spec m0 st)|]. destruct (c =? 110).
  { rewrite (consumed_spec _ _ _ _ Hat). destruct (has FL_SPLAT s) eqn:Hsp.
    - injection Hsem as <- <-. unfold set_integer. rewrite Hsp. by apply wp_ret.
    - destruct (give _ _ _) as [st2|] eqn:Hg; [|done]. injection Hsem as <- <-.
      eapply wp_mono; [eapply (set_integer_spec m0 st m s s false); try done|].
      + by rewrite (at_count _ _ _ _ Hat).
      + rewrite le_bytes_u64; [exact Hg|apply store_size_le].
      + intros s' m' (? & Hbb & ? & ?). split; [done|]. by rewrite Hbb. }
  destruct (c =? 99).
  { apply (scan_chars_spec m0 st); try done. rewrite Hfw. by destruct (bool_decide (ds = [])). }
  destruct (c =? 115); [by apply (scan_string_spec m0 st)|].
  rewrite (proj2 (Z.eqb_neq c 91)) by done. destruct (c =? 37).
  - pose proof (match_char_spec m0 st m s 37 Hat Hb) as Hm. injection Hsem as Hsem. rewrite Hsem in Hm. by apply Hm.
  - injection Hsem as <- <-. by apply wp_ret, after_bail.
Qed.

(** ** Reading the format *)
Definition format_at s l : Prop := ∃ j : nat, (j ≤ length F)%nat ∧ p s = fmt + Z.of_nat j ∧ l = drop j F.

Lemma format_input m s l : intact m → format_at s l → cstr m (p s) l.
Proof. intros [_ Hf] (j & Hj & -> & ->). by apply cstr_drop. Qed.

Lemma format_next s s' c l : format_at s (c :: l) → p s' = p s + 1 → format_at s' l.
Proof.
  intros (j & Hj & Hp & Hl) Hp'. exists (S j). pose proof (f_equal length Hl) as Hlen. rewrite length_drop in Hlen.
  simpl in Hlen. split; [lia|]. split; [lia|]. change l with (drop 1 (c :: l)). rewrite Hl, drop_drop. f_equal. lia.
Qed.

Lemma run_step n m s c l Q : intact m → format_at s (c :: l) → bail s = bail_none →
  wp (scan_step buffer c (set_p (p s + 1) s)) (λ s' m', wp_run n (vsscanf_round buffer) s' Q m') m →
  wp_run (S n) (vsscanf_round buffer) s Q m.
Proof.
  intros Hi Hf Hb Hw. pose proof (format_input _ _ _ Hi Hf) as Hc. apply cstr_cons in Hc as (Hc & Hnz & _).
  simpl. unfold vsscanf_round at 1. apply wp_bind. eapply wp_loadb; [done|]. cbv zeta.
  change (bail (set_p (p s + 1) s)) with (bail s). rewrite Hb, (proj2 (Z.eqb_neq c 0)) by done.
  apply wp_bind. eapply wp_mono; [exact Hw|]. intros s' m' Hr. by apply wp_ret.
Qed.

(** The machine while it reads the text of a conversion; [s0] is where it came from. *)
Record reading s0 (t : scan_state) (fl w r : Z) l s : Prop := Reading {
  rd_state : state s = t;
  rd_flags : flags s = fl;
  rd_width : width s = w;
  rd_rank : rank s = r;
  rd_format : format_at s l;
  rd_bail : bail s = bail_none;
  rd_same : q s = q s0 ∧ ap s = ap s0 ∧ converted s = converted s0;
}.

Lemma is_digit_10 c : is_digit 10 c = (48 <=? c) && (c <=? 57).
Proof.
  destruct (is_digit 10 c) eqn:Hd.
  - unfold is_digit in *. destruct (digitval_range 10 c) as [[? ?]|[[? ?]|[? ?]]]; [exact Hd|lia|lia|lia].
  - symmetry. apply not_true_is_false. intros Hc. rewrite <- not_true_iff_false in Hd. apply Hd.
    unfold is_digit, digitval. rewrite Hc. lia.
Qed.

(** One character that does not end the conversion. *)
Lemma reading_step n m s0 s t fl w r c l t' fl' w' r' l' Q : intact m → reading s0 t fl w r (c :: l) s →
  wp (scan_step buffer c (set_p (p s + 1) s)) (λ s2 m', m' = m ∧ reading s0 t' fl' w' r' l' s2) m →
  (∀ s2, reading s0 t' fl' w' r' l' s2 → wp_run n (vsscanf_round buffer) s2 Q m) →
  wp_run (S n) (vsscanf_round buffer) s Q m.
Proof.
  intros Hi Hr Hs HQ. eapply run_step; [done|by eapply rd_format|by eapply rd_bail|].
  eapply wp_mono; [exact Hs|]. intros s2 m' [-> H2]. by apply HQ.
Qed.

Ltac reading_case Hr :=
  destruct Hr as [Hst Hfl Hw Hrk Hf Hb Hsame]; unfold scan_step; cbn [state set_p]; rewrite Hst; apply wp_ret; split; [done|].

Lemma step_star m s0 s w r l : reading s0 st_flags 0 w r (42 :: l) s →
  wp (scan_step buffer 42 (set_p (p s + 1) s)) (λ s2 m', m' = m ∧ reading s0 st_flags FL_SPLAT w r l s2) m.
Proof.
  intros Hr. reading_case Hr. split; try done; simpl; [by rewrite Hfl|by eapply format_next].
Qed.

Lemma step_first_digit m s0 s fl w r c l : is_digit 10 c = true → reading s0 st_flags fl w r (c :: l) s →
  wp (scan_step buffer c (set_p (p s + 1) s))
    (λ s2 m', m' = m ∧ reading s0 st_width (Z.lor fl FL_WIDTH) (u32 (value 10 [c])) r l s2) m.
Proof.
  intros Hc Hr. rewrite is_digit_10 in Hc. reading_case Hr. unfold in_flags. rewrite (proj2 (Z.eqb_neq c 42)), Hc by lia.
  split; try done; simpl; [by rewrite Hfl| |by eapply format_next].
  unfold value, digitval. simpl. rewrite Hc. rewrite wrapu_small by lia. done.
Qed.

Lemma step_more m s0 s fl ds r c l : is_digit 10 c = true →
  reading s0 st_width fl (u32 (value 10 ds)) r (c :: l) s →
  wp (scan_step buffer c (set_p (p s + 1) s))
    (λ s2 m', m' = m ∧ reading s0 st_width fl (u32 (value 10 (ds ++ [c]))) r l s2) m.
Proof.
  intros Hc Hr. rewrite is_digit_10 in Hc. reading_case Hr. unfold in_width. rewrite Hc.
  split; try done; simpl; [|by eapply format_next].
  rewrite Hw, value_snoc. unfold digitval. rewrite Hc. unfold wrapu.
  by rewrite <- (Z.add_mod_idemp_l (_ mod _ * 10)), Z.mul_mod_idemp_l, Z.add_mod_idemp_l by done.
Qed.

Lemma step_again m s0 s t fl w r c l : t = st_flags ∧ c ≠ 42 ∨ t = st_width → is_digit 10 c = false →
  reading s0 t fl w r (c :: l) s →
  wp (scan_step buffer c (set_p (p s + 1) s)) (λ s2 m', m' = m ∧ reading s0 st_modifiers fl w r (c :: l) s2) m.
Proof.
  intros Ht Hc Hr. rewrite is_digit_10 in Hc. destruct Ht as [[-> Hn]| ->]; reading_case Hr.
  - unfold in_flags. rewrite (proj2 (Z.eqb_neq c 42)), Hc by done. split; try done. simpl.
    destruct Hf as (j & ? & ? & ?). exists j. simpl. split_and!; (done || lia).
  - unfold in_width. rewrite Hc. split; try done. simpl.
    destruct Hf as (j & ? & ? & ?). exists j. simpl. split_and!; (done || lia).
Qed.

Lemma step_modifier m s0 s fl w r c l : modifier c → reading s0 st_modifiers fl w r (c :: l) s →
  wp (scan_step buffer c (set_p (p s + 1) s))
    (λ s2 m', m' = m ∧ reading s0 st_modifiers fl w (rank_step r c) l s2) m.
Proof.
  intros Hc Hr. destruct Hr as [Hst Hfl Hw Hrk Hf Hb Hsame]. unfold scan_step. cbn [state set_p]. rewrite Hst.
  unfold in_modifiers, rank_step. cbn [rank set_p]. rewrite Hrk.
  assert (∀ r2, reading s0 st_modifiers fl w r2 l (set_rank r2 (set_p (p s + 1) s))) as Hgo.
  { intros r2. split; try done. by eapply format_next. }
  unfold modifier in Hc. rewrite !elem_of_cons in Hc.
  destruct Hc as [-> |[-> |[-> |[-> |[-> |[-> |[-> |Hc]]]]]]]; [| | | | | | |by apply elem_of_nil in Hc];
    apply wp_ret; (split; [done|]); apply Hgo.
Qed.

Lemma run_width n m s0 fl ds1 ds2 r l Q : intact m → Forall (λ c, is_digit 10 c = true) ds2 → ∀ s,
  reading s0 st_width fl (u32 (value 10 ds1)) r (ds2 ++ l) s →
  (∀ s2, reading s0 st_width fl (u32 (value 10 (ds1 ++ ds2))) r l s2 → wp_run n (vsscanf_round buffer) s2 Q m) →
  wp_run (length ds2 + n) (vsscanf_round buffer) s Q m.
Proof.
  intros Hi Hds. revert ds1. induction Hds as [|c ds Hc _ IH]; intros ds1 s Hr HQ.
  - rewrite app_nil_r in HQ. by apply HQ.
  - eapply reading_step; [done|exact Hr|by apply step_more|]. intros s2 H2. apply (IH (ds1 ++ [c])); [done|].
    by rewrite <- app_assoc.
Qed.

Lemma run_modifiers n m s0 fl w l mods Q : intact m → Forall modifier mods → ∀ r s,
  reading s0 st_modifiers fl w r (mods ++ l) s →
  (∀ s2, reading s0 st_modifiers fl w (foldl rank_step r mods) l s2 → wp_run n (vsscanf_round buffer) s2 Q m) →
  wp_run (length mods + n) (vsscanf_round buffer) s Q m.
Proof.
  intros Hi. induction 1 as [|c mods Hc _ IH]; intros r s Hr HQ; [by apply HQ|].
  eapply reading_step; [done|exact Hr|by apply step_modifier|]. intros s2 H2. by apply (IH (rank_step r c)).
Qed.

(** The flags of a conversion, as the machine has them. *)
Definition flags_of (splat : bool) (ds : list Z) : Z :=
  Z.lor (if splat then FL_SPLAT else 0) (if bool_decide (ds = []) then 0 else FL_WIDTH).

Lemma run_flags n m s0 s (splat : bool) ds r c l Q : intact m → Forall (λ c, is_digit 10 c = true) ds →
  is_digit 10 c = false → c ≠ 42 →
  reading s0 st_flags (if splat then FL_SPLAT else 0) UINT_MAX r (ds ++ c :: l) s →
  (∀ s2, reading s0 st_modifiers (flags_of splat ds) (width_of ds) r (c :: l) s2 → wp_run n (vsscanf_round buffer) s2 Q m) →
  wp_run (length ds + S n) (vsscanf_round buffer) s Q m.
Proof.
  intros Hi Hds Hc Hn Hr HQ. unfold flags_of in HQ. destruct Hds as [|d ds Hd Hds].
  - rewrite Z.lor_0_r in HQ. eapply reading_step; [done|exact Hr|eapply step_again; [|done|exact Hr]; by left|]. exact HQ.
  - eapply reading_step; [done|exact Hr|by eapply step_first_digit|]. intros s2 H2.
    apply (run_width (S n) m s0 _ [d] ds r (c :: l) Q Hi Hds s2 H2). intros s3 H3.
    eapply reading_step; [done|exact H3|eapply step_again; [|done|exact H3]; by right|]. exact HQ.
Qed.

Lemma run_conversion_text n m s (splat : bool) ds mods c l Q : intact m → wf_directive (Conversion splat ds mods c) →
  state s = st_normal → bail s = bail_none → format_at s (text (Conversion splat ds mods c) ++ l) →
  (∀ s2, reading s st_modifiers (flags_of splat ds) (width_of ds) (foldl rank_step rank_int mods) (c :: l) s2 →
     wp_run n (vsscanf_round buffer) s2 Q m) →
  wp_run (length (text (Conversion splat ds mods c)) + n) (vsscanf_round buffer) s Q m.
Proof.
  intros Hi (Hds & Hmods & Hc & Hcm & Hn & _ & _) Hst Hb Hf HQ. simpl in Hf |- *. rewrite <- !app_assoc in Hf.
  eapply run_step; [done|exact Hf|done|]. unfold scan_step. cbn [state set_p]. rewrite Hst. apply wp_ret.
  set (s1 := set_width _ _).
  assert (reading s st_flags 0 UINT_MAX rank_int ((if splat then [42] else []) ++ ds ++ mods ++ c :: l) s1) as H1.
  { split; try done. by eapply format_next. }
  assert (∃ x l', mods ++ c :: l = x :: l' ∧ is_digit 10 x = false ∧ x ≠ 42) as (x & l' & Ex & Hx & Hx').
  { destruct Hmods as [|x mods Hx _]; [by eexists _, _|]. eexists x, _. split; [done|].
    unfold modifier in Hx. rewrite !elem_of_cons in Hx.
    destruct Hx as [-> |[-> |[-> |[-> |[-> |[-> |[-> |Hx]]]]]]]; [done..|by apply elem_of_nil in Hx]. }
  rewrite Ex in H1.
  assert (∀ s2, reading s st_flags (if splat then FL_SPLAT else 0) UINT_MAX rank_int (ds ++ x :: l') s2 →
    wp_run (length ds + S (length mods + n)) (vsscanf_round buffer) s2 Q m) as Hgo.
  { intros s2 H2. eapply run_flags; try done. intros s3 H3. rewrite <- Ex in H3.
    by eapply (run_modifiers n m s). }
  rewrite !length_app. destruct splat.
  - apply (wp_run_mono (S (length ds + S (length mods + n)))); [simpl; lia|].
    eapply reading_step; [done|exact H1|by apply step_star|exact Hgo].
  - apply (wp_run_mono (length ds + S (length mods + n))); [simpl; lia|]. by apply Hgo.
Qed.

(** ** The directives *)
Lemma flags_of_has s splat ds : flags s = flags_of splat ds →
  has FL_SPLAT s = splat ∧ has FL_WIDTH s = negb (bool_decide (ds = [])).
Proof. unfold has. intros ->. unfold flags_of. by destruct splat, (bool_decide _). Qed.

Lemma in_modifiers_converts c s : ¬ modifier c →
  in_modifiers buffer c s = convert_scan buffer c (set_rank (clamp (rank s)) (set_state st_normal s)).
Proof.
  unfold modifier. rewrite !not_elem_of_cons. intros (H1 & H2 & H3 & H4 & H5 & H6 & H7 & _).
  unfold in_modifiers. apply Z.eqb_neq in H1, H2, H3, H4, H5, H6, H7. by rewrite H1, H2, H3, H4, H5, H6, H7.
Qed.

Lemma conversion_char_spec m0 st m s0 s splat ds mods c l st' b : at_progress m0 st m s0 →
  ¬ modifier c → c ≠ 91 →
  reading s0 st_modifiers (flags_of splat ds) (width_of ds) (foldl rank_step rank_int mods) (c :: l) s →
  sem (ZL B) (Conversion splat ds mods c) st = Some (st', b) → Forall (store_ok m0) (stores st') →
  wp (scan_step buffer c (set_p (p s + 1) s))
    (λ s' m', at_progress m0 st' m' s' ∧ bail s' = b ∧ state s' = st_normal ∧ format_at s' l) m.
Proof.
  intros Hat Hcm H91 [Hst Hfl Hw Hrk Hf Hb (Hq & Ha & Hcv)] Hsem Hok. unfold scan_step. cbn [state set_p]. rewrite Hst.
  rewrite in_modifiers_converts by done. cbn [rank set_p]. rewrite Hrk. set (s1 := set_rank _ _).
  destruct (flags_of_has s1 splat ds Hfl) as [Hsp Hwd].
  eapply wp_mono; [eapply (convert_scan_spec m0 st m s1 c ds mods); try done|].
  - by eapply at_same.
  - by rewrite Hsp.
  - intros s' m' (H1 & H2 & H3 & H4). split_and!; try done. by eapply format_next.
Qed.

Lemma run_directive n m0 st m s d l st' b Q : at_progress m0 st m s → wf_directive d →
  state s = st_normal → bail s = bail_none → format_at s (text d ++ l) →
  sem (ZL B) d st = Some (st', b) → Forall (store_ok m0) (stores st') →
  (∀ s' m', at_progress m0 st' m' s' → bail s' = b → state s' = st_normal → format_at s' l →
     wp_run n (vsscanf_round buffer) s' Q m') →
  wp_run (S (length (text d)) + n) (vsscanf_round buffer) s Q m.
Proof.
  intros Hat Hwf Hst Hb Hf Hsem Hok HQ. pose proof (at_intact _ _ _ _ Hat) as Hi. destruct d as [c|c|splat ds mods c].
  - apply (wp_run_mono (S n)); [simpl; lia|]. eapply run_step; [done|exact Hf|done|]. unfold scan_step. cbn [state set_p].
    rewrite Hst. unfold in_normal. simpl in Hwf. assert (c ≠ 37) as Hc by (by intros ->).
    rewrite (proj2 (Z.eqb_neq c 37)), Hwf by done. injection Hsem as <- <-.
    apply wp_bind. eapply wp_mono; [apply (skip_spaces_at m0 st m (set_p (p s + 1) s)); by eapply at_same|]. intros q' ? [-> H1]. apply wp_ret.
    apply HQ; try done. by apply (format_next s _ c l).
  - apply (wp_run_mono (S n)); [simpl; lia|]. eapply run_step; [done|exact Hf|done|]. unfold scan_step. cbn [state set_p].
    destruct Hwf as (Hsp & Hc & Hnz). rewrite Hst. unfold in_normal. rewrite (proj2 (Z.eqb_neq c 37)), Hsp by done.
    injection Hsem as Hsem. pose proof (match_char_spec m0 st m (set_p (p s + 1) s) c) as Hm. rewrite Hsem in Hm.
    eapply wp_mono; [apply Hm; try done; by eapply at_same|]. intros s' m' (H1 & H2 & H3 & H4).
    apply HQ; try done; [by rewrite H4|by apply (format_next s _ c l)].
  - apply (wp_run_mono (length (text (Conversion splat ds mods c)) + S n)); [lia|].
    eapply run_conversion_text; try done. destruct Hwf as (_ & _ & _ & Hcm & _ & H91 & _). intros s2 H2.
    eapply run_step; [done|by eapply rd_format|by eapply rd_bail|].
    eapply wp_mono; [by eapply conversion_char_spec|]. intros s' m' (? & ? & ? & ?). by apply HQ.
Qed.

(** What is left of the format when the scan stops early is not read. *)
Lemma run_bail n m s l Q : intact m → format_at s l → bail s ≠ bail_none →
  Q (if bail s is bail_eof then if converted s =? 0 then -1 else converted s else converted s) m →
  wp_run (S n) (vsscanf_round buffer) s Q m.
Proof.
  intros Hi Hf Hb HQ. assert (∃ c, m !! p s = Some c) as [c Hc].
  { pose proof (format_input _ _ _ Hi Hf) as Hc. destruct l; [apply cstr_nil in Hc|apply cstr_cons in Hc as (Hc & _)]; eauto. }
  simpl. unfold vsscanf_round at 1. apply wp_bind. eapply wp_loadb; [done|]. cbn [bail converted set_p].
  destruct (bail s); [done|by apply wp_ret..].
Qed.

(** ** Stores are only added *)
Lemma give_stores counts bs st st' : give counts bs st = Some st' → stores st `prefix_of` stores st'.
Proof. unfold give. destruct (left st); [done|]. intros [= <-]. by apply prefix_app_r. Qed.

Lemma sem_int_stores base r w splat st st' b :
  sem_int base r w splat st = Some (st', b) → stores st `prefix_of` stores st'.
Proof.
  unfold sem_int, sem_number. case_bool_decide; [by intros [= <- _]|]. case_match; [by intros [= <- _]|].
  destruct splat; [by intros [= <- _]|]. intros (st1 & Hg & [= <- _])%bind_Some. by apply give_stores in Hg.
Qed.

Lemma sem_stores start d st st' b : sem start d st = Some (st', b) → stores st `prefix_of` stores st'.
Proof.
  destruct d as [c|c|splat ds mods c]; simpl.
  - by intros [= <- _].
  - unfold sem_char. destruct (rest st); [by intros [= <- _]|]. case_match; by intros [= <- _].
  - repeat (case_match; [by apply sem_int_stores|]). case_match.
    { destruct splat; [by intros [= <- _]|]. intros (st1 & Hg & [= <- _])%bind_Some. by apply give_stores in Hg. }
    case_match.
    { unfold sem_chars. destruct splat; [by intros [= <- _]|].
      case_match; intros (st1 & Hg & [= <- _])%bind_Some; by apply give_stores in Hg. }
    case_match.
    { unfold sem_string. destruct splat; [by intros [= <- _]|]. simpl. destruct (left st); [done|]. case_match; intros [= <- _]; simpl; [done|].
      by apply prefix_app_r. }
    case_match; [|by intros [= <- _]]. unfold sem_char. destruct (rest st); [by intros [= <- _]|]. case_match; by intros [= <- _].
Qed.

Lemma sem_all_stores start ds st st' r : sem_all start ds st = Some (st', r) → stores st `prefix_of` stores st'.
Proof.
  revert st. induction ds as [|d ds IH]; intros st; simpl; [by intros [= <- _]|].
  intros ([st1 b] & Hs & Hr)%bind_Some. apply sem_stores in Hs. etrans; [exact Hs|].
  destruct b; [by apply IH|by injection Hr as <- _..].
Qed.

Definition rounds (ds : list directive) : nat := S (sum_list_with (λ d, S (length (text d))) ds).

Lemma rounds_le ds : Forall wf_directive ds → (rounds ds ≤ 2 * length (concat (map text ds)) + 1)%nat.
Proof.
  clear. unfold rounds. induction 1 as [|d ds _ _ IH]; simpl; [lia|]. rewrite length_app.
  assert (0 < length (text d))%nat by (destruct d; simpl; lia). lia.
Qed.

Lemma run_format m0 ds : Forall wf_directive ds → ∀ st m s st' r, at_progress m0 st m s →
  state s = st_normal → bail s = bail_none → format_at s (concat (map text ds)) →
  sem_all (ZL B) ds st = Some (st', r) → Forall (store_ok m0) (stores st') →
  wp_run (rounds ds) (vsscanf_round buffer) s (λ v m', v = r ∧ m' = apply_stores m0 (stores st')) m.
Proof.
  induction 1 as [|d ds Hwf _ IH]; intros st m s st' r Hat Hst Hb Hf Hsem Hok.
  - injection Hsem as <- <-. simpl in Hf. pose proof (format_input _ _ _ (at_intact _ _ _ _ Hat) Hf) as Hc.
    apply cstr_nil in Hc. simpl. unfold vsscanf_round at 1. apply wp_bind. eapply wp_loadb; [done|].
    cbn [bail converted set_p]. rewrite Hb. apply wp_ret. split; [by eapply at_count|by eapply at_mem].
  - simpl in Hsem. apply bind_Some in Hsem as ([st1 b] & Hs & Hr).
    assert (Forall (store_ok m0) (stores st1)) as Hok1.
    { assert (stores st1 `prefix_of` stores st') as [more Hmore]; [|rewrite Hmore in Hok; by apply Forall_app in Hok as [? _]].
      destruct b; [by eapply sem_all_stores|by injection Hr as <- _..]. }
    apply (wp_run_mono (S (length (text d)) + rounds ds)); [unfold rounds; simpl; lia|].
    eapply (run_directive _ m0 st m s d); [done|done|done|done|exact Hf|exact Hs|exact Hok1|]. intros s1 m1 Hat1 Hb1 Hst1 Hf1.
    destruct b; [by eapply IH|injection Hr as <- <-..]; (eapply run_bail;
      [by eapply at_intact|exact Hf1|by rewrite Hb1|rewrite Hb1, (at_count _ _ _ _ Hat1); split; [done|by eapply at_mem]]).
Qed.
End Conversions.

(** C34 The state machine of vsscanf refines the reference semantics of formats.  For every
    format made of white space, literal characters and conversions - with a suppression star,
    a width and length modifiers each - on every input, the call returns, its answer is the
    number of conversions that the reference counts, or -1 when the input ends before the
    first, and the memory afterwards differs by exactly the stores of the reference: each
    conversion's value, as wide as its length modifiers ask for, through the next argument. *)
Theorem vsscanf_refines m buffer fmt B ds args st r garbage :
  cstr m buffer B → cstr m fmt (concat (map text ds)) → Forall is_byte B → ZL B < 2 ^ 32 →
  ZL (concat (map text ds)) < 2 ^ 32 → Forall wf_directive ds →
  sem_all (ZL B) ds (Progress B args 0 []) = Some (st, r) →
  Forall (store_ok buffer fmt B (concat (map text ds)) m) (stores st) →
  wp (sscanf garbage buffer fmt args) (λ v m', v = r ∧ m' = apply_stores m (stores st)) m.
Proof.
  intros HB HF Hby Hl HlF Hwf Hsem Hok. unfold sscanf, vsscanf.
  apply (wp_loop_run (rounds ds)); [pose proof (rounds_le _ Hwf); lia|].
  eapply (run_format buffer fmt B (concat (map text ds)) Hl Hby m ds Hwf); [..|exact Hsem|exact Hok]; try done.
  - split; try done. exists 0%nat. split; [lia|]. simpl. split; [lia|done].
  - exists 0%nat. simpl. split_and!; [lia|lia|done].
Qed.

(** * Examples *)

(** The input [12 abc] at 256, the format [%3d %2s] at 263, and room for the results. *)
Definition scan_mem : mem :=
  mem_at ([49; 50; 32; 97; 98; 99; 0] ++ [37; 51; 100; 32; 37; 50; 115; 0] ++ replicate 8 1).
Definition d_s : list directive := [Conversion false [51] [] 100; Space 32; Conversion false [50] [] 115].

Lemma vsscanf_refines_witness :
  wp (sscanf [] 256 263 [271; 275])
    (λ v m', v = 2 ∧ m' = mem_write (mem_write scan_mem 271 [12; 0; 0; 0]) 275 [97; 98; 0]) scan_mem.
Proof.
  apply (vsscanf_refines scan_mem 256 263 [49; 50; 32; 97; 98; 99] d_s [271; 275]
    (Progress [99] [] 2 [(271, [12; 0; 0; 0]); (275, [97; 98; 0])]) 2 []).
  - cstr_ok.
  - cstr_ok.
  - bytes_ok.
  - done.
  - done.
  - repeat constructor; try done; unfold modifier; rewrite !not_elem_of_cons; split_and!; try done; apply not_elem_of_nil.
  - by vm_compute.
  - repeat (apply Forall_cons; split; [split; [apply mem_at_mapped; simpl; lia|simpl; lia]|]). by apply Forall_nil.
Defined.

(** A scan set loses the rest of the format: after [%[a]] the machine stays among the
    characters of a set, so the [x] of the format is not compared with the input [y], and the
    call answers 1 all the same. *)
Example set_swallows_format :
  wp (sscanf [] 256 259 [265]) (λ v _, v = 1) (mem_at ([97; 121; 0] ++ [37; 91; 97; 93; 120; 0] ++ replicate 4 1)).
Proof. by vm_compute. Qed.
