(* ===== verification/Scheme.v ===== *)
(** The scheme kernel (sw/kernels/scheme): the matcher of regex.c against a declarative
    semantics of its patterns, and the line reader of scheme.c over the UART driver. *)
From stdpp Require Import base list gmap fin_maps.
From Stdlib Require Import ZArith Lia.
From S2P Require Import Prelude Memory LibcMem LibcStr ConsProd Csr Uart Stdio Printf PrintApi.

#[local] Open Scope Z_scope.

(** * regex.c *)
Module Regex.
Definition matchstar (matchhere : Z → Z → M mem Z) (c regexp text : Z) : M mem Z :=
  loop (λ text,
    r ← matchhere regexp text;
    if negb (r =? 0) then mret (inr 1)
    else
      t ← loadb text;
      mret (if negb (t =? 0) && ((t =? c) || (c =? 46)) then inl (text + 1) else inr 0)) text.

(** [n] bounds the depth of the recursion. *)
Fixpoint matchhere (n : nat) (regexp text : Z) : M mem Z :=
  match n with
  | O => spin
  | S n =>
      r0 ← loadb regexp;
      if r0 =? 0 then mret 1
      else
        r1 ← loadb (regexp + 1);
        if r1 =? 42 then matchstar (matchhere n) r0 (regexp + 2) text
        else if (r0 =? 36) && (r1 =? 0) then
          t ← loadb text; mret (Z.b2z (t =? 0))
        else
          t ← loadb text;
          if negb (t =? 0) && ((r0 =? 46) || (r0 =? t)) then matchhere n (regexp + 1) (text + 1)
          else mret 0
  end.

Definition match_ (n : nat) (regexp text : Z) : M mem Z :=
  r0 ← loadb regexp;
  if r0 =? 94 then matchhere n (regexp + 1) text
  else
    loop (λ text,
      r ← matchhere n regexp text;
      if negb (r =? 0) then mret (inr 1)
      else t ← loadb text; mret (if negb (t =? 0) then inl (text + 1) else inr 0)) text.

(** ** The patterns and what they match *)

(** One character or any number of them; the full stop stands for every character. *)
Inductive atom : Type := One (c : Z) | Many (c : Z).

(** The atoms of a pattern, and whether a dollar sign ends it. *)
Fixpoint parse (l : list Z) : list atom * bool :=
  match l with
  | [] => ([], false)
  | c :: l1 =>
      match l1 with
      | [] => if c =? 36 then ([], true) else ([One c], false)
      | d :: l2 =>
          if d =? 42 then let '(p, e) := parse l2 in (Many c :: p, e)
          else let '(p, e) := parse l1 in (One c :: p, e)
      end
  end.

Definition fits (c x : Z) : bool := (c =? 46) || (c =? x).

(** The strings a sequence of atoms stands for. *)
Inductive language : list atom → list Z → Prop :=
  | lang_nil : language [] []
  | lang_one c x p l : fits c x = true → language p l → language (One c :: p) (x :: l)
  | lang_many c xs p l : Forall (λ x, fits c x = true) xs → language p l → language (Many c :: p) (xs ++ l).

(** A pattern is found in [text]: a part of the text is in its language, the first part
    after a circumflex, the last part before a dollar sign. *)
Definition found (pat text : list Z) : Prop :=
  let anchored := bool_decide (head pat = Some 94) in
  let '(p, ends) := parse (if anchored then tail pat else pat) in
  ∃ pre mid post, text = pre ++ mid ++ post ∧ language p mid ∧
    (anchored = true → pre = []) ∧ (ends = true → post = []).

(** ** A decision procedure *)
(** Try [k] here, and past each character that may be skipped. *)
Fixpoint search (skip : Z → bool) (k : list Z → bool) (t : list Z) : bool :=
  k t || match t with x :: t => skip x && search skip k t | [] => false end.

Fixpoint here (p : list atom) (ends : bool) (t : list Z) : bool :=
  match p with
  | [] => if ends then bool_decide (t = []) else true
  | One c :: p => match t with x :: t => fits c x && here p ends t | [] => false end
  | Many c :: p => search (fits c) (here p ends) t
  end.

Lemma search_true skip k t : search skip k t = true ↔
  ∃ xs rest, t = xs ++ rest ∧ Forall (λ x, skip x = true) xs ∧ k rest = true.
Proof.
  induction t as [|x t IH]; simpl.
  - rewrite orb_false_r. split.
    + intros Hk. by exists [], [].
    + intros (xs & rest & E & _ & Hk). symmetry in E. apply app_nil in E as [-> ->]. done.
  - rewrite orb_true_iff, andb_true_iff, IH. split.
    + intros [Hk|(Hx & xs & rest & -> & Hxs & Hk)]; [by exists [], (x :: t)|].
      exists (x :: xs), rest. split; [done|]. by split; [constructor|].
    + intros ([|y xs] & rest & E & Hxs & Hk); simpl in E; [subst rest; by left|]. injection E as <- ->.
      apply Forall_cons in Hxs as [Hx Hxs]. right. split; [done|]. by exists xs, rest.
Qed.

Lemma here_true p ends t : here p ends t = true ↔
  ∃ mid post, t = mid ++ post ∧ language p mid ∧ (ends = true → post = []).
Proof.
  revert t. induction p as [|[c|c] p IH]; intros t; simpl.
  - split.
    + intros Ht. exists [], t. split; [done|]. split; [constructor|]. intros ->. by apply bool_decide_eq_true in Ht.
    + intros (mid & post & -> & Hl & He). inversion Hl; subst. destruct ends; [|done]. by rewrite He.
  - destruct t as [|x t].
    { split; [done|]. intros (mid & post & E & Hl & _). inversion Hl; subst. done. }
    rewrite andb_true_iff, IH. split.
    + intros (Hx & mid & post & -> & Hl & He). exists (x :: mid), post. split; [done|]. by split; [constructor|].
    + intros (mid & post & E & Hl & He). inversion Hl; subst. injection E as <- ->. split; [done|]. by eexists _, _.
  - rewrite search_true. split.
    + intros (xs & rest & -> & Hxs & (mid & post & -> & Hl & He)%IH). exists (xs ++ mid), post.
      split; [by rewrite app_assoc|]. by split; [constructor|].
    + intros (mid & post & -> & Hl & He). inversion Hl as [| |c' xs p' l Hxs Hl']; subst. exists xs, (l ++ post).
      split; [by rewrite app_assoc|]. split; [done|]. apply IH. by eexists _, _.
Qed.

(** ** The code computes the decision procedure *)
Section Correct.
Implicit Types (m : mem) (P T l : list Z).

Lemma cstr_head m a l : cstr m a l → m !! a = Some (default 0 (head l)).
Proof. destruct l; [by rewrite cstr_nil|]. by intros (H & _ & _)%cstr_cons. Qed.

Lemma head_zero m a l : cstr m a l → (default 0 (head l) =? 0) = bool_decide (l = []).
Proof.
  destruct l; [done|]. intros (_ & Hn & _)%cstr_cons. simpl. by apply Z.eqb_neq.
Qed.

(** A loop over the suffixes of a string. *)
Lemma wp_suffix_loop (skip : Z → bool) (k : list Z → bool) body m t T :
  cstr m t T → ZL T < 2 ^ 32 →
  (∀ t T, cstr m t T → ZL T < 2 ^ 32 → wp (body t) (λ r m', m' = m ∧
     r = if k T then inr 1 else match T with x :: _ => if skip x then inl (t + 1) else inr 0 | [] => inr 0 end) m) →
  wp (loop body t) (λ v m', m' = m ∧ v = Z.b2z (search skip k T)) m.
Proof.
  intros Ht HT Hbody. set (R := search skip k T). apply wp_loop_ix with (n := ZL T)
    (I := λ n t m', m' = m ∧ ∃ T' : list Z, cstr m t T' ∧ search skip k T' = R ∧ n = ZL T' ∧ ZL T' < 2 ^ 32);
    [by split; [|exists T]|lia|].
  intros n t' m' (-> & T' & Ht' & HR & -> & Hl). split; [lia|].
  eapply wp_mono; [by apply (Hbody t' T' Ht')|]. intros r ? [-> ->]. destruct T' as [|x T']; simpl in HR.
  - rewrite orb_false_r in HR. rewrite <- HR. by destruct (k []).
  - destruct (k (x :: T')); [by rewrite <- HR|]. destruct (skip x); [|by rewrite <- HR]. apply cstr_cons in Ht' as (_ & _ & Ht').
    exists (ZL T'). simpl in *. split; [lia|]. split; [done|]. exists T'. simpl in HR. split_and!; (done || lia).
Qed.

(** What a call of matchhere owes to the pattern at [r] and the text at [t]. *)
Definition decides m (code : M mem Z) (P T : list Z) : Prop :=
  wp code (λ v m', m' = m ∧ v = Z.b2z (here (parse P).1 (parse P).2 T)) m.

Lemma one_char_spec m (rec : Z → M mem Z) c p ends t T : cstr m t T →
  (∀ x T', T = x :: T' → wp (rec (t + 1)) (λ v m', m' = m ∧ v = Z.b2z (here p ends T')) m) →
  wp (x ← loadb t; if negb (x =? 0) && ((c =? 46) || (c =? x)) then rec (t + 1) else mret 0)
    (λ v m', m' = m ∧ v = Z.b2z (here (One c :: p) ends T)) m.
Proof.
  intros HT Hrec. apply wp_bind. eapply wp_loadb; [by apply cstr_head|]. rewrite (head_zero _ _ _ HT).
  destruct T as [|x T]; [by apply wp_ret|]. simpl. fold (fits c x). destruct (fits c x); [by eapply Hrec|by apply wp_ret].
Qed.

Lemma matchstar_spec m n c r t P T : (∀ t T, cstr m t T → ZL T < 2 ^ 32 → decides m (matchhere n r t) P T) →
  cstr m t T → ZL T < 2 ^ 32 →
  wp (matchstar (matchhere n) c r t)
    (λ v m', m' = m ∧ v = Z.b2z (here (Many c :: (parse P).1) (parse P).2 T)) m.
Proof.
  intros Hrec HT Hl. apply (wp_suffix_loop (fits c) (here (parse P).1 (parse P).2)); [done..|]. clear t T HT Hl. intros t T HT Hl.
  apply wp_bind. eapply wp_mono; [by apply Hrec|]. intros v ? [-> ->].
  destruct (here _ _ T); [by apply wp_ret|]. simpl. apply wp_bind. eapply wp_loadb; [by apply cstr_head|]. apply wp_ret.
  rewrite (head_zero _ _ _ HT). destruct T as [|x T]; [done|]. simpl. unfold fits.
  by rewrite orb_comm, (Z.eqb_sym x c).
Qed.

Lemma matchhere_spec n m r t P T : (length P < n)%nat → cstr m r P → cstr m t T → ZL T < 2 ^ 32 →
  decides m (matchhere n r t) P T.
Proof.
  revert r t P T. induction n as [|n IH]; intros r t P T Hn HP HT Hl; [lia|]. unfold decides. simpl.
  apply wp_bind. eapply wp_loadb; [by apply cstr_head|]. rewrite (head_zero _ _ _ HP).
  destruct P as [|c P]; [by apply wp_ret|]. rewrite bool_decide_eq_false_2 by done. change (default 0 (head (c :: P))) with c.
  apply cstr_cons in HP as (_ & Hc & HP). apply wp_bind. eapply wp_loadb; [by apply cstr_head|]. simpl in Hn.
  assert (wp (x ← loadb t; if negb (x =? 0) && ((c =? 46) || (c =? x)) then matchhere n (r + 1) (t + 1) else mret 0)
    (λ v m', m' = m ∧ v = Z.b2z (here (One c :: (parse P).1) (parse P).2 T)) m) as Hone.
  { apply (one_char_spec m (matchhere n (r + 1))); [done|]. intros x T' ->. simpl in Hl. apply cstr_cons in HT as (_ & _ & HT).
    apply IH; (done || lia). }
  simpl parse. destruct P as [|d P].
  - change (default 0 (head [])) with 0. rewrite andb_true_r. destruct (c =? 36); [|exact Hone].
    apply wp_bind. eapply wp_loadb; [by apply cstr_head|]. rewrite (head_zero _ _ _ HT). by apply wp_ret.
  - pose proof HP as (_ & Hd & HP')%cstr_cons. change (default 0 (head (d :: P))) with d. destruct (d =? 42).
    + replace (r + 1 + 1) with (r + 2) in HP' by lia. assert (length P < n)%nat as HnP by (simpl in Hn; lia).
      pose proof (matchstar_spec m n c (r + 2) t P T (λ t T, IH (r + 2) t P T HnP HP') HT Hl) as Hstar.
      by destruct (parse P).
    + rewrite (proj2 (Z.eqb_neq d 0)), andb_false_r by done. by destruct (parse (d :: P)).
Qed.
End Correct.

(** C35 The matcher of regex.c is right and ends.  With a recursion as deep as the pattern is
    long, match answers 1 when a part of the text is in the language of the pattern - at the
    start of the text for a pattern that begins with a circumflex, at its end for one that
    ends in a dollar sign - and 0 otherwise, on all patterns and texts, and changes nothing. *)
Theorem match_correct m regexp text P T n :
  cstr m regexp P → cstr m text T → ZL T < 2 ^ 32 → (length P < n)%nat →
  ∃ v, match_ n regexp text m = Ret (v, m) ∧ (v = 1 ∧ found P T ∨ v = 0 ∧ ¬ found P T).
Proof.
  intros HP HT Hl Hn.
  assert (wp (match_ n regexp text) (λ v m', m' = m ∧ ∃ b : bool, v = Z.b2z b ∧ (b = true ↔ found P T)) m) as Hw.
  { unfold match_, found. apply wp_bind. eapply wp_loadb; [by apply cstr_head|].
    destruct (Z.eqb_spec (default 0 (head P)) 94) as [E|E].
    - destruct P as [|c P]; [done|]. simpl in E. subst c. rewrite bool_decide_eq_true_2 by done. simpl.
      apply cstr_cons in HP as (_ & _ & HP). simpl in Hn. eapply wp_mono; [apply matchhere_spec; [|done..]; lia|].
      intros v ? [-> ->]. split; [done|]. eexists. split; [done|]. rewrite here_true. destruct (parse P) as [p e]. simpl.
      split.
      + intros (mid & post & -> & Hm & He). by exists [], mid, post.
      + intros (pre & mid & post & -> & Hm & Ha & He). rewrite Ha by done. by exists mid, post.
    - rewrite bool_decide_eq_false_2 by (destruct P; naive_solver).
      eapply wp_mono; [apply (wp_suffix_loop (λ _, true) (here (parse P).1 (parse P).2)); [done..|]|].
      + clear text T HT Hl. intros t T HT Hl. apply wp_bind. eapply wp_mono; [by apply matchhere_spec|].
        intros v ? [-> ->]. destruct (here _ _ T); [by apply wp_ret|]. simpl. apply wp_bind.
        eapply wp_loadb; [by apply cstr_head|]. apply wp_ret. rewrite (head_zero _ _ _ HT). by destruct T.
      + intros v ? [-> ->]. split; [done|]. eexists. split; [done|]. rewrite search_true. destruct (parse P) as [p e]. simpl.
        setoid_rewrite here_true. split.
        * intros (pre & rest & -> & _ & mid & post & -> & Hm & He). by exists pre, mid, post.
        * intros (pre & mid & post & -> & Hm & _ & He). exists pre, (mid ++ post). split; [done|].
          split; [by apply Forall_true|]. by exists mid, post. }
  apply wp_inv in Hw as (v & m' & Hv & -> & b & -> & Hb). exists (Z.b2z b). split; [done|].
  destruct b; [left|right]; (split; [done|]); [by apply Hb|]. intros Hf. by apply Hb in Hf.
Qed.

(** The pattern [b*c$] at 256 in the text [abbc] at 261. *)
Lemma match_correct_witness :
  ∃ v, match_ 5 256 261 (mem_at ([98; 42; 99; 36; 0] ++ [97; 98; 98; 99; 0])) =
      Ret (v, mem_at ([98; 42; 99; 36; 0] ++ [97; 98; 98; 99; 0])) ∧
    (v = 1 ∧ found [98; 42; 99; 36] [97; 98; 98; 99] ∨ v = 0 ∧ ¬ found [98; 42; 99; 36] [97; 98; 98; 99]).
Proof.
  apply (match_correct (mem_at ([98; 42; 99; 36; 0] ++ [97; 98; 98; 99; 0])) 256 261 [98; 42; 99; 36] [97; 98; 98; 99] 5);
    [cstr_ok|cstr_ok|done|simpl; lia].
Defined.

Example finds : match_ 5 256 261 (mem_at ([98; 42; 99; 36; 0] ++ [97; 98; 98; 99; 0])) =
  Ret (1, mem_at ([98; 42; 99; 36; 0] ++ [97; 98; 98; 99; 0])).
Proof. by vm_compute. Qed.
End Regex.

(** * scheme.c *)
Definition LINE_MAX : Z := 128.

(** [irqs] are the interrupts that arrive while the read waits. *)
Definition read_string (irqs : list (irq uart)) (buf buf_len : Z) : M uart (Z * list (irq uart)) :=
  let n := u32 (buf_len - 1) in
  '(i, irqs) ← loop (λ '(i, irqs),
    if i <? n then
      got ← uart0_blocking_read irqs (buf + i) 1;
      c ← in_umem (loadb (buf + i));
      mret (if c =? 10 then inr (i, got.2) else inl (i + 1, got.2))
    else mret (inr (i, irqs))) (0, irqs);
  in_umem (storeb (buf + i) 0);;
  mret (i, irqs).

(** One round of main: a line is read and printed; [fmt] is where the string of the printf
    call is. *)
Definition main_round (ch_loc bf_loc : Z) (garbage : param) (buf fmt : Z) : M (uart * list (irq uart)) Z :=
  i ← on_console (λ irqs, read_string irqs buf LINE_MAX);
  printf ch_loc bf_loc garbage fmt [buf];;
  mret (u8 i).

(** The first [n] rounds of the endless loop of main. *)
Fixpoint main_rounds (n : nat) (ch_loc bf_loc : Z) (garbage : param) (buf fmt : Z) :
    M (uart * list (irq uart)) (list Z) :=
  match n with
  | O => mret []
  | S n =>
      i ← main_round ch_loc bf_loc garbage buf fmt;
      ns ← main_rounds n ch_loc bf_loc garbage buf fmt;
      mret (i :: ns)
  end.

(** ** The line reader *)
Section Read.
Context (stack buf : Z) (cp : consprod_t).
Implicit Types (u : uart) (q l : list Z) (ds : list (list Z)).

(** What the receive interrupts leave alone: the transmit ring and the caller's buffer. *)
Definition apart (len : Z) u : Prop := g_uart0_tx_cp u = cp ∧ mapped (u_mem u) buf len.

Lemma apart_stable len : 0x3000 ≤ buf → rx_stable (apart len).
Proof.
  intros Hb u u' [Hcp Hm] Ecp Hdom. split; [congruence|]. intros a Ha. apply Hdom; [by apply Hm|lia].
Qed.

(** The driver between two bytes: [q] is received and unread, the interrupts to come bring [ds]. *)
Definition reading (len : Z) q ds (irqs : list (irq uart)) u : Prop :=
  irqs = map (rx_irq stack) ds ∧ Forall (λ d, ZL d ≤ 255 ∧ Forall is_byte d) ds ∧
  holds (H := rx_ring) rx_area (λ u, listening u ∧ apart len u) q u.

Lemma apart_ring len r u : listening u ∧ apart len u →
  (∀ a, is_Some (mem_of (H := rx_ring) u !! a) → is_Some (r_mem r !! a)) →
  listening (with_ring (HasRing := rx_ring) r u) ∧ apart len (with_ring (HasRing := rx_ring) r u).
Proof.
  intros (Hl & Hcp & Hm) Hd. split; [by apply listening_ring|]. split; [done|]. intros a Ha. by apply Hd, Hm.
Qed.

(** One byte. *)
Lemma read_byte len q ds irqs u i c s : 0x3000 ≤ buf → 0 ≤ i < len →
  reading len q ds irqs u → q ++ concat ds = c :: s →
  wp (uart0_blocking_read irqs (buf + i) 1) (λ got u', ∃ q' ds',
    reading len q' ds' got.2 u' ∧ q' ++ concat ds' = s ∧ u_mem u' !! (buf + i) = Some c ∧
    ∀ a, 0x2000 ≤ a < buf + i → u_mem u' !! a = u_mem u !! a) u.
Proof.
  intros Hb Hi (-> & Hds & Hh) Hs.
  pose proof (rx_irqs_deliver stack (apart len) 0x2000 (buf + len) ds Hds ltac:(lia) (apart_stable len Hb)) as HF.
  eapply wp_mono.
  { apply (consume_wait_spec (H := rx_ring) rx_area _ 0x2000 (buf + len) (apart_ring len) _ _ ds q (buf + i) 1 u HF).
    - done.
    - done.
    - split; [|split; [|lia]].
      + intros a Ha. destruct Hh as ((_ & _ & Hm) & _ & _). apply Hm. lia.
      + intros a Ha Hin. change (0x1000 ≤ a < 0x2000) in Hin. lia.
    - rewrite Hs. simpl. lia. }
  intros [r irqs'] u' (q' & ds' & (_ & n & -> & ->) & Hh' & Ha & Hd & Hk & _). rewrite Hs in Ha, Hd. simpl in Ha, Hd.
  exists q', (drop n ds). split; [|split; [done|split; [apply Ha|exact Hk]]].
  split; [by rewrite <- skipn_map|]. split; [by apply Forall_drop|done].
Qed.

(** How much of the stream [s] a call takes: to the end of the line, at most [n] bytes. *)
Definition line_length (s : list Z) : nat := span_len (λ c, negb (c =? 10)) s.

Lemma set_mem_id u : set_mem (u_mem u) u = u.
Proof. by destruct u. Qed.

Lemma reading_store len q ds irqs u i b : 0x3000 ≤ buf → 0 ≤ i < len → reading len q ds irqs u →
  reading len q ds irqs (set_mem (<[buf + i := b]> (u_mem u)) u).
Proof.
  intros Hb Hi (Hir & Hds & ((Hon & Hl & Hm) & Hcp & Hm') & Hq & Hsb). split; [done|split; [done|]]. split; [|split; [|done]].
  - split; [split; [done|split; [done|]]|split; [done|]]; by apply mapped_insert.
  - eapply queue_frame; [exact Hq|]. intros a Ha%(in_rx_area _ _ Hsb). apply lookup_insert_ne. lia.
Qed.

Lemma line_length_at (s : list Z) (i : nat) c : (i ≤ line_length s)%nat → s !! i = Some c →
  if c =? 10 then line_length s = i else (i < line_length s)%nat.
Proof.
  unfold line_length. intros Hi Hc. destruct (decide (i = span_len (λ c, negb (c =? 10)%Z) s)) as [->|Hne].
  - apply span_len_stop in Hc. apply negb_false_iff in Hc. by rewrite Hc.
  - assert (i < span_len (λ c, negb (c =? 10)%Z) s)%nat as Hlt by lia. eapply span_len_take in Hc; [|done].
    apply negb_true_iff in Hc. by rewrite Hc.
Qed.

(** The state of the loop of read_string after [i] bytes of the stream [s]. *)
Definition line_read len u (s : list Z) (i j : Z) (irqs' : list (irq uart)) u' : Prop := ∃ q' ds',
  reading len q' ds' irqs' u' ∧ q' ++ concat ds' = drop (Z.to_nat j) s ∧
  arr (u_mem u') buf (take (Z.to_nat i) s) ∧ ∀ a, 0x2000 ≤ a < buf → u_mem u' !! a = u_mem u !! a.

Lemma line_read_byte len u s i irqs c u1 : 0x3000 ≤ buf → 0 ≤ i < len → line_read len u s i i irqs u1 →
  s !! Z.to_nat i = Some c →
  wp (uart0_blocking_read irqs (buf + i) 1) (λ got u2,
    u_mem u2 !! (buf + i) = Some c ∧ line_read len u s (i + 1) (i + 1) got.2 u2 ∧
    line_read len u s i (i + 1) got.2 u2) u1.
Proof.
  intros Hb Hi (q' & ds' & Hr' & Hs' & Ha & Hf) Hc. rewrite (drop_S _ _ _ Hc) in Hs'.
  eapply wp_mono; [by apply (read_byte len q' ds' irqs u1 i c _ Hb Hi Hr' Hs')|].
  intros got u2 (q2 & ds2 & Hr2 & Hs2 & Hc2 & Hf2). split; [done|]. pose proof (lookup_lt_Some _ _ _ Hc) as Hlt.
  assert (arr (u_mem u2) buf (take (Z.to_nat i) s)) as Ha2.
  { rewrite arr_lookup in Ha |- *. intros j b Hj. pose proof (lookup_lt_Some _ _ _ Hj) as Hjl.
    rewrite length_take in Hjl. rewrite Hf2 by lia. by apply Ha. }
  replace (Z.to_nat (i + 1)) with (S (Z.to_nat i)) by lia.
  split; exists q2, ds2; replace (Z.to_nat (i + 1)) with (S (Z.to_nat i)) by lia; split_and!; try done.
  - rewrite (take_S_r _ _ _ Hc), arr_app. split; [done|]. rewrite length_take_le by lia. split; [|done].
    by rewrite Z2Nat.id by lia.
  - intros a Hx. rewrite Hf2 by lia. by apply Hf.
  - intros a Hx. rewrite Hf2 by lia. by apply Hf.
Qed.

Lemma read_string_spec len q ds irqs u (s := q ++ concat ds) (n := len - 1) (k := Z.of_nat (line_length s)) :
  0x3000 ≤ buf → 1 ≤ len ≤ 2 ^ 31 → reading len q ds irqs u → Z.min (k + 1) n ≤ ZL s →
  wp (read_string irqs buf len) (λ '(i, irqs') u', i = Z.min k n ∧ ∃ q' ds',
    reading len q' ds' irqs' u' ∧ q' ++ concat ds' = drop (Z.to_nat (Z.min (k + 1) n)) s ∧
    arr (u_mem u') buf (take (Z.to_nat i) s ++ [0]) ∧
    ∀ a, 0x2000 ≤ a < buf → u_mem u' !! a = u_mem u !! a) u.
Proof.
  intros Hb Hlen Hr Hk. unfold read_string. fold n. rewrite wrapu_small by lia. apply wp_bind.
  eapply (wp_mono _ (λ '(i, irqs') u', i = Z.min k n ∧ line_read len u s i (Z.min (k + 1) n) irqs' u')).
  - apply wp_loop with (f := λ '(i, _) _, n - i)
      (I := λ '(i, irqs') u', 0 ≤ i ≤ Z.min k n ∧ line_read len u s i i irqs' u'); [|lia|].
    { split; [lia|]. exists q, ds. split_and!; done. }
    intros [i irqs'] u' [Hi Hl]. split; [lia|]. destruct (Z.ltb_spec i n) as [Hlt|Hge].
    + destruct (lookup_lt_is_Some_2 s (Z.to_nat i) ltac:(lia)) as [c Hc].
      apply wp_bind. eapply wp_mono; [by apply (line_read_byte len u s i irqs' c u'); [|lia|..]|].
      intros got u2 (Hc2 & Hl2 & Hl2'). apply wp_bind, wp_zoom. eapply wp_loadb; [done|]. rewrite set_mem_id. apply wp_ret.
      pose proof (line_length_at s (Z.to_nat i) c ltac:(lia) Hc) as Hat. destruct (c =? 10).
      * split; [lia|]. by replace (Z.min (k + 1) n) with (i + 1) by lia.
      * split; [|lia]. split; [lia|done].
    + apply wp_ret. split; [lia|]. by replace (Z.min (k + 1) n) with i by lia.
  - intros [i irqs'] u' (-> & q' & ds' & Hr' & Hs' & Ha & Hf). set (i := Z.min k n) in *.
    assert (0 ≤ i < len) as Hi by lia. pose proof Hr' as (_ & _ & (_ & _ & Hm) & _ & _).
    apply wp_bind, wp_zoom, wp_storeb; [apply Hm; lia|]. apply wp_ret. split; [done|]. exists q', ds'.
    assert (length (take (Z.to_nat i) s) = Z.to_nat i) as Hti by (apply length_take_le; lia). simpl u_mem. split_and!.
    + by apply reading_store.
    + done.
    + apply arr_app. split; [|split; [|done]].
      * rewrite arr_lookup in Ha |- *. intros j b Hj. rewrite lookup_insert_ne; [by apply Ha|].
        apply lookup_lt_Some in Hj. lia.
      * rewrite Hti, Z2Nat.id by lia. apply lookup_insert_eq.
    + intros a Hx. rewrite lookup_insert_ne by lia. by apply Hf.
Qed.
End Read.

(** ** The read-print loop *)
Section Repl.
Context (stack buf ch_loc bf_loc fmt : Z) (garbage : param).
Implicit Types (u : uart) (q qtx line : list Z) (ds : list (list Z)).

Definition percent_s : list Z := [37; 115; 10].

(** The state between two rounds: [q] is received and unread, [ds] still to come, [qtx] waits
    for transmission; the frames of printf and its format lie below the buffer of main. *)
Record repl qtx q ds (t : uart * list (irq uart)) : Prop := Repl {
  repl_console : console_ready ch_loc bf_loc t.1 qtx [(fmt, percent_s)];
  repl_reading : reading stack buf (g_uart0_tx_cp t.1) LINE_MAX q ds t.2 t.1;
  repl_above : 0x3000 ≤ buf;
  repl_below : ∀ x, local_bytes ch_loc bf_loc x ∨ fmt ≤ x ≤ fmt + ZL percent_s → 0x2000 ≤ x < buf;
}.

Lemma repl_bytes qtx q ds t : repl qtx q ds t → Forall is_byte (q ++ concat ds).
Proof.
  intros [_ (_ & Hds & _ & Hq & _) _ _]. apply Forall_app. split; [apply Hq|].
  induction Hds as [|d ds [_ Hd] _ IH]; [constructor|]. by apply Forall_app.
Qed.

(** The console is still ready after a read, and its texts then include the line. *)
Lemma console_after_read qtx q ds t u' q' ds' irqs' line : repl qtx q ds t →
  reading stack buf (g_uart0_tx_cp t.1) LINE_MAX q' ds' irqs' u' →
  (∀ a, 0x2000 ≤ a < buf → u_mem u' !! a = u_mem t.1 !! a) →
  cstr (u_mem u') buf line → Forall is_byte line → ZL line < LINE_MAX →
  console_ready ch_loc bf_loc u' qtx [(fmt, percent_s); (buf, line)].
Proof.
  intros [[Hring Hq Hfr [Hm1 Hm2] Hap Htx] _ Hb Hbl] (_ & _ & (_ & Hcp & _) & _ & _) Hf Hs Hby Hl.
  split.
  - by rewrite Hcp.
  - rewrite Hcp. eapply queue_frame; [exact Hq|]. intros a Ha%(in_tx_area _ _ Hring). apply Hf. lia.
  - done.
  - split; intros x Hx; (rewrite Hf; [|apply Hbl; left; unfold local_bytes; lia]); [by apply Hm1|by apply Hm2].
  - done.
  - intros a l. rewrite !elem_of_cons. intros [[= -> ->]|[[= -> ->]|Hin]]; [..|by apply elem_of_nil in Hin].
    + destruct (Htx fmt percent_s) as ([Hnz Ha] & H2 & H3 & H4); [by left|]. split_and!; try done. split; [done|].
      rewrite arr_lookup in Ha |- *. intros i b Hi. pose proof (lookup_lt_Some _ _ _ Hi) as Hil.
      rewrite length_app in Hil. simpl in Hil. rewrite Hf; [by apply Ha|]. apply Hbl. right. simpl. lia.
    + split_and!; [done|done|unfold LINE_MAX in *; lia|]. intros x Hx.
      split; [|lia]. intros Hx'. pose proof (Hbl x (or_introl Hx')). lia.
Qed.

Lemma percent_s_means texts line va : (buf, line) ∈ texts → means texts percent_s (buf :: va) (line ++ [10]).
Proof.
  intros Hin. apply (means_conversion texts [] [] [] 115 [10] (buf :: va) va line [10]).
  - split_and!; [constructor|constructor|done|done|by left].
  - pose proof (cv_string texts false false 0 buf line va eq_refl Hin) as Hc.
    unfold field in Hc. simpl app in Hc. replace (Z.to_nat (0 - ZL line)) with 0%nat in Hc by lia. exact Hc.
  - apply means_char; [done|apply means_end].
Qed.

(** What printing leaves is a state between two rounds again. *)
Lemma repl_after_print u q ds irqs qtx o (t : uart * list (irq uart)) texts :
  reading stack buf (g_uart0_tx_cp u) LINE_MAX q ds irqs u → 0x3000 ≤ buf →
  (∀ x, local_bytes ch_loc bf_loc x ∨ fmt ≤ x ≤ fmt + ZL percent_s → 0x2000 ≤ x < buf) →
  (fmt, percent_s) ∈ texts → console_ready ch_loc bf_loc u qtx texts →
  on_line ch_loc bf_loc u irqs qtx o (ZL o) t → repl (qtx ++ o) q ds t.
Proof.
  intros (Hir & Hds & ((Hon & Hl & Hm) & _ & Hmb) & Hrq & Hrsb) Hb Hbl Hin Hcr (_ & Hi & Hsb & Hq & Hrest & Hf & Hdom).
  destruct Hcr as [Hring Hq0 Hfr [Hm1 Hm2] Hap Htx]. injection Hrest as Hrx Hfl Hlp Hac Hcsr. split; [split|split| |].
  - done.
  - done.
  - done.
  - split; intros x Hx; apply Hdom; [by apply Hm1|by apply Hm2].
  - done.
  - intros a l [-> ->]%list_elem_of_singleton%pair_equal_spec.
    destruct (Htx fmt percent_s Hin) as ([Hnz Ha] & H2 & H3 & H4). split_and!; try done. split; [done|].
    rewrite arr_lookup in Ha |- *. intros i b Hx. pose proof (lookup_lt_Some _ _ _ Hx) as Hxl.
    rewrite length_app in Hxl. simpl in Hxl. destruct (H4 (fmt + Z.of_nat i)) as [Hn1 Hn2]; [simpl; lia|].
    rewrite Hf by done. by apply Ha.
  - by rewrite Hi.
  - split; [done|]. split; [|split].
    + split; [split; [unfold engine_on; by rewrite Hfl|split; [by rewrite Hlp|]]|split; [done|]];
        intros a Ha; apply Hdom; [by apply Hm|by apply Hmb].
    + change (queue (g_uart0_rx_cp t.1) (u_mem t.1) q). rewrite Hrx. eapply queue_frame; [exact Hrq|].
      intros a Ha%(in_rx_area _ _ Hrsb). apply Hf; [|lia]. intros Hx. pose proof (Hbl a (or_introl Hx)). lia.
    + change (same_buffer rx_area (g_uart0_rx_cp t.1)). by rewrite Hrx.
  - done.
  - done.
Qed.

(** A line that main can read: no NUL or newline in it, and short enough for its buffer. *)
Definition wf_line line : Prop := nonzero line ∧ (10 ∉ line) ∧ ZL line < LINE_MAX - 1.

Lemma line_length_line line rest : 10 ∉ line → line_length (line ++ 10 :: rest) = length line.
Proof.
  unfold line_length. induction line as [|c line IH]; [done|]. rewrite not_elem_of_cons. intros [Hc Hl]. simpl.
  rewrite (proj2 (Z.eqb_neq c 10)) by done. simpl. f_equal. by apply IH.
Qed.

Lemma main_round_spec qtx q ds t line rest : repl qtx q ds t → q ++ concat ds = line ++ 10 :: rest → wf_line line →
  ZL line + 1 ≤ room qtx →
  wp (main_round ch_loc bf_loc garbage buf fmt) (λ r t', r = ZL line ∧ ∃ q' ds',
    repl (qtx ++ line ++ [10]) q' ds' t' ∧ q' ++ concat ds' = rest) t.
Proof.
  intros Hr Hs (Hnz & Hnl & Hl) Hroom. pose proof (repl_bytes _ _ _ _ Hr) as Hby. rewrite Hs in Hby.
  apply Forall_app in Hby as [Hby _]. destruct t as [u irqs]. pose proof Hr as [Hcr Hrd Hb Hbl]. simpl in Hcr, Hrd.
  pose proof (read_string_spec stack buf _ LINE_MAX q ds irqs u Hb ltac:(unfold LINE_MAX; lia) Hrd) as Hread.
  cbv zeta in Hread. rewrite Hs, line_length_line in Hread by done. unfold main_round. apply wp_bind.
  destruct (wp_inv _ _ _ (Hread ltac:(rewrite length_app; simpl; lia))) as ([i irqs1] & u1 & E & -> & q1 & ds1 & Hr1 & Hs1 & Ha & Hf).
  unfold on_console, wp. rewrite E. clear E Hread. change (LINE_MAX - 1) with 127 in *. rewrite Z.min_l in Ha |- * by lia.
  rewrite Z.min_l in Hs1 by lia. rewrite Nat2Z.id, take_app_length in Ha.
  replace (Z.to_nat (ZL line + 1)) with (length line + 1)%nat in Hs1 by lia. rewrite drop_app_add in Hs1. simpl in Hs1.
  assert (cstr (u_mem u1) buf line) as Hcs by done.
  pose proof (console_after_read qtx q ds (u, irqs) u1 q1 ds1 irqs1 line Hr Hr1 Hf Hcs Hby ltac:(unfold LINE_MAX; lia)) as Hcr1.
  apply wp_bind. eapply wp_mono.
  { apply (vfprintf_on_console ch_loc bf_loc garbage u1 irqs1 qtx fmt percent_s [buf] (line ++ [10]) _ ltac:(by left)
      (percent_s_means _ line [] ltac:(right; by left)) ltac:(rewrite length_app; simpl; lia) Hcr1). }
  intros r t' [_ Ht]. apply wp_ret. split; [apply wrapu_small; lia|]. exists q1, ds1. split; [|by rewrite drop_0 in Hs1].
  eapply (repl_after_print u1 q1 ds1 irqs1 qtx (line ++ [10]) t'); [|done|done| |exact Hcr1|exact Ht]; [|by left].
  destruct Hr1 as (H1 & H2 & ((H3 & H4 & H5) & H6)). split_and!; try done.
Qed.
End Repl.

(** C36 The read-print loop echoes its lines.  Whatever the interrupts that arrive while the
    driver waits bring in which pieces, each round of main takes one line of the received
    bytes, stores it as a C string, and appends it with its newline to what waits for
    transmission; after any number of rounds the rest of the received bytes is unread and the
    driver is ready for the next. *)
Theorem lines_are_echoed stack buf ch_loc bf_loc fmt garbage lines qtx q ds rest t :
  repl stack buf ch_loc bf_loc fmt qtx q ds t → Forall wf_line lines →
  let sent := concat (map (λ l, l ++ [10]) lines) in
  q ++ concat ds = sent ++ rest → ZL sent ≤ room qtx →
  wp (main_rounds (length lines) ch_loc bf_loc garbage buf fmt) (λ ns t', ns = map (λ l, ZL l) lines ∧ ∃ q' ds',
    repl stack buf ch_loc bf_loc fmt (qtx ++ sent) q' ds' t' ∧ q' ++ concat ds' = rest) t.
Proof.
  intros Hr Hl. revert qtx q ds t Hr. induction Hl as [|line lines Hline _ IH]; intros qtx q ds t Hr sent Hs Hroom.
  - apply wp_ret. split; [done|]. exists q, ds. subst sent. simpl in *. by rewrite app_nil_r.
  - subst sent. simpl in Hs, Hroom |- *. rewrite <- !app_assoc in Hs. rewrite length_app in Hroom. simpl in Hs.
    apply wp_bind. eapply wp_mono; [eapply main_round_spec; [exact Hr|exact Hs|done|]|].
    { rewrite length_app in Hroom. simpl in Hroom. lia. }
    intros i t1 (-> & q1 & ds1 & Hr1 & Hs1). apply wp_bind. eapply wp_mono; [apply (IH _ _ _ _ Hr1 Hs1)|].
    { unfold room in *. rewrite (length_app qtx). lia. }
    intros ns t2 (-> & q2 & ds2 & Hr2 & Hs2). apply wp_ret. split; [done|]. exists q2, ds2. by rewrite app_assoc.
Qed.

#[local] Opaque zeros.

(** Two lines arrive in three pieces while the prompt waits. *)
Definition lines_ab : list (list Z) := [[97]; [98; 99]].
Definition pieces : list (list Z) := [[97; 10; 98]; []; [99; 10; 100]].

Lemma repl_starts : repl 0x3000 0x3800 0x3200 0x3210 0x3100 [] [] pieces
  (with_text percent_s one_byte, map (rx_irq 0x3000) pieces).
Proof.
  destruct one_byte_ok as [Htx _ Hq Hrq _ _ _].
  assert (∀ a n, 0 ≤ a → a + n ≤ 0x4000 → mapped (u_mem one_byte) a n) as Hm
    by (intros; by apply mapped_insert, zeros_mapped).
  split.
  - apply with_text_ready; [by repeat constructor|by repeat constructor|done|exact Htx|exact Hq|by apply Hm].
  - split; [done|]. split; [repeat constructor; by vm_compute|]. split; [split; [split; [done|split; [done|]]|split; [done|]]|split; [|done]].
    + apply (mapped_write (u_mem one_byte)), Hm; unfold UART0_RX_DRVBUF_START; lia.
    + apply (mapped_write (u_mem one_byte)), Hm; unfold LINE_MAX; lia.
    + apply (queue_frame rx_area (u_mem one_byte) (mem_write (u_mem one_byte) 0x3100 (percent_s ++ [0]))); [exact Hrq|].
      intros a Ha. change (0x1000 ≤ a < 0x2000) in Ha. apply mem_write_lookup_out. simpl. lia.
  - lia.
  - unfold local_bytes. simpl. lia.
Qed.

Lemma lines_ab_wf : Forall wf_line lines_ab.
Proof.
  constructor; [|constructor; [|constructor]]; (split; [by repeat constructor|split; [|done]]);
    rewrite !not_elem_of_cons; split_and?; try done; apply not_elem_of_nil.
Qed.

Lemma lines_are_echoed_witness :
  wp (main_rounds 2 0x3200 0x3210 no_param 0x3800 0x3100) (λ ns t', ns = [1; 2] ∧ ∃ q' ds',
    repl 0x3000 0x3800 0x3200 0x3210 0x3100 [97; 10; 98; 99; 10] q' ds' t' ∧ q' ++ concat ds' = [100])
    (with_text percent_s one_byte, map (rx_irq 0x3000) pieces).
Proof.
  pose proof (lines_are_echoed 0x3000 0x3800 0x3200 0x3210 0x3100 no_param lines_ab [] [] pieces [100]
    (with_text percent_s one_byte, map (rx_irq 0x3000) pieces) repl_starts) as H. cbv zeta in H.
  exact (H lines_ab_wf eq_refl ltac:(by vm_compute)).
Defined.
