(* ===== verification/Median.v ===== *)
(** The median kernel (sw/kernels/bmark_median): the filter of median.c, the helpers of util.h
    - the unrolled comparison, the shift register, the sense-reversing barrier - and the check that
    bmark_median.c makes on its data. *)
From stdpp Require Import base list gmap fin_maps.
From Stdlib Require Import ZArith Lia.
From S2P Require Import Prelude Memory LibcMem.

#[local] Open Scope Z_scope.

(** * median.c *)

(** Arrays of int in the byte memory. *)
Definition ld_int (a : Z) : M mem Z := v ← ldw a; mret (s32 v).

Definition middle (A B C : Z) : Z :=
  if A <? B then if B <? C then B else if C <? A then A else C
  else if A <? C then A else if C <? B then B else C.

Definition median (n input results : Z) : M mem () :=
  stw results 0;;
  stw (results + 4 * (n - 1)) 0;;
  for_from (Z.to_nat (n - 2)) 1 (λ i,
    A ← ld_int (input + 4 * (i - 1));
    B ← ld_int (input + 4 * i);
    C ← ld_int (input + 4 * (i + 1));
    stw (results + 4 * i) (middle A B C)).

(** * util.h *)
Definition verify (n test reference : Z) : M mem Z :=
  r ← loop (λ i,
    if i <? Z.quot n 2 * 2 then
      t0 ← ld_int (test + 4 * i);
      t1 ← ld_int (test + 4 * (i + 1));
      v0 ← ld_int (reference + 4 * i);
      v1 ← ld_int (reference + 4 * (i + 1));
      mret (if negb (t0 =? v0) then inr (i + 1)
            else if negb (t1 =? v1) then inr (i + 2)
            else inl (i + 2))
    else mret (inr 0)) 0;
  if negb (r =? 0) then mret r
  else if negb (Z.rem n 2 =? 0) then
    t ← ld_int (test + 4 * (n - 1));
    v ← ld_int (reference + 4 * (n - 1));
    mret (if negb (t =? v) then n else 0)
  else mret 0.

Definition lfsr (x : Z) : Z :=
  let bit := Z.land (Z.lxor x (Z.shiftr x 1)) 1 in
  Z.lor (Z.shiftr x 1) (u64 (Z.shiftl bit 62)).

(** [pc] is where an unsigned short is read. *)
Definition insn_len (pc : Z) : M mem Z :=
  b0 ← loadb pc;
  b1 ← loadb (pc + 1);
  mret (if negb (Z.land (b0 + 256 * b1) 3 =? 0) then 4 else 2).

(** * bmark_median.c *)
Definition DATA_SIZE : Z := 750.
Definition input_data : list Z :=
  [41; 454; 833; 335; 564; 1; 187; 989; 749; 365; 350; 572; 132; 64; 949; 153; 584; 216; 805;
   140; 621; 210; 6; 572; 931; 339; 890; 593; 392; 898; 694; 228; 961; 12; 110; 883; 116; 750;
   296; 646; 426; 500; 314; 436; 659; 701; 774; 812; 319; 981; 678; 150; 875; 696; 376; 564;
   474; 272; 938; 258; 539; 647; 569; 509; 203; 88; 280; 703; 759; 669; 606; 375; 511; 551;
   657; 936; 195; 592; 81; 569; 267; 952; 229; 800; 337; 584; 944; 643; 902; 368; 241; 489;
   913; 328; 826; 313; 933; 592; 985; 388; 195; 543; 960; 649; 566; 979; 350; 997; 649; 814;
   657; 79; 181; 208; 111; 998; 859; 629; 65; 847; 288; 704; 349; 997; 141; 253; 905; 715; 886;
   430; 264; 415; 576; 538; 979; 700; 761; 4; 241; 494; 478; 100; 499; 864; 403; 693; 222; 416;
   444; 296; 721; 285; 676; 620; 317; 78; 224; 351; 937; 540; 288; 646; 119; 169; 615; 527;
   606; 289; 389; 796; 351; 801; 455; 720; 278; 758; 367; 745; 358; 92; 584; 989; 62; 271; 985;
   853; 403; 788; 346; 531; 517; 222; 559; 461; 908; 241; 775; 358; 255; 332; 778; 684; 598;
   740; 143; 446; 33; 311; 125; 743; 941; 557; 933; 479; 799; 557; 553; 925; 431; 796; 648;
   357; 952; 891; 287; 666; 19; 514; 49; 557; 86; 870; 95; 853; 441; 440; 587; 61; 614; 678;
   382; 396; 280; 9; 808; 17; 971; 170; 819; 291; 344; 380; 450; 536; 512; 185; 965; 917; 347;
   539; 808; 983; 882; 887; 537; 54; 946; 612; 701; 951; 356; 479; 567; 151; 891; 7; 22; 641;
   568; 335; 665; 730; 423; 95; 434; 728; 158; 280; 2; 395; 84; 688; 247; 911; 49; 476; 435;
   815; 792; 729; 869; 265; 486; 127; 414; 236; 369; 214; 548; 180; 518; 6; 888; 503; 682; 596;
   284; 173; 264; 643; 499; 346; 290; 599; 897; 68; 215; 849; 731; 658; 688; 619; 251; 121;
   786; 131; 555; 828; 302; 667; 528; 433; 544; 487; 322; 753; 947; 125; 287; 626; 824; 14;
   304; 10; 788; 403; 733; 106; 959; 703; 366; 818; 722; 964; 294; 406; 975; 874; 653; 856;
   748; 86; 91; 60; 378; 660; 105; 667; 102; 153; 381; 121; 651; 98; 825; 412; 840; 236; 356;
   12; 148; 423; 54; 965; 140; 216; 955; 621; 343; 361; 533; 921; 757; 715; 521; 647; 837; 299;
   592; 886; 13; 682; 173; 36; 63; 493; 121; 551; 133; 537; 758; 969; 372; 643; 951; 434; 39;
   415; 129; 303; 110; 438; 847; 860; 437; 203; 255; 478; 269; 988; 409; 675; 628; 719; 399;
   990; 549; 338; 753; 450; 564; 633; 171; 155; 19; 646; 727; 452; 501; 427; 777; 509; 43; 988;
   753; 426; 81; 12; 202; 483; 853; 142; 153; 339; 760; 390; 357; 50; 943; 171; 922; 601; 328;
   105; 496; 968; 442; 121; 516; 879; 641; 81; 276; 870; 786; 600; 113; 603; 842; 871; 907;
   887; 275; 610; 237; 404; 32; 234; 784; 745; 565; 526; 357; 275; 803; 441; 819; 226; 751;
   752; 280; 943; 85; 726; 458; 709; 454; 201; 710; 54; 459; 758; 41; 53; 253; 397; 377; 41;
   508; 141; 700; 416; 860; 747; 480; 219; 741; 478; 499; 770; 709; 180; 49; 482; 371; 691;
   873; 725; 945; 173; 992; 186; 526; 914; 721; 1; 435; 963; 232; 247; 497; 464; 697; 362; 30;
   521; 348; 233; 250; 120; 350; 40; 250; 779; 573; 195; 784; 161; 749; 743; 502; 439; 823;
   355; 826; 403; 170; 141; 160; 633; 674; 289; 32; 782; 202; 320; 143; 636; 853; 118; 90; 852;
   394; 70; 107; 816; 855; 388; 106; 954; 157; 36; 6; 16; 765; 698; 204; 695; 194; 677; 574;
   598; 218; 883; 526; 824; 177; 746; 239; 462; 698; 511; 757; 534; 706; 440; 49; 428; 84; 732;
   799; 726; 893; 702; 512; 547; 373; 86; 492; 798; 14; 215; 621; 21; 83; 651; 103; 59; 794;
   429; 921; 657; 643; 96; 880; 973; 834; 659; 239; 966; 462; 524; 114; 62; 561; 625; 529; 303;
   10; 714; 997; 409; 904; 55; 387; 728; 407; 305; 105; 436; 559; 901; 936; 592; 512; 691; 409;
   796; 302; 497; 202; 177; 427; 940; 613; 995; 359; 480; 521; 158; 684; 822; 22; 611; 185;
   680; 312; 14; 107; 111; 274; 797; 387; 185; 242; 0; 486; 718; 105; 96; 698; 749; 899; 739;
   770; 814; 644; 435; 80; 326].
Definition verify_data : list Z :=
  [0; 454; 454; 564; 335; 187; 187; 749; 749; 365; 365; 350; 132; 132; 153; 584; 216; 584; 216;
   621; 210; 210; 210; 572; 572; 890; 593; 593; 593; 694; 694; 694; 228; 110; 110; 116; 750;
   296; 646; 426; 500; 426; 436; 436; 659; 701; 774; 774; 812; 678; 678; 678; 696; 696; 564;
   474; 474; 474; 272; 539; 539; 569; 569; 509; 203; 203; 280; 703; 703; 669; 606; 511; 511;
   551; 657; 657; 592; 195; 569; 267; 569; 267; 800; 337; 584; 584; 643; 902; 643; 368; 368;
   489; 489; 826; 328; 826; 592; 933; 592; 388; 388; 543; 649; 649; 649; 566; 979; 649; 814;
   657; 657; 181; 181; 181; 208; 859; 859; 629; 629; 288; 704; 349; 704; 349; 253; 253; 715;
   886; 715; 430; 415; 415; 538; 576; 700; 761; 700; 241; 241; 478; 478; 478; 499; 499; 693;
   403; 416; 416; 416; 444; 296; 676; 620; 620; 317; 224; 224; 351; 540; 540; 540; 288; 169;
   169; 527; 606; 527; 389; 389; 389; 796; 455; 720; 455; 720; 367; 745; 367; 358; 358; 584;
   584; 271; 271; 853; 853; 788; 403; 531; 517; 517; 517; 461; 559; 461; 775; 358; 358; 332;
   332; 684; 684; 684; 598; 446; 143; 311; 125; 311; 743; 743; 933; 557; 799; 557; 557; 557;
   553; 796; 648; 648; 648; 891; 891; 666; 287; 514; 49; 514; 86; 557; 95; 853; 441; 441; 441;
   440; 587; 614; 614; 396; 382; 280; 280; 17; 808; 170; 819; 291; 344; 344; 380; 450; 512;
   512; 512; 917; 917; 539; 539; 808; 882; 887; 882; 537; 537; 612; 701; 701; 701; 479; 479;
   479; 567; 151; 22; 22; 568; 568; 568; 665; 665; 423; 423; 434; 434; 280; 158; 280; 84; 395;
   247; 688; 247; 476; 435; 476; 792; 792; 792; 729; 486; 265; 414; 236; 369; 236; 369; 214;
   518; 180; 518; 503; 682; 596; 596; 284; 264; 264; 499; 499; 346; 346; 599; 599; 215; 215;
   731; 731; 688; 658; 619; 251; 251; 131; 555; 555; 555; 667; 528; 528; 528; 487; 487; 487;
   753; 753; 287; 287; 626; 626; 304; 14; 304; 403; 733; 403; 733; 703; 703; 703; 722; 818;
   722; 406; 406; 874; 874; 856; 748; 748; 91; 86; 91; 378; 378; 660; 105; 153; 153; 153; 381;
   121; 651; 412; 825; 412; 356; 236; 148; 148; 148; 423; 140; 216; 216; 621; 621; 361; 361;
   533; 757; 757; 715; 647; 647; 647; 592; 592; 592; 682; 173; 173; 63; 63; 121; 493; 133; 537;
   537; 758; 758; 643; 643; 643; 434; 415; 129; 303; 129; 303; 438; 847; 847; 437; 255; 255;
   269; 478; 409; 675; 628; 675; 628; 719; 549; 549; 549; 450; 564; 564; 564; 171; 155; 155;
   646; 646; 501; 452; 501; 509; 509; 509; 753; 753; 426; 81; 81; 202; 483; 483; 153; 153; 339;
   390; 390; 357; 357; 171; 922; 601; 601; 328; 328; 496; 496; 442; 442; 516; 641; 641; 276;
   276; 786; 786; 600; 600; 603; 842; 871; 887; 887; 610; 275; 404; 237; 234; 234; 745; 745;
   565; 526; 357; 357; 441; 803; 441; 751; 751; 751; 752; 280; 726; 458; 709; 458; 454; 454;
   201; 459; 459; 459; 53; 53; 253; 377; 377; 377; 141; 508; 416; 700; 747; 747; 480; 480; 478;
   499; 499; 709; 709; 180; 180; 371; 482; 691; 725; 873; 725; 945; 186; 526; 526; 721; 721;
   435; 435; 435; 247; 247; 464; 497; 464; 362; 362; 348; 348; 250; 233; 250; 120; 250; 250;
   573; 573; 573; 195; 749; 743; 743; 502; 502; 439; 823; 403; 403; 170; 160; 160; 633; 633;
   289; 289; 202; 320; 202; 320; 636; 636; 118; 118; 394; 394; 107; 107; 816; 816; 388; 388;
   157; 157; 36; 16; 16; 698; 698; 695; 204; 677; 574; 598; 574; 598; 526; 824; 526; 746; 239;
   462; 462; 511; 698; 534; 706; 534; 440; 428; 84; 428; 732; 732; 799; 726; 702; 547; 512;
   373; 373; 492; 492; 215; 215; 215; 83; 83; 103; 103; 103; 429; 794; 657; 657; 643; 643; 880;
   880; 834; 659; 659; 462; 524; 462; 114; 114; 561; 561; 529; 303; 303; 714; 714; 904; 409;
   387; 387; 407; 407; 305; 305; 436; 559; 901; 901; 592; 592; 512; 691; 409; 497; 302; 202;
   202; 427; 613; 940; 613; 480; 480; 480; 521; 684; 684; 611; 185; 611; 312; 312; 107; 107;
   111; 274; 387; 387; 242; 185; 242; 486; 486; 105; 105; 698; 749; 749; 770; 770; 770; 644;
   435; 326; 0].

(** One round of the endless loop of main: the filter runs [runs] times, 1000 in the source,
    and the answer says which verdict is printed. *)
Definition bmark_round (runs input results reference : Z) : M mem bool :=
  for_upto runs (λ _, median DATA_SIZE input results);;
  r ← verify DATA_SIZE results reference;
  mret (r =? 0).

(** * Arrays *)
Section Arrays.
Implicit Types (m : mem) (l r : list Z).

Definition ints m a l : Prop := ∀ (i : nat) v, l !! i = Some v →
  mapped m (a + 4 * Z.of_nat i) 4 ∧ s32 (rdw m (a + 4 * Z.of_nat i)) = v.

Lemma wp_ld_int m a l i v Q : ints m a l → 0 ≤ i → l !! Z.to_nat i = Some v → Q v m → wp (ld_int (a + 4 * i)) Q m.
Proof.
  intros Ha Hi Hv HQ. destruct (Ha _ _ Hv) as [Hm E]. rewrite Z2Nat.id in Hm, E by done.
  apply wp_bind, wp_ldw; [done|]. apply wp_ret. by rewrite E.
Qed.

Lemma s32_rdw_wrw m a v : - 2 ^ 31 ≤ v < 2 ^ 31 → s32 (rdw (wrw m a v) a) = v.
Proof.
  intros Hv. rewrite (rdw_arr _ _ (le_bytes 4 v)); [|apply length_le_bytes|apply mem_write_arr].
  rewrite le_val_bytes. change (8 * Z.of_nat 4) with 32. unfold wraps. rewrite Zplus_mod_idemp_l.
  change (32 - 1) with 31. rewrite Z.mod_small by lia. lia.
Qed.

Lemma ints_store m a l i v : ints m a l → (i < length l)%nat → - 2 ^ 31 ≤ v < 2 ^ 31 →
  ints (wrw m (a + 4 * Z.of_nat i) v) a (<[i := v]> l).
Proof.
  intros Ha Hi Hv j w Hj. rewrite list_lookup_insert in Hj. case_decide as Hc.
  - destruct Hc as [-> _]. injection Hj as ->. destruct (lookup_lt_is_Some_2 l j Hi) as [x Hx].
    split; [by apply mapped_wrw, (Ha _ x)|by apply s32_rdw_wrw].
  - destruct (Ha _ _ Hj) as [Hm E]. split; [by apply mapped_wrw|]. assert (i ≠ j) by naive_solver.
    by rewrite rdw_wrw_ne by lia.
Qed.

Lemma ints_apart m a l b v : ints m a l → b + 4 ≤ a ∨ a + 4 * ZL l ≤ b → ints (wrw m b v) a l.
Proof.
  intros Ha Hd i w Hi. destruct (Ha _ _ Hi) as [Hm E]. pose proof (lookup_lt_Some _ _ _ Hi).
  split; [by apply mapped_wrw|]. by rewrite rdw_wrw_ne by lia.
Qed.

Lemma ints_inj m a l r : ints m a l → ints m a r → length l = length r → l = r.
Proof.
  intros Hl Hr Hlen. apply list_eq_same_length with (length l); [done|done|]. intros i x y _ Hx Hy.
  destruct (Hl _ _ Hx) as [_ <-], (Hr _ _ Hy) as [_ <-]. done.
Qed.

(** ** The filter *)

(** The middle of three numbers. *)
Lemma middle_spec A B C : ∃ lo hi, [A; B; C] ≡ₚ [lo; middle A B C; hi] ∧ lo ≤ middle A B C ≤ hi.
Proof.
  assert (∀ x y z : Z, [A; B; C] ≡ₚ [x; y; z] → x ≤ y ≤ z → middle A B C = y →
    ∃ lo hi, [A; B; C] ≡ₚ [lo; middle A B C; hi] ∧ lo ≤ middle A B C ≤ hi) as Hgo.
  { intros x y z Hp Hle ->. by exists x, z. }
  pose proof (perm_swap A B [C] : [B; A; C] ≡ₚ [A; B; C]) as P1.
  pose proof (perm_skip A (perm_swap B C []) : [A; C; B] ≡ₚ [A; B; C]) as P2.
  unfold middle in *. destruct (Z.ltb_spec A B); [destruct (Z.ltb_spec B C); [|destruct (Z.ltb_spec C A)]
    |destruct (Z.ltb_spec A C); [|destruct (Z.ltb_spec C B)]].
  - apply (Hgo A B C); [done|lia|done].
  - apply (Hgo C A B); [|lia|done]. rewrite <- P2. apply perm_swap.
  - apply (Hgo A C B); [by rewrite P2|lia|done].
  - apply (Hgo B A C); [by rewrite P1|lia|done].
  - apply (Hgo C B A); [|lia|done]. etrans; [symmetry; exact P1|]. etrans; [apply perm_skip, perm_swap|apply perm_swap].
  - apply (Hgo B C A); [|lia|done]. rewrite <- P1. constructor. apply perm_swap.
Qed.

Lemma middle_in A B C : middle A B C = A ∨ middle A B C = B ∨ middle A B C = C.
Proof. unfold middle. repeat case_match; tauto. Qed.

(** What the filter makes of [l]: the ends are cleared, every other element is the middle one
    of it and its neighbours. *)
Definition filtered_at l (i : nat) : Z :=
  if (i =? 0)%nat || (S i =? length l)%nat then 0 else middle (l !!! (i - 1)%nat) (l !!! i) (l !!! S i).
Definition filtered l : list Z := map (filtered_at l) (seq 0 (length l)).

Lemma filtered_lookup l i : (i < length l)%nat → filtered l !! i = Some (filtered_at l i).
Proof. intros Hi. unfold filtered. by rewrite list_lookup_fmap, lookup_seq_lt. Qed.

Lemma filtered_at_range l i : Forall (λ v, - 2 ^ 31 ≤ v < 2 ^ 31) l → - 2 ^ 31 ≤ filtered_at l i < 2 ^ 31.
Proof.
  intros Hl. assert (∀ j, - 2 ^ 31 ≤ l !!! j < 2 ^ 31) as Hj.
  { intros j. rewrite list_lookup_total_alt. destruct (l !! j) as [v|] eqn:E; [|simpl; lia].
    simpl. exact (Forall_lookup_1 _ _ _ _ Hl E). }
  unfold filtered_at. case_match; [lia|]. destruct (middle_in (l !!! (i - 1)%nat) (l !!! i) (l !!! S i)) as [-> |[-> | ->]]; apply Hj.
Qed.

Lemma ints_range m a l : ints m a l → Forall (λ v, - 2 ^ 31 ≤ v < 2 ^ 31) l.
Proof. intros Ha. apply Forall_lookup. intros i v Hi. destruct (Ha _ _ Hi) as [_ <-]. exact (wraps_range 32 _ ltac:(done)). Qed.

(** The filter while it runs: the elements [P] are final. *)
Definition filtering m0 input l results (P : nat → Prop) m : Prop :=
  ints m input l ∧ (∃ r, length r = length l ∧ ints m results r ∧
    ∀ i : nat, (i < length l)%nat → P i → r !! i = Some (filtered_at l i)) ∧
  ∀ x, ¬ results ≤ x < results + 4 * ZL l → m !! x = m0 !! x.

Lemma filtering_store m0 input l results P P' m (i : nat) :
  filtering m0 input l results P m → (i < length l)%nat →
  input + 4 * ZL l ≤ results ∨ results + 4 * ZL l ≤ input →
  (∀ k, (k < length l)%nat → P' k → P k ∨ k = i) →
  filtering m0 input l results P' (wrw m (results + 4 * Z.of_nat i) (filtered_at l i)).
Proof.
  intros (Hin & (r & Hr & Hres & Hfin) & Hfr) Hi Hd HP. split; [apply ints_apart; [done|lia]|]. split.
  - exists (<[i := filtered_at l i]> r). split; [by rewrite length_insert|]. split.
    { apply ints_store; [done|lia|]. by apply filtered_at_range, (ints_range m input). }
    intros k Hk HPk. destruct (decide (k = i)) as [->|Hne]; [by apply list_lookup_insert_eq; lia|].
    rewrite list_lookup_insert_ne by done. apply Hfin; [done|]. by destruct (HP k Hk HPk).
  - intros x Hx. rewrite wrw_lookup_ne by lia. by apply Hfr.
Qed.

Lemma median_spec m input results l r : ints m input l → ints m results r → length r = length l → l ≠ [] →
  ZL l < 2 ^ 31 → input + 4 * ZL l ≤ results ∨ results + 4 * ZL l ≤ input →
  wp (median (ZL l) input results) (λ _ m', ints m' results (filtered l) ∧ ints m' input l ∧
    ∀ x, ¬ results ≤ x < results + 4 * ZL l → m' !! x = m !! x) m.
Proof.
  intros Hin Hres Hr Hne Hlen Hd. assert (0 < length l)%nat as Hpos by (destruct l; [done|simpl; lia]).
  assert (∀ i, (i < length l)%nat → mapped m (results + 4 * Z.of_nat i) 4) as Hmap.
  { intros i Hi. destruct (lookup_lt_is_Some_2 r i ltac:(lia)) as [v Hv]. by destruct (Hres _ _ Hv). }
  unfold median. apply wp_bind, wp_stw; [rewrite <- (Z.add_0_r results); by apply (Hmap 0%nat)|].
  assert (filtering m input l results (λ k, k = 0%nat) (wrw m results 0)) as H1.
  { replace (wrw m results 0) with (wrw m (results + 4 * Z.of_nat 0) (filtered_at l 0)) by (f_equal; lia).
    apply (filtering_store m input l results (λ _, False)); [|done|done|by right]. split; [done|]. split; [|done]. by exists r. }
  apply wp_bind, wp_stw.
  { apply mapped_wrw. replace (ZL l - 1) with (Z.of_nat (length l - 1)) by lia. apply Hmap. lia. }
  set (fin := λ (j : Z) (k : nat), Z.of_nat k < j ∨ S k = length l).
  assert (filtering m input l results (fin 1) (wrw (wrw m results 0) (results + 4 * (ZL l - 1)) 0)) as H2.
  { pose proof (filtering_store m input l results _ (fin 1) _ (length l - 1) H1 ltac:(lia) Hd ltac:(unfold fin; lia)) as H2.
    replace (Z.of_nat (length l - 1)) with (ZL l - 1) in H2 by lia.
    assert (filtered_at l (length l - 1) = 0) as E; [|by rewrite E in H2].
    unfold filtered_at. replace (S (length l - 1)) with (length l) by lia. by rewrite Nat.eqb_refl, orb_true_r. }
  eapply (wp_for_from (λ j m', filtering m input l results (fin j) m')); [exact H2| |].
  - intros j m' Hj Hf. pose proof Hf as (Hin' & (r' & Hr' & Hres' & _) & _).
    assert (∀ i, 0 ≤ i < ZL l → l !! Z.to_nat i = Some (l !!! Z.to_nat i)) as Hl by (intros i Hi; apply list_lookup_lookup_total_lt; lia).
    do 3 (apply wp_bind; eapply wp_ld_int; [exact Hin'|lia|apply Hl; lia|]).
    apply wp_stw.
    { destruct (lookup_lt_is_Some_2 r' (Z.to_nat j) ltac:(lia)) as [v Hv]. destruct (Hres' _ _ Hv) as [Hm _].
      by rewrite Z2Nat.id in Hm by lia. }
    pose proof (filtering_store m input l results _ (fin (j + 1)) _ (Z.to_nat j) Hf ltac:(lia) Hd ltac:(unfold fin; lia)) as H3.
    rewrite Z2Nat.id in H3 by lia. revert H3. unfold filtered_at at 1.
    rewrite (proj2 (Nat.eqb_neq _ 0)), (proj2 (Nat.eqb_neq _ (length l))) by lia. simpl orb. cbv iota.
    by replace (Z.to_nat (j - 1)) with (Z.to_nat j - 1)%nat by lia; replace (Z.to_nat (j + 1)) with (S (Z.to_nat j)) by lia.
  - intros m' (Hin' & (r' & Hr' & Hres' & Hfin) & Hf). split; [|by split].
    replace (filtered l) with r'; [done|]. apply list_eq_same_length with (length l); [by unfold filtered; rewrite length_fmap, length_seq|done|].
    intros i x y Hi Hx Hy. rewrite filtered_lookup in Hy by done. rewrite Hfin in Hx; [congruence|done|unfold fin; lia].
Qed.

(** ** The comparison *)

(** One more than the index of the first difference; 0 when there is none. *)
Fixpoint first_diff (k : Z) l r : Z :=
  match l, r with
  | x :: l, y :: r => if x =? y then first_diff (k + 1) l r else k
  | _, _ => 0
  end.

Lemma first_diff_0 k l r : length l = length r → 0 < k → first_diff k l r = 0 ↔ l = r.
Proof.
  revert k r. induction l as [|x l IH]; intros k [|y r] Hlen Hk; try done. simpl. injection Hlen as Hlen.
  destruct (Z.eqb_spec x y) as [->|Hne].
  - rewrite IH by (done || lia). split; [by intros ->|by intros [= ->]].
  - split; [lia|congruence].
Qed.

Lemma first_diff_drop l r (i : nat) x y : l !! i = Some x → r !! i = Some y →
  first_diff (Z.of_nat i + 1) (drop i l) (drop i r) =
    if x =? y then first_diff (Z.of_nat (S i) + 1) (drop (S i) l) (drop (S i) r) else Z.of_nat i + 1.
Proof.
  intros Hx Hy. rewrite (drop_S _ _ _ Hx), (drop_S _ _ _ Hy). simpl first_diff.
  by replace (Z.of_nat i + 1 + 1) with (Z.of_nat (S i) + 1) by lia.
Qed.

Lemma verify_spec m test reference l r : ints m test l → ints m reference r → length l = length r → ZL l < 2 ^ 31 →
  wp (verify (ZL l) test reference) (λ v m', m' = m ∧ v = first_diff 1 l r) m.
Proof.
  intros Ht Hr Hlen Hmax. unfold verify. set (h := Z.quot (ZL l) 2 * 2).
  pose proof (Z.quot_rem' (ZL l) 2) as Hqr. pose proof (Z.rem_bound_pos (ZL l) 2 ltac:(lia) ltac:(lia)) as Hrem.
  assert (∀ i : nat, (i < length l)%nat → ∃ x y, l !! i = Some x ∧ r !! i = Some y) as Hlk.
  { intros i Hi. destruct (lookup_lt_is_Some_2 l i Hi) as [x Hx], (lookup_lt_is_Some_2 r i ltac:(lia)) as [y Hy]. by exists x, y. }
  apply wp_bind. eapply (wp_mono _ (λ v m', m' = m ∧ if v =? 0 then first_diff (h + 1) (drop (Z.to_nat h) l) (drop (Z.to_nat h) r) = first_diff 1 l r
    else v = first_diff 1 l r)).
  - apply wp_loop with (f := λ i _, ZL l - i) (I := λ i m', m' = m ∧ ∃ j : nat, i = Z.of_nat (2 * j) ∧ i ≤ h ∧
      first_diff (i + 1) (drop (2 * j) l) (drop (2 * j) r) = first_diff 1 l r); [|lia|].
    { split; [done|]. exists 0%nat. split_and!; [lia|lia|]. by rewrite !drop_0. }
    intros i m' (-> & j & -> & Hj & E). split; [lia|]. destruct (Z.ltb_spec (Z.of_nat (2 * j)) h) as [Hlt|Hge].
    + destruct (Hlk (2 * j)%nat ltac:(lia)) as (x0 & y0 & Hx0 & Hy0), (Hlk (S (2 * j)) ltac:(lia)) as (x1 & y1 & Hx1 & Hy1).
      rewrite (first_diff_drop _ _ _ _ _ Hx0 Hy0), (first_diff_drop _ _ _ _ _ Hx1 Hy1) in E.
      assert (Z.to_nat (Z.of_nat (2 * j)) = (2 * j)%nat ∧ Z.to_nat (Z.of_nat (2 * j) + 1) = S (2 * j)) as [E0 E1] by lia.
      do 2 (apply wp_bind; eapply wp_ld_int; [exact Ht|lia|rewrite ?E0, ?E1; done|]).
      do 2 (apply wp_bind; eapply wp_ld_int; [exact Hr|lia|rewrite ?E0, ?E1; done|]).
      apply wp_ret. destruct (x0 =? y0); simpl negb; cbv iota; [destruct (x1 =? y1); simpl negb; cbv iota|].
      * split; [|lia]. split; [done|]. exists (S j). split; [lia|]. split; [lia|].
        replace (2 * S j)%nat with (S (S (2 * j))) by lia.
        by replace (Z.of_nat (2 * j) + 2 + 1) with (Z.of_nat (S (S (2 * j))) + 1) by lia.
      * split; [done|]. rewrite (proj2 (Z.eqb_neq _ 0)) by lia. lia.
      * split; [done|]. rewrite (proj2 (Z.eqb_neq _ 0)) by lia. done.
    + apply wp_ret. split; [done|]. simpl. assert (h = Z.of_nat (2 * j)) as -> by lia. by rewrite Nat2Z.id.
  - intros v m' [-> Hv]. destruct (v =? 0); simpl negb; cbv iota; [|by apply wp_ret].
    rewrite <- Hv. destruct (Z.eqb_spec (Z.rem (ZL l) 2) 0) as [E|E]; simpl negb; cbv iota.
    + apply wp_ret. split; [done|]. by rewrite !drop_ge by lia.
    + destruct (Hlk (Z.to_nat h) ltac:(lia)) as (x & y & Hx & Hy). replace (ZL l - 1) with h by lia.
      apply wp_bind. eapply wp_ld_int; [exact Ht|lia|done|]. apply wp_bind. eapply wp_ld_int; [exact Hr|lia|done|].
      apply wp_ret. split; [done|]. pose proof (first_diff_drop _ _ _ _ _ Hx Hy) as Hfd. rewrite Z2Nat.id in Hfd by lia.
      rewrite Hfd. destruct (x =? y); simpl; [|lia]. by rewrite !drop_ge by lia.
Qed.
End Arrays.

(** C38 The median benchmark checks what it means to check.  After any number of runs of the
    filter the results hold, between the two cleared ends, the middle value of each element and
    its neighbours; the input is as it was; and the verdict is good exactly when the reference
    equals the filtered input - which the reference of dataset1.h does. *)
Theorem bmark_verdict m runs input results reference l r v :
  ints m input l → ints m results r → ints m reference v →
  ZL l = DATA_SIZE → length r = length l → length v = length l → 1 ≤ runs →
  input + 4 * ZL l ≤ results ∨ results + 4 * ZL l ≤ input →
  reference + 4 * ZL l ≤ results ∨ results + 4 * ZL l ≤ reference →
  wp (bmark_round runs input results reference) (λ good m',
    ints m' results (filtered l) ∧ ints m' input l ∧ (good = true ↔ filtered l = v) ∧
    (l = input_data → v = verify_data → good = true)) m.
Proof.
  intros Hin Hres Href Hn Hr Hv Hruns Hd1 Hd2. assert (l ≠ []) as Hne by (intros ->; unfold DATA_SIZE in Hn; done).
  assert (length (filtered l) = length l) as Hfl by (unfold filtered; by rewrite length_fmap, length_seq).
  unfold bmark_round. rewrite <- Hn. apply wp_bind.
  eapply (wp_for_upto (λ j m', ints m' input l ∧ ints m' reference v ∧ ∃ r', ints m' results r' ∧ length r' = length l ∧
    (0 < j → r' = filtered l))).
  - lia.
  - split; [done|]. split; [done|]. exists r. split_and!; (done || lia).
  - intros j m' Hj (Hi' & Hv' & r' & Hr' & Hlr' & _). eapply wp_mono.
    { apply (median_spec m' input results l r'); try done. unfold DATA_SIZE in Hn. lia. }
    intros [] m1 (H1 & H2 & H3). split; [done|]. split; [|by exists (filtered l)].
    intros i x Hx. destruct (Hv' i x Hx) as [Hm E]. pose proof (lookup_lt_Some _ _ _ Hx).
    split; [intros a Ha; rewrite H3 by lia; by apply Hm|]. rewrite <- E. f_equal. unfold rdw. f_equal. apply map_ext_in.
    intros k Hk. f_equal. apply H3. repeat (destruct Hk as [<-|Hk]; [lia|]). done.
  - intros m' (Hi' & Hv' & r' & Hr' & Hlr' & Hf). rewrite Hf in Hr' by lia.
    pose proof (verify_spec m' results reference (filtered l) v Hr' Hv' ltac:(lia) ltac:(unfold DATA_SIZE in Hn; lia)) as Hver.
    rewrite Hfl in Hver. apply wp_bind. eapply wp_mono; [exact Hver|].
    intros x ? [-> ->]. apply wp_ret. split; [done|]. split; [done|]. rewrite Z.eqb_eq, first_diff_0 by lia.
    split; [done|]. intros -> ->. by vm_compute.
Qed.

(** * The shift register *)
Lemma bits_high x i : 0 ≤ x < 2 ^ 63 → 63 ≤ i → Z.testbit x i = false.
Proof.
  intros Hx Hi. destruct (decide (x = 0)) as [->|]; [apply Z.bits_0|]. apply Z.bits_above_log2; [lia|].
  assert (Z.log2 x < 63) by (apply Z.log2_lt_pow2; lia). lia.
Qed.

Lemma lfsr_bit x i : 0 ≤ x < 2 ^ 63 → 0 ≤ i →
  Z.testbit (lfsr x) i = if i =? 62 then xorb (Z.testbit x 0) (Z.testbit x 1) else Z.testbit x (i + 1).
Proof.
  intros Hx Hi. unfold lfsr. set (bit := Z.land _ 1).
  assert (bit = Z.b2z (xorb (Z.testbit x 0) (Z.testbit x 1))) as ->.
  { subst bit. change 1 with (Z.ones 1) at 2. rewrite Z.land_ones, <- Z.bit0_mod by done. f_equal.
    by rewrite Z.lxor_spec, Z.shiftr_spec by done. }
  rewrite Z.lor_spec, Z.shiftr_spec, wrapu_testbit by lia. destruct (Z.eqb_spec i 62) as [->|Hne].
  - rewrite (proj2 (Z.ltb_lt 62 64)) by done. rewrite Z.shiftl_spec by done. rewrite (bits_high x (62 + 1)) by (done || lia).
    by destruct (xorb _ _).
  - rewrite Z.shiftl_spec by lia. destruct (Z.lt_ge_cases i 62).
    + by rewrite (Z.testbit_neg_r _ (i - 62)), andb_false_r, orb_false_r by lia.
    + assert (Z.testbit (Z.b2z (xorb (Z.testbit x 0) (Z.testbit x 1))) (i - 62) = false) as ->.
      { destruct (xorb _ _); [|apply Z.bits_0]. apply Z.bits_above_log2; [done|]. change (Z.log2 (Z.b2z true)) with 0. lia. }
      by rewrite andb_false_r, orb_false_r.
Qed.

(** The state of the register is 63 bits and every state has one predecessor. *)
Lemma lfsr_permutes x y : 0 ≤ x < 2 ^ 63 → 0 ≤ y < 2 ^ 63 →
  0 ≤ lfsr x < 2 ^ 63 ∧ (lfsr x = lfsr y → x = y) ∧ (x ≠ 0 → lfsr x ≠ 0).
Proof.
  intros Hx Hy.
  assert (∀ x y, 0 ≤ x < 2 ^ 63 → 0 ≤ y < 2 ^ 63 → lfsr x = lfsr y → x = y) as Hinj.
  { clear. intros x y Hx Hy E.
    assert (∀ i, 1 ≤ i → i ≠ 63 → Z.testbit x i = Z.testbit y i) as Hhi.
    { intros i Hi Hne. pose proof (lfsr_bit x (i - 1) Hx ltac:(lia)) as E1. pose proof (lfsr_bit y (i - 1) Hy ltac:(lia)) as E2.
      rewrite E, E2, (proj2 (Z.eqb_neq (i - 1) 62)) in E1 by lia. by replace (i - 1 + 1) with i in E1 by lia. }
    apply Z.bits_inj'. intros i Hi. destruct (decide (i = 0)) as [->|]; [|destruct (decide (i = 63)) as [->|]; [by rewrite !bits_high|apply Hhi; lia]].
    pose proof (lfsr_bit x 62 Hx ltac:(lia)) as E1. pose proof (lfsr_bit y 62 Hy ltac:(lia)) as E2. rewrite E, E2 in E1. simpl (62 =? 62) in E1.
    cbv iota in E1. rewrite (Hhi 1) in E1 by lia. by destruct (Z.testbit x 0), (Z.testbit y 0), (Z.testbit y 1). }
  assert (0 ≤ lfsr x) as H0.
  { unfold lfsr. apply Z.lor_nonneg. split; [apply Z.shiftr_nonneg; lia|]. apply (wrapu_range 64). lia. }
  split; [|split; [by apply Hinj|]].
  - split; [done|]. apply testbit_bound; [done|done|]. intros i Hi. rewrite lfsr_bit, (proj2 (Z.eqb_neq i 62)) by lia.
    apply bits_high; [done|lia].
  - intros Hne E. apply Hne. apply Hinj; [done|lia|]. by rewrite E.
Qed.

(** * The barrier of util.h

    A state has the two shared variables and the threads; a step is one access of one thread to
    a shared variable (the fetch-and-add is one access).  [entered] counts a thread's calls and
    is not part of the program. *)
Module Barrier.
Inductive place : Type := Outside | Arriving | Spinning | Clearing | Publishing.

Record thread : Type := Thread {
  at_ : place;
  threadsense : bool;
  entered : nat;
}.

Record state : Type := State {
  count : Z;
  sense : bool;
  threads : list thread;
}.

Definition move (p : place) (t : thread) : thread := Thread p (threadsense t) (entered t).

Definition barrier (ncores : Z) (t : thread) (count : Z) (sense : bool) : thread * Z * bool :=
  match at_ t with
  | Outside => (Thread Arriving (negb (threadsense t)) (S (entered t)), count, sense)
  | Arriving => (move (if count =? ncores - 1 then Clearing else Spinning) t, count + 1, sense)
  | Clearing => (move Publishing t, 0, sense)
  | Publishing => (move Outside t, count, threadsense t)
  | Spinning => (if Bool.eqb sense (threadsense t) then move Outside t else t, count, sense)
  end.

Inductive step (ncores : Z) (s : state) : state → Prop :=
  | step_thread i t t' c b : threads s !! i = Some t → barrier ncores t (count s) (sense s) = (t', c, b) →
      step ncores s (State c b (<[i := t']> (threads s))).

Definition start (n : nat) : state := State 0 false (replicate n (Thread Outside false 0)).

(** How many calls have returned, and how many have counted themselves in. *)
Definition passed (t : thread) : nat := match at_ t with Outside => entered t | _ => pred (entered t) end.
Definition arrived (t : thread) : nat := match at_ t with Arriving => pred (entered t) | _ => entered t end.

(** ** The invariant *)
Section Invariant.
Context (n : nat).
Implicit Types (s : state) (t : thread) (l : list thread) (G : nat).

(** [G] barriers are complete: a thread is outside, or on its way out of the last one, or inside
    the next. *)
Definition placed G t : Prop := threadsense t = Nat.odd (entered t) ∧
  match at_ t with
  | Outside => entered t = G
  | Spinning => entered t = G ∨ entered t = S G
  | _ => entered t = S G
  end.
Definition waiting G t : bool := match at_ t with Spinning => (entered t =? S G)%nat | _ => false end.
Definition counted G l : nat := length (List.filter (waiting G) l).
Definition quiet t : Prop := at_ t ≠ Clearing ∧ at_ t ≠ Publishing.

Inductive phase G (c : Z) l : Prop :=
  | phase_open : Forall quiet l → c = Z.of_nat (counted G l) → c < Z.of_nat n → phase G c l
  | phase_closing k t : l !! k = Some t → at_ t = Clearing ∧ c = Z.of_nat n ∨ at_ t = Publishing ∧ c = 0 →
      (∀ j t', l !! j = Some t' → j ≠ k → waiting G t' = true) → phase G c l.

Definition inv s : Prop := length (threads s) = n ∧ ∃ G, sense s = Nat.odd G ∧ Forall (placed G) (threads s) ∧
  phase G (count s) (threads s).

Lemma counted_insert G l i t t' : l !! i = Some t →
  (counted G (<[i := t']> l) + (if waiting G t then 1 else 0) = counted G l + (if waiting G t' then 1 else 0))%nat.
Proof.
  unfold counted. revert i. induction l as [|x l IH]; intros [|i] Hi; try done; simpl in *.
  - injection Hi as ->. destruct (waiting G t), (waiting G t'); simpl; lia.
  - specialize (IH i Hi). destruct (waiting G x); simpl; lia.
Qed.

Lemma counted_all G l : counted G l = length l → Forall (λ t, waiting G t = true) l.
Proof.
  unfold counted. induction l as [|x l IH]; [constructor|]. simpl. pose proof (filter_length_le (waiting G) l).
  destruct (waiting G x) eqn:E; simpl; intros H'; [constructor; [done|apply IH; lia]|lia].
Qed.

Lemma counted_le G l : (counted G l ≤ length l)%nat.
Proof. apply filter_length_le. Qed.

Lemma odd_S G : Nat.odd (S G) = negb (Nat.odd G).
Proof. by rewrite Nat.odd_succ, <- Nat.negb_odd. Qed.

Lemma inv_start : (0 < n)%nat → inv (start n).
Proof.
  intros Hn. split; [apply length_replicate|]. exists 0%nat. split; [done|]. split; [by apply Forall_replicate|].
  apply phase_open; [by apply Forall_replicate|simpl|simpl; lia]. unfold counted. clear Hn.
  induction n as [|k IH]; [done|exact IH].
Qed.

Lemma counted_none G l : Forall (λ t, waiting G t = false) l → counted G l = 0%nat.
Proof. unfold counted. induction 1 as [|x l Hx _ IH]; [done|]. simpl. by rewrite Hx. Qed.

Lemma counted_full G l : Forall (λ t, waiting G t = true) l → counted G l = length l.
Proof. unfold counted. induction 1 as [|x l Hx _ IH]; [done|]. simpl. rewrite Hx. simpl. by rewrite IH. Qed.

Lemma waiting_true G t : waiting G t = true → at_ t = Spinning ∧ entered t = S G.
Proof. unfold waiting. destruct (at_ t); try done. intros H%Nat.eqb_eq. done. Qed.

(** One thread moves while nobody has closed the barrier. *)
Lemma open_step G c b l i t t' c' b' : length l = n → b = Nat.odd G → Forall (placed G) l →
  Forall quiet l → c = Z.of_nat (counted G l) → c < Z.of_nat n →
  l !! i = Some t → barrier (Z.of_nat n) t c b = (t', c', b') → inv (State c' b' (<[i := t']> l)).
Proof.
  intros Hlen Hb Hpl Hq Hc Hlt Hi Hstep. split; [simpl; by rewrite length_insert|]. exists G. simpl.
  pose proof (Forall_lookup_1 _ _ _ _ Hpl Hi) as [Hts Hpt]. pose proof (Forall_lookup_1 _ _ _ _ Hq Hi) as [Hn1 Hn2].
  pose proof (counted_insert G l i t t' Hi) as Hci. unfold barrier, waiting in *.
  destruct (at_ t) eqn:Hat; try done.
  - injection Hstep as <- <- <-. split; [done|]. simpl in Hci. split.
    + apply Forall_insert; [done|]. split; simpl; [by rewrite Hts, odd_S|by rewrite Hpt].
    + apply phase_open; [by apply Forall_insert|lia|done].
  - injection Hstep as <- <- <-. split; [done|]. split.
    { apply Forall_insert; [done|]. split; [done|]. destruct (c =? Z.of_nat n - 1); simpl; [done|by right]. }
    destruct (Z.eqb_spec c (Z.of_nat n - 1)) as [E|E]; simpl in Hci.
    + pose proof (counted_insert G l i t (move Spinning t) Hi) as Hall. unfold waiting in Hall. rewrite Hat in Hall. simpl in Hall.
      rewrite Hpt, Nat.eqb_refl in Hall. assert (counted G (<[i := move Spinning t]> l) = length (<[i := move Spinning t]> l)) as Hf%counted_all
        by (rewrite length_insert; lia).
      apply (phase_closing G _ _ i (move Clearing t)); [apply list_lookup_insert_eq; by eapply lookup_lt_Some|left; split; [done|lia]|].
      intros j t2 Hj Hne. rewrite list_lookup_insert_ne in Hj by done. apply (Forall_lookup_1 _ _ j t2 Hf).
      by rewrite list_lookup_insert_ne.
    + rewrite Hpt, Nat.eqb_refl in Hci. apply phase_open; [by apply Forall_insert|lia|lia].
  - injection Hstep as <- <- <-. split; [done|]. destruct (Bool.eqb b (threadsense t)) eqn:Eb.
    + apply Bool.eqb_prop in Eb. assert (entered t = G) as E.
      { destruct Hpt as [|E]; [done|]. exfalso. rewrite Hts, E, odd_S, Hb in Eb. by destruct (Nat.odd G). }
      simpl in Hci. rewrite E, (proj2 (Nat.eqb_neq G (S G))) in Hci by lia.
      split; [by apply Forall_insert|]. apply phase_open; [by apply Forall_insert|lia|done].
    + rewrite list_insert_id by done. split; [done|]. by apply phase_open.
Qed.

(** One thread moves while thread [k] closes the barrier. *)
Lemma closing_step G c b l k tk i t t' c' b' : (0 < n)%nat → length l = n → b = Nat.odd G → Forall (placed G) l →
  l !! k = Some tk → at_ tk = Clearing ∧ c = Z.of_nat n ∨ at_ tk = Publishing ∧ c = 0 →
  (∀ j t', l !! j = Some t' → j ≠ k → waiting G t' = true) →
  l !! i = Some t → barrier (Z.of_nat n) t c b = (t', c', b') → inv (State c' b' (<[i := t']> l)).
Proof.
  intros Hn Hlen Hb Hpl Hk Hat Hw Hi Hstep. split; [simpl; by rewrite length_insert|]. simpl.
  pose proof (Forall_lookup_1 _ _ _ _ Hpl Hi) as [Hts Hpt]. destruct (decide (i = k)) as [->|Hne].
  - rewrite Hk in Hi. injection Hi as ->. unfold barrier in Hstep. destruct Hat as [[Hat Hc]|[Hat Hc]]; rewrite Hat in *;
      injection Hstep as <- <- <-.
    + exists G. split; [done|]. split; [by apply Forall_insert|].
      apply (phase_closing G _ _ k (move Publishing t)); [apply list_lookup_insert_eq; by eapply lookup_lt_Some|by right|].
      intros j t2 Hj Hne. rewrite list_lookup_insert_ne in Hj by done. by apply (Hw j).
    + exists (S G). split; [by rewrite Hts, Hpt|].
      assert (∀ j t2, <[k := move Outside t]> l !! j = Some t2 → placed (S G) t2 ∧ quiet t2 ∧ waiting (S G) t2 = false) as Hall.
      { intros j t2 Hj. rewrite list_lookup_insert in Hj. case_decide as Hd; [destruct Hd as [-> _]; by injection Hj as <-|].
        assert (j ≠ k) as Hne by (intros ->; apply Hd; split; [done|by eapply lookup_lt_Some]).
        pose proof (Hw j t2 Hj Hne) as [Hs He]%waiting_true. destruct (Forall_lookup_1 _ _ _ _ Hpl Hj) as [Hts2 _].
        unfold placed, quiet, waiting. rewrite Hs, He. split; [split; [by rewrite Hts2, He|by left]|].
        split; [done|]. apply Nat.eqb_neq. lia. }
      split; [|apply phase_open]; [apply Forall_lookup; intros; by eapply Hall..| |lia].
      rewrite counted_none; [done|]. apply Forall_lookup. intros. by eapply Hall.
  - exists G. pose proof (Hw i t Hi Hne) as [Hs He]%waiting_true. unfold barrier in Hstep. rewrite Hs in Hstep.
    assert (Bool.eqb b (threadsense t) = false) as Eb by (rewrite Hts, He, odd_S, Hb; by destruct (Nat.odd G)).
    rewrite Eb in Hstep. injection Hstep as <- <- <-. rewrite list_insert_id by done.
    split; [done|]. split; [done|]. by apply (phase_closing G c l k tk).
Qed.

Lemma inv_step s s' : (0 < n)%nat → inv s → step (Z.of_nat n) s s' → inv s'.
Proof.
  intros Hn (Hlen & G & Hb & Hpl & Hph) [i t t' c b Hi Hstep]. destruct Hph as [Hq Hc Hlt|k tk Hk Hat Hw].
  - by apply (open_step G (count s) (sense s) (threads s) i t t').
  - by apply (closing_step G (count s) (sense s) (threads s) k tk i t t').
Qed.

Lemma barrier_inv s : (0 < n)%nat → rtc (step (Z.of_nat n)) (start n) s → inv s.
Proof.
  intros Hn Hr. pose proof (inv_start Hn) as H0. induction Hr as [|s1 s2 s3 Hs _ IH]; [done|].
  apply IH. by eapply inv_step.
Qed.
End Invariant.

(** C37 The sense-reversing barrier separates its rounds and does not block.  Under every
    interleaving of [n] threads that call barrier over and over, no call returns before every
    thread has counted itself in for that round; and whenever all threads are inside a call,
    one of them can make a step that is not just another look at the flag. *)
Theorem barrier_separates n s : (0 < n)%nat → rtc (step (Z.of_nat n)) (start n) s →
  (∀ i j ti tj, threads s !! i = Some ti → threads s !! j = Some tj → (passed ti ≤ arrived tj)%nat) ∧
  (Forall (λ t, at_ t ≠ Outside) (threads s) →
   ∃ i t t' c b, threads s !! i = Some t ∧ barrier (Z.of_nat n) t (count s) (sense s) = (t', c, b) ∧ t' ≠ t).
Proof.
  intros Hn Hr. pose proof (barrier_inv n s Hn Hr) as (Hlen & G & Hb & Hpl & Hph). split.
  - intros i j ti tj Hi Hj. pose proof (Forall_lookup_1 _ _ _ _ Hpl Hi) as [_ Hpi].
    pose proof (Forall_lookup_1 _ _ _ _ Hpl Hj) as [_ Hpj]. unfold passed, arrived. destruct (at_ ti), (at_ tj); lia.
  - intros Hin. destruct Hph as [Hq Hc Hlt|k tk Hk Hat Hw].
    + destruct (decide (Forall (λ t, waiting G t = true) (threads s))) as [Hall|Hno].
      { exfalso. rewrite counted_full in Hc by done. lia. }
      apply not_Forall_Exists in Hno; [|intros t; apply _]. apply Exists_exists in Hno as (t & Ht & Hw).
      apply list_elem_of_lookup in Ht as [i Hi]. pose proof (Forall_lookup_1 _ _ _ _ Hpl Hi) as [Hts Hpt].
      pose proof (Forall_lookup_1 _ _ _ _ Hin Hi) as Hno. pose proof (Forall_lookup_1 _ _ _ _ Hq Hi) as [Hn1 Hn2].
      exists i, t. unfold barrier, waiting in *. destruct (at_ t) eqn:Hat; try done.
      * eexists _, _, _. split; [done|]. split; [done|]. intros E. apply (f_equal at_) in E. simpl in E. rewrite Hat in E. by case_match.
      * assert (entered t = G) as He by (destruct Hpt as [|E]; [done|]; exfalso; apply Hw; cbv beta; rewrite Hat; by apply Nat.eqb_eq).
        assert (Bool.eqb (sense s) (threadsense t) = true) as -> by (rewrite Hts, He, Hb; by destruct (Nat.odd G)).
        eexists _, _, _. split; [done|]. split; [done|]. intros E. apply (f_equal at_) in E. simpl in E. by rewrite Hat in E.
    + exists k, tk. unfold barrier. destruct Hat as [[Hat _]|[Hat _]]; rewrite Hat; eexists _, _, _; (split; [done|split; [done|]]);
        intros E; apply (f_equal at_) in E; simpl in E; by rewrite Hat in E.
Qed.
End Barrier.

(** * Examples *)
Module Examples.
Import Barrier.

Definition run (ncores : Z) (schedule : list nat) (s : state) : state :=
  foldl (λ s i, match threads s !! i with
                | Some t => let '(t', c, b) := barrier ncores t (count s) (sense s) in State c b (<[i := t']> (threads s))
                | None => s
                end) s schedule.

Lemma run_steps ncores schedule s : rtc (step ncores) s (run ncores schedule s).
Proof.
  revert s. induction schedule as [|i schedule IH]; intros s; [constructor|]. simpl.
  destruct (threads s !! i) as [t|] eqn:Hi; [|apply IH].
  destruct (barrier ncores t (count s) (sense s)) as [[t' c] b] eqn:E. eapply rtc_l; [|apply IH]. by eapply step_thread.
Qed.

(** Two threads meet; the first one is already on its way to the next meeting when the second
    has not yet seen that it may leave. *)
Lemma barrier_separates_witness :
  let s := run 2 [0; 1; 1; 0; 0; 0; 0]%nat (start 2) in
  threads s = [Thread Arriving false 2; Thread Spinning true 1] ∧
  (∀ i j ti tj, threads s !! i = Some ti → threads s !! j = Some tj → (passed ti ≤ arrived tj)%nat).
Proof.
  split; [by vm_compute|]. apply (barrier_separates 2 (run 2 [0; 1; 1; 0; 0; 0; 0]%nat (start 2))); [lia|].
  apply run_steps.
Defined.

(** The arrays of the benchmark one after the other in memory. *)
Definition words (l : list Z) : list Z := concat (map (le_bytes 4) l).

Lemma words_length l : ZL (words l) = 4 * ZL l.
Proof. unfold words. induction l as [|x l IH]; [done|]. cbn [map concat]. rewrite length_app, length_le_bytes, Nat2Z.inj_add, IH. cbn [length]. lia. Qed.

Lemma words_ints m a l : Forall (λ v, - 2 ^ 31 ≤ v < 2 ^ 31) l → arr m a (words l) → ints m a l.
Proof.
  unfold words. revert a. induction l as [|x l IH]; intros a Hl Ha i v Hi; [done|]. apply Forall_cons in Hl as [Hx Hl].
  cbn [map concat] in Ha. apply arr_app in Ha as [Hh Ht]. rewrite length_le_bytes in Ht. destruct i as [|i]; simpl in Hi.
  - injection Hi as ->. rewrite Z.add_0_r. split; [by apply arr_mapped in Hh|].
    rewrite (rdw_arr _ _ (le_bytes 4 v)), le_val_bytes by (apply length_le_bytes || done).
    change (8 * Z.of_nat 4) with 32. unfold wraps. rewrite Zplus_mod_idemp_l. change (32 - 1) with 31.
    rewrite Z.mod_small by lia. lia.
  - replace (a + 4 * Z.of_nat (S i)) with (a + Z.of_nat 4 + 4 * Z.of_nat i) by lia. by apply IH.
Qed.

Definition zeroes : list Z := replicate 750 0.
Definition bench_mem : mem := mem_at (words input_data ++ words zeroes ++ words verify_data).

Lemma bench_arr : arr bench_mem 256 (words input_data ++ words zeroes ++ words verify_data).
Proof. exact (mem_at_arr _). Qed.

Lemma in_range l : forallb (λ v, (- 2 ^ 31 <=? v) && (v <? 2 ^ 31)) l = true → Forall (λ v, - 2 ^ 31 ≤ v < 2 ^ 31) l.
Proof. intros Hl. rewrite List.forallb_forall in Hl. apply List.Forall_forall. intros v Hv%Hl. lia. Qed.

#[local] Opaque bench_mem words.

Lemma bench_ints : ints bench_mem 256 input_data ∧ ints bench_mem 3256 zeroes ∧ ints bench_mem 6256 verify_data.
Proof.
  pose proof bench_arr as [H1 [H2 H3]%arr_app]%arr_app. rewrite words_length in H2, H3. rewrite words_length in H3.
  split; [|split]; (apply words_ints; [apply in_range; by vm_compute|]); [exact H1|exact H2|exact H3].
Qed.

Lemma bmark_verdict_witness :
  wp (bmark_round 1000 256 3256 6256) (λ good m',
    ints m' 3256 (filtered input_data) ∧ ints m' 256 input_data ∧ (good = true ↔ filtered input_data = verify_data) ∧
    (input_data = input_data → verify_data = verify_data → good = true)) bench_mem.
Proof.
  apply (bmark_verdict bench_mem 1000 256 3256 6256 input_data zeroes verify_data);
    [apply bench_ints|apply bench_ints|apply bench_ints|done|done|done|lia|..].
  - left. by vm_compute.
  - right. by vm_compute.
Defined.
End Examples.
