(* ===== verification/Dhrystone.v ===== *)
(** The Dhrystone benchmark (sw/kernels/dhrystone): dhrystone.c and dhrystone_main.c, and the
    values its report says the variables should have.  The records live in a heap, so that the
    two pointers may share them; a string is its contents, and strcpy and strcmp are what
    [LibcStr] proves of them; a parameter of pointer type is the load and the store through it. *)
From stdpp Require Import base list gmap fin_maps.
From Stdlib Require Import ZArith Lia.
From S2P Require Import Prelude Memory LibcMem LibcStr.

#[local] Open Scope Z_scope.

(** * dhrystone.h *)
Definition NUMBER_OF_RUNS : Z := 50000.

Definition Ident_1 : Z := 0.
Definition Ident_2 : Z := 1.
Definition Ident_3 : Z := 2.
Definition Ident_4 : Z := 3.
Definition Ident_5 : Z := 4.

(** The variant of the union that the program uses is var_1. *)
Record Rec_Type : Type := Rec {
  Ptr_Comp : Z;
  Discr : Z;
  Enum_Comp : Z;
  Int_Comp : Z;
  Str_Comp : list Z;
}.

(** * The variables: the globals, the records, and the locals of main *)
Record vars : Type := Vars {
  heap : gmap Z Rec_Type;
  Ptr_Glob : Z;
  Next_Ptr_Glob : Z;
  Int_Glob : Z;
  Bool_Glob : Z;
  Ch_1_Glob : Z;
  Ch_2_Glob : Z;
  Arr_1_Glob : list Z;
  Arr_2_Glob : list (list Z);
  Int_1_Loc : Z;
  Int_2_Loc : Z;
  Int_3_Loc : Z;
  Enum_Loc : Z;
  Str_1_Loc : list Z;
  Str_2_Loc : list Z;
}.

Definition set_heap x s := Vars x (Ptr_Glob s) (Next_Ptr_Glob s) (Int_Glob s) (Bool_Glob s) (Ch_1_Glob s) (Ch_2_Glob s) (Arr_1_Glob s) (Arr_2_Glob s) (Int_1_Loc s) (Int_2_Loc s) (Int_3_Loc s) (Enum_Loc s) (Str_1_Loc s) (Str_2_Loc s).
Definition set_Ptr_Glob x s := Vars (heap s) x (Next_Ptr_Glob s) (Int_Glob s) (Bool_Glob s) (Ch_1_Glob s) (Ch_2_Glob s) (Arr_1_Glob s) (Arr_2_Glob s) (Int_1_Loc s) (Int_2_Loc s) (Int_3_Loc s) (Enum_Loc s) (Str_1_Loc s) (Str_2_Loc s).
Definition set_Next_Ptr_Glob x s := Vars (heap s) (Ptr_Glob s) x (Int_Glob s) (Bool_Glob s) (Ch_1_Glob s) (Ch_2_Glob s) (Arr_1_Glob s) (Arr_2_Glob s) (Int_1_Loc s) (Int_2_Loc s) (Int_3_Loc s) (Enum_Loc s) (Str_1_Loc s) (Str_2_Loc s).
Definition set_Int_Glob x s := Vars (heap s) (Ptr_Glob s) (Next_Ptr_Glob s) x (Bool_Glob s) (Ch_1_Glob s) (Ch_2_Glob s) (Arr_1_Glob s) (Arr_2_Glob s) (Int_1_Loc s) (Int_2_Loc s) (Int_3_Loc s) (Enum_Loc s) (Str_1_Loc s) (Str_2_Loc s).
Definition set_Bool_Glob x s := Vars (heap s) (Ptr_Glob s) (Next_Ptr_Glob s) (Int_Glob s) x (Ch_1_Glob s) (Ch_2_Glob s) (Arr_1_Glob s) (Arr_2_Glob s) (Int_1_Loc s) (Int_2_Loc s) (Int_3_Loc s) (Enum_Loc s) (Str_1_Loc s) (Str_2_Loc s).
Definition set_Ch_1_Glob x s := Vars (heap s) (Ptr_Glob s) (Next_Ptr_Glob s) (Int_Glob s) (Bool_Glob s) x (Ch_2_Glob s) (Arr_1_Glob s) (Arr_2_Glob s) (Int_1_Loc s) (Int_2_Loc s) (Int_3_Loc s) (Enum_Loc s) (Str_1_Loc s) (Str_2_Loc s).
Definition set_Ch_2_Glob x s := Vars (heap s) (Ptr_Glob s) (Next_Ptr_Glob s) (Int_Glob s) (Bool_Glob s) (Ch_1_Glob s) x (Arr_1_Glob s) (Arr_2_Glob s) (Int_1_Loc s) (Int_2_Loc s) (Int_3_Loc s) (Enum_Loc s) (Str_1_Loc s) (Str_2_Loc s).
Definition set_Arr_1_Glob x s := Vars (heap s) (Ptr_Glob s) (Next_Ptr_Glob s) (Int_Glob s) (Bool_Glob s) (Ch_1_Glob s) (Ch_2_Glob s) x (Arr_2_Glob s) (Int_1_Loc s) (Int_2_Loc s) (Int_3_Loc s) (Enum_Loc s) (Str_1_Loc s) (Str_2_Loc s).
Definition set_Arr_2_Glob x s := Vars (heap s) (Ptr_Glob s) (Next_Ptr_Glob s) (Int_Glob s) (Bool_Glob s) (Ch_1_Glob s) (Ch_2_Glob s) (Arr_1_Glob s) x (Int_1_Loc s) (Int_2_Loc s) (Int_3_Loc s) (Enum_Loc s) (Str_1_Loc s) (Str_2_Loc s).
Definition set_Int_1_Loc x s := Vars (heap s) (Ptr_Glob s) (Next_Ptr_Glob s) (Int_Glob s) (Bool_Glob s) (Ch_1_Glob s) (Ch_2_Glob s) (Arr_1_Glob s) (Arr_2_Glob s) x (Int_2_Loc s) (Int_3_Loc s) (Enum_Loc s) (Str_1_Loc s) (Str_2_Loc s).
Definition set_Int_2_Loc x s := Vars (heap s) (Ptr_Glob s) (Next_Ptr_Glob s) (Int_Glob s) (Bool_Glob s) (Ch_1_Glob s) (Ch_2_Glob s) (Arr_1_Glob s) (Arr_2_Glob s) (Int_1_Loc s) x (Int_3_Loc s) (Enum_Loc s) (Str_1_Loc s) (Str_2_Loc s).
Definition set_Int_3_Loc x s := Vars (heap s) (Ptr_Glob s) (Next_Ptr_Glob s) (Int_Glob s) (Bool_Glob s) (Ch_1_Glob s) (Ch_2_Glob s) (Arr_1_Glob s) (Arr_2_Glob s) (Int_1_Loc s) (Int_2_Loc s) x (Enum_Loc s) (Str_1_Loc s) (Str_2_Loc s).
Definition set_Enum_Loc x s := Vars (heap s) (Ptr_Glob s) (Next_Ptr_Glob s) (Int_Glob s) (Bool_Glob s) (Ch_1_Glob s) (Ch_2_Glob s) (Arr_1_Glob s) (Arr_2_Glob s) (Int_1_Loc s) (Int_2_Loc s) (Int_3_Loc s) x (Str_1_Loc s) (Str_2_Loc s).
Definition set_Str_1_Loc x s := Vars (heap s) (Ptr_Glob s) (Next_Ptr_Glob s) (Int_Glob s) (Bool_Glob s) (Ch_1_Glob s) (Ch_2_Glob s) (Arr_1_Glob s) (Arr_2_Glob s) (Int_1_Loc s) (Int_2_Loc s) (Int_3_Loc s) (Enum_Loc s) x (Str_2_Loc s).
Definition set_Str_2_Loc x s := Vars (heap s) (Ptr_Glob s) (Next_Ptr_Glob s) (Int_Glob s) (Bool_Glob s) (Ch_1_Glob s) (Ch_2_Glob s) (Arr_1_Glob s) (Arr_2_Glob s) (Int_1_Loc s) (Int_2_Loc s) (Int_3_Loc s) (Enum_Loc s) (Str_1_Loc s) x.

Definition rd_rec (ptr : Z) : M vars Rec_Type := λ s,
  match heap s !! ptr with Some r => Ret (r, s) | None => Fault end.
Definition wr_rec (ptr : Z) (f : Rec_Type → Rec_Type) : M vars () :=
  r ← rd_rec ptr; modify (λ s, set_heap (<[ptr := f r]> (heap s)) s).

Definition with_Ptr_Comp x r := Rec x (Discr r) (Enum_Comp r) (Int_Comp r) (Str_Comp r).
Definition with_Discr x r := Rec (Ptr_Comp r) x (Enum_Comp r) (Int_Comp r) (Str_Comp r).
Definition with_Enum_Comp x r := Rec (Ptr_Comp r) (Discr r) x (Int_Comp r) (Str_Comp r).
Definition with_Int_Comp x r := Rec (Ptr_Comp r) (Discr r) (Enum_Comp r) x (Str_Comp r).
Definition with_Str_Comp x r := Rec (Ptr_Comp r) (Discr r) (Enum_Comp r) (Int_Comp r) x.

(** The arrays have 50 elements: no access is outside. *)
Definition rd_1 (i : Z) : M vars Z := λ s,
  match Arr_1_Glob s !! Z.to_nat i with Some v => if 0 <=? i then Ret (v, s) else Fault | None => Fault end.
Definition wr_1 (i v : Z) : M vars () :=
  rd_1 i;; modify (λ s, set_Arr_1_Glob (<[Z.to_nat i := v]> (Arr_1_Glob s)) s).
Definition rd_2 (i j : Z) : M vars Z := λ s,
  match Arr_2_Glob s !! Z.to_nat i with
  | Some row =>
      match row !! Z.to_nat j with Some v => if (0 <=? i) && (0 <=? j) then Ret (v, s) else Fault | None => Fault end
  | None => Fault
  end.
Definition wr_2 (i j v : Z) : M vars () :=
  rd_2 i j;; modify (λ s, set_Arr_2_Glob (alter (<[Z.to_nat j := v]>) (Z.to_nat i) (Arr_2_Glob s)) s).

Definition char_at (s : list Z) (i : Z) : M vars Z :=
  match (s ++ [0]) !! Z.to_nat i with Some c => mret c | None => fault end.

(** * dhrystone.c *)
Definition Func_1 (Ch_1_Par_Val Ch_2_Par_Val : Z) : M vars Z :=
  if negb (Ch_1_Par_Val =? Ch_2_Par_Val) then mret Ident_1
  else modify (set_Ch_1_Glob Ch_1_Par_Val);; mret Ident_2.

(** [garbage] is what the uninitialised Ch_Loc holds. *)
Definition Func_2 (garbage : Z) (Str_1_Par_Ref Str_2_Par_Ref : list Z) : M vars Z :=
  '(Int_Loc, Ch_Loc) ← loop (λ '(Int_Loc, Ch_Loc),
    if Int_Loc <=? 2 then
      a ← char_at Str_1_Par_Ref Int_Loc;
      b ← char_at Str_2_Par_Ref (Int_Loc + 1);
      f ← Func_1 a b;
      mret (inl (if f =? Ident_1 then (Int_Loc + 1, 65) else (Int_Loc, Ch_Loc)))
    else mret (inr (Int_Loc, Ch_Loc))) (2, garbage);
  let Int_Loc := if (87 <=? Ch_Loc) && (Ch_Loc <? 90) then 7 else Int_Loc in
  if Ch_Loc =? 82 then mret 1
  else if 0 <? str_diff id Str_1_Par_Ref Str_2_Par_Ref then
    modify (set_Int_Glob (Int_Loc + 7));; mret 1
  else mret 0.

Definition Func_3 (Enum_Par_Val : Z) : Z := if Enum_Par_Val =? Ident_3 then 1 else 0.

(** What a pointer parameter stands for. *)
Record ref : Type := Ref {
  load : M vars Z;
  store : Z → M vars ();
}.

Definition Proc_6 (Enum_Val_Par : Z) (Enum_Ref_Par : ref) : M vars () :=
  store Enum_Ref_Par Enum_Val_Par;;
  when (Func_3 Enum_Val_Par =? 0) (store Enum_Ref_Par Ident_4);;
  if Enum_Val_Par =? Ident_1 then store Enum_Ref_Par Ident_1
  else if Enum_Val_Par =? Ident_2 then
    g ← gets Int_Glob;
    store Enum_Ref_Par (if 100 <? g then Ident_1 else Ident_4)
  else if Enum_Val_Par =? Ident_3 then store Enum_Ref_Par Ident_2
  else if Enum_Val_Par =? Ident_4 then mret ()
  else if Enum_Val_Par =? Ident_5 then store Enum_Ref_Par Ident_3
  else mret ().

Definition Proc_7 (Int_1_Par_Val Int_2_Par_Val : Z) (Int_Par_Ref : ref) : M vars () :=
  let Int_Loc := s32 (Int_1_Par_Val + 2) in
  store Int_Par_Ref (s32 (Int_2_Par_Val + Int_Loc)).

(** Its array parameters are the two global arrays. *)
Definition Proc_8 (Int_1_Par_Val Int_2_Par_Val : Z) : M vars () :=
  let Int_Loc := s32 (Int_1_Par_Val + 5) in
  wr_1 Int_Loc Int_2_Par_Val;;
  v ← rd_1 Int_Loc; wr_1 (Int_Loc + 1) v;;
  wr_1 (Int_Loc + 30) Int_Loc;;
  for_from 2 Int_Loc (λ Int_Index, wr_2 Int_Loc Int_Index Int_Loc);;
  w ← rd_2 Int_Loc (Int_Loc - 1); wr_2 Int_Loc (Int_Loc - 1) (s32 (w + 1));;
  v ← rd_1 Int_Loc; wr_2 (Int_Loc + 20) Int_Loc v;;
  modify (set_Int_Glob 5).

(** * dhrystone_main.c *)
Definition field (ptr : Z) (get : Rec_Type → Z) (upd : Z → Rec_Type → Rec_Type) : ref :=
  Ref (r ← rd_rec ptr; mret (get r)) (λ v, wr_rec ptr (upd v)).
Definition local (get : vars → Z) (set : Z → vars → vars) : ref := Ref (gets get) (λ v, modify (set v)).

Definition Proc_3 (Ptr_Ref_Par : ref) : M vars () :=
  g ← gets Ptr_Glob;
  when (negb (g =? 0)) (r ← rd_rec g; store Ptr_Ref_Par (Ptr_Comp r));;
  n ← gets Int_Glob;
  g ← gets Ptr_Glob;
  Proc_7 10 n (field g Int_Comp with_Int_Comp).

Definition Proc_1 (Ptr_Val_Par : Z) : M vars () :=
  r ← rd_rec Ptr_Val_Par;
  let Next_Record := Ptr_Comp r in
  g ← gets Ptr_Glob; a ← rd_rec g; wr_rec (Ptr_Comp r) (λ _, a);;
  wr_rec Ptr_Val_Par (with_Int_Comp 5);;
  r ← rd_rec Ptr_Val_Par; wr_rec Next_Record (with_Int_Comp (Int_Comp r));;
  r ← rd_rec Ptr_Val_Par; wr_rec Next_Record (with_Ptr_Comp (Ptr_Comp r));;
  Proc_3 (field Next_Record Ptr_Comp with_Ptr_Comp);;
  n ← rd_rec Next_Record;
  if Discr n =? Ident_1 then
    wr_rec Next_Record (with_Int_Comp 6);;
    r ← rd_rec Ptr_Val_Par;
    Proc_6 (Enum_Comp r) (field Next_Record Enum_Comp with_Enum_Comp);;
    g ← gets Ptr_Glob; a ← rd_rec g; wr_rec Next_Record (with_Ptr_Comp (Ptr_Comp a));;
    n ← rd_rec Next_Record;
    Proc_7 (Int_Comp n) 10 (field Next_Record Int_Comp with_Int_Comp)
  else
    r ← rd_rec Ptr_Val_Par; a ← rd_rec (Ptr_Comp r); wr_rec Ptr_Val_Par (λ _, a).

(** [garbage] is what the uninitialised Enum_Loc holds. *)
Definition Proc_2 (garbage : Z) (Int_Par_Ref : ref) : M vars () :=
  v ← load Int_Par_Ref;
  loop (λ '(Int_Loc, Enum_Loc),
    c ← gets Ch_1_Glob;
    '(Int_Loc, Enum_Loc) ← (if c =? 65 then
      g ← gets Int_Glob;
      let Int_Loc := s32 (Int_Loc - 1) in
      store Int_Par_Ref (s32 (Int_Loc - g));;
      mret (Int_Loc, Ident_1)
    else mret (Int_Loc, Enum_Loc));
    mret (if negb (Enum_Loc =? Ident_1) then inl (Int_Loc, Enum_Loc) else inr ())) (s32 (v + 10), garbage).

Definition Proc_4 : M vars () :=
  c ← gets Ch_1_Glob;
  let Bool_Loc := Z.b2z (c =? 65) in
  b ← gets Bool_Glob;
  modify (set_Bool_Glob (Z.lor Bool_Loc b));;
  modify (set_Ch_2_Glob 66).

Definition Proc_5 : M vars () := modify (set_Ch_1_Glob 65);; modify (set_Bool_Glob 0).

(** DHRYSTONE PROGRAM, SOME STRING and the numbered strings. *)
Definition SOME_STRING : list Z :=
  [68; 72; 82; 89; 83; 84; 79; 78; 69; 32; 80; 82; 79; 71; 82; 65; 77; 44; 32; 83; 79; 77; 69; 32; 83; 84; 82; 73; 78; 71].
Definition STRING_1 : list Z :=
  [68; 72; 82; 89; 83; 84; 79; 78; 69; 32; 80; 82; 79; 71; 82; 65; 77; 44; 32; 49; 39; 83; 84; 32; 83; 84; 82; 73; 78; 71].
Definition STRING_2 : list Z :=
  [68; 72; 82; 89; 83; 84; 79; 78; 69; 32; 80; 82; 79; 71; 82; 65; 77; 44; 32; 50; 39; 78; 68; 32; 83; 84; 82; 73; 78; 71].
Definition STRING_3 : list Z :=
  [68; 72; 82; 89; 83; 84; 79; 78; 69; 32; 80; 82; 79; 71; 82; 65; 77; 44; 32; 51; 39; 82; 68; 32; 83; 84; 82; 73; 78; 71].

(** One round of the loop that is timed. *)
Definition dhry_run (garbage Run_Index : Z) : M vars () :=
  Proc_5;;
  Proc_4;;
  modify (set_Int_1_Loc 2);;
  modify (set_Int_2_Loc 3);;
  modify (set_Str_2_Loc STRING_2);;
  modify (set_Enum_Loc Ident_2);;
  s1 ← gets Str_1_Loc; s2 ← gets Str_2_Loc;
  f ← Func_2 garbage s1 s2;
  modify (set_Bool_Glob (Z.b2z (f =? 0)));;
  loop (λ _,
    i1 ← gets Int_1_Loc; i2 ← gets Int_2_Loc;
    if i1 <? i2 then
      modify (set_Int_3_Loc (s32 (5 * i1 - i2)));;
      Proc_7 i1 i2 (local Int_3_Loc set_Int_3_Loc);;
      modify (set_Int_1_Loc (s32 (i1 + 1)));;
      mret (inl ())
    else mret (inr ())) ();;
  i1 ← gets Int_1_Loc; i3 ← gets Int_3_Loc;
  Proc_8 i1 i3;;
  g ← gets Ptr_Glob;
  Proc_1 g;;
  loop (λ Ch_Index,
    c2 ← gets Ch_2_Glob;
    if Ch_Index <=? c2 then
      e ← gets Enum_Loc;
      f ← Func_1 Ch_Index 67;
      when (e =? f) (
        Proc_6 Ident_1 (local Enum_Loc set_Enum_Loc);;
        modify (set_Str_2_Loc STRING_3);;
        modify (set_Int_2_Loc Run_Index);;
        modify (set_Int_Glob Run_Index));;
      mret (inl (u8 (Ch_Index + 1)))
    else mret (inr ())) 65;;
  i1 ← gets Int_1_Loc; i2 ← gets Int_2_Loc; i3 ← gets Int_3_Loc;
  let i2 := s32 (i2 * i1) in
  i1 ← (if i3 =? 0 then fault else mret (s32 (Z.quot i2 i3)));
  let i2 := s32 (7 * s32 (i2 - i3) - i1) in
  modify (set_Int_1_Loc i1);;
  modify (set_Int_2_Loc i2);;
  Proc_2 garbage (local Int_1_Loc set_Int_1_Loc).

(** One round of the endless loop of main, the readings of the timer left out. *)
Definition main_pass (garbage Number_Of_Runs : Z) : M vars () :=
  g ← gets Ptr_Glob; n ← gets Next_Ptr_Glob;
  wr_rec g (with_Ptr_Comp n);;
  wr_rec g (with_Discr Ident_1);;
  wr_rec g (with_Enum_Comp Ident_3);;
  wr_rec g (with_Int_Comp 40);;
  wr_rec g (with_Str_Comp SOME_STRING);;
  modify (set_Str_1_Loc STRING_1);;
  wr_2 8 7 10;;
  for_from (Z.to_nat Number_Of_Runs) 1 (dhry_run garbage).

(** * The values of the report *)

(** What the report of main says the variables should be after [n] runs. *)
Record should_be (n : Z) (s : vars) : Prop := ShouldBe {
  sb_Int_Glob : Int_Glob s = 5;
  sb_Bool_Glob : Bool_Glob s = 1;
  sb_Ch_1_Glob : Ch_1_Glob s = 65;
  sb_Ch_2_Glob : Ch_2_Glob s = 66;
  sb_Arr_1_Glob : Arr_1_Glob s !! 8%nat = Some 7;
  sb_Arr_2_Glob : Arr_2_Glob s !! 8%nat ≫= (.!! 7%nat) = Some (n + 10);
  sb_Ptr_Glob : heap s !! Ptr_Glob s = Some (Rec (Next_Ptr_Glob s) 0 2 17 SOME_STRING);
  sb_Next_Ptr_Glob : heap s !! Next_Ptr_Glob s = Some (Rec (Next_Ptr_Glob s) 0 1 18 SOME_STRING);
  sb_Int_1_Loc : Int_1_Loc s = 5;
  sb_Int_2_Loc : Int_2_Loc s = 13;
  sb_Int_3_Loc : Int_3_Loc s = 7;
  sb_Enum_Loc : Enum_Loc s = 1;
  sb_Str_1_Loc : Str_1_Loc s = STRING_1;
  sb_Str_2_Loc : Str_2_Loc s = STRING_2;
}.

(** The two records exist and are two, and the arrays have their sizes. *)
Record set_up (s : vars) : Prop := SetUp {
  su_apart : Ptr_Glob s ≠ Next_Ptr_Glob s;
  su_nonzero : Ptr_Glob s ≠ 0;
  su_first : is_Some (heap s !! Ptr_Glob s);
  su_next : is_Some (heap s !! Next_Ptr_Glob s);
  su_arr_1 : length (Arr_1_Glob s) = 50%nat;
  su_arr_2 : length (Arr_2_Glob s) = 50%nat;
  su_rows : Forall (λ row, length row = 50%nat) (Arr_2_Glob s);
}.

(** Between two runs. *)
Record between (k : Z) (s : vars) : Prop := Between {
  bt_set_up : set_up s;
  bt_first : ∃ i, heap s !! Ptr_Glob s = Some (Rec (Next_Ptr_Glob s) 0 2 i SOME_STRING);
  bt_arr_2 : Arr_2_Glob s !! 8%nat ≫= (.!! 7%nat) = Some (k + 10);
  bt_str : Str_1_Loc s = STRING_1;
}.

Lemma wp_rd_rec ptr r Q s : heap s !! ptr = Some r → Q r s → wp (rd_rec ptr) Q s.
Proof. unfold wp, rd_rec. by intros ->. Qed.

Lemma wp_wr_rec ptr f r (Q : () → vars → Prop) s : heap s !! ptr = Some r →
  Q () (set_heap (<[ptr := f r]> (heap s)) s) → wp (wr_rec ptr f) Q s.
Proof. intros Hr HQ. unfold wr_rec. apply wp_bind. eapply wp_rd_rec; [done|]. by apply wp_modify. Qed.

(** Running the straight-line parts. *)
Ltac drun := repeat first
  [ wp_pure; simpl
  | eapply wp_rd_rec; [simpl; by simplify_map_eq|]; simpl
  | eapply wp_wr_rec; [simpl; by simplify_map_eq|]; simpl
  | match goal with
    | |- wp (if ?b then _ else _) _ _ =>
        let v := eval vm_compute in b in
        match v with true => change b with true | false => change b with false end; cbv iota
    end ].

(** Proc_1 on the first record. *)
Lemma Proc_1_spec s i : set_up s → heap s !! Ptr_Glob s = Some (Rec (Next_Ptr_Glob s) 0 2 i SOME_STRING) → Int_Glob s = 5 →
  wp (Proc_1 (Ptr_Glob s)) (λ _ s', ∃ h, s' = set_heap h s ∧
    h !! Ptr_Glob s = Some (Rec (Next_Ptr_Glob s) 0 2 17 SOME_STRING) ∧
    h !! Next_Ptr_Glob s = Some (Rec (Next_Ptr_Glob s) 0 1 18 SOME_STRING)) s.
Proof.
  intros [Hne Hnz _ [b Hb] _ _ _] Ha Hg. destruct s as [h P N g bg c1 c2 a1 a2 l1 l2 l3 e s1 s2]. simpl in *. subst g.
  unfold Proc_1, Proc_3, Proc_6, Proc_7, field, when. drun.
  rewrite (proj2 (Z.eqb_neq P 0)) by done. simpl. drun. eexists. split; [reflexivity|]. by simplify_map_eq.
Qed.

Lemma Func_2_eq g s : Func_2 g STRING_1 STRING_2 s = Ret (0, s).
Proof. by vm_compute. Qed.

(** The arrays. *)
Lemma wp_rd_1 i v Q s : 0 ≤ i → Arr_1_Glob s !! Z.to_nat i = Some v → Q v s → wp (rd_1 i) Q s.
Proof. unfold wp, rd_1. intros Hi ->. by rewrite (proj2 (Z.leb_le 0 i)). Qed.

Lemma wp_wr_1 i v (Q : () → vars → Prop) s : 0 ≤ i → (Z.to_nat i < length (Arr_1_Glob s))%nat →
  Q () (set_Arr_1_Glob (<[Z.to_nat i := v]> (Arr_1_Glob s)) s) → wp (wr_1 i v) Q s.
Proof.
  intros Hi Hl HQ. destruct (lookup_lt_is_Some_2 _ _ Hl) as [x Hx]. apply wp_bind. eapply wp_rd_1; [done|done|].
  by apply wp_modify.
Qed.

Definition at_2 (a : list (list Z)) (i j : nat) : option Z := a !! i ≫= (.!! j).
Definition square (a : list (list Z)) : Prop := length a = 50%nat ∧ Forall (λ row, length row = 50%nat) a.
Definition put_2 (i j : nat) (v : Z) (a : list (list Z)) : list (list Z) := alter (<[j := v]>) i a.

Lemma at_2_some a i j : square a → (i < 50)%nat → (j < 50)%nat → is_Some (at_2 a i j).
Proof.
  intros [Hl Hr] Hi Hj. unfold at_2. destruct (lookup_lt_is_Some_2 a i ltac:(lia)) as [row Hrow]. rewrite Hrow. simpl.
  apply lookup_lt_is_Some_2. by rewrite (Forall_lookup_1 _ _ _ _ Hr Hrow).
Qed.

Lemma put_2_square a i j v : square a → square (put_2 i j v a).
Proof.
  intros [Hl Hr]. split; [by unfold put_2; rewrite length_alter|]. apply Forall_lookup. intros k row Hk. unfold put_2 in Hk.
  destruct (decide (k = i)) as [->|Hne].
  - rewrite list_lookup_alter_eq in Hk. destruct (a !! i) as [row0|] eqn:E; [|done]. injection Hk as <-.
    rewrite length_insert. by apply (Forall_lookup_1 _ _ _ _ Hr E).
  - rewrite list_lookup_alter_ne in Hk by done. by apply (Forall_lookup_1 _ _ _ _ Hr Hk).
Qed.

Lemma at_put_2 a i j v i' j' : square a → (i < 50)%nat → (j < 50)%nat →
  at_2 (put_2 i j v a) i' j' = if decide (i' = i ∧ j' = j) then Some v else at_2 a i' j'.
Proof.
  intros [Hl Hr] Hi Hj. unfold at_2, put_2. destruct (lookup_lt_is_Some_2 a i ltac:(lia)) as [row Hrow].
  pose proof (Forall_lookup_1 _ _ _ _ Hr Hrow) as Hrl. simpl in Hrl. destruct (decide (i' = i)) as [->|Hne].
  - rewrite list_lookup_alter_eq, Hrow. simpl. destruct (decide (j' = j)) as [->|Hne].
    + rewrite decide_True by done. apply list_lookup_insert_eq. lia.
    + rewrite decide_False by naive_solver. by apply list_lookup_insert_ne.
  - rewrite list_lookup_alter_ne by done. by rewrite decide_False by naive_solver.
Qed.

Lemma wp_rd_2 i j v Q s : 0 ≤ i → 0 ≤ j → at_2 (Arr_2_Glob s) (Z.to_nat i) (Z.to_nat j) = Some v → Q v s → wp (rd_2 i j) Q s.
Proof.
  unfold wp, rd_2, at_2. intros Hi Hj Hv HQ. destruct (Arr_2_Glob s !! Z.to_nat i) as [row|]; [|done]. simpl in Hv.
  by rewrite Hv, (proj2 (Z.leb_le 0 i)), (proj2 (Z.leb_le 0 j)).
Qed.

Lemma wp_wr_2 i j v (Q : () → vars → Prop) s : 0 ≤ i < 50 → 0 ≤ j < 50 → square (Arr_2_Glob s) →
  Q () (set_Arr_2_Glob (put_2 (Z.to_nat i) (Z.to_nat j) v (Arr_2_Glob s)) s) → wp (wr_2 i j v) Q s.
Proof.
  intros Hi Hj Hs HQ. destruct (at_2_some _ (Z.to_nat i) (Z.to_nat j) Hs ltac:(lia) ltac:(lia)) as [x Hx]. apply wp_bind.
  eapply wp_rd_2; [lia|lia|done|]. by apply wp_modify.
Qed.

(** Proc_8 as main calls it. *)
Lemma Proc_8_spec s w : length (Arr_1_Glob s) = 50%nat → square (Arr_2_Glob s) → at_2 (Arr_2_Glob s) 8 7 = Some w →
  wp (Proc_8 3 7) (λ _ s', ∃ a1 a2, s' = set_Int_Glob 5 (set_Arr_2_Glob a2 (set_Arr_1_Glob a1 s)) ∧
    length a1 = 50%nat ∧ square a2 ∧ a1 !! 8%nat = Some 7 ∧ at_2 a2 8 7 = Some (s32 (w + 1))) s.
Proof.
  intros H1 H2 Hw. unfold Proc_8. change (s32 (3 + 5)) with 8. cbv zeta.
  apply wp_bind, wp_wr_1; [done|simpl; lia|]. apply wp_bind. eapply wp_rd_1; [done|simpl; by apply list_lookup_insert_eq; lia|].
  apply wp_bind, wp_wr_1; [done|simpl; rewrite length_insert; lia|].
  apply wp_bind, wp_wr_1; [done|simpl; rewrite !length_insert; lia|].
  apply wp_bind. simpl for_from. apply wp_bind, wp_wr_2; [lia|lia|done|]. apply wp_bind, wp_wr_2; [lia|lia|by apply put_2_square|].
  apply wp_ret. simpl. change (Z.to_nat 8) with 8%nat. change (Z.to_nat (8 + 1)) with 9%nat.
  change (Z.to_nat (8 + 30)) with 38%nat. set (a1 := <[38%nat := 8]> (<[9%nat := 7]> (<[8%nat := 7]> (Arr_1_Glob s)))).
  set (a2 := put_2 8 9 8 (put_2 8 8 8 (Arr_2_Glob s))).
  assert (square a2) as Hs2 by (by apply put_2_square, put_2_square).
  assert (at_2 a2 8 7 = Some w) as Hw2.
  { subst a2. rewrite at_put_2, decide_False by (try lia; by apply put_2_square). rewrite at_put_2, decide_False by (done || lia). done. }
  assert (a1 !! 8%nat = Some 7) as Ha.
  { subst a1. rewrite !list_lookup_insert_ne by done. by apply list_lookup_insert_eq; lia. }
  apply wp_bind. eapply wp_rd_2; [done|done|exact Hw2|]. apply wp_bind, wp_wr_2; [lia|lia|done|].
  apply wp_bind. eapply wp_rd_1; [done|exact Ha|]. apply wp_bind, wp_wr_2; [lia|lia|by apply put_2_square|]. apply wp_modify.
  exists a1, (put_2 28 8 7 (put_2 8 7 (s32 (w + 1)) a2)). split; [reflexivity|]. split; [subst a1; by rewrite !length_insert|]. split; [by apply put_2_square, put_2_square|].
  split; [done|]. rewrite at_put_2, decide_False by (try lia; by apply put_2_square).
  by rewrite at_put_2, decide_True by (done || lia).
Qed.

(** ** One run *)
Ltac dloop n := apply wp_bind; apply (wp_loop_run n); [done|]; simpl.

Lemma run_spec g r k s : between k s → 0 ≤ k < 2 ^ 31 - 11 →
  wp (dhry_run g r) (λ _ s', set_up s' ∧ should_be (k + 1) s') s.
Proof.
  intros [[Hne Hnz Hf [b Hb] H1 H2 H3] [i Ha] Harr Hstr] Hk. destruct s as [h P N gl bg c1 c2 a1 a2 l1 l2 l3 e s1 s2]. simpl in *. subst s1.
  unfold dhry_run, Proc_5, Proc_4, Proc_2, Proc_7, local. drun. eapply wp_eq; [apply Func_2_eq|]. drun.
  apply (wp_loop_run 2); [done|]. simpl. drun. 
  change (s32 (2 + 1)) with 3. change (s32 (3 + s32 (2 + 2))) with 7.
  eapply wp_mono; [apply (Proc_8_spec _ (k + 10)); [done|by split|exact Harr]|].
  intros ? ? (a1' & a2' & -> & Hl1 & [Hs1 Hs2] & Ha1 & Ha2). drun.
  match goal with |- wp (Proc_1 P) _ ?s => pose proof (Proc_1_spec s i) as HP end. simpl in HP.
  eapply wp_mono; [apply HP; [split; simpl; (done || by eexists)|done|done]|]. clear HP.
  intros ? ? (h' & -> & Hp & Hn). apply wp_bind, (wp_loop_run 3); [done|]. simpl. unfold Func_1, when. drun.
  apply (wp_loop_run 1); [done|]. simpl. drun.
  unfold at_2 in Ha2. rewrite wraps_small in Ha2 by lia.
  replace (k + 10 + 1) with (k + 1 + 10) in Ha2 by lia.
  split; [split|split]; simpl; try done; by eexists.
Qed.

Lemma should_be_between n s : set_up s → should_be n s → between n s.
Proof. intros Hs []. split; [done|by eexists|done|done]. Qed.

(** C39 Dhrystone computes the values of its report.  Whatever the variables held before, as long
    as the two records exist, are two, and the arrays have their sizes, a pass of main's loop
    with at least one run ends, and then every variable has the value that the report says it
    should have, Arr_2_Glob[8][7] the number of runs plus ten. *)
Theorem main_pass_should_be garbage n s : set_up s → 1 ≤ n < 2 ^ 31 - 11 →
  wp (main_pass garbage n) (λ _ s', set_up s' ∧ should_be n s') s.
Proof.
  intros Hs Hn. pose proof Hs as [Hne Hnz [a Ha] [b Hb] H1 H2 H3].
  eapply (wp_mono _ (λ _ s', between n s' ∧ set_up s' ∧ should_be n s')); [|by intros ? ? [_ ?]]. unfold main_pass. drun.
  assert (square (Arr_2_Glob s)) as Hsq by (by split).
  eapply wp_wr_2; [lia|lia|exact Hsq|]. set (s0 := set_Arr_2_Glob _ _).
  assert (between 0 s0) as Hb0.
  { pose proof (put_2_square _ 8 7 10 Hsq) as [Hl Hr]. split; [split|..]; simpl; try done; try (eexists; by simplify_map_eq).
    pose proof (at_put_2 (Arr_2_Glob s) 8 7 10 8 7 Hsq ltac:(lia) ltac:(lia)) as E.
    rewrite decide_True in E by done. exact E. }
  apply (wp_for_from (λ j s', between (j - 1) s' ∧ (1 < j → set_up s' ∧ should_be (j - 1) s'))).
  - split; [done|lia].
  - intros j s1 Hj [Hb1 _]. eapply wp_mono; [apply (run_spec garbage j (j - 1) s1 Hb1); lia|].
    intros ? s2 [Hs2 Hsb]. replace (j - 1 + 1) with (j + 1 - 1) in Hsb by lia. split; [by apply should_be_between|done].
  - intros s1 [Hb1 Hsb]. rewrite Z2Nat.id in Hb1, Hsb by lia. replace (1 + n - 1) with n in * by lia.
    split; [done|]. apply Hsb. lia.
Qed.

(** Both records at rest, the variables zero as the loader leaves them. *)
Definition zeroed : vars :=
  Vars {[ 100 := Rec 0 0 0 0 []; 200 := Rec 0 0 0 0 [] ]} 100 200 0 0 0 0 (replicate 50 0) (replicate 50 (replicate 50 0))
    0 0 0 0 [] [].

Lemma main_pass_should_be_witness :
  wp (main_pass 0 NUMBER_OF_RUNS) (λ _ s', set_up s' ∧ should_be NUMBER_OF_RUNS s') zeroed.
Proof.
  apply (main_pass_should_be 0 NUMBER_OF_RUNS zeroed); [|done].
  split; [done|done|by eexists|by eexists|done|done|]. by apply Forall_replicate.
Defined.
