(* ===== verification/DebugPort.v ===== *)
(** The bit-banged debug port of the CC2541 programmer (tools/RPI/CC2541-programmer/debug.h):
    its functions over the GPIO calls of the bcm2835 library, the wire protocol of a debug
    target as a state machine, and the refinement of the port's functions to whole commands
    that a target executes. *)
From stdpp Require Import base list strings.
From Stdlib Require Import ZArith Lia.
From S2P Require Import Prelude Memory.

#[local] Open Scope Z_scope.

(** * The pins *)

Inductive fsel : Type := INPT | OUTP.

(** What debug.h uses of the bcm2835 library, on a world [W] the pins are connected to. *)
Class Bcm2835 (W : Type) : Type := {
  bcm2835_init : W → Z * W;
  bcm2835_close : W → W;
  bcm2835_gpio_fsel : Z → fsel → W → W;
  bcm2835_gpio_set : Z → W → W;
  bcm2835_gpio_clr : Z → W → W;
  bcm2835_gpio_lev : Z → W → Z;
}.

(** The program's state: the world behind its pins, and the lines it has printed. *)
Record prog (W : Type) : Type := Prog {
  port : W;
  printed : list string;
}.
Arguments Prog {W}.
Arguments port {W}.
Arguments printed {W}.

Definition host_puts {W} (line : string) : M (prog W) () :=
  modify (λ s, Prog (port s) (printed s ++ [line])).

(** * debug.h: constants *)
Definition ADDR_BUF0 : Z := 0x0000.
Definition ADDR_DMA_DESC_0 : Z := 0x0200.
Definition ADDR_DMA_DESC_1 : Z := ADDR_DMA_DESC_0 + 8.
Definition CH_DBG_TO_BUF0 : Z := 0x01.
Definition CH_BUF0_TO_FLASH : Z := 0x02.
Definition CMD_CHIP_ERASE : Z := 0x10.
Definition CMD_WR_CONFIG : Z := 0x19.
Definition CMD_READ_STATUS : Z := 0x30.
Definition CMD_DEBUG_INSTR_1B : Z := Z.lor 0x54 1.
Definition CMD_DEBUG_INSTR_2B : Z := Z.lor 0x54 2.
Definition CMD_DEBUG_INSTR_3B : Z := Z.lor 0x54 3.
Definition CMD_BURST_WRITE : Z := 0x80.
Definition CMD_GET_CHIP_ID : Z := 0x68.
Definition STATUS_CHIP_ERASE_BUSY_BM : Z := 0x80.
Definition STATUS_DEBUG_LOCKED_BM : Z := 0x04.
Definition DUP_DBGDATA : Z := 0x6260.
Definition DUP_FCTL : Z := 0x6270.
Definition DUP_FADDRL : Z := 0x6271.
Definition DUP_FADDRH : Z := 0x6272.
Definition DUP_FWDATA : Z := 0x6273.
Definition DUP_MEMCTR : Z := 0x70C7.
Definition DUP_DMA1CFGL : Z := 0x70D2.
Definition DUP_DMA1CFGH : Z := 0x70D3.
Definition DUP_DMA0CFGL : Z := 0x70D4.
Definition DUP_DMA0CFGH : Z := 0x70D5.
Definition DUP_DMAARM : Z := 0x70D6.
Definition MPIN_RESET_N : Z := 17.
Definition MPIN_DD : Z := 27.
Definition MPIN_DC : Z := 22.

Definition LOBYTE (w : Z) : Z := u8 w.
Definition HIBYTE (w : Z) : Z := u8 (Z.land (Z.shiftr (u16 w) 8) 0xFF).

Definition dma_desc_0 : list Z :=
  [HIBYTE DUP_DBGDATA; LOBYTE DUP_DBGDATA; HIBYTE ADDR_BUF0; LOBYTE ADDR_BUF0; 0; 0; 31; 0x11].
Definition dma_desc_1 : list Z :=
  [HIBYTE ADDR_BUF0; LOBYTE ADDR_BUF0; HIBYTE DUP_FWDATA; LOBYTE DUP_FWDATA; 0; 0; 18; 0x42].

(** * debug.h: functions *)
Section Port.
Context {W : Type} `{Bcm2835 W}.

Definition on_port (f : W → W) : M (prog W) () := modify (λ s, Prog (f (port s)) (printed s)).
Definition gpio_fsel (pin : Z) (f : fsel) : M (prog W) () := on_port (bcm2835_gpio_fsel pin f).
Definition gpio_set (pin : Z) : M (prog W) () := on_port (bcm2835_gpio_set pin).
Definition gpio_clr (pin : Z) : M (prog W) () := on_port (bcm2835_gpio_clr pin).
Definition gpio_lev (pin : Z) : M (prog W) Z := gets (λ s, bcm2835_gpio_lev pin (port s)).

(** [garbage] is what an indeterminate value happens to be: that of the local [data] of
    read_debug_byte and that of programmer_init, which falls off its end. *)
Variable garbage : Z.

Definition prog_delay : M (prog W) () :=
  loop (λ i, if i <? 1000 then mret (inl (i + 1)) else mret (inr ())) 0.

Definition programmer_init (dd dc reset_n : Z) : M (prog W) Z :=
  s ← get_st;
  let '(ok, w) := bcm2835_init (port s) in
  put_st (Prog w (printed s));;
  if ok =? 0 then
    host_puts "bcm2835_init error";;
    mret (-1)
  else
    gpio_fsel MPIN_DD INPT;;
    gpio_fsel MPIN_DC OUTP;;
    gpio_fsel MPIN_RESET_N OUTP;;
    mret garbage.

Definition programmer_close : M (prog W) () := on_port bcm2835_close.

Definition write_debug_byte (data : Z) : M (prog W) () :=
  gpio_fsel MPIN_DD OUTP;;
  loop (λ '(i, data),
    if i <? 8 then
      gpio_set MPIN_DC;;
      prog_delay;;
      (if Z.land data 0x80 =? 0 then gpio_clr MPIN_DD else gpio_set MPIN_DD);;
      prog_delay;;
      gpio_clr MPIN_DC;;
      prog_delay;;
      mret (inl (i + 1, u8 (Z.shiftl data 1)))
    else mret (inr ())) (0, data).

Definition read_debug_byte : M (prog W) Z :=
  gpio_fsel MPIN_DD INPT;;
  loop (λ '(i, data),
    if i <? 8 then
      gpio_set MPIN_DC;;
      prog_delay;;
      lev ← gpio_lev MPIN_DD;
      prog_delay;;
      gpio_clr MPIN_DC;;
      prog_delay;;
      mret (inl (i + 1, u8 (Z.lor (u8 (Z.shiftl data 1)) lev)))
    else mret (inr data)) (0, garbage).

Definition wait_dup_ready : M (prog W) Z :=
  gpio_fsel MPIN_DD INPT;;
  loop (λ count,
    lev ← gpio_lev MPIN_DD;
    if negb (lev =? 0) && (count <? 16) then
      read_debug_byte;;
      mret (inl (u8 (count + 1)))
    else mret (inr (if count =? 16 then 0 else 1))) 0.

(** [p[i]] of an array of bytes that is only read. *)
Definition at_ (p : list Z) (i : Z) : M (prog W) Z :=
  match p !! Z.to_nat i with Some b => mret b | None => fault end.

(** [for (i = 0; i < n; i++) write_debug_byte(p[i]);] *)
Definition write_bytes (p : list Z) (n : Z) : M (prog W) () :=
  for_upto n (λ i, b ← at_ p i; write_debug_byte b).

Definition debug_command (cmd : Z) (cmd_bytes : list Z) (num_cmd_bytes : Z) : M (prog W) Z :=
  write_debug_byte cmd;;
  write_bytes cmd_bytes num_cmd_bytes;;
  wait_dup_ready;;
  read_debug_byte.

Definition debug_init : M (prog W) () :=
  gpio_fsel MPIN_DD OUTP;;
  gpio_clr MPIN_DD;;
  gpio_clr MPIN_DC;;
  gpio_clr MPIN_RESET_N;;
  prog_delay;;
  gpio_set MPIN_DC;;
  prog_delay;;
  gpio_clr MPIN_DC;;
  prog_delay;;
  gpio_set MPIN_DC;;
  prog_delay;;
  gpio_clr MPIN_DC;;
  prog_delay;;
  gpio_set MPIN_RESET_N;;
  prog_delay.

Definition read_status : M (prog W) Z :=
  write_debug_byte CMD_READ_STATUS;;
  ready ← wait_dup_ready;
  when (ready =? 0) (host_puts "not ready");;
  read_debug_byte.

Definition read_chip_id : M (prog W) Z :=
  write_debug_byte CMD_GET_CHIP_ID;;
  ready ← wait_dup_ready;
  when (ready =? 0) (host_puts "not ready");;
  id ← read_debug_byte;
  read_debug_byte;;
  mret id.

Definition burst_write_block (src : list Z) (num_bytes : Z) : M (prog W) () :=
  write_debug_byte (Z.lor CMD_BURST_WRITE (HIBYTE num_bytes));;
  write_debug_byte (LOBYTE num_bytes);;
  write_bytes src num_bytes;;
  wait_dup_ready;;
  read_debug_byte;;
  mret ().

Definition chip_erase : M (prog W) () :=
  debug_command CMD_CHIP_ERASE [] 0;;
  loop (λ _,
    status ← debug_command CMD_READ_STATUS [] 0;
    if Z.land status STATUS_CHIP_ERASE_BUSY_BM =? 0 then mret (inr ()) else mret (inl ())) ().

(** The array [instr] of the functions below is given by the bytes a command takes of it. *)
Definition mov_dptr (address : Z) : M (prog W) Z :=
  debug_command CMD_DEBUG_INSTR_3B [0x90; HIBYTE address; LOBYTE address] 3.
Definition mov_a (value : Z) : M (prog W) Z := debug_command CMD_DEBUG_INSTR_2B [0x74; value] 2.
Definition movx_dptr_a : M (prog W) Z := debug_command CMD_DEBUG_INSTR_1B [0xF0] 1.
Definition movx_a_dptr : M (prog W) Z := debug_command CMD_DEBUG_INSTR_1B [0xE0] 1.
Definition inc_dptr : M (prog W) Z := debug_command CMD_DEBUG_INSTR_1B [0xA3] 1.

Definition write_xdata_memory_block (address : Z) (values : list Z) (num_bytes : Z) : M (prog W) () :=
  mov_dptr address;;
  for_upto num_bytes (λ i,
    b ← at_ values i;
    mov_a b;;
    movx_dptr_a;;
    inc_dptr;;
    mret ()).

Definition write_xdata_memory (address value : Z) : M (prog W) () :=
  mov_dptr address;;
  mov_a value;;
  movx_dptr_a;;
  mret ().

Definition read_xdata_memory (address : Z) : M (prog W) Z :=
  mov_dptr address;;
  movx_a_dptr.

(** The bytes stored in [values]. *)
Definition read_flash_memory_block (bank flash_addr num_bytes : Z) : M (prog W) (list Z) :=
  let xdata_addr := u16 (0x8000 + flash_addr) in
  write_xdata_memory DUP_MEMCTR bank;;
  mov_dptr xdata_addr;;
  loop (λ '(i, values),
    if i <? num_bytes then
      b ← movx_a_dptr;
      inc_dptr;;
      mret (inl (i + 1, values ++ [b]))
    else mret (inr values)) (0, []).

Definition write_flash_memory_block (src : list Z) (start_addr num_bytes : Z) : M (prog W) () :=
  write_xdata_memory_block ADDR_DMA_DESC_0 dma_desc_0 8;;
  write_xdata_memory_block ADDR_DMA_DESC_1 dma_desc_1 8;;
  let len := [HIBYTE num_bytes; LOBYTE num_bytes] in
  write_xdata_memory_block (ADDR_DMA_DESC_0 + 4) len 2;;
  write_xdata_memory_block (ADDR_DMA_DESC_1 + 4) len 2;;
  write_xdata_memory DUP_DMA0CFGH (HIBYTE ADDR_DMA_DESC_0);;
  write_xdata_memory DUP_DMA0CFGL (LOBYTE ADDR_DMA_DESC_0);;
  write_xdata_memory DUP_DMA1CFGH (HIBYTE ADDR_DMA_DESC_1);;
  write_xdata_memory DUP_DMA1CFGL (LOBYTE ADDR_DMA_DESC_1);;
  write_xdata_memory DUP_FADDRH (HIBYTE (Z.shiftr start_addr 2));;
  write_xdata_memory DUP_FADDRL (LOBYTE (Z.shiftr start_addr 2));;
  write_xdata_memory DUP_DMAARM CH_DBG_TO_BUF0;;
  burst_write_block src num_bytes;;
  write_xdata_memory DUP_DMAARM CH_BUF0_TO_FLASH;;
  write_xdata_memory DUP_FCTL 0x06;;
  loop (λ _,
    fctl ← read_xdata_memory DUP_FCTL;
    if Z.land fctl 0x80 =? 0 then mret (inr ()) else mret (inl ())) ().
End Port.

(** * The wire protocol of a debug target

    Debug mode is entered by two falling edges of DC while RESET_N is low.  In it the target
    samples DD at every falling edge of DC and collects commands, most significant bit
    first.  When a command is complete the target executes it and answers: it holds DD high
    for a number of bytes, the lag, then pulls it low, and presents a bit of the answer at every rising edge. *)
Class DebugTarget (C : Type) : Type := {
  exec : list Z → C → list Z * C;
  lag : list Z → C → nat;
}.

(** The length of a command that starts with these bytes, once they determine it. *)
Definition expected (bytes : list Z) : option Z :=
  match bytes with
  | [] => None
  | c :: rest =>
      if Z.land c 0xF8 =? 0x80 then
        match rest with
        | [] => None
        | lo :: _ => Some (2 + (256 * Z.land c 7 + lo))
        end
      else if (Z.land c 0xFC =? 0x54) && negb (Z.land c 3 =? 0) then Some (1 + Z.land c 3)
      else if c =? 0x19 then Some 2
      else Some 1
  end.
Definition complete (bytes : list Z) : bool :=
  match expected bytes with Some n => ZL bytes =? n | None => false end.

Definition bits_of (b : Z) : list bool := map (Z.testbit b) [7; 6; 5; 4; 3; 2; 1; 0].
Definition byte_of (bits : list bool) : Z := fold_left (λ a b, 2 * a + Z.b2z b) bits 0.

Inductive phase : Type :=
  | Command (bits : list bool) (bytes : list Z)
  | Reply (lag clocks : nat) (bits : list bool) (level : bool).

Inductive mode : Type :=
  | Running
  | Held (falls : nat)
  | Debugging (p : phase).

Record wire (C : Type) : Type := Wire {
  host_drives : bool;
  dd : bool;
  dc : bool;
  w_mode : mode;
  chip : C;
}.
Arguments Wire {C}.
Arguments host_drives {C}.
Arguments dd {C}.
Arguments dc {C}.
Arguments w_mode {C}.
Arguments chip {C}.

Section Target.
Context {C : Type} `{DebugTarget C}.

(** A line nobody drives is pulled up. *)
Definition level (w : wire C) : bool :=
  if host_drives w then dd w
  else match w_mode w with
       | Debugging (Reply O _ _ l) => l
       | _ => true
       end.

Definition receive (bytes : list Z) (c : C) : phase * C :=
  if complete bytes then
    let '(out, c') := exec bytes c in
    (Reply (lag bytes c) 0 (concat (map bits_of out)) false, c')
  else (Command [] bytes, c).

Definition fall (w : wire C) : wire C :=
  let stay p := Wire (host_drives w) (dd w) false p (chip w) in
  match w_mode w with
  | Running => stay Running
  | Held n => stay (Held (S n))
  | Debugging (Command bits bytes) =>
      let bits := bits ++ [level w] in
      if ZL bits =? 8 then
        let '(p, c) := receive (bytes ++ [byte_of bits]) (chip w) in
        Wire (host_drives w) (dd w) false (Debugging p) c
      else stay (Debugging (Command bits bytes))
  | Debugging (Reply (S n) k bits l) =>
      stay (Debugging (if Nat.eqb k 7 then Reply n 0 bits l else Reply (S n) (S k) bits l))
  | Debugging (Reply O k [] l) => stay (Debugging (Command [] []))
  | Debugging (Reply O k bits l) => stay (Debugging (Reply O k bits l))
  end.

Definition rise (w : wire C) : wire C :=
  let stay p := Wire (host_drives w) (dd w) true p (chip w) in
  match w_mode w with
  | Debugging (Reply O k (b :: bits) _) => stay (Debugging (Reply O k bits b))
  | p => stay p
  end.

Definition drive (b : bool) (w : wire C) : wire C := Wire (host_drives w) b (dc w) (w_mode w) (chip w).

Definition reset (b : bool) (w : wire C) : wire C :=
  let go p := Wire (host_drives w) (dd w) (dc w) p (chip w) in
  if b then
    match w_mode w with
    | Held 2 => go (Debugging (Command [] []))
    | Held _ => go Running
    | p => go p
    end
  else go (Held 0).

Definition set_pin (pin : Z) (b : bool) (w : wire C) : wire C :=
  if pin =? MPIN_DD then drive b w
  else if pin =? MPIN_DC then (if b then (if dc w then w else rise w) else (if dc w then fall w else w))
  else if pin =? MPIN_RESET_N then reset b w
  else w.

(** A board on which the library works and a target is connected. *)
#[export] Instance wire_gpio : Bcm2835 (wire C) := {
  bcm2835_init w := (1, w);
  bcm2835_close w := w;
  bcm2835_gpio_fsel pin f w :=
    if pin =? MPIN_DD then
      Wire (match f with OUTP => true | INPT => false end) (dd w) (dc w) (w_mode w) (chip w)
    else w;
  bcm2835_gpio_set pin w := set_pin pin true w;
  bcm2835_gpio_clr pin w := set_pin pin false w;
  bcm2835_gpio_lev pin w := if pin =? MPIN_DD then Z.b2z (level w) else 0;
}.
End Target.

(** * The functions of the port whatever is connected

    They always return, print nothing, and their results are in range. *)
Section AnyWorld.
Context {W : Type} `{Bcm2835 W}.
Variable garbage : Z.

Lemma wp_prog_delay (Q : () → prog W → Prop) s : Q () s → wp prog_delay Q s.
Proof.
  intros HQ. apply (wp_loop (λ i t, 0 ≤ i ≤ 1000 ∧ t = s) (λ i _, 1000 - i)); [split; [lia|done]|lia|].
  intros i t [Hi ->]. split; [lia|]. destruct (Z.ltb_spec i 1000); apply wp_ret; [split; [split; [lia|done]|lia]|done].
Qed.

(** [m] returns in every world, prints nothing and answers something in [P]. *)
Definition tame {A} (m : M (prog W) A) (P : A → Prop) : Prop :=
  ∀ w out, wp m (λ a s, P a ∧ printed s = out) (Prog w out).

Lemma tame_bind {A B} (m : M (prog W) A) (f : A → M (prog W) B) P R :
  tame m P → (∀ a, P a → tame (f a) R) → tame (mbind f m) R.
Proof.
  intros Hm Hf w out. apply wp_bind. eapply wp_mono; [apply Hm|]. intros a [w' out'] [Ha Ho].
  cbn [printed] in Ho. subst out'. by apply Hf.
Qed.

Lemma tame_ret {A} (a : A) (P : A → Prop) : P a → tame (mret a) P.
Proof. intros Ha w out. by apply wp_ret. Qed.

Lemma tame_port (f : W → W) : tame (on_port f) (λ _, True).
Proof. by intros w out. Qed.

Lemma tame_lev pin : tame (gpio_lev pin) (λ _, True).
Proof. by intros w out. Qed.

Lemma tame_delay : tame prog_delay (λ _, True).
Proof. intros w out. by apply wp_prog_delay. Qed.

(** A loop whose body takes [a] to something smaller, or out. *)
Lemma tame_loop {A R} (I : A → Prop) (f : A → Z) (P : R → Prop) (body : A → M (prog W) (A + R)) a :
  I a → f a < 2 ^ 64 →
  (∀ a, I a → 0 ≤ f a ∧
     tame (body a) (λ r, match r with inl a' => I a' ∧ f a' < f a | inr v => P v end)) →
  tame (loop body a) P.
Proof.
  intros Ha Hf Hb w out. apply (wp_loop (λ a s, I a ∧ printed s = out) (λ a _, f a)); [done..|].
  intros a1 [w1 o1] [Ha1 Ho]. cbn [printed] in Ho. subst o1. destruct (Hb a1 Ha1) as [? Ht]. split; [done|].
  eapply wp_mono; [apply Ht|]. intros [a2|v] s2 [? ?]; naive_solver.
Qed.

Ltac tame_step :=
  lazymatch goal with
  | |- tame (mbind _ (on_port _)) _ => apply (tame_bind _ _ _ _ (tame_port _))
  | |- tame (mbind _ (gpio_lev _)) _ => apply (tame_bind _ _ _ _ (tame_lev _))
  | |- tame (mbind _ prog_delay) _ => apply (tame_bind _ _ _ _ tame_delay)
  end; intros ? _.

Lemma tame_write_debug_byte data : tame (write_debug_byte data) (λ _, True).
Proof.
  unfold write_debug_byte, gpio_fsel, gpio_set, gpio_clr. tame_step.
  apply (tame_loop (λ '(i, _), 0 ≤ i ≤ 8) (λ '(i, _), 8 - i)); [lia..|]. intros [i x] Hi. split; [lia|].
  destruct (Z.ltb_spec i 8); [|by apply tame_ret]. repeat tame_step.
  apply (tame_bind _ _ (λ _, True)); [|intros ? _; repeat tame_step; apply tame_ret; lia].
  destruct (Z.land x 0x80 =? 0); apply tame_port.
Qed.

Lemma tame_read_debug_byte : tame (read_debug_byte garbage) is_byte.
Proof.
  unfold read_debug_byte, gpio_fsel, gpio_set, gpio_clr. tame_step.
  apply (tame_loop (λ '(i, x), 0 ≤ i ≤ 8 ∧ (0 < i → is_byte x)) (λ '(i, _), 8 - i)); [lia..|].
  intros [i x] [Hi Hx]. split; [lia|]. destruct (Z.ltb_spec i 8); [|apply tame_ret, Hx; lia].
  repeat tame_step. apply tame_ret. split; [|lia]. split; [lia|]. intros _. apply u8_is_byte.
Qed.

Lemma tame_wait_dup_ready : tame (wait_dup_ready garbage) (λ r, r = 0 ∨ r = 1).
Proof.
  unfold wait_dup_ready, gpio_fsel. tame_step.
  apply (tame_loop (λ i, 0 ≤ i ≤ 16) (λ i, 16 - i)); [lia..|]. intros i Hi. split; [lia|].
  tame_step. destruct (negb (_ =? 0)), (Z.ltb_spec i 16); cbn [andb].
  1: { eapply tame_bind; [apply tame_read_debug_byte|]. intros r _. apply tame_ret.
       rewrite u8_small by (unfold is_byte; lia). lia. }
  all: apply tame_ret; destruct (i =? 16); by auto.
Qed.

Lemma tame_write_bytes p n : 0 ≤ n ≤ ZL p → tame (write_bytes p n) (λ _, True).
Proof.
  intros Hn w out. apply (wp_for_upto (λ _ s, printed s = out)); [lia|done| |done].
  intros j [w1 o1] Hj Ho. cbn [printed] in Ho. subst o1. apply wp_bind.
  destruct (lookup_lt_is_Some_2 p (Z.to_nat j)) as [b Hb]; [lia|]. unfold at_. rewrite Hb. apply wp_ret.
  eapply wp_mono; [apply tame_write_debug_byte|]. by intros [] s [_ Ho].
Qed.

Lemma tame_debug_command cmd args n : 0 ≤ n ≤ ZL args → tame (debug_command garbage cmd args n) is_byte.
Proof.
  intros Hn. unfold debug_command.
  eapply tame_bind; [apply tame_write_debug_byte|]. intros _ _.
  eapply tame_bind; [by apply tame_write_bytes|]. intros _ _.
  eapply tame_bind; [apply tame_wait_dup_ready|]. intros _ _. apply tame_read_debug_byte.
Qed.

Lemma tame_run {A} (m : M (prog W) A) P w out : tame m P →
  ∃ a w', m (Prog w out) = Ret (a, Prog w' out) ∧ P a.
Proof.
  intros Hm. destruct (wp_inv _ _ _ (Hm w out)) as (a & [w' o'] & E & Ha & Ho). cbn [printed] in Ho. subst o'. eauto.
Qed.
End AnyWorld.

(** * Bits and bytes *)
Lemma byte_of_bits_of b : is_byte b → byte_of (bits_of b) = b.
Proof.
  intros Hb. apply Z.eqb_eq. apply (Z_range_forallb (λ b, byte_of (bits_of b) =? b) 0 256); [|apply Hb].
  by vm_compute.
Qed.

(** The bit that is on the line at round [i] of write_debug_byte. *)
Lemma line_bit b i : is_byte b → 0 ≤ i < 8 →
  (Z.land (u8 (Z.shiftl b i)) 0x80 =? 0) = negb (Z.testbit b (7 - i)).
Proof.
  intros Hb Hi. apply eqb_prop.
  assert (forallb (λ i, eqb (Z.land (u8 (Z.shiftl b (Z.of_nat i))) 0x80 =? 0)
    (negb (Z.testbit b (7 - Z.of_nat i)))) (seq 0 8) = true) as Ha.
  { apply (Z_range_forallb (λ b, forallb (λ i, eqb (Z.land (u8 (Z.shiftl b (Z.of_nat i))) 0x80 =? 0)
      (negb (Z.testbit b (7 - Z.of_nat i)))) (seq 0 8)) 0 256); [by vm_compute|apply Hb]. }
  rewrite forallb_forall in Ha. specialize (Ha (Z.to_nat i)). rewrite Z2Nat.id in Ha by lia.
  apply Ha. apply in_seq. lia.
Qed.

Lemma bits_of_take_S b i : 0 ≤ i < 8 →
  take (Z.to_nat (i + 1)) (bits_of b) = take (Z.to_nat i) (bits_of b) ++ [Z.testbit b (7 - i)].
Proof.
  intros Hi. rewrite Z2Nat.inj_add by lia. change (Z.to_nat 1) with 1%nat. rewrite Nat.add_1_r.
  apply take_S_r. unfold bits_of. rewrite list_lookup_fmap.
  assert (i = 0 ∨ i = 1 ∨ i = 2 ∨ i = 3 ∨ i = 4 ∨ i = 5 ∨ i = 6 ∨ i = 7) as Hc by lia.
  by destruct Hc as [->|[->|[->|[->|[->|[->|[->| ->]]]]]]].
Qed.

Lemma bits_of_drop b i : 0 ≤ i < 8 →
  drop (Z.to_nat i) (bits_of b) = Z.testbit b (7 - i) :: drop (Z.to_nat (i + 1)) (bits_of b).
Proof.
  intros Hi. assert (i = 0 ∨ i = 1 ∨ i = 2 ∨ i = 3 ∨ i = 4 ∨ i = 5 ∨ i = 6 ∨ i = 7) as Hc by lia.
  by destruct Hc as [->|[->|[->|[->|[->|[->|[->| ->]]]]]]].
Qed.

(** What [i] rounds of read_debug_byte leave of the value [data] had before is above bit [i]. *)
Lemma shift_in d i b v : 0 ≤ i < 8 → u8 d mod 2 ^ i = v →
  u8 (Z.lor (u8 (Z.shiftl d 1)) (Z.b2z b)) mod 2 ^ (i + 1) = 2 * v + Z.b2z b.
Proof.
  intros Hi Hd. unfold wrapu in *.
  assert (∀ x, (x mod 2 ^ 8) mod 2 ^ (i + 1) = x mod 2 ^ (i + 1)) as Hm.
  { intros x. apply Z.mod_mod_divide. exists (2 ^ (8 - (i + 1))). rewrite <- Z.pow_add_r by lia. f_equal. lia. }
  assert ((d mod 2 ^ 8) mod 2 ^ i = d mod 2 ^ i) as Hm'.
  { apply Z.mod_mod_divide. exists (2 ^ (8 - i)). rewrite <- Z.pow_add_r by lia. f_equal. lia. }
  rewrite Hm' in Hd. rewrite Hm.
  assert (Z.lor (Z.shiftl d 1 mod 2 ^ 8) (Z.b2z b) = Z.shiftl d 1 mod 2 ^ 8 + Z.b2z b) as ->.
  { assert (Z.shiftl d 1 mod 2 ^ 8 = Z.shiftl (d mod 2 ^ 7) 1) as ->.
    { rewrite !Z.shiftl_mul_pow2 by lia. change (2 ^ 8) with (2 ^ 7 * 2 ^ 1). by rewrite Z.mul_mod_distr_r. }
    rewrite Z.lor_comm, (lor_add_shift 1) by (destruct b; simpl; lia). rewrite Z.shiftl_mul_pow2 by lia. lia. }
  rewrite <- Zplus_mod_idemp_l, Hm, Zplus_mod_idemp_l.
  rewrite Z.shiftl_mul_pow2 by lia. change (2 ^ 1) with 2.
  rewrite Z.pow_add_r by lia. change (2 ^ 1) with 2.
  pose proof (Z.div_mod d (2 ^ i) ltac:(lia)) as Hdm. pose proof (Z.mod_pos_bound d (2 ^ i) ltac:(lia)).
  symmetry. apply (Z.mod_unique _ _ (d / 2 ^ i)); [left; destruct b; simpl; lia|]. nia.
Qed.

(** * The functions of the port on the wire *)
Section Refinement.
Context {C : Type} `{DebugTarget C}.
Variable garbage : Z.
Abbreviation state := (prog (wire C)).

Lemma wp_on_port (f : wire C → wire C) (Q : () → state → Prop) w out :
  Q () (Prog (f w) out) → wp (on_port f) Q (Prog w out).
Proof. done. Qed.

Ltac port_step :=
  lazymatch goal with
  | |- wp prog_delay _ _ => apply wp_prog_delay
  | |- wp (on_port _) _ _ => apply wp_on_port
  | |- wp (gpio_set _) _ _ => unfold gpio_set
  | |- wp (gpio_clr _) _ _ => unfold gpio_clr
  | |- wp (gpio_fsel _ _) _ _ => unfold gpio_fsel
  | |- wp (gpio_lev _) _ _ => unfold gpio_lev
  | |- _ => wp_pure
  end;
  cbn [bcm2835_gpio_set bcm2835_gpio_clr bcm2835_gpio_fsel bcm2835_gpio_lev bcm2835_close wire_gpio
       set_pin drive rise reset host_drives dd dc w_mode chip level port printed
       MPIN_DD MPIN_DC MPIN_RESET_N Z.eqb Pos.eqb]; cbn beta iota zeta.
Ltac port_steps := repeat port_step.

(** The wire between two bytes of a command. *)
Definition at_command (bytes : list Z) (c : C) (w : wire C) : Prop :=
  ∃ h d, w = Wire h d false (Debugging (Command [] bytes)) c.
Definition got (bytes : list Z) (c : C) (w : wire C) : Prop :=
  ∃ d, w = Wire true d false (Debugging (fst (receive bytes c))) (snd (receive bytes c)).
Definition idle (c : C) (w : wire C) : Prop := at_command [] c w.

Lemma fall_bit b i bytes d c : is_byte b → 0 ≤ i < 8 → d = Z.testbit b (7 - i) →
  fall (Wire true d true (Debugging (Command (take (Z.to_nat i) (bits_of b)) bytes)) c) =
  if i =? 7 then
    Wire true d false (Debugging (fst (receive (bytes ++ [b]) c))) (snd (receive (bytes ++ [b]) c))
  else Wire true d false (Debugging (Command (take (Z.to_nat (i + 1)) (bits_of b)) bytes)) c.
Proof.
  intros Hb Hi ->. unfold fall. cbn [w_mode host_drives dd dc chip level].
  rewrite <- bits_of_take_S by done.
  replace (ZL (take (Z.to_nat (i + 1)) (bits_of b)) =? 8) with (i =? 7).
  - destruct (Z.eqb_spec i 7) as [->|]; [|done].
    change (take (Z.to_nat (7 + 1)) (bits_of b)) with (bits_of b). rewrite byte_of_bits_of by done.
    by destruct (receive (bytes ++ [b]) c).
  - rewrite length_take. change (length (bits_of b)) with 8%nat.
    destruct (Z.eqb_spec i 7), (Z.eqb_spec (Z.of_nat (Z.to_nat (i + 1) `min` 8)) 8); lia.
Qed.

Lemma wp_write_debug_byte b bytes c (Q : () → state → Prop) w out :
  is_byte b → at_command bytes c w →
  (∀ w', got (bytes ++ [b]) c w' → Q () (Prog w' out)) →
  wp (write_debug_byte b) Q (Prog w out).
Proof.
  intros Hb (h & d & ->) HQ. unfold write_debug_byte. port_steps.
  apply (wp_loop (λ '(i, x) s, 0 ≤ i ≤ 8 ∧ x = u8 (Z.shiftl b i) ∧ printed s = out ∧
      if i =? 8 then got (bytes ++ [b]) c (port s)
      else ∃ d, port s = Wire true d false (Debugging (Command (take (Z.to_nat i) (bits_of b)) bytes)) c)
    (λ '(i, x) _, 8 - i)).
  - split; [lia|]. split; [by rewrite u8_small|]. split; [done|]. by exists d.
  - lia.
  - intros [i x] [w out'] (Hi & -> & Ho & Hw). cbn [printed port] in *. subst out'. split; [lia|].
    destruct (Z.ltb_spec i 8) as [Hlt|].
    2:{ apply wp_ret, HQ. by replace i with 8 in Hw by lia. }
    rewrite (proj2 (Z.eqb_neq i 8)) in Hw by lia. destruct Hw as [d' ->].
    rewrite line_bit by (done || lia). port_steps.
    apply (wp_mono _ (λ _ s, s = Prog (Wire true (Z.testbit b (7 - i)) true
      (Debugging (Command (take (Z.to_nat i) (bits_of b)) bytes)) c) out)).
    { destruct (Z.testbit b (7 - i)); simpl; port_steps; done. }
    intros _ s ->. port_steps. rewrite (fall_bit b i) by (done || lia).
    split; [|lia]. split; [lia|]. split.
    { rewrite <- Z.shiftl_shiftl by lia. unfold wrapu.
      rewrite !Z.shiftl_mul_pow2 by lia. by rewrite Zmult_mod_idemp_l. }
    split; [done|]. destruct (Z.eqb_spec i 7), (Z.eqb_spec (i + 1) 8); try lia; cbn [port]; [by eexists|eauto].
Qed.

(** The wire while a reply is on it. *)
Definition replying (n : nat) (bits : list bool) (c : C) (w : wire C) : Prop :=
  ∃ h d, w = Wire h d false (Debugging (Reply n 0 bits false)) c.
Definition sending (bits : list bool) (c : C) (w : wire C) : Prop :=
  ∃ h d l, w = Wire h d false (Debugging (if decide (bits = []) then Command [] [] else Reply 0 0 bits l)) c.

Lemma read_round (i : Z) (x : Z) b bits l d c out (Q : (Z * Z) + Z → state → Prop) :
  0 ≤ i < 8 → u8 x mod 2 ^ i = byte_of (take (Z.to_nat i) (bits_of b)) →
  (∀ x' l', x' mod 2 ^ (i + 1) = byte_of (take (Z.to_nat (i + 1)) (bits_of b)) → u8 x' = x' →
     let rest := drop (Z.to_nat (i + 1)) (bits_of b) ++ bits in
     Q (inl (i + 1, x')) (Prog (Wire false d false
       (Debugging (if decide (rest = []) then Command [] [] else Reply 0 0 rest l')) c) out)) →
  wp (gpio_set MPIN_DC;;
      prog_delay;;
      lev ← gpio_lev MPIN_DD;
      prog_delay;;
      gpio_clr MPIN_DC;;
      prog_delay;;
      mret (inl (i + 1, u8 (Z.lor (u8 (Z.shiftl x 1)) lev)))) Q
    (Prog (Wire false d false (Debugging (Reply 0 0 (drop (Z.to_nat i) (bits_of b) ++ bits) l)) c) out).
Proof.
  intros Hi Hx HQ. rewrite bits_of_drop by done. cbn [app]. port_steps.
  pose proof (HQ (u8 (Z.lor (u8 (Z.shiftl x 1)) (Z.b2z (Z.testbit b (7 - i))))) (Z.testbit b (7 - i))) as HQ'.
  cbv zeta in HQ'. unfold fall. cbn [w_mode host_drives dd dc chip level].
  destruct (drop (Z.to_nat (i + 1)) (bits_of b) ++ bits) as [|b1 rest]; apply HQ'.
  1, 3: rewrite (shift_in _ _ _ _ Hi Hx), bits_of_take_S by done; unfold byte_of; by rewrite fold_left_app.
  all: apply wrapu_idemp.
Qed.

Lemma wp_read_debug_byte b bits c (Q : Z → state → Prop) w out :
  is_byte b → sending (bits_of b ++ bits) c w →
  (∀ w', sending bits c w' → Q b (Prog w' out)) →
  wp (read_debug_byte garbage) Q (Prog w out).
Proof.
  intros Hb (h & d & l & ->) HQ. unfold read_debug_byte. port_steps.
  apply (wp_loop (λ '(i, x) s, 0 ≤ i ≤ 8 ∧ u8 x mod 2 ^ i = byte_of (take (Z.to_nat i) (bits_of b)) ∧
      (i = 8 → u8 x = x) ∧ printed s = out ∧
      let rest := drop (Z.to_nat i) (bits_of b) ++ bits in
      ∃ l, port s = Wire false d false
        (Debugging (if decide (rest = []) then Command [] [] else Reply 0 0 rest l)) c)
    (λ '(i, x) _, 8 - i)).
  - split; [lia|]. split; [by rewrite Z.mod_1_r|]. split; [lia|]. split; [done|]. by exists l.
  - lia.
  - intros [i x] [w out'] (Hi & Hx & H8 & Ho & l' & Hw). cbn [printed port] in *. subst out' w. split; [lia|].
    destruct (Z.ltb_spec i 8) as [Hlt|].
    + rewrite bits_of_drop by lia. cbn [app]. rewrite decide_False by done.
      rewrite app_comm_cons, <- bits_of_drop by lia. apply read_round; [lia|done|].
      intros x' l1 Hx' Hu rest. split; [|lia]. split; [lia|]. rewrite Hu. split; [done|]. split; [done|].
      split; [done|]. by exists l1.
    + assert (i = 8) as -> by lia. apply wp_ret.
      assert (x = b) as ->; [|apply HQ; by exists false, d, l'].
      change (take (Z.to_nat 8) (bits_of b)) with (bits_of b) in Hx. rewrite byte_of_bits_of in Hx by done.
      rewrite <- (H8 eq_refl), <- Hx. symmetry. apply wrapu_idemp.
Qed.

(** While the target is not ready a byte of ones is read. *)
Lemma wp_read_while_busy n bits c (Q : Z → state → Prop) w out :
  replying (S n) bits c w →
  (∀ r d, Q r (Prog (Wire false d false (Debugging (Reply n 0 bits false)) c) out)) →
  wp (read_debug_byte garbage) Q (Prog w out).
Proof.
  intros (h & d & ->) HQ. unfold read_debug_byte. port_steps.
  apply (wp_loop (λ '(i, _) s, 0 ≤ i ≤ 8 ∧ printed s = out ∧ port s = Wire false d false
      (Debugging (if i =? 8 then Reply n 0 bits false else Reply (S n) (Z.to_nat i) bits false)) c)
    (λ '(i, x) _, 8 - i)).
  - split; [lia|done].
  - lia.
  - intros [i x] [w out'] (Hi & Ho & Hw). cbn [printed port] in *. subst out' w. split; [lia|].
    destruct (Z.ltb_spec i 8) as [Hlt|].
    + rewrite (proj2 (Z.eqb_neq i 8)) by lia. port_steps. unfold fall. cbn [w_mode host_drives dd dc chip].
      split; [|lia]. split; [lia|]. split; [done|]. cbn [port].
      destruct (Nat.eqb_spec (Z.to_nat i) 7), (Z.eqb_spec (i + 1) 8); try lia; [done|].
      by replace (Z.to_nat (i + 1)) with (S (Z.to_nat i)) by lia.
    + apply wp_ret. replace i with 8 by lia. apply HQ.
Qed.

(** The host waits for at most 16 bytes, and answers 0 exactly when it has. *)
Lemma wp_wait_dup_ready n bits c (Q : Z → state → Prop) w out :
  (n ≤ 16)%nat → replying n bits c w →
  (∀ w', replying 0 bits c w' → Q (if Nat.eqb n 16 then 0 else 1) (Prog w' out)) →
  wp (wait_dup_ready garbage) Q (Prog w out).
Proof.
  intros Hn (h & d & ->) HQ. unfold wait_dup_ready. port_steps.
  apply (wp_loop (λ count s, 0 ≤ count ≤ Z.of_nat n ∧ printed s = out ∧
      ∃ d, port s = Wire false d false (Debugging (Reply (n - Z.to_nat count) 0 bits false)) c)
    (λ count _, Z.of_nat n - count)).
  - split; [lia|]. split; [done|]. exists d. by rewrite Nat.sub_0_r.
  - lia.
  - intros count [w out'] (Hc & Ho & d' & Hw). cbn [printed port] in *. subst out' w. split; [lia|].
    port_steps. destruct (n - Z.to_nat count)%nat as [|k] eqn:Ek; cbn [Z.b2z Z.eqb negb andb].
    + apply wp_ret. replace (count =? 16) with (Nat.eqb n 16).
      { apply HQ. by exists false, d'. }
      destruct (Nat.eqb_spec n 16), (Z.eqb_spec count 16); lia.
    + rewrite (proj2 (Z.ltb_lt count 16)) by lia. cbn [andb negb Z.eqb]. apply wp_bind.
      eapply wp_read_while_busy; [by exists false, d'|]. intros r d2. apply wp_ret.
      rewrite u8_small by (unfold is_byte; lia). split; [|lia]. split; [lia|]. split; [done|].
      cbn [port]. replace (n - Z.to_nat (count + 1))%nat with k by lia.
      by exists d2.
Qed.

(** ** Commands *)

(** A command: its bytes, no proper beginning of which is one. *)
Definition framed (bytes : list Z) : Prop :=
  complete bytes = true ∧ ∀ j, (0 < j < length bytes)%nat → complete (take j bytes) = false.

Lemma got_command bytes c w : complete bytes = false → got bytes c w → at_command bytes c w.
Proof. intros Hc [d ->]. unfold receive. rewrite Hc. by exists true, d. Qed.

Lemma got_reply bytes c w : complete bytes = true → got bytes c w →
  replying (lag bytes c) (concat (map bits_of (exec bytes c).1)) (exec bytes c).2 w.
Proof.
  intros Hc [d ->]. unfold receive. rewrite Hc. destruct (exec bytes c) as [o c']. by exists true, d.
Qed.

(** Writing the rest of a command byte by byte. *)
Lemma wp_write_bytes pre p c (Q : () → state → Prop) w out :
  pre ≠ [] → framed (pre ++ p) → Forall is_byte p → got pre c w →
  (∀ w', got (pre ++ p) c w' → Q () (Prog w' out)) →
  wp (write_bytes p (ZL p)) Q (Prog w out).
Proof.
  intros Hne [_ Hfr] Hp Hw HQ.
  apply (wp_for_upto (λ i s, printed s = out ∧ got (pre ++ take (Z.to_nat i) p) c (port s))).
  - lia.
  - by rewrite app_nil_r.
  - intros j [w1 o1] Hj [Ho Hg]. cbn [printed port] in *. subst o1. apply wp_bind.
    destruct (lookup_lt_is_Some_2 p (Z.to_nat j)) as [b Hb]; [lia|]. unfold at_. rewrite Hb. apply wp_ret.
    eapply wp_write_debug_byte.
    + by eapply Forall_lookup_1.
    + apply got_command; [|done].
      replace (pre ++ take (Z.to_nat j) p) with (take (length pre + Z.to_nat j) (pre ++ p)).
      * apply Hfr. rewrite length_app. destruct pre; [done|]. simpl. lia.
      * by rewrite take_app_add.
    + intros w' Hw'. split; [done|]. rewrite <- app_assoc, <- take_S_r in Hw' by done.
      by replace (Z.to_nat (j + 1)) with (S (Z.to_nat j)) by lia.
  - intros [w1 o1] [Ho Hg]. cbn [printed port] in *. subst o1. apply HQ.
    rewrite Nat2Z.id, firstn_all in Hg. done.
Qed.

Lemma wp_write_command {A} cmd args c (k : M state A) (Q : A → state → Prop) w out :
  framed (cmd :: args) → Forall is_byte (cmd :: args) → idle c w →
  (∀ w', replying (lag (cmd :: args) c) (concat (map bits_of (exec (cmd :: args) c).1))
           (exec (cmd :: args) c).2 w' → wp k Q (Prog w' out)) →
  wp (write_debug_byte cmd;; write_bytes args (ZL args);; k) Q (Prog w out).
Proof.
  intros Hf [Hc Ha]%Forall_cons Hi HQ. apply wp_bind. eapply wp_write_debug_byte; [done|exact Hi|].
  intros w' Hw'. apply wp_bind. apply (wp_write_bytes [cmd] args c); try done.
  intros w2 H2. apply HQ, got_reply; [apply Hf|done].
Qed.

Lemma replying_sending bits c w : bits ≠ [] → replying 0 bits c w → sending bits c w.
Proof. intros Hb (h & d & ->). exists h, d, false. by rewrite decide_False. Qed.

(** Reading a reply of one byte. *)
Lemma wp_read_reply b c (Q : Z → state → Prop) w out :
  is_byte b → replying 0 (concat (map bits_of [b])) c w →
  (∀ w', idle c w' → Q b (Prog w' out)) →
  wp (read_debug_byte garbage) Q (Prog w out).
Proof.
  intros Hb Hr HQ. apply (wp_read_debug_byte b [] c); [done|by apply replying_sending|].
  intros w' (h & d & l & ->). apply HQ. by exists h, d.
Qed.

Lemma wp_debug_command cmd args c (Q : Z → state → Prop) b c' w out :
  framed (cmd :: args) → Forall is_byte (cmd :: args) → (lag (cmd :: args) c ≤ 16)%nat →
  exec (cmd :: args) c = ([b], c') → is_byte b → idle c w →
  (∀ w', idle c' w' → Q b (Prog w' out)) →
  wp (debug_command garbage cmd args (ZL args)) Q (Prog w out).
Proof.
  intros Hf Hb Hl He Hr Hi HQ. apply (wp_write_command cmd args c); [done..|].
  intros w1 H1. rewrite He in H1. apply wp_bind. eapply wp_wait_dup_ready; [exact Hl|exact H1|].
  intros w2 H2. by eapply wp_read_reply.
Qed.

Lemma framed_short cmd : (∀ rest, expected (cmd :: rest) = Some 1) → framed [cmd].
Proof. intros He. split; [unfold complete; by rewrite He|]. simpl. intros j ?. lia. Qed.

Lemma framed_length cmd args : (∀ rest, expected (cmd :: rest) = Some (1 + ZL args)) → framed (cmd :: args).
Proof.
  intros He. split.
  - unfold complete. rewrite He. cbn [length]. apply Z.eqb_eq. lia.
  - intros [|j] [? Hj]; [lia|]. cbn [take length] in *. unfold complete. rewrite He. cbn [length].
    rewrite length_take. apply Z.eqb_neq. lia.
Qed.

Lemma framed_burst hi lo l : 0 ≤ hi < 8 → ZL l = 256 * hi + lo → framed (Z.lor CMD_BURST_WRITE hi :: lo :: l).
Proof.
  intros Hhi Hl.
  assert (∀ rest, expected (Z.lor CMD_BURST_WRITE hi :: lo :: rest) = Some (2 + (256 * hi + lo))) as He.
  { intros rest. assert (hi = 0 ∨ hi = 1 ∨ hi = 2 ∨ hi = 3 ∨ hi = 4 ∨ hi = 5 ∨ hi = 6 ∨ hi = 7) as Hc by lia.
    by destruct Hc as [->|[->|[->|[->|[->|[->|[->| ->]]]]]]]. }
  split.
  - unfold complete. rewrite He. cbn [length]. apply Z.eqb_eq. lia.
  - intros [|[|j]] [? Hj]; [lia| |]; cbn [take length] in *; unfold complete.
    + assert (hi = 0 ∨ hi = 1 ∨ hi = 2 ∨ hi = 3 ∨ hi = 4 ∨ hi = 5 ∨ hi = 6 ∨ hi = 7) as Hc by lia.
      by destruct Hc as [->|[->|[->|[->|[->|[->|[->| ->]]]]]]].
    + rewrite He. cbn [length]. rewrite length_take. apply Z.eqb_neq. lia.
Qed.

(** Bytes of an array beyond the count are not looked at. *)
Lemma at_take p n i : 0 ≤ i < n → at_ (W := wire C) (take (Z.to_nat n) p) i = at_ p i.
Proof. intros Hi. unfold at_. by rewrite lookup_take_lt by lia. Qed.

Lemma write_bytes_take p n (s : state) : 0 ≤ n ≤ ZL p →
  write_bytes p n s = write_bytes (take (Z.to_nat n) p) n s.
Proof.
  intros Hn. unfold write_bytes, for_upto.
  assert (∀ k i s, 0 ≤ i → i + Z.of_nat k ≤ n →
    for_from k i (λ i, b ← at_ p i; write_debug_byte b) s =
    for_from k i (λ i, b ← at_ (take (Z.to_nat n) p) i; write_debug_byte b) (s : state)) as Hk.
  { induction k as [|k IH]; intros i t Hi Hk; [done|]. cbn [for_from]. rewrite at_take by lia.
    unfold mbind, M_bind. destruct (at_ p i t) as [[b t']| |]; [|done..].
    destruct (write_debug_byte b t') as [[[] t2]| |]; [|done..]. apply IH; lia. }
  apply Hk; lia.
Qed.

Lemma wp_write_bytes_take p n (Q : () → state → Prop) s : 0 ≤ n ≤ ZL p →
  (let p' := take (Z.to_nat n) p in wp (write_bytes p' (ZL p')) Q s) → wp (write_bytes p n) Q s.
Proof.
  intros Hn. cbv zeta. rewrite length_take. replace (Z.of_nat (Z.to_nat n `min` length p)) with n by lia.
  unfold wp. by rewrite <- write_bytes_take.
Qed.

Lemma HIBYTE_lt n : 0 ≤ n < 2048 → HIBYTE n = n / 256 ∧ LOBYTE n = n mod 256 ∧ 0 ≤ HIBYTE n < 8.
Proof.
  intros Hn. pose proof (Z.div_lt_upper_bound n 256 8 ltac:(lia) ltac:(lia)). pose proof (Z.div_pos n 256).
  unfold HIBYTE, LOBYTE. rewrite (wrapu_small 16), Z.shiftr_div_pow2 by lia.
  change 0xFF with (Z.ones 8). rewrite Z.land_ones by lia. change (2 ^ 8) with 256.
  rewrite (Z.mod_small (n / 256)), u8_small by (unfold is_byte; lia). split; [done|]. split; [done|lia].
Qed.

Lemma wp_burst_write_block src n c (Q : () → state → Prop) b c' w out :
  let bytes := Z.lor CMD_BURST_WRITE (HIBYTE n) :: LOBYTE n :: take (Z.to_nat n) src in
  0 ≤ n < 2048 → n ≤ ZL src → Forall is_byte src → (lag bytes c ≤ 16)%nat →
  exec bytes c = ([b], c') → is_byte b → idle c w →
  (∀ w', idle c' w' → Q () (Prog w' out)) →
  wp (burst_write_block garbage src n) Q (Prog w out).
Proof.
  intros bytes Hn Hs Hsb Hl He Hb Hi HQ.
  destruct (HIBYTE_lt n Hn) as (Eh & El & Hh).
  pose proof (Z.div_mod n 256). pose proof (Z.mod_pos_bound n 256).
  assert (ZL (take (Z.to_nat n) src) = n) as Hlen by (rewrite length_take; lia).
  assert (framed bytes) as Hf.
  { unfold bytes. rewrite Eh, El. apply framed_burst; lia. }
  assert (is_byte (Z.lor CMD_BURST_WRITE (HIBYTE n))) as Hcmd.
  { apply (lor_bound 8); [lia|unfold CMD_BURST_WRITE; lia|rewrite Eh; lia]. }
  unfold burst_write_block. apply wp_bind.
  eapply wp_write_debug_byte; [done|exact Hi|]. intros w1 H1w. apply wp_bind.
  eapply wp_write_debug_byte; [apply u8_is_byte| |].
  { eapply got_command; [|exact H1w]. change ([] ++ [Z.lor CMD_BURST_WRITE (HIBYTE n)]) with (take 1 bytes).
    apply Hf. unfold bytes. cbn [length]. lia. }
  intros w2 H2w. apply wp_bind. apply wp_write_bytes_take; [lia|]. cbv zeta.
  eapply wp_write_bytes; [| |by apply Forall_take|exact H2w|]; [done|exact Hf|].
  intros w3 H3w. apply (got_reply bytes) in H3w; [|apply Hf]. rewrite He in H3w. apply wp_bind. eapply wp_wait_dup_ready; [exact Hl|exact H3w|].
  intros w4 H4w. apply wp_bind. apply (wp_read_reply b c'); [exact Hb|exact H4w|]. intros w5 H5w. apply wp_ret. by apply HQ.
Qed.

Lemma wp_read_status c (Q : Z → state → Prop) b c' w out :
  (lag [CMD_READ_STATUS] c < 16)%nat → exec [CMD_READ_STATUS] c = ([b], c') → is_byte b → idle c w →
  (∀ w', idle c' w' → Q b (Prog w' out)) →
  wp (read_status garbage) Q (Prog w out).
Proof.
  intros Hl He Hb Hi HQ. unfold read_status. apply wp_bind.
  eapply wp_write_debug_byte; [done|exact Hi|]. intros w1 H1. apply (got_reply [CMD_READ_STATUS]) in H1; [|done].
  rewrite He in H1. apply wp_bind. eapply wp_wait_dup_ready; [|exact H1|]; [lia|]. intros w2 H2.
  rewrite (proj2 (Nat.eqb_neq _ 16)) by lia. apply wp_bind, wp_ret. by eapply wp_read_reply.
Qed.

Lemma wp_read_chip_id c (Q : Z → state → Prop) b rev c' w out :
  (lag [CMD_GET_CHIP_ID] c < 16)%nat → exec [CMD_GET_CHIP_ID] c = ([b; rev], c') →
  is_byte b → is_byte rev → idle c w →
  (∀ w', idle c' w' → Q b (Prog w' out)) →
  wp (read_chip_id garbage) Q (Prog w out).
Proof.
  intros Hl He Hb Hr Hi HQ. unfold read_chip_id. apply wp_bind.
  eapply wp_write_debug_byte; [done|exact Hi|]. intros w1 H1. apply (got_reply [CMD_GET_CHIP_ID]) in H1; [|done].
  rewrite He in H1. apply wp_bind. eapply wp_wait_dup_ready; [|exact H1|]; [lia|]. intros w2 H2.
  rewrite (proj2 (Nat.eqb_neq _ 16)) by lia. apply wp_bind, wp_ret.
  apply wp_bind. apply (wp_read_debug_byte b (bits_of rev) c'); [done|by apply replying_sending|].
  intros w3 H3. apply wp_bind. apply (wp_read_debug_byte rev [] c'); [done|done|].
  intros w4 (h & d & l & ->). apply wp_ret, HQ. by exists h, d.
Qed.

(** A target that is not in debug mode, or between two commands, enters it. *)
Lemma wp_debug_init (Q : () → state → Prop) w out :
  dc w = false ∨ w_mode w = Running →
  (∀ w', idle (chip w) w' → Q () (Prog w' out)) →
  wp debug_init Q (Prog w out).
Proof.
  intros Hw HQ. destruct w as [h d b m c]. cbn [dc w_mode chip] in *. unfold debug_init.
  destruct Hw as [->| ->]; [|destruct b]; port_steps; apply HQ; by eexists _, _.
Qed.
End Refinement.

(** * What the port does *)

(** C23 Whatever the pins are connected to, the calls of the debug port return: a command's answer
    and a byte read are bytes, whatever the local variable held before, and waiting answers 0 or 1. *)
Theorem port_is_total {W} `{Bcm2835 W} (garbage cmd : Z) (args : list Z) (n : Z) (w : W) (out : list string) :
  0 ≤ n ≤ ZL args →
  (∃ r w', debug_command garbage cmd args n (Prog w out) = Ret (r, Prog w' out) ∧ is_byte r) ∧
  (∃ r w', read_debug_byte garbage (Prog w out) = Ret (r, Prog w' out) ∧ is_byte r) ∧
  (∃ r w', wait_dup_ready garbage (Prog w out) = Ret (r, Prog w' out) ∧ (r = 0 ∨ r = 1)).
Proof.
  intros Hn. split_and!; apply tame_run.
  - by apply tame_debug_command.
  - apply tame_read_debug_byte.
  - apply tame_wait_dup_ready.
Qed.

(** C20 debug_command clocks a command to the target bit by bit, waits for it within its patience of
    16 bytes, and answers the byte the target's execution of exactly that command yields;
    afterwards the target is ready for the next command. *)
Theorem debug_command_refines {C} `{DebugTarget C} (garbage cmd : Z) (args : list Z) (c c' : C) (b : Z) w out :
  framed (cmd :: args) → Forall is_byte (cmd :: args) → (lag (cmd :: args) c ≤ 16)%nat →
  exec (cmd :: args) c = ([b], c') → is_byte b → idle c w →
  ∃ w', debug_command garbage cmd args (ZL args) (Prog w out) = Ret (b, Prog w' out) ∧ idle c' w'.
Proof.
  intros Hf Ha Hl He Hb Hi.
  destruct (wp_inv (debug_command garbage cmd args (ZL args)) (λ r s, r = b ∧ printed s = out ∧ idle c' (port s)) (Prog w out))
    as (r & [w' o'] & E & -> & Ho & Hi'); [by eapply wp_debug_command|].
  cbn [printed port] in *. subst o'. eauto.
Qed.

Module Examples.
(** Pins that always read high, connected to nothing. *)
#[local] Instance open_pins : Bcm2835 () := {
  bcm2835_init w := (1, w);
  bcm2835_close w := w;
  bcm2835_gpio_fsel _ _ w := w;
  bcm2835_gpio_set _ w := w;
  bcm2835_gpio_clr _ w := w;
  bcm2835_gpio_lev _ _ := 1;
}.

Lemma port_is_total_witness :
  (0 ≤ 2 ≤ ZL [1; 2]) ∧ ∃ r w', debug_command 99 CMD_DEBUG_INSTR_2B [1; 2] 2 (Prog () []) = Ret (r, Prog w' []) ∧ is_byte r.
Proof.
  split; [cbn; lia|].
  destruct (port_is_total 99 CMD_DEBUG_INSTR_2B [1; 2] 2 () []) as [H _]; [cbn; lia|exact H].
Defined.

(** A target that keeps the commands it gets, answers their length and is busy for three bytes. *)
#[local] Instance recorder : DebugTarget (list (list Z)) := {
  exec bytes c := ([ZL bytes], c ++ [bytes]);
  lag _ _ := 3%nat;
}.

Lemma debug_command_refines_witness :
  let w := Wire false false false (Debugging (Command [] [])) [] in
  idle [] w ∧
  ∃ w', debug_command 99 CMD_DEBUG_INSTR_2B [0x74; 5] (ZL [0x74; 5]) (Prog w []) = Ret (3, Prog w' []) ∧
    idle [[CMD_DEBUG_INSTR_2B; 0x74; 5]] w'.
Proof.
  split; [by eexists _, _|].
  apply (debug_command_refines 99 CMD_DEBUG_INSTR_2B [0x74; 5] [] [[CMD_DEBUG_INSTR_2B; 0x74; 5]] 3).
  - by apply framed_length.
  - repeat (apply Forall_cons; split; [by split|]). by apply Forall_nil.
  - cbn. lia.
  - done.
  - by split.
  - by eexists _, _.
Defined.
End Examples.
