(* ===== verification/Cc2541.v ===== *)
(** The target of the CC2541 programmer: its debug commands, the processor instructions that the
    programmer injects, its DMA and flash controllers, as the comments of debug.h use them;
    and the functions of debug.h that read and write its memories, refined to operations
    on that device. *)
From stdpp Require Import base list strings.
From Stdlib Require Import ZArith Lia.
From S2P Require Import Prelude Memory DebugPort.

#[local] Open Scope Z_scope.

(** * The device *)

(** [xram] is the RAM and the registers in XDATA space; [armed] the armed DMA channels;
    [erasing] and [writing] count the polls that still find the chip busy. *)
Record device : Type := Device {
  xram : Z → Z;
  flash : Z → Z;
  armed : Z;
  erasing : nat;
  writing : nat;
}.
Record cc2541 : Type := Chip {
  dptr : Z;
  acc : Z;
  dev : device;
}.

(** What differs between parts and moments. *)
Class Part : Type := {
  part_id : Z;
  part_revision : Z;
  part_status : device → Z;
  part_lag : list Z → cc2541 → nat;
  erase_polls : nat;
  write_polls : nat;
  part_id_byte : is_byte part_id;
  part_revision_byte : is_byte part_revision;
  part_status_low : ∀ d, 0 ≤ part_status d < 128;
  part_lag_short : ∀ bytes c, (part_lag bytes c < 16)%nat;
  erase_polls_few : Z.of_nat erase_polls < 2 ^ 32;
  write_polls_few : Z.of_nat write_polls < 2 ^ 32;
}.

Definition upd (r : Z → Z) (k v : Z) : Z → Z := λ a, if a =? k then v else r a.
Definition set_xram (r : Z → Z) (d : device) : device := Device r (flash d) (armed d) (erasing d) (writing d).

(** A list of bytes at [base], in RAM and in flash, where programming only clears bits. *)
Definition byte_at (base : Z) (l : list Z) (a : Z) : Z := default 0 (l !! Z.to_nat (a - base)).
Definition within (base : Z) (l : list Z) (a : Z) : bool := (base <=? a) && (a <? base + ZL l).
Definition blit (r : Z → Z) (base : Z) (l : list Z) : Z → Z :=
  λ a, if within base l a then byte_at base l a else r a.
Definition program (f : Z → Z) (base : Z) (l : list Z) : Z → Z :=
  λ a, if within base l a then Z.land (f a) (byte_at base l a) else f a.

Section Device.
Context `{Part}.

(** ** DMA *)
Definition word_at (d : device) (hi lo : Z) : Z := u8 (xram d hi) * 256 + u8 (xram d lo).

(** The descriptor at [a]: does it move bytes from [src] to [dst] on [trigger], advancing by
    one on the sides given?  Answers the other address and the length. *)
Definition increments (d : device) (a : Z) : Z := Z.shiftr (u8 (xram d (a + 7))) 4.
Definition desc_src (d : device) (a : Z) : Z := word_at d a (a + 1).
Definition desc_dst (d : device) (a : Z) : Z := word_at d (a + 2) (a + 3).
Definition desc_len (d : device) (a : Z) : Z := Z.land (word_at d (a + 4) (a + 5)) 0x1FFF.
Definition desc_trigger (d : device) (a : Z) : Z := Z.land (xram d (a + 6)) 0x1F.

(** Bytes arriving at the debug interface with channel 0 set up to store them. *)
Definition burst (data : list Z) (d : device) : device :=
  let a := word_at d DUP_DMA0CFGH DUP_DMA0CFGL in
  if Z.testbit (armed d) 0 && (desc_trigger d a =? 31) && (desc_src d a =? DUP_DBGDATA)
     && (increments d a =? 1)
  then Device (blit (xram d) (desc_dst d a) (take (Z.to_nat (desc_len d a)) data)) (flash d)
         (Z.clearbit (armed d) 0) (erasing d) (writing d)
  else d.

(** The flash controller told to write, with channel 1 set up to feed it. *)
Definition flash_write (d : device) : device :=
  let a := word_at d DUP_DMA1CFGH DUP_DMA1CFGL in
  if Z.testbit (armed d) 1 && (desc_trigger d a =? 18) && (desc_dst d a =? DUP_FWDATA)
     && (increments d a =? 4)
  then Device (xram d)
         (program (flash d) (4 * word_at d DUP_FADDRH DUP_FADDRL)
           (map (λ i, u8 (xram d (desc_src d a + Z.of_nat i))) (seq 0 (Z.to_nat (desc_len d a)))))
         (Z.clearbit (armed d) 1) (erasing d) write_polls
  else d.

(** ** XDATA space *)
Definition xwrite (a v : Z) (d : device) : device :=
  let d := set_xram (upd (xram d) a v) d in
  if a =? DUP_DMAARM then Device (xram d) (flash d) (Z.lor (armed d) v) (erasing d) (writing d)
  else if (a =? DUP_FCTL) && Z.testbit v 1 then flash_write d
  else d.

(** The upper half shows a bank of flash. *)
Definition xread (a : Z) (d : device) : Z * device :=
  if 0x8000 <=? a then
    (u8 (flash d (Z.land (u8 (xram d DUP_MEMCTR)) 7 * 0x8000 + (a - 0x8000))), d)
  else if a =? DUP_FCTL then
    (match writing d with O => 0 | S _ => 0x80 end,
     Device (xram d) (flash d) (armed d) (erasing d) (pred (writing d)))
  else (u8 (xram d a), d).

(** ** Debug commands *)

(** The instructions of the 8051 in use, by their codes; the answer is the accumulator. *)
Definition instruction (code : list Z) (c : cc2541) : cc2541 :=
  match code with
  | [op; h; l] => if op =? 0x90 (* MOV DPTR, #hl *) then Chip (h * 256 + l) (acc c) (dev c) else c
  | [op; v] => if op =? 0x74 (* MOV A, #v *) then Chip (dptr c) v (dev c) else c
  | [op] =>
      if op =? 0xF0 (* MOVX @DPTR, A *) then Chip (dptr c) (acc c) (xwrite (dptr c) (acc c) (dev c))
      else if op =? 0xE0 (* MOVX A, @DPTR *) then
        let '(v, d) := xread (dptr c) (dev c) in Chip (dptr c) v d
      else if op =? 0xA3 (* INC DPTR *) then Chip (u16 (dptr c + 1)) (acc c) (dev c)
      else c
  | _ => c
  end.

Definition on_dev (f : device → device) (c : cc2541) : cc2541 := Chip (dptr c) (acc c) (f (dev c)).
Definition erased (d : device) : device :=
  Device (xram d) (λ _, 0xFF) (armed d) erase_polls (writing d).
Definition status_read (d : device) : device :=
  Device (xram d) (flash d) (armed d) (pred (erasing d)) (writing d).
Definition status_byte (d : device) : Z :=
  match erasing d with O => part_status d | S _ => part_status d + 0x80 end.

Definition run_command (bytes : list Z) (c : cc2541) : list Z * cc2541 :=
  match bytes with
  | [] => ([0], c)
  | cmd :: args =>
      if cmd =? CMD_CHIP_ERASE then ([0], on_dev erased c)
      else if cmd =? CMD_READ_STATUS then ([status_byte (dev c)], on_dev status_read c)
      else if cmd =? CMD_GET_CHIP_ID then ([part_id; part_revision], c)
      else if Z.land cmd 0xFC =? 0x54 then
        let c := instruction args c in ([u8 (acc c)], c)
      else if Z.land cmd 0xF8 =? 0x80 then ([0], on_dev (burst (drop 1 args)) c)
      else ([0], c)
  end.

#[export] Instance cc2541_target : DebugTarget cc2541 := {
  exec := run_command;
  lag := part_lag;
}.
End Device.

Ltac byte :=
  lazymatch goal with
  | |- is_byte (HIBYTE _) => apply u8_is_byte
  | |- is_byte (LOBYTE _) => apply u8_is_byte
  | |- _ => first [assumption | by split | by unfold is_byte; lia]
  end.
Ltac bytes := repeat (apply Forall_cons_2; [byte|]); by apply Forall_nil.

(** * The functions of debug.h on the device *)
Section Memories.
Context `{Part}.
Variable garbage : Z.
Abbreviation state := (prog (wire cc2541)).

(** The target is between two commands and its device is [d]. *)
Definition holds (d : device) (w : wire cc2541) : Prop := ∃ p a, idle (Chip p a d) w.

Lemma wp_command cmd args c (Q : Z → state → Prop) b c' w out :
  framed (cmd :: args) → Forall is_byte (cmd :: args) →
  run_command (cmd :: args) c = ([b], c') → is_byte b → idle c w →
  (∀ w', idle c' w' → Q b (Prog w' out)) →
  wp (debug_command garbage cmd args (ZL args)) Q (Prog w out).
Proof.
  intros Hf Ha He Hb Hi HQ. eapply wp_debug_command; try done. apply Nat.lt_le_incl, part_lag_short.
Qed.

Lemma wp_instruction (n : Z) code c (Q : Z → state → Prop) w out :
  ZL code = n → 1 ≤ n ≤ 3 → Forall is_byte code → idle c w →
  (∀ w', idle (instruction code c) w' → Q (u8 (acc (instruction code c))) (Prog w' out)) →
  wp (debug_command garbage (Z.lor 0x54 n) code n) Q (Prog w out).
Proof.
  intros Hl Hn Hc Hi HQ.
  assert (framed (Z.lor 0x54 n :: code)) as Hf.
  { apply framed_length. intros rest. rewrite Hl.
    assert (n = 1 ∨ n = 2 ∨ n = 3) as [->|[->| ->]] by lia; done. }
  assert (run_command (Z.lor 0x54 n :: code) c = ([u8 (acc (instruction code c))], instruction code c)) as He.
  { assert (n = 1 ∨ n = 2 ∨ n = 3) as [->|[->| ->]] by lia; done. }
  rewrite <- Hl at 2. eapply (wp_command (Z.lor 0x54 n) code); [done| |exact He|apply u8_is_byte|exact Hi|exact HQ].
  constructor; [|done]. unfold is_byte. assert (n = 1 ∨ n = 2 ∨ n = 3) as [->|[->| ->]] by lia; done.
Qed.

Lemma HILO a : 0 ≤ a < 65536 → HIBYTE a * 256 + LOBYTE a = a ∧ is_byte (HIBYTE a) ∧ is_byte (LOBYTE a).
Proof.
  intros Ha. split; [|split; apply u8_is_byte].
  pose proof (Z.div_lt_upper_bound a 256 256 ltac:(lia) ltac:(lia)). pose proof (Z.div_pos a 256).
  unfold HIBYTE, LOBYTE. rewrite (wrapu_small 16), Z.shiftr_div_pow2 by lia.
  change 0xFF with (Z.ones 8). rewrite Z.land_ones by lia. change (2 ^ 8) with 256.
  rewrite (Z.mod_small (a / 256)), u8_small by (unfold is_byte; lia).
  unfold wrapu. change (2 ^ 8) with 256. pose proof (Z.div_mod a 256). lia.
Qed.

Lemma wp_mov_dptr a p x d (Q : Z → state → Prop) w out :
  0 ≤ a < 65536 → idle (Chip p x d) w →
  (∀ r w', idle (Chip a x d) w' → Q r (Prog w' out)) →
  wp (mov_dptr garbage a) Q (Prog w out).
Proof.
  intros Ha Hi HQ. destruct (HILO a Ha) as (E & ? & ?).
  unfold mov_dptr, CMD_DEBUG_INSTR_3B. apply (wp_instruction 3 _ (Chip p x d)); [done|lia|bytes|done|].
  intros w'. cbn [instruction Z.eqb Pos.eqb acc dptr dev]. rewrite E. apply HQ.
Qed.

Lemma wp_mov_a v p x d (Q : Z → state → Prop) w out :
  is_byte v → idle (Chip p x d) w →
  (∀ r w', idle (Chip p v d) w' → Q r (Prog w' out)) →
  wp (mov_a garbage v) Q (Prog w out).
Proof.
  intros Hv Hi HQ. unfold mov_a, CMD_DEBUG_INSTR_2B. apply (wp_instruction 2 _ (Chip p x d)); [done|lia|bytes|done|].
  intros w'. apply HQ.
Qed.

Lemma wp_movx_dptr_a p x d (Q : Z → state → Prop) w out :
  idle (Chip p x d) w →
  (∀ r w', idle (Chip p x (xwrite p x d)) w' → Q r (Prog w' out)) →
  wp (movx_dptr_a garbage) Q (Prog w out).
Proof.
  intros Hi HQ. unfold movx_dptr_a, CMD_DEBUG_INSTR_1B. apply (wp_instruction 1 _ (Chip p x d)); [done|lia|bytes|done|].
  intros w'. apply HQ.
Qed.

Lemma wp_inc_dptr p x d (Q : Z → state → Prop) w out :
  idle (Chip p x d) w →
  (∀ r w', idle (Chip (u16 (p + 1)) x d) w' → Q r (Prog w' out)) →
  wp (inc_dptr garbage) Q (Prog w out).
Proof.
  intros Hi HQ. unfold inc_dptr, CMD_DEBUG_INSTR_1B. apply (wp_instruction 1 _ (Chip p x d)); [done|lia|bytes|done|].
  intros w'. apply HQ.
Qed.

Lemma xread_byte a d : is_byte (xread a d).1.
Proof. unfold xread. repeat case_match; simpl; try apply u8_is_byte; unfold is_byte; lia. Qed.

Lemma wp_movx_a_dptr p x d (Q : Z → state → Prop) w out :
  idle (Chip p x d) w →
  (∀ w', idle (Chip p (xread p d).1 (xread p d).2) w' → Q (xread p d).1 (Prog w' out)) →
  wp (movx_a_dptr garbage) Q (Prog w out).
Proof.
  intros Hi HQ. unfold movx_a_dptr, CMD_DEBUG_INSTR_1B. apply (wp_instruction 1 _ (Chip p x d)); [done|lia|bytes|done|].
  intros w'. cbn [instruction Z.eqb Pos.eqb acc dptr dev].
  pose proof (xread_byte p d) as Hb. destruct (xread p d) as [v d']. cbn [fst snd acc] in *.
  rewrite u8_small by done. apply HQ.
Qed.

(** The writes of [l] to the addresses from [a] on. *)
Fixpoint xwrites (a : Z) (l : list Z) (d : device) : device :=
  match l with
  | [] => d
  | b :: l => xwrites (u16 (a + 1)) l (xwrite a b d)
  end.

Lemma xwrites_snoc a l b d : 0 ≤ a < 65536 →
  xwrites a (l ++ [b]) d = xwrite (u16 (a + ZL l)) b (xwrites a l d).
Proof.
  revert a d. induction l as [|b' l IH]; intros a d Ha; cbn [app xwrites length].
  - rewrite Z.add_0_r, (wrapu_small 16); done.
  - rewrite IH by (apply (wrapu_range 16); lia). f_equal. rewrite (wrapu_add_l 16). f_equal. lia.
Qed.

Lemma wp_write_xdata_memory a v d (Q : () → state → Prop) w out :
  0 ≤ a < 65536 → is_byte v → holds d w →
  (∀ w', holds (xwrite a v d) w' → Q () (Prog w' out)) →
  wp (write_xdata_memory garbage a v) Q (Prog w out).
Proof.
  intros Ha Hv (p & x & Hi) HQ. unfold write_xdata_memory.
  apply wp_bind. eapply wp_mov_dptr; [done|exact Hi|]. intros _ w1 H1.
  apply wp_bind. eapply wp_mov_a; [done|exact H1|]. intros _ w2 H2.
  apply wp_bind. eapply wp_movx_dptr_a; [exact H2|]. intros _ w3 H3.
  apply wp_ret, HQ. by exists a, v.
Qed.

Lemma wp_read_xdata_memory a d (Q : Z → state → Prop) w out :
  0 ≤ a < 65536 → holds d w →
  (∀ w', holds (xread a d).2 w' → Q (xread a d).1 (Prog w' out)) →
  wp (read_xdata_memory garbage a) Q (Prog w out).
Proof.
  intros Ha (p & x & Hi) HQ. unfold read_xdata_memory.
  apply wp_bind. eapply wp_mov_dptr; [done|exact Hi|]. intros _ w1 H1.
  eapply wp_movx_a_dptr; [exact H1|]. intros w2 H2. apply HQ. by eexists _, _.
Qed.

Lemma wp_write_xdata_memory_block a l n d (Q : () → state → Prop) w out :
  0 ≤ a < 65536 → 0 ≤ n ≤ ZL l → Forall is_byte l → holds d w →
  (∀ w', holds (xwrites a (take (Z.to_nat n) l) d) w' → Q () (Prog w' out)) →
  wp (write_xdata_memory_block garbage a l n) Q (Prog w out).
Proof.
  intros Ha Hn Hl (p & x & Hi) HQ. unfold write_xdata_memory_block.
  apply wp_bind. eapply wp_mov_dptr; [done|exact Hi|]. intros _ w1 H1.
  apply (wp_for_upto (λ i s, printed s = out ∧
    ∃ x, idle (Chip (u16 (a + i)) x (xwrites a (take (Z.to_nat i) l) d)) (port s))).
  - lia.
  - split; [done|]. exists x. rewrite Z.add_0_r, (wrapu_small 16) by done. exact H1.
  - intros j [w2 o2] Hj [Ho (y & H2)]. cbn [printed port] in *. subst o2.
    destruct (lookup_lt_is_Some_2 l (Z.to_nat j)) as [b Hb]; [lia|].
    apply wp_bind. unfold at_. rewrite Hb. apply wp_ret.
    apply wp_bind. eapply wp_mov_a; [by eapply Forall_lookup_1|exact H2|]. intros _ w3 H3.
    apply wp_bind. eapply wp_movx_dptr_a; [exact H3|]. intros _ w4 H4.
    apply wp_bind. eapply wp_inc_dptr; [exact H4|]. intros _ w5 H5. apply wp_ret.
    split; [done|]. exists b. cbn [port]. rewrite Z2Nat.inj_add by lia. change (Z.to_nat 1) with 1%nat.
    rewrite Nat.add_1_r, (take_S_r _ _ b), xwrites_snoc by done.
    rewrite length_take, Nat.min_l, Z2Nat.id by lia.
    rewrite (wrapu_add_l 16) in H5. by rewrite Z.add_assoc.
  - intros [w2 o2] [Ho (y & H2)]. cbn [printed port] in *. subst o2. apply HQ. by eexists _, _.
Qed.

(** Reading [n] bytes of the bank that is shown, from XDATA address [a] on. *)
Definition flash_bytes (f : Z → Z) (a : Z) (n : nat) : list Z := map (λ i, u8 (f (a + Z.of_nat i))) (seq 0 n).

Lemma xread_flash bank a d : 0 ≤ bank < 8 → 0 ≤ a < 0x8000 →
  xread (0x8000 + a) (xwrite DUP_MEMCTR bank d) =
  (u8 (flash d (bank * 0x8000 + a)), xwrite DUP_MEMCTR bank d).
Proof.
  intros Hb Ha. unfold xread. rewrite (proj2 (Z.leb_le _ _)) by lia.
  unfold xwrite, set_xram, upd. cbn [xram flash armed erasing writing andb Z.eqb Pos.eqb DUP_MEMCTR DUP_DMAARM DUP_FCTL].
  rewrite (u8_small bank) by (unfold is_byte; lia). change 7 with (Z.ones 3). rewrite Z.land_ones, Z.mod_small by lia.
  by replace (0x8000 + a - 0x8000) with a by lia.
Qed.

Lemma wp_read_flash_memory_block bank fa n d (Q : list Z → state → Prop) w out :
  0 ≤ bank < 8 → 0 ≤ fa < 0x8000 → 0 ≤ n → fa + n ≤ 0x8000 → holds d w →
  (∀ w', holds (xwrite DUP_MEMCTR bank d) w' →
     Q (flash_bytes (flash d) (bank * 0x8000 + fa) (Z.to_nat n)) (Prog w' out)) →
  wp (read_flash_memory_block garbage bank fa n) Q (Prog w out).
Proof.
  intros Hb Hf Hn Hfn Hw HQ. unfold read_flash_memory_block.
  apply wp_bind. eapply wp_write_xdata_memory; [unfold DUP_MEMCTR; lia|unfold is_byte; lia|exact Hw|].
  intros w1 (p & x & H1). rewrite (wrapu_small 16 (0x8000 + fa)) by lia.
  apply wp_bind. eapply wp_mov_dptr; [|exact H1|]; [lia|]. intros _ w2 H2.
  apply (wp_loop (λ '(i, values) s, 0 ≤ i ≤ n ∧ printed s = out ∧
      values = flash_bytes (flash d) (bank * 0x8000 + fa) (Z.to_nat i) ∧
      ∃ x, idle (Chip (u16 (0x8000 + (fa + i))) x (xwrite DUP_MEMCTR bank d)) (port s))
    (λ '(i, _) _, n - i)).
  - split; [lia|]. split; [done|]. split; [done|]. exists x. rewrite Z.add_0_r, (wrapu_small 16) by lia. exact H2.
  - lia.
  - intros [i values] [w3 o3] (Hi & Ho & -> & y & H3). cbn [printed port] in *. subst o3. split; [lia|].
    destruct (Z.ltb_spec i n).
    2:{ apply wp_ret. replace i with n in * by lia. apply HQ. by eexists _, _. }
    rewrite (wrapu_small 16) in H3 by lia. apply wp_bind. eapply wp_movx_a_dptr; [exact H3|].
    rewrite xread_flash by lia. cbn [fst snd]. intros w4 H4.
    apply wp_bind. eapply wp_inc_dptr; [exact H4|]. intros _ w5 H5. apply wp_ret.
    split; [|lia]. split; [lia|]. split; [done|]. split.
    + rewrite Z2Nat.inj_add by lia. change (Z.to_nat 1) with 1%nat. unfold flash_bytes.
      rewrite seq_app, map_app, Nat.add_0_l. cbn [seq map]. rewrite Z2Nat.id by lia. by rewrite Z.add_assoc.
    + cbn [port]. eexists. replace (0x8000 + (fa + (i + 1))) with (0x8000 + (fa + i) + 1) by lia. exact H5.
Qed.

(** ** Programming a block *)

(** The device at rest with the flash contents [f]. *)
Definition quiet (f : Z → Z) (d : device) : Prop :=
  flash d = f ∧ armed d = 0 ∧ erasing d = O ∧ writing d = O.

(** The descriptors and registers that write_flash_memory_block sets up, as one operation
    on the device: [h], [l] are the bytes of the length, [fh], [fl] of the flash address. *)
Definition setup (h l fh fl : Z) (d : device) : device :=
  xwrite DUP_FADDRL fl (xwrite DUP_FADDRH fh
    (xwrite DUP_DMA1CFGL (LOBYTE ADDR_DMA_DESC_1) (xwrite DUP_DMA1CFGH (HIBYTE ADDR_DMA_DESC_1)
      (xwrite DUP_DMA0CFGL (LOBYTE ADDR_DMA_DESC_0) (xwrite DUP_DMA0CFGH (HIBYTE ADDR_DMA_DESC_0)
        (xwrites (ADDR_DMA_DESC_1 + 4) [h; l] (xwrites (ADDR_DMA_DESC_0 + 4) [h; l]
          (xwrites ADDR_DMA_DESC_1 dma_desc_1 (xwrites ADDR_DMA_DESC_0 dma_desc_0 d))))))))).

(** A device whose channels are set up for [n] bytes to the flash address [4 * fa]. *)
Record prepared (n fa : Z) (d : device) : Prop := {
  pr_chan0 : word_at d DUP_DMA0CFGH DUP_DMA0CFGL = 0x200;
  pr_chan1 : word_at d DUP_DMA1CFGH DUP_DMA1CFGL = 0x208;
  pr_desc0 : desc_trigger d 0x200 = 31 ∧ desc_src d 0x200 = DUP_DBGDATA ∧ desc_dst d 0x200 = 0 ∧
    increments d 0x200 = 1 ∧ desc_len d 0x200 = n;
  pr_desc1 : desc_trigger d 0x208 = 18 ∧ desc_src d 0x208 = 0 ∧ desc_dst d 0x208 = DUP_FWDATA ∧
    increments d 0x208 = 4 ∧ desc_len d 0x208 = n;
  pr_faddr : word_at d DUP_FADDRH DUP_FADDRL = fa;
}.

Lemma setup_prepared h l fh fl d :
  let d' := setup h l fh fl d in
  prepared (Z.land (u8 h * 256 + u8 l) 0x1FFF) (u8 fh * 256 + u8 fl) d' ∧
  flash d' = flash d ∧ armed d' = armed d ∧ erasing d' = erasing d ∧ writing d' = writing d.
Proof. destruct d. cbv zeta. repeat split; reflexivity. Qed.

(** Only the RAM below the descriptors is not part of the set-up. *)
Lemma prepared_blit n fa d l ar :
  prepared n fa d → ZL l ≤ 0x200 →
  prepared n fa (Device (blit (xram d) 0 l) (flash d) ar (erasing d) (writing d)).
Proof.
  intros [H0 H1 (H2 & H3 & H4 & H5 & H6) (H7 & H8 & H9 & H10 & H11) H12] Hl.
  assert (∀ a, 0x200 ≤ a → blit (xram d) 0 l a = xram d a) as Hb.
  { intros a Ha. unfold blit, within. rewrite (proj2 (Z.ltb_ge a _)) by lia. by rewrite andb_false_r. }
  unfold desc_trigger, desc_src, desc_dst, increments, desc_len, word_at in *.
  split; cbn [xram]; unfold desc_trigger, desc_src, desc_dst, increments, desc_len, word_at; cbn [xram];
    rewrite !Hb by (unfold DUP_DMA0CFGH, DUP_DMA0CFGL, DUP_DMA1CFGH, DUP_DMA1CFGL, DUP_FADDRH, DUP_FADDRL; lia);
    done.
Qed.

Lemma prepared_arm n fa d v : prepared n fa d → prepared n fa (xwrite DUP_DMAARM v d).
Proof. intros [? ? ? ? ?]. by split. Qed.

Lemma take_byte_map r l n : (n ≤ length l)%nat → Forall is_byte l →
  map (λ i, u8 (blit r 0 (take n l) (0 + Z.of_nat i))) (seq 0 n) = take n l.
Proof.
  intros Hn Hl. apply list_eq. intros i. destruct (decide (i < n)%nat) as [Hi|].
  - destruct (lookup_lt_is_Some_2 l i) as [b Hb]; [lia|].
    rewrite list_lookup_fmap, lookup_seq_lt, lookup_take_lt, Hb by lia. cbn [fmap option_fmap option_map].
    unfold blit, within, byte_at. rewrite length_take, (proj2 (Z.leb_le _ _)), (proj2 (Z.ltb_lt _ _)) by lia.
    cbn [andb]. replace (Z.to_nat (0 + Z.of_nat (0 + i) - 0)) with i by lia.
    rewrite lookup_take_lt, Hb by lia. cbn [default]. rewrite u8_small; [done|]. by eapply Forall_lookup_1.
  - rewrite !lookup_ge_None_2; [done| |].
    + rewrite length_take. lia.
    + rewrite length_map, length_seq. lia.
Qed.

(** The transfers of a prepared device: from the debug interface to the buffer, and from there to flash. *)
Lemma transfers n fa d l :
  prepared n fa d → armed d = 0 → erasing d = O → 0 ≤ n ≤ 0x200 → ZL l = n → Forall is_byte l →
  let d' := xwrite DUP_FCTL 0x06 (xwrite DUP_DMAARM CH_BUF0_TO_FLASH
              (burst l (xwrite DUP_DMAARM CH_DBG_TO_BUF0 d))) in
  flash d' = program (flash d) (4 * fa) l ∧ armed d' = 0 ∧ erasing d' = O ∧ writing d' = write_polls.
Proof.
  intros Hp Ha He Hn Hl Hb.
  pose proof (prepared_arm _ _ _ CH_DBG_TO_BUF0 Hp) as Hp1.
  remember (xwrite DUP_DMAARM CH_DBG_TO_BUF0 d) as d1 eqn:E1.
  assert (flash d1 = flash d ∧ armed d1 = 1 ∧ erasing d1 = O) as (Hf1 & Ha1 & He1).
  { subst d1. unfold xwrite. cbn. by rewrite Ha. }
  assert (burst l d1 = Device (blit (xram d1) 0 l) (flash d1) 0 O (writing d1)) as Eb.
  { unfold burst. destruct Hp1 as [H0 _ (H2 & H3 & H4 & H5 & H6) _ _]. rewrite H0, H2, H3, H4, H5, H6, Ha1, He1.
    cbn. by rewrite firstn_all2 by lia. }
  pose proof (prepared_blit _ _ _ l 0 Hp1 ltac:(lia)) as Hp2. rewrite He1, <- Eb in Hp2.
  pose proof (prepared_arm _ _ _ CH_BUF0_TO_FLASH Hp2) as Hp3.
  remember (xwrite DUP_DMAARM CH_BUF0_TO_FLASH (burst l d1)) as d3 eqn:E3.
  assert (flash d3 = flash d ∧ armed d3 = 2 ∧ erasing d3 = O ∧
    ∀ i, 0 ≤ i < 0x200 → xram d3 i = blit (xram d1) 0 l i) as (Hf3 & Ha3 & He3 & Hr3).
  { subst d3. rewrite Eb. unfold xwrite. cbn. rewrite Hf1. split_and!; try done.
    intros i Hi. unfold upd, DUP_DMAARM. by rewrite (proj2 (Z.eqb_neq _ _)) by lia. }
  change (xwrite DUP_FCTL 0x06 d3) with (flash_write (set_xram (upd (xram d3) DUP_FCTL 0x06) d3)).
  assert (prepared n fa (set_xram (upd (xram d3) DUP_FCTL 0x06) d3)) as [_ H1 _ (H7 & H8 & H9 & H10 & H11) H12].
  { destruct Hp3. by split. }
  cbv zeta. unfold flash_write. rewrite H1, H7, H8, H9, H10, H11, H12. cbn [armed set_xram]. rewrite Ha3.
  cbn -[program Z.mul seq]. rewrite Hf3. split_and!; [|done..]. f_equal.
  pose proof (take_byte_map (xram d1) l (Z.to_nat n) ltac:(lia) Hb) as Hm. rewrite firstn_all2 in Hm by lia.
  etransitivity; [|exact Hm]. apply map_ext_in. intros i Hi%in_seq. f_equal. unfold upd.
  rewrite (proj2 (Z.eqb_neq _ _)) by (unfold DUP_FCTL; lia). apply Hr3. lia.
Qed.

Lemma wp_wait_flash f d (Q : () → state → Prop) w out :
  flash d = f → armed d = 0 → erasing d = O → Z.of_nat (writing d) < 2 ^ 33 → holds d w →
  (∀ d' w', quiet f d' → holds d' w' → Q () (Prog w' out)) →
  wp (loop (λ _ : (), fctl ← read_xdata_memory garbage DUP_FCTL;
    if Z.land fctl 0x80 =? 0 then mret (inr ()) else mret (inl ())) ()) Q (Prog w out).
Proof.
  intros Hf Ha He Hw Hd HQ.
  apply (wp_loop_ix (λ k _ s, printed s = out ∧ ∃ d, holds d (port s) ∧ flash d = f ∧ armed d = 0 ∧
    erasing d = O ∧ k = Z.of_nat (writing d)) Q _ (Z.of_nat (writing d))).
  - split; [done|]. by exists d.
  - lia.
  - clear dependent d. intros k _ [w1 o1] (Ho & d & Hd & Hf & Ha & He & ->). cbn [printed port] in *. subst o1.
    split; [lia|]. apply wp_bind. eapply wp_read_xdata_memory; [unfold DUP_FCTL; lia|exact Hd|].
    unfold xread. cbn [Z.leb Z.compare Pos.compare Pos.compare_cont Z.eqb Pos.eqb DUP_FCTL fst snd].
    intros w2 H2. destruct (writing d) as [|m] eqn:Em; apply wp_ret.
    + eapply HQ; [|exact H2]. by repeat split.
    + exists (Z.of_nat m). split; [lia|]. split; [done|]. eexists. split; [exact H2|]. by repeat split.
Qed.

Lemma wp_burst src n d (Q : () → state → Prop) w out :
  0 ≤ n ≤ 512 → n ≤ ZL src → Forall is_byte src → holds d w →
  (∀ w', holds (burst (take (Z.to_nat n) src) d) w' → Q () (Prog w' out)) →
  wp (burst_write_block garbage src n) Q (Prog w out).
Proof.
  intros Hn Hs Hb (p & x & Hi) HQ.
  eapply (wp_burst_write_block _ _ _ _ _ 0 (on_dev (burst (take (Z.to_nat n) src)) (Chip p x d)));
    [lia|done|done| | |by unfold is_byte; lia|exact Hi|].
  - apply Nat.lt_le_incl, part_lag_short.
  - destruct (HIBYTE_lt n ltac:(lia)) as (_ & _ & Hh). set (hi := HIBYTE n) in *. clearbody hi.
    assert (hi = 0 ∨ hi = 1 ∨ hi = 2 ∨ hi = 3 ∨ hi = 4 ∨ hi = 5 ∨ hi = 6 ∨ hi = 7) as Hc by lia.
    by destruct Hc as [->|[->|[->|[->|[->|[->|[->| ->]]]]]]].
  - intros w' H'. apply HQ. by exists p, x.
Qed.

(** write_flash_memory_block programs the block. *)
Lemma wp_write_flash_memory_block src start n f d (Q : () → state → Prop) w out :
  0 ≤ start < 2 ^ 18 → start mod 4 = 0 → 0 ≤ n ≤ 512 → n ≤ ZL src → Forall is_byte src →
  quiet f d → holds d w →
  (∀ d' w', quiet (program f start (take (Z.to_nat n) src)) d' → holds d' w' → Q () (Prog w' out)) →
  wp (write_flash_memory_block garbage src start n) Q (Prog w out).
Proof.
  intros Hst H4 Hn Hsrc Hb (Hf & Ha & He & Hwr) Hw HQ. unfold write_flash_memory_block.
  assert (0 ≤ Z.shiftr start 2 < 65536) as Hsh.
  { rewrite Z.shiftr_div_pow2 by lia. split; [apply Z.div_pos; lia|apply Z.div_lt_upper_bound; lia]. }
  destruct (HILO (Z.shiftr start 2) Hsh) as (Es & Hhs & Hls). destruct (HILO n ltac:(lia)) as (En & Hhn & Hln).
  assert (Forall is_byte dma_desc_0 ∧ Forall is_byte dma_desc_1) as [Hd0 Hd1] by (unfold dma_desc_0, dma_desc_1; split; bytes).
  cbv zeta.
  do 4 (apply wp_bind; eapply wp_write_xdata_memory_block; [done|done|first [done|bytes]|eassumption|intros ? ?]).
  do 7 (apply wp_bind; eapply wp_write_xdata_memory; [done|first [by apply u8_is_byte|done]|eassumption|intros ? ?]).
  apply wp_bind. eapply wp_burst; [lia|done|done|eassumption|intros ? ?].
  do 2 (apply wp_bind; eapply wp_write_xdata_memory; [done|done|eassumption|intros ? ?]).
  destruct (setup_prepared (HIBYTE n) (LOBYTE n) (HIBYTE (Z.shiftr start 2)) (LOBYTE (Z.shiftr start 2)) d)
    as (Hp & Hf1 & Ha1 & He1 & Hw1).
  rewrite (u8_small _ Hhn), (u8_small _ Hln), (u8_small _ Hhs), (u8_small _ Hls), En, Es in Hp.
  replace (Z.land n 0x1FFF) with n in Hp by (change 0x1FFF with (Z.ones 13); rewrite Z.land_ones, Z.mod_small; lia).
  rewrite Ha in Ha1. rewrite He in He1.
  destruct (transfers _ _ _ (take (Z.to_nat n) src) Hp Ha1 He1) as (Hf2 & Ha2 & He2 & Hw2);
    [lia|rewrite length_take; lia|by apply Forall_take|].
  eapply wp_wait_flash; [|exact Ha2|exact He2| |eassumption|exact HQ].
  - rewrite Hf2, Hf1, Hf. f_equal. rewrite Z.shiftr_div_pow2 by lia. change (2 ^ 2) with 4.
    pose proof (Z.div_mod start 4). lia.
  - rewrite Hw2. pose proof write_polls_few. lia.
Qed.

(** ** The other commands *)
Lemma busy_bit x : 0 ≤ x < 128 → Z.land x 0x80 = 0 ∧ Z.land (x + 0x80) 0x80 ≠ 0.
Proof.
  intros Hx.
  assert ((Z.land x 0x80 =? 0) && negb (Z.land (x + 0x80) 0x80 =? 0) = true) as [H1 H2]%andb_true_iff.
  { apply (Z_range_forallb (λ x, (Z.land x 0x80 =? 0) && negb (Z.land (x + 0x80) 0x80 =? 0)) 0 128); [by vm_compute|lia]. }
  split; [by apply Z.eqb_eq|]. by apply Z.eqb_neq, negb_true_iff.
Qed.

Lemma wp_status_command d (Q : Z → state → Prop) w out :
  holds d w → (∀ w', holds (status_read d) w' → Q (status_byte d) (Prog w' out)) →
  wp (debug_command garbage CMD_READ_STATUS [] 0) Q (Prog w out).
Proof.
  intros (p & x & Hi) HQ.
  apply (wp_command CMD_READ_STATUS [] (Chip p x d) _ (status_byte d) (on_dev status_read (Chip p x d)));
    [by apply framed_short|bytes|done| |exact Hi|].
  - unfold status_byte, is_byte. pose proof (part_status_low d). destruct (erasing d); lia.
  - intros w' H'. apply HQ. by exists p, x.
Qed.

Lemma wp_chip_erase f d (Q : () → state → Prop) w out :
  quiet f d → holds d w →
  (∀ d' w', quiet (λ _, 0xFF) d' → holds d' w' → Q () (Prog w' out)) →
  wp (chip_erase garbage) Q (Prog w out).
Proof.
  intros (Hf & Ha & He & Hw) (p & x & Hi) HQ. unfold chip_erase. apply wp_bind.
  apply (wp_command CMD_CHIP_ERASE [] (Chip p x d) _ 0 (on_dev erased (Chip p x d)));
    [by apply framed_short|bytes|done|by unfold is_byte|exact Hi|]. intros w1 H1.
  apply (wp_loop_ix (λ k _ s, printed s = out ∧ ∃ d, holds d (port s) ∧ flash d = (λ _, 0xFF) ∧ armed d = 0 ∧
    writing d = O ∧ k = Z.of_nat (erasing d)) Q _ (Z.of_nat erase_polls)).
  - split; [done|]. eexists. split; [by exists p, x|]. done.
  - pose proof erase_polls_few. lia.
  - clear dependent d. intros k _ [w2 o2] (Ho & d & Hd & Hf & Ha & Hw & ->). cbn [printed port] in *. subst o2.
    split; [lia|]. apply wp_bind. eapply wp_status_command; [exact Hd|]. intros w3 H3.
    unfold status_byte, STATUS_CHIP_ERASE_BUSY_BM. destruct (busy_bit _ (part_status_low d)) as [Hz Hnz].
    destruct (erasing d) as [|m] eqn:Em.
    + rewrite Hz. apply wp_ret. eapply HQ; [|exact H3]. by repeat split; cbn; rewrite ?Em.
    + rewrite (proj2 (Z.eqb_neq _ _)) by done. apply wp_ret. exists (Z.of_nat m). split; [lia|].
      split; [done|]. eexists. split; [exact H3|]. cbn. by rewrite Em.
Qed.

Lemma wp_chip_id d (Q : Z → state → Prop) w out :
  holds d w → (∀ w', holds d w' → Q part_id (Prog w' out)) →
  wp (read_chip_id garbage) Q (Prog w out).
Proof.
  intros (p & x & Hi) HQ.
  eapply (wp_read_chip_id _ (Chip p x d)); [apply part_lag_short|done|apply part_id_byte|apply part_revision_byte|exact Hi|].
  intros w' H'. apply HQ. by exists p, x.
Qed.

Lemma wp_status f d (Q : Z → state → Prop) w out :
  quiet f d → holds d w →
  (∀ d' w', quiet f d' → holds d' w' → Q (part_status d) (Prog w' out)) →
  wp (read_status garbage) Q (Prog w out).
Proof.
  intros (Hf & Ha & He & Hw) (p & x & Hi) HQ.
  apply (wp_read_status _ (Chip p x d) _ (part_status d) (on_dev status_read (Chip p x d)));
    [apply part_lag_short| | |exact Hi|].
  - cbn. unfold status_byte. by rewrite He.
  - pose proof (part_status_low d). unfold is_byte. lia.
  - intros w' H'. eapply HQ; [|by exists p, x]. by repeat split; cbn; rewrite ?He.
Qed.

Lemma wp_wr_config v d (Q : Z → state → Prop) w out :
  is_byte v → holds d w → (∀ w', holds d w' → Q 0 (Prog w' out)) →
  wp (debug_command garbage CMD_WR_CONFIG [v] 1) Q (Prog w out).
Proof.
  intros Hv (p & x & Hi) HQ.
  apply (wp_command CMD_WR_CONFIG [v] (Chip p x d) _ 0 (Chip p x d)); [by apply framed_length|bytes|done|by unfold is_byte|exact Hi|].
  intros w' H'. apply HQ. by exists p, x.
Qed.

Lemma wp_init d w (Q : () → state → Prop) out :
  dc w = false ∨ w_mode w = Running → dev (chip w) = d →
  (∀ w', holds d w' → Q () (Prog w' out)) →
  wp debug_init Q (Prog w out).
Proof.
  intros Hw Hd HQ. apply wp_debug_init; [done|]. intros w' H'. apply HQ.
  destruct (chip w) as [p x d']. cbn in Hd. subst d'. by exists p, x.
Qed.

(** Between two commands the clock is low. *)
Lemma holds_again d w : holds d w → dc w = false ∧ dev (chip w) = d.
Proof. by intros (p & x & h & b & ->). Qed.
End Memories.

(** C19 write_flash_memory_block sets up the two DMA channels, bursts the block into the target's
    RAM and starts the flash controller, so that the bytes given, up to the 512 of the buffer,
    are programmed at the flash address given, and nothing else changes in flash; it returns when the
    controller is done. *)
Theorem flash_block_programmed `{Part} (garbage start n : Z) (src : list Z) (f : Z → Z) d w out :
  0 ≤ start < 2 ^ 18 → start mod 4 = 0 → 0 ≤ n ≤ 512 → n ≤ ZL src → Forall is_byte src →
  quiet f d → holds d w →
  ∃ d' w', write_flash_memory_block garbage src start n (Prog w out) = Ret ((), Prog w' out) ∧
    quiet (program f start (take (Z.to_nat n) src)) d' ∧ holds d' w'.
Proof.
  intros ? ? ? ? ? Hq Hw.
  destruct (wp_inv (write_flash_memory_block garbage src start n)
    (λ _ s, printed s = out ∧ ∃ d', quiet (program f start (take (Z.to_nat n) src)) d' ∧ holds d' (port s)) (Prog w out))
    as ([] & [w' o'] & E & Ho & d' & Hq' & Hw').
  - eapply wp_write_flash_memory_block; [done..|exact Hq|exact Hw|]. intros d' w' ? ?. eauto.
  - cbn [printed port] in *. subst o'. eauto.
Qed.

Module Examples.
(** A part that takes three bytes to answer, five polls to erase and two to write. *)
#[export, refine] Instance some_part : Part := {
  part_id := 0x8D;
  part_revision := 0x21;
  part_status _ := 2;
  part_lag _ _ := 3%nat;
  erase_polls := 5;
  write_polls := 2;
}.
Proof. all: try (intros; unfold is_byte; lia). Defined.

Definition fresh : device := Device (λ _, 0) (λ _, 0xFF) 0 0 0.
Definition fresh_wire : wire cc2541 := Wire false false false (Debugging (Command [] [])) (Chip 0 0 fresh).

Lemma flash_block_programmed_witness :
  quiet (λ _, 0xFF) fresh ∧ holds fresh fresh_wire ∧
  ∃ d' w', write_flash_memory_block 99 [1; 2; 3; 4] 0x800 4 (Prog fresh_wire []) = Ret ((), Prog w' []) ∧
    quiet (program (λ _, 0xFF) 0x800 [1; 2; 3; 4]) d' ∧ holds d' w' ∧ flash d' 0x802 = 3 ∧ flash d' 0x804 = 0xFF.
Proof.
  assert (quiet (λ _, 0xFF) fresh) as Hq by done.
  assert (holds fresh fresh_wire) as Hw by by eexists _, _, _, _.
  split; [done|]. split; [done|].
  destruct (flash_block_programmed 99 0x800 4 [1; 2; 3; 4] (λ _, 0xFF) fresh fresh_wire []) as (d' & w' & E & Hq' & Hw');
    [lia|done|lia|cbn; lia|bytes|done|done|].
  exists d', w'. split; [exact E|]. split; [exact Hq'|]. split; [exact Hw'|]. rewrite (proj1 Hq'). split; vm_compute; reflexivity.
Defined.
End Examples.
