(* ===== verification/Programmer.v ===== *)
(** The CC2541 programmer (tools/RPI/CC2541-programmer/main.c): its commands over the debug
    port, with the files it reads and writes, proved against the target of [Cc2541]. *)
From stdpp Require Import base list strings gmap pretty.
From Stdlib Require Import ZArith Lia Ascii.
From S2P Require Import Prelude Memory DebugPort Cc2541.

#[local] Open Scope Z_scope.

(** * Files *)

(** A stream open for reading; reading past the end of a broken one is an error. *)
Record infile : Type := InFile {
  in_rest : list Z;
  in_broken : bool;
  in_eof : bool;
  in_err : bool;
}.

Definition host_fread (n : nat) (f : infile) : list Z * infile :=
  let got := take n (in_rest f) in
  let short := Nat.ltb (length got) n in
  (got, InFile (drop n (in_rest f)) (in_broken f) (in_eof f || (short && negb (in_broken f)))
          (in_err f || (short && in_broken f))).

(** The program's state: the port with what is printed, the files, the bytes on standard
    input, and the global [pins]. *)
Record host (W : Type) : Type := Host {
  hw : prog W;
  fs : gmap string (list Z);
  stdin : list ascii;
  pins : Z * Z * Z;
}.
Arguments Host {W}.
Arguments hw {W}.
Arguments fs {W}.
Arguments stdin {W}.
Arguments pins {W}.

(** The file system: which files break when they are read to the end, which can be appended to, and how
    many of the bytes offered to a file of a given size it takes. *)
Class Disk : Type := {
  broken : string → bool;
  can_append : string → bool;
  accepts : Z → Z → Z;
}.

Section Main.
Context {W : Type} `{Bcm2835 W} `{Disk}.
Variable garbage : Z.
Abbreviation hosted := (M (host W)).

Definition on_hw (p : prog W) (s : host W) : host W := Host p (fs s) (stdin s) (pins s).
Definition board {A} (m : M (prog W) A) : hosted A := zoom hw on_hw m.
Definition say (line : string) : hosted () := board (host_puts line).

Definition set_pins (p : Z * Z * Z) : hosted () := modify (λ s, Host (hw s) (fs s) (stdin s) p).
Definition getc : hosted (option ascii) :=
  s ← get_st;
  put_st (Host (hw s) (fs s) (tail (stdin s)) (pins s));;
  mret (head (stdin s)).

Definition fopen_r (name : string) : hosted (option infile) :=
  s ← get_st;
  mret (match fs s !! name with Some l => Some (InFile l (broken name) false false) | None => None end).
Definition fopen_a (name : string) : hosted bool :=
  s ← get_st;
  if can_append name then
    put_st (Host (hw s) (<[name := default [] (fs s !! name)]> (fs s)) (stdin s) (pins s));;
    mret true
  else mret false.
Definition host_fwrite (l : list Z) (name : string) : hosted Z :=
  s ← get_st;
  let old := default [] (fs s !! name) in
  let n := accepts (ZL old) (ZL l) in
  put_st (Host (hw s) (<[name := old ++ take (Z.to_nat n) l]> (fs s)) (stdin s) (pins s));;
  mret n.

(** * main.c *)
Definition help : hosted () :=
  say "Available Options:";;
  say "--read-id:			Read chip ID.";;
  say "--check-debug-lock:		Check if the debug lock bit is set.";;
  say "--set-debug-lock:		Set the debug lock bit.";;
  say "--erase-chip:			Erase whole flash memory.";;
  say "--dump-flash <output file>:	Dump whole flash content.";;
  say "--flash-firmware <input file>:	Write firmware file to chip. ";;
  say "--help:				Display this help.".

Definition init : hosted Z :=
  s ← get_st;
  let '(dd, dc, reset_n) := pins s in
  r ← board (programmer_init garbage dd dc reset_n);
  if r =? -1 then
    say "programmer initialization error!";;
    mret (-1)
  else
    board debug_init;;
    mret 0.

Definition erase : hosted () :=
  r ← init;
  if r =? -1 then mret () else
  chip_id ← board (read_chip_id garbage);
  if chip_id =? 0 then
    say "No chip detected";;
    board programmer_close
  else
    say "Requesting chip erase...";;
    board (chip_erase garbage);;
    board programmer_close.

Definition dump_flash (filename : string) : hosted () :=
  r ← init;
  if r =? -1 then mret () else
  chip_id ← board (read_chip_id garbage);
  if chip_id =? 0 then
    say "No chip detected";;
    board programmer_close
  else
  status ← board (read_status garbage);
  if status =? 0 then
    say "No status received";;
    board programmer_close
  else if negb (Z.land status STATUS_DEBUG_LOCKED_BM =? 0) then
    say "Flash dump not possible. Debug lock set.";;
    board programmer_close
  else
  file ← fopen_a filename;
  if negb file then
    say "File opening error";;
    board programmer_close
  else
    say "Downloading flash...";;
    loop (λ '(i, addr, bank),
      if i <? 512 then
        buff ← board (read_flash_memory_block garbage (u8 bank) (u16 addr) 512);
        n ← host_fwrite buff filename;
        if negb (n =? 512) then
          say "error writing";;
          mret (inr ())
        else
          let addr := addr + 512 in
          mret (inl (if 0x8000 <=? addr then (i + 1, 0, bank + 1) else (i + 1, addr, bank)))
      else mret (inr ())) (0, 0, 0);;
    board programmer_close.

(** What host_fread answered sends flash_firmware out of its loop. *)
Definition bad_read (rv : Z) (f : infile) : bool :=
  if rv <=? 0 then in_err f else negb (rv =? 512) && negb (in_eof f).

Definition flash_firmware (filename : string) : hosted () :=
  r ← init;
  if r =? -1 then mret () else
  chip_id ← board (read_chip_id garbage);
  if chip_id =? 0 then
    say "No chip detected";;
    board programmer_close
  else
  file ← fopen_r filename;
  match file with
  | None => say "File opening error"
  | Some file =>
      board (chip_erase garbage);;
      say "Flashing in progress...";;
      board (debug_command garbage CMD_WR_CONFIG [0x22] 1);;
      loop (λ '(i, file, buff, addr),
        if i <? 512 then
          if negb (in_eof file) then
            let '(got, file) := host_fread 512 file in
            let buff := got ++ drop (length got) buff in
            if bad_read (ZL got) file then
              say "error reading or EOF";;
              mret (inr ())
            else
              board (write_flash_memory_block garbage buff addr 512);;
              mret (inl (i + 1, file, buff, addr + 512))
          else
            say "Programming done ...";;
            mret (inr ())
        else mret (inr ())) (0, file, replicate 512 0, 0);;
      board programmer_close
  end.

Definition check_debug_lock : hosted () :=
  r ← init;
  if r =? -1 then mret () else
  chip_id ← board (read_chip_id garbage);
  if chip_id =? 0 then
    say "No chip detected";;
    board programmer_close
  else
    say "Reading status...";;
    status ← board (read_status garbage);
    if status =? 0 then
      say "No status received";;
      board programmer_close
    else
      (if negb (Z.land status STATUS_DEBUG_LOCKED_BM =? 0) then say "DEBUG LOCK SET"
       else say "DEBUG LOCK NOT SET");;
      board programmer_close.

Definition set_debug_lock : hosted () :=
  r ← init;
  if r =? -1 then mret () else
  chip_id ← board (read_chip_id garbage);
  if chip_id =? 0 then
    say "No chip detected";;
    board programmer_close
  else
    board (debug_command garbage CMD_WR_CONFIG [0x22] 1);;
    say "Setting debug lock bit...";;
    board (write_flash_memory_block garbage [0xff; 0xff; 0xff; 0x7f] 0x3fffc 4);;
    board programmer_close.

(** [%x] of a byte. *)
Definition hex_digit (d : Z) : string :=
  default "" (["0"; "1"; "2"; "3"; "4"; "5"; "6"; "7"; "8"; "9"; "a"; "b"; "c"; "d"; "e"; "f"]%string !! Z.to_nat d).
Definition hex (b : Z) : string :=
  if b <? 16 then hex_digit b else (hex_digit (b / 16) +:+ hex_digit (b mod 16))%string.

Definition readid : hosted () :=
  r ← init;
  if r =? -1 then mret () else
  say "Reading chip id...";;
  chip_id ← board (read_chip_id garbage);
  if chip_id =? 0 then
    say "No chip detected";;
    board programmer_close
  else
    say ("Chip ID: " +:+ hex chip_id);;
    board programmer_close.

(** ** The configuration file *)

(** [fgets(pin, 11, f)]: up to ten characters, up to and with a newline. *)
Fixpoint host_fgets (n : nat) (l : list ascii) : list ascii * list ascii :=
  match n, l with
  | S n, c :: l =>
      if Ascii.eqb c "010" then ([c], l)
      else let '(line, rest) := host_fgets n l in (c :: line, rest)
  | _, _ => ([], l)
  end.

Definition is_colon (c : ascii) : bool := Ascii.eqb c ":".
Fixpoint skip_colons (l : list ascii) : list ascii :=
  match l with
  | c :: l' => if is_colon c then skip_colons l' else l
  | [] => []
  end.
Fixpoint to_colon (l : list ascii) : list ascii * list ascii :=
  match l with
  | c :: l' => if is_colon c then ([], l') else let '(t, rest) := to_colon l' in (c :: t, rest)
  | [] => ([], [])
  end.

(** [strtok(s, ":")] and [strtok(NULL, ":")]: the token and what is left for the next call. *)
Definition host_strtok (l : list ascii) : option (list ascii * list ascii) :=
  match skip_colons l with
  | [] => None
  | l => Some (to_colon l)
  end.

Definition digit (c : ascii) : option Z :=
  let n := Z.of_N (N_of_ascii c) in if (48 <=? n) && (n <=? 57) then Some (n - 48) else None.
Fixpoint digits (v : Z) (l : list ascii) : Z :=
  match l with
  | c :: l => match digit c with Some d => digits (10 * v + d) l | None => v end
  | [] => v
  end.
Fixpoint skip_spaces (l : list ascii) : list ascii :=
  match l with
  | c :: l' =>
      let n := Z.of_N (N_of_ascii c) in
      if (n =? 32) || ((9 <=? n) && (n <=? 13)) then skip_spaces l' else l
  | [] => []
  end.
Definition host_atoi (l : list ascii) : Z :=
  match skip_spaces l with
  | c :: l' =>
      if Ascii.eqb c "-" then - digits 0 l' else if Ascii.eqb c "+" then digits 0 l' else digits 0 (c :: l')
  | [] => 0
  end.

(** One line of pins.cfg; [false] is the error return.  Without a line, or without a number after
    the name, the code uses an indeterminate or null string. *)
Definition config_line (line : list ascii) : hosted bool :=
  match host_strtok line with
  | None => fault
  | Some (name, rest) =>
      s ← get_st;
      let '(dd, dc, reset_n) := pins s in
      let name := String.string_of_list_ascii name in
      let number (what : string) (k : Z → Z * Z * Z) : hosted bool :=
        match host_strtok rest with
        | None => fault
        | Some (n, _) =>
            set_pins (k (host_atoi n));;
            say ("	" +:+ what +:+ " line number (" +:+ name +:+ ") : " +:+ pretty (host_atoi n));;
            mret true
        end in
      if String.eqb name "DD" then number "Data" (λ n, (n, dc, reset_n))
      else if String.eqb name "DC" then number "Clock" (λ n, (dd, n, reset_n))
      else if String.eqb name "RESET_N" then number "Reset" (λ n, (dd, dc, n))
      else say "Error in config file";; mret false
  end.

Definition read_config (cfg : list ascii) : hosted bool :=
  loop (λ '(i, cfg),
    if i <? 3 then
      let '(line, rest) := host_fgets 10 cfg in
      ok ← config_line line;
      if (ok : bool) then mret (inl (i + 1, rest)) else mret (inr false)
    else mret (inr true)) (0, cfg).

(** [argv] without the program's name; [cfg] is pins.cfg.  The banner and the scheduler priority are
    left out, and of what perror prints the text for errno. *)
Definition main (argv : list string) (cfg : option (list ascii)) : hosted () :=
  match argv, cfg with
  | [], _ => help
  | _, None => say "File opening error"
  | arg :: args, Some cfg =>
      say "	Reading config file...";;
      ok ← read_config cfg;
      if negb ok then mret ()
      else if String.eqb arg "--help" then help
      else if String.eqb arg "--read-id" then readid
      else if String.eqb arg "--erase-chip" then
        say "Chip erase requested. Confirm by typing Y:";;
        c ← getc;
        if bool_decide (c = Some "Y"%char) then erase else mret ()
      else if String.eqb arg "--check-debug-lock" then check_debug_lock
      else if String.eqb arg "--set-debug-lock" then
        say "Debug locking requested. Confirm by typing Y:";;
        c ← getc;
        if bool_decide (c = Some "Y"%char) then set_debug_lock else mret ()
      else if String.eqb arg "--flash-firmware" then
        match args with
        | [name] =>
            say "Flashing requested. All data will be lost. Confirm by typing Y:";;
            c ← getc;
            if bool_decide (c = Some "Y"%char) then flash_firmware name else mret ()
        | _ => say "Filename not specified."
        end
      else if String.eqb arg "--dump-flash" then
        match args with
        | [name] => dump_flash name
        | _ => say "Filename not specified."
        end
      else help
  end.
End Main.

(** * The commands on a board with a target *)
Section Commands.
Context `{Part} `{Disk}.
Variable garbage : Z.
Abbreviation state := (host (wire cc2541)).

(** A board whose target is not in the middle of a command, with flash contents [f]. *)
Definition attached (f : Z → Z) (s : state) : Prop :=
  let w := port (hw s) in (dc w = false ∨ w_mode w = Running) ∧ quiet f (dev (chip w)).

Lemma attached_holds f d w out fs0 inp ps :
  quiet f d → holds d w → attached f (Host (Prog w out) fs0 inp ps).
Proof. intros Hq (p & x & h & b & ->). split; [by left|done]. Qed.

Lemma wp_board {A} (m : M (prog (wire cc2541)) A) (Q : A → state → Prop) p fs0 inp ps :
  wp m (λ a p', Q a (Host p' fs0 inp ps)) p → wp (board m) Q (Host p fs0 inp ps).
Proof. intros Hm. by apply wp_zoom. Qed.

Lemma wp_say line (Q : () → state → Prop) w out fs0 inp ps :
  Q () (Host (Prog w (out ++ [line])) fs0 inp ps) → wp (say line) Q (Host (Prog w out) fs0 inp ps).
Proof. done. Qed.

Lemma wp_close (Q : () → state → Prop) w out fs0 inp ps :
  Q () (Host (Prog w out) fs0 inp ps) → wp (board programmer_close) Q (Host (Prog w out) fs0 inp ps).
Proof. done. Qed.

Lemma wp_init_board f (Q : Z → state → Prop) w out fs0 inp ps :
  garbage ≠ -1 → attached f (Host (Prog w out) fs0 inp ps) →
  (∀ d w', quiet f d → holds d w' → Q 0 (Host (Prog w' out) fs0 inp ps)) →
  wp (init garbage) Q (Host (Prog w out) fs0 inp ps).
Proof.
  intros Hg [Hw Hq] HQ. cbn [hw port] in *. unfold init. apply wp_bind, wp_get_st. cbn [pins].
  destruct ps as [[dd_ dc_] rst]. apply wp_bind, wp_board.
  unfold programmer_init. apply wp_bind, wp_get_st. cbn [port bcm2835_init wire_gpio]. apply wp_bind, wp_put_st.
  cbn [Z.eqb printed]. do 3 apply wp_bind, wp_on_port. apply wp_ret. rewrite (proj2 (Z.eqb_neq _ _)) by done.
  apply wp_bind, wp_board. eapply wp_init; [|reflexivity|]; [by destruct w|].
  intros w' H'. apply wp_ret. eapply HQ; [|exact H']. by destruct w.
Qed.

(** The start of a command: it finds the chip and goes on. *)
Lemma wp_connect f (no k : M state ()) (Q : () → state → Prop) w out fs0 inp ps :
  garbage ≠ -1 → part_id ≠ 0 → attached f (Host (Prog w out) fs0 inp ps) →
  (∀ d w', quiet f d → holds d w' → wp k Q (Host (Prog w' out) fs0 inp ps)) →
  wp (r ← init garbage;
      if r =? -1 then mret () else
      chip_id ← board (read_chip_id garbage);
      if chip_id =? 0 then no else k) Q (Host (Prog w out) fs0 inp ps).
Proof.
  intros Hg Hid Ha Hk. apply wp_bind. eapply wp_init_board; [done|exact Ha|]. intros d w1 Hq H1.
  cbn [Z.eqb]. apply wp_bind, wp_board. eapply wp_chip_id; [exact H1|]. intros w2 H2.
  rewrite (proj2 (Z.eqb_neq _ _)) by done. by eapply Hk.
Qed.

(** ** dump_flash *)
Lemma flash_bytes_app f a n m : flash_bytes f a (n + m) = flash_bytes f a n ++ flash_bytes f (a + Z.of_nat n) m.
Proof.
  unfold flash_bytes. rewrite seq_app, map_app. f_equal. cbn [Nat.add].
  rewrite <- (Nat.add_0_r n) at 1. rewrite <- fmap_add_seq. rewrite <- list_fmap_compose.
  apply list_fmap_ext. intros i x _. cbn. f_equal. f_equal. lia.
Qed.

Definition flash_size : Z := 262144.

Lemma next_block i : 0 ≤ i →
  512 * ((i + 1) mod 64) = (if 0x8000 <=? 512 * (i mod 64) + 512 then 0 else 512 * (i mod 64) + 512) ∧
  (i + 1) / 64 = (if 0x8000 <=? 512 * (i mod 64) + 512 then i / 64 + 1 else i / 64).
Proof.
  intros Hi. pose proof (Z.div_mod i 64 ltac:(done)). pose proof (Z.mod_pos_bound i 64 ltac:(done)).
  destruct (Z.leb_spec 0x8000 (512 * (i mod 64) + 512)).
  - rewrite <- (Z.mod_unique (i + 1) 64 (i / 64 + 1) 0), <- (Z.div_unique (i + 1) 64 (i / 64 + 1) 0) by lia. done.
  - rewrite <- (Z.mod_unique (i + 1) 64 (i / 64) (i mod 64 + 1)), <- (Z.div_unique (i + 1) 64 (i / 64) (i mod 64 + 1)) by lia.
    split; lia.
Qed.

(** What a disk with room does with a block. *)
Definition roomy : Prop := ∀ size len, accepts size len = len.

Lemma wp_dump_flash f name (Q : () → state → Prop) w out fs0 inp ps :
  garbage ≠ -1 → part_id ≠ 0 → (∀ d, part_status d ≠ 0 ∧ Z.land (part_status d) STATUS_DEBUG_LOCKED_BM = 0) →
  can_append name = true → roomy → attached f (Host (Prog w out) fs0 inp ps) →
  (∀ s', attached f s' →
     fs s' = <[name := default [] (fs0 !! name) ++ flash_bytes f 0 (Z.to_nat flash_size)]> fs0 → Q () s') →
  wp (dump_flash garbage name) Q (Host (Prog w out) fs0 inp ps).
Proof.
  intros Hg Hid Hst Happ Hroom Ha HQ. eapply wp_connect; [done..|]. intros d w1 Hq H1.
  apply wp_bind, wp_board. eapply wp_status; [exact Hq|exact H1|]. intros d2 w2 Hq2 H2.
  destruct (Hst d) as [Hs0 Hs1]. rewrite (proj2 (Z.eqb_neq _ _)), Hs1 by done. cbn [Z.eqb negb].
  apply wp_bind. unfold fopen_a. apply wp_bind, wp_get_st. rewrite Happ. apply wp_bind, wp_put_st, wp_ret.
  cbn [negb hw fs stdin pins]. apply wp_bind, wp_say. apply wp_bind.
  set (old := default [] (fs0 !! name)).
  apply (wp_loop (λ '(i, addr, bank) s, 0 ≤ i ≤ 512 ∧ addr = 512 * (i mod 64) ∧ bank = i / 64 ∧
      attached f s ∧ (∃ d w o, quiet f d ∧ holds d w ∧ hw s = Prog w o) ∧
      fs s = <[name := old ++ flash_bytes f 0 (Z.to_nat (512 * i))]> fs0)
    (λ '(i, _, _) _, 512 - i)).
  - split; [lia|]. split; [done|]. split; [done|]. split; [by eapply attached_holds|].
    split; [by eexists _, _, _|]. cbn [fs]. by rewrite app_nil_r.
  - lia.
  - intros [[i addr] bank] s (Hi & -> & -> & Hat & (d3 & w3 & o3 & Hq3 & H3 & Hp) & Hfs). split; [lia|].
    destruct s as [p fs3 inp3 ps3]. cbn [hw fs] in Hp, Hfs. subst p fs3.
    destruct (Z.ltb_spec i 512); [|apply wp_ret, wp_close; apply HQ; [done|]; cbn [fs]; by replace i with 512 by lia].
    pose proof (Z.div_mod i 64 ltac:(done)). pose proof (Z.mod_pos_bound i 64 ltac:(done)).
    pose proof (Z.div_lt_upper_bound i 64 8 ltac:(done) ltac:(lia)). pose proof (Z.div_pos i 64 ltac:(lia) ltac:(done)).
    rewrite u8_small by (unfold is_byte; lia). rewrite (wrapu_small 16) by lia.
    apply wp_bind, wp_board. eapply wp_read_flash_memory_block; [lia|lia|lia|lia|exact H3|]. intros w4 Hd4.
    assert (quiet f (xwrite DUP_MEMCTR (i / 64) d3)) as Hq4 by (by destruct Hq3). rewrite (proj1 Hq3).
    apply wp_bind. unfold host_fwrite. apply wp_bind, wp_get_st. cbn [fs]. rewrite lookup_insert_eq, Hroom. cbn [default].
    apply wp_bind, wp_put_st, wp_ret.
    assert (ZL (flash_bytes f (i / 64 * 0x8000 + 512 * (i mod 64)) (Z.to_nat 512)) = 512) as Hlen.
    { unfold flash_bytes. by rewrite length_map, length_seq. }
    rewrite Hlen. cbn [negb Z.eqb Pos.eqb]. apply wp_ret.
    destruct (next_block i) as [Ea Eb]; [lia|].
    assert ((if 0x8000 <=? 512 * (i mod 64) + 512 then (i + 1, 0, i / 64 + 1) else (i + 1, 512 * (i mod 64) + 512, i / 64)) =
      (i + 1, 512 * ((i + 1) mod 64), (i + 1) / 64)) as ->.
    { rewrite Ea, Eb. by destruct (0x8000 <=? 512 * (i mod 64) + 512). }
    split; [|lia]. split; [lia|]. split; [done|]. split; [done|]. split; [by eapply attached_holds|].
    split; [by eexists _, _, _|]. cbn [fs]. rewrite insert_insert_eq. f_equal. unfold id. rewrite <- app_assoc. f_equal.
    rewrite firstn_all2 by lia. replace (Z.to_nat (512 * (i + 1))) with (Z.to_nat (512 * i) + Z.to_nat 512)%nat by lia.
    rewrite flash_bytes_app. f_equal. f_equal. lia.
Qed.

(** ** flash_firmware *)

(** What flash holds after a file [l] has been flashed: the file, the rest of a last block filled with
    what the block before it left in the buffer (zeros at first), and erased flash. *)
Definition image (l : list Z) (a : Z) : Z :=
  if flash_size <=? a then 0xFF
  else if a <? ZL l then byte_at 0 l a
  else if a <? 512 * (ZL l / 512 + 1) then (if a <? 512 then 0 else byte_at 0 l (a - 512))
  else 0xFF.

Lemma image_byte l a : Forall is_byte l → is_byte (image l a).
Proof.
  intros Hl. assert (∀ a, is_byte (byte_at 0 l a)) as Hb.
  { intros x. unfold byte_at. destruct (l !! Z.to_nat (x - 0)) as [b|] eqn:E; cbn.
    - by eapply Forall_lookup_1.
    - unfold is_byte. lia. }
  unfold image. repeat case_match; try apply Hb; unfold is_byte; lia.
Qed.

(** The buffer while block [i] is flashed. *)
Definition block_of (l : list Z) (i : Z) (buff : list Z) : Prop :=
  length buff = 512%nat ∧ ∀ k, 0 ≤ k < 512 → byte_at 0 buff k = image l (512 * i + k).

Lemma byte_at_app l1 l2 k : 0 ≤ k →
  byte_at 0 (l1 ++ l2) k = if k <? ZL l1 then byte_at 0 l1 k else byte_at 0 l2 (k - ZL l1).
Proof.
  intros Hk. unfold byte_at. destruct (Z.ltb_spec k (ZL l1)).
  - by rewrite lookup_app_l by lia.
  - rewrite lookup_app_r by lia. do 2 f_equal. lia.
Qed.

Lemma byte_at_drop l n k : 0 ≤ k → byte_at 0 (drop n l) k = byte_at 0 l (k + Z.of_nat n).
Proof. intros Hk. unfold byte_at. rewrite lookup_drop. do 2 f_equal. lia. Qed.

Lemma byte_at_take l n k : 0 ≤ k < Z.of_nat n → byte_at 0 (take n l) k = byte_at 0 l k.
Proof. intros Hk. unfold byte_at. by rewrite lookup_take_lt by lia. Qed.

(** host_fread over the buffer of the block before makes the next block. *)
Lemma next_buffer l i old :
  0 ≤ i < 512 → 512 * i ≤ ZL l → length old = 512%nat →
  (∀ k, 0 ≤ k < 512 → byte_at 0 old k = if i =? 0 then 0 else image l (512 * (i - 1) + k)) →
  let got := take 512 (drop (Z.to_nat (512 * i)) l) in
  block_of l i (got ++ drop (length got) old).
Proof.
  intros Hi Hle Hlen Hold got.
  assert (ZL got = Z.min 512 (ZL l - 512 * i)) as Hg by (unfold got; rewrite length_take, length_drop; lia).
  split; [rewrite length_app, length_drop; lia|]. intros k Hk. rewrite byte_at_app by lia.
  pose proof (Z.div_mod (ZL l) 512 ltac:(done)). pose proof (Z.mod_pos_bound (ZL l) 512 ltac:(done)).
  unfold image, flash_size. rewrite (proj2 (Z.leb_gt _ (512 * i + k))) by lia.
  destruct (Z.ltb_spec k (ZL got)).
  - rewrite (proj2 (Z.ltb_lt (512 * i + k) _)) by lia. unfold got.
    rewrite byte_at_take, byte_at_drop by lia. f_equal. lia.
  - rewrite (proj2 (Z.ltb_ge (512 * i + k) (ZL l))) by lia.
    rewrite (proj2 (Z.ltb_lt (512 * i + k) (512 * _))) by lia.
    rewrite byte_at_drop by lia. replace (k - ZL got + ZL got) with k by lia. rewrite Hold by done.
    destruct (Z.eqb_spec i 0) as [->|]; [by rewrite (proj2 (Z.ltb_lt _ _)) by lia|].
    rewrite (proj2 (Z.ltb_ge (512 * i + k) 512)) by lia. unfold image, flash_size.
    rewrite (proj2 (Z.leb_gt _ _)), (proj2 (Z.ltb_lt _ _)) by lia. f_equal. lia.
Qed.

(** Programming a block of the image after the blocks before it. *)
Lemma program_block l i buff g :
  0 ≤ i → Forall is_byte l → block_of l i buff →
  (∀ a, 0 ≤ a → g a = if a <? 512 * i then image l a else 0xFF) →
  ∀ a, 0 ≤ a → Cc2541.program g (512 * i) (take (Z.to_nat 512) buff) a = if a <? 512 * (i + 1) then image l a else 0xFF.
Proof.
  intros Hi Hl [Hlen Hb] Hg a Ha. rewrite firstn_all2 by lia. unfold Cc2541.program, within. rewrite Hlen, Hg by done.
  destruct (Z.leb_spec (512 * i) a), (Z.ltb_spec a (512 * i + Z.of_nat 512)); cbn [andb].
  - rewrite (proj2 (Z.ltb_ge a (512 * i))), (proj2 (Z.ltb_lt a (512 * (i + 1)))) by lia.
    replace (byte_at (512 * i) buff a) with (byte_at 0 buff (a - 512 * i)) by (unfold byte_at; by rewrite Z.sub_0_r).
    rewrite Hb by lia. replace (512 * i + (a - 512 * i)) with a by lia.
    pose proof (image_byte l a Hl) as [? ?]. rewrite Z.land_comm. change 0xFF with (Z.ones 8).
    rewrite Z.land_ones, Z.mod_small by lia. done.
  - by rewrite !(proj2 (Z.ltb_ge _ _)) by lia.
  - by rewrite !(proj2 (Z.ltb_lt _ _)) by lia.
  - lia.
Qed.

(** After the last block flash holds the image. *)
Lemma image_done l i g : 0 ≤ i → (i = 512 ∨ ZL l < 512 * i) →
  (∀ a, 0 ≤ a → g a = if a <? 512 * i then image l a else 0xFF) → ∀ a, 0 ≤ a → g a = image l a.
Proof.
  intros Hi Hend Hg a Ha. rewrite Hg by done. destruct (Z.ltb_spec a (512 * i)); [done|].
  pose proof (Z.div_mod (ZL l) 512 ltac:(done)). pose proof (Z.mod_pos_bound (ZL l) 512 ltac:(done)).
  unfold image, flash_size. destruct (Z.leb_spec 262144 a); [done|].
  by rewrite !(proj2 (Z.ltb_ge _ _)) by lia.
Qed.

(** One read of an unbroken file that has not come to its end. *)
Lemma fread_block l i file :
  0 ≤ i → 512 * i ≤ ZL l → in_rest file = drop (Z.to_nat (512 * i)) l →
  in_broken file = false → in_err file = false → in_eof file = false →
  let got := take 512 (drop (Z.to_nat (512 * i)) l) in
  let file' := InFile (drop (Z.to_nat (512 * (i + 1))) l) false (ZL l <? 512 * (i + 1)) false in
  host_fread 512 file = (got, file') ∧ bad_read (ZL got) file' = false.
Proof.
  intros Hi Hle Hr Hb He Heof got file'.
  assert (ZL got = Z.min 512 (ZL l - 512 * i)) as Hg by (unfold got; rewrite length_take, length_drop; lia).
  assert (Nat.ltb (length got) 512 = (ZL l <? 512 * (i + 1))) as Hs.
  { destruct (Nat.ltb_spec (length got) 512), (Z.ltb_spec (ZL l) (512 * (i + 1))); lia. }
  split.
  - unfold host_fread, file'. rewrite Hr, Hb, He, Heof, drop_drop. fold got. rewrite Hs. cbn [orb negb]. rewrite andb_true_r, andb_false_r.
    do 3 f_equal. lia.
  - unfold bad_read, file'. cbn [in_err in_eof]. destruct (ZL got <=? 0); [done|].
    destruct (Z.eqb_spec (ZL got) 512); [done|]. by rewrite (proj2 (Z.ltb_lt _ _)) by lia.
Qed.

(** The loop's state before block [i]. *)
Record flashing (l : list Z) (i : Z) (file : infile) (buff : list Z) (addr : Z) : Prop := {
  fl_addr : addr = 512 * i;
  fl_rest : in_rest file = drop (Z.to_nat (512 * i)) l;
  fl_broken : in_broken file = false;
  fl_err : in_err file = false;
  fl_eof : in_eof file = negb (i =? 0) && (ZL l <? 512 * i);
  fl_length : length buff = 512%nat;
  fl_bytes : Forall is_byte buff;
  fl_buff : ∀ k, 0 ≤ k < 512 → byte_at 0 buff k = if i =? 0 then 0 else image l (512 * (i - 1) + k);
}.

Lemma flashing_start l : flashing l 0 (InFile l false false false) (replicate 512 0) 0.
Proof.
  split; try done.
  - by apply Forall_replicate.
  - intros k Hk. unfold byte_at. rewrite lookup_replicate_2 by lia. done.
Qed.

Lemma flashing_next l i file buff addr :
  Forall is_byte l → 0 ≤ i < 512 → flashing l i file buff addr → in_eof file = false →
  let got := take 512 (drop (Z.to_nat (512 * i)) l) in
  let file' := InFile (drop (Z.to_nat (512 * (i + 1))) l) false (ZL l <? 512 * (i + 1)) false in
  let buff' := got ++ drop (length got) buff in
  host_fread 512 file = (got, file') ∧ bad_read (ZL got) file' = false ∧ block_of l i buff' ∧
  flashing l (i + 1) file' buff' (addr + 512).
Proof.
  intros Hl Hi [Haddr Hr Hb He Heof Hlen Hbytes Hold] Hne got file' buff'.
  assert (512 * i ≤ ZL l) as Hle.
  { rewrite Hne in Heof. destruct (Z.eqb_spec i 0), (Z.ltb_spec (ZL l) (512 * i)); try done; lia. }
  destruct (fread_block l i file) as [Hf Hbad]; [lia|done..|].
  pose proof (next_buffer l i buff ltac:(lia) Hle Hlen Hold) as Hnext. split; [done|]. split; [done|]. split; [exact Hnext|].
  split; try done; [lia| | | |].
  - cbn [in_eof file']. by rewrite (proj2 (Z.eqb_neq (i + 1) 0)) by lia.
  - apply Hnext.
  - apply Forall_app. split; [apply Forall_take, Forall_drop, Hl|by apply Forall_drop].
  - intros k Hk. rewrite (proj2 (Z.eqb_neq (i + 1) 0)) by lia. replace (i + 1 - 1) with i by lia. by apply Hnext.
Qed.

Lemma wp_flash_firmware f name l (Q : () → state → Prop) w out fs0 inp ps :
  garbage ≠ -1 → part_id ≠ 0 → fs0 !! name = Some l → broken name = false → Forall is_byte l →
  attached f (Host (Prog w out) fs0 inp ps) →
  (∀ g s', attached g s' → (∀ a, 0 ≤ a → g a = image l a) → fs s' = fs0 → Q () s') →
  wp (flash_firmware garbage name) Q (Host (Prog w out) fs0 inp ps).
Proof.
  intros Hg Hid Hname Hbr Hl Ha HQ. eapply wp_connect; [done..|]. intros d w1 Hq H1.
  apply wp_bind. unfold fopen_r. apply wp_bind, wp_get_st, wp_ret. cbn [fs]. rewrite Hname, Hbr.
  apply wp_bind, wp_board. eapply wp_chip_erase; [exact Hq|exact H1|]. intros d2 w2 Hq2 H2.
  apply wp_bind, wp_say. apply wp_bind, wp_board. eapply wp_wr_config; [by unfold is_byte|exact H2|]. intros w3 H3.
  apply wp_bind.
  apply (wp_loop (λ '(i, file, buff, addr) s, 0 ≤ i ≤ 512 ∧ flashing l i file buff addr ∧ fs s = fs0 ∧
      ∃ g d w o, quiet g d ∧ holds d w ∧ hw s = Prog w o ∧
        ∀ a, 0 ≤ a → g a = if a <? 512 * i then image l a else 0xFF)
    (λ '(i, _, _, _) _, 512 - i)).
  - split; [lia|]. split; [apply flashing_start|]. split; [done|]. eexists _, _, _, _.
    split; [exact Hq2|]. split; [exact H3|]. split; [done|]. intros a Ha0. by rewrite (proj2 (Z.ltb_ge _ _)) by lia.
  - lia.
  - intros [[[i file] buff] addr] s (Hi & Hfl & Hfs & g & d4 & w4 & o4 & Hq4 & Hd4 & Hp & Hg4). split; [lia|].
    destruct s as [p fs4 inp4 ps4]. cbn [hw fs] in Hp, Hfs. subst p fs4.
    destruct (Z.ltb_spec i 512).
    2:{ apply wp_ret, wp_close. apply (HQ g); [by eapply attached_holds| |done].
        apply (image_done l i); [lia|left; lia|done]. }
    destruct (in_eof file) eqn:Eeof; cbn [negb].
    { apply wp_bind, wp_say, wp_ret, wp_close. apply (HQ g); [by eapply attached_holds| |done].
      apply (image_done l i); [lia|right|done]. destruct Hfl as [_ _ _ _ Heof _ _ _].
      rewrite Eeof in Heof. symmetry in Heof. apply andb_prop in Heof as [_ Hlt]. by apply Z.ltb_lt. }
    destruct (flashing_next l i file buff addr Hl ltac:(lia) Hfl Eeof) as (Hf & Hbad & Hblock & Hnext).
    rewrite Hf, Hbad. apply wp_bind, wp_board. assert (addr = 512 * i) as -> by apply Hfl.
    eapply (wp_write_flash_memory_block _ _ _ _ g);
      [lia|rewrite Z.mul_comm; change 512 with (128 * 4); rewrite Z.mul_assoc; apply Z.mod_mul; lia|lia
      |rewrite (fl_length _ _ _ _ _ Hnext); lia|apply Hnext|done|done|].
    intros d5 w5 Hq5 H5. apply wp_ret. split; [|lia]. split; [lia|].
    split; [exact Hnext|]. split; [done|].
    eexists _, _, _, _. split; [exact Hq5|]. split; [exact H5|]. split; [done|].
    apply program_block; [lia|done..].
Qed.

(** ** set_debug_lock *)
Lemma wp_set_debug_lock f (Q : () → state → Prop) w out fs0 inp ps :
  garbage ≠ -1 → part_id ≠ 0 → attached f (Host (Prog w out) fs0 inp ps) →
  (∀ s', attached (Cc2541.program f 0x3fffc [0xff; 0xff; 0xff; 0x7f]) s' → fs s' = fs0 → Q () s') →
  wp (set_debug_lock garbage) Q (Host (Prog w out) fs0 inp ps).
Proof.
  intros Hg Hid Ha HQ. eapply wp_connect; [done..|]. intros d w1 Hq H1.
  apply wp_bind, wp_board. eapply wp_wr_config; [by split|exact H1|]. intros w2 H2.
  apply wp_bind, wp_say. apply wp_bind, wp_board.
  eapply (wp_write_flash_memory_block _ _ _ _ f d); [lia|done|lia|cbn; lia|bytes|exact Hq|exact H2|].
  intros d3 w3 Hq3 H3. apply wp_close, HQ; [by eapply attached_holds|done].
Qed.

(** The bytes below the last one stay, and of the last one only the lock bit goes. *)
Lemma lock_bit_cleared f a : (∀ a, is_byte (f a)) →
  Cc2541.program f 0x3fffc [0xff; 0xff; 0xff; 0x7f] a = if a =? 0x3ffff then Z.land (f a) 0x7f else f a.
Proof.
  intros Hf. unfold Cc2541.program, within, byte_at. cbn [length].
  assert (∀ x, is_byte x → Z.land x 0xff = x) as Hff.
  { intros x [? ?]. change 0xff with (Z.ones 8). rewrite Z.land_ones, Z.mod_small; lia. }
  destruct (Z.leb_spec 0x3fffc a), (Z.ltb_spec a (0x3fffc + Z.of_nat 4)); cbn [andb];
    [|destruct (Z.eqb_spec a 0x3ffff); [lia|done]..].
  assert (a = 0x3fffc ∨ a = 0x3fffd ∨ a = 0x3fffe ∨ a = 0x3ffff) as [->|[->|[->| ->]]] by lia;
    cbn; rewrite ?Hff by apply Hf; done.
Qed.

Lemma flash_bytes_list g l : Forall is_byte l → (∀ a, 0 ≤ a < ZL l → g a = byte_at 0 l a) →
  flash_bytes g 0 (length l) = l.
Proof.
  intros Hl Hg. apply list_eq. intros k. unfold flash_bytes. rewrite list_lookup_fmap.
  destruct (decide (k < length l)%nat) as [Hk|Hk].
  - rewrite lookup_seq_lt by lia. cbn [fmap option_fmap option_map].
    destruct (lookup_lt_is_Some_2 l k Hk) as [b Hb]. rewrite Hb. f_equal. rewrite Hg by lia.
    unfold byte_at. replace (Z.to_nat (0 + Z.of_nat (0 + k) - 0)) with k by lia. rewrite Hb. apply u8_small.
    by eapply Forall_lookup_1.
  - rewrite (lookup_ge_None_2 (seq _ _)) by (rewrite length_seq; lia). by rewrite lookup_ge_None_2 by lia.
Qed.

(** The image of a file that fills flash is the file. *)
Lemma image_full l : ZL l = flash_size → Forall is_byte l → ∀ g, (∀ a, 0 ≤ a → g a = image l a) →
  flash_bytes g 0 (Z.to_nat flash_size) = l.
Proof.
  intros Hlen Hl g Hg. replace (Z.to_nat flash_size) with (length l) by lia.
  apply flash_bytes_list; [done|]. intros a Ha. rewrite Hg by lia. unfold image.
  rewrite (proj2 (Z.leb_gt _ _)), (proj2 (Z.ltb_lt _ _)) by lia. done.
Qed.

(** ** Refusals *)
Inductive request : Type :=
  | ReadId
  | Erase
  | CheckLock
  | SetLock
  | Flash (name : string)
  | Dump (name : string).

Definition perform (r : request) : M state () :=
  match r with
  | ReadId => readid garbage
  | Erase => erase garbage
  | CheckLock => check_debug_lock garbage
  | SetLock => set_debug_lock garbage
  | Flash name => flash_firmware garbage name
  | Dump name => dump_flash garbage name
  end.

(** Why a request is refused, [st] the status the target answers; and what is said first. *)
Definition refusal (st : Z) (files : gmap string (list Z)) (r : request) : option string :=
  if part_id =? 0 then Some "No chip detected"%string
  else
    match r with
    | Dump name =>
        if st =? 0 then Some "No status received"%string
        else if negb (Z.land st STATUS_DEBUG_LOCKED_BM =? 0) then Some "Flash dump not possible. Debug lock set."%string
        else if can_append name then None else Some "File opening error"%string
    | CheckLock => if st =? 0 then Some "No status received"%string else None
    | Flash name => match files !! name with None => Some "File opening error"%string | Some _ => None end
    | _ => None
    end.

Definition announced (r : request) : list string :=
  match r with
  | ReadId => ["Reading chip id..."%string]
  | CheckLock => if part_id =? 0 then [] else ["Reading status..."%string]
  | _ => []
  end.

(** What a refusal leaves. *)
Definition untouched (f : Z → Z) (out : list string) (fs0 : gmap string (list Z)) (s : state) : Prop :=
  attached f s ∧ fs s = fs0 ∧ printed (hw s) = out.

Lemma refuse f d w out fs0 inp ps line lines : quiet f d → holds d w → lines = out ++ [line] →
  wp (say line;; board programmer_close) (λ _, untouched f lines fs0) (Host (Prog w out) fs0 inp ps).
Proof.
  intros Hq Hw ->. apply wp_bind, wp_say, wp_close. split; [by eapply attached_holds|done].
Qed.

(** The start of a command that finds no chip. *)
Lemma wp_no_chip f (k : M state ()) lines w out fs0 inp ps :
  garbage ≠ -1 → part_id = 0 → attached f (Host (Prog w out) fs0 inp ps) → lines = out ++ ["No chip detected"%string] →
  wp (r ← init garbage;
      if r =? -1 then mret () else
      chip_id ← board (read_chip_id garbage);
      if chip_id =? 0 then (say "No chip detected";; board programmer_close) else k)
    (λ _, untouched f lines fs0) (Host (Prog w out) fs0 inp ps).
Proof.
  intros Hg Hid Ha Hl. apply wp_bind. eapply wp_init_board; [done|exact Ha|]. intros d w1 Hq H1.
  cbn [Z.eqb]. apply wp_bind, wp_board. eapply wp_chip_id; [exact H1|]. intros w2 H2. rewrite Hid. eapply refuse; [exact Hq|exact H2|exact Hl].
Qed.

Lemma no_chip_refused f r w out fs0 inp ps :
  garbage ≠ -1 → part_id = 0 → attached f (Host (Prog w out) fs0 inp ps) →
  wp (perform r) (λ _, untouched f (out ++ announced r ++ ["No chip detected"%string]) fs0) (Host (Prog w out) fs0 inp ps).
Proof.
  intros Hg Hid Ha. assert ((part_id =? 0) = true) as Eid by (by apply Z.eqb_eq).
  destruct r; cbn [perform announced app]; rewrite ?Eid; cbv iota;
    [|unfold erase|unfold check_debug_lock|unfold set_debug_lock|unfold flash_firmware|unfold dump_flash];
    [|apply wp_no_chip; [exact Hg|exact Hid|exact Ha|reflexivity]..].
  apply wp_bind. eapply wp_init_board; [done|exact Ha|]. intros d w1 Hq H1. cbn [Z.eqb].
  apply wp_bind, wp_say, wp_bind, wp_board. eapply wp_chip_id; [exact H1|]. intros w2 H2. rewrite Hid.
  eapply refuse; [exact Hq|exact H2|by rewrite <- app_assoc].
Qed.

Lemma lock_check_refused f w out fs0 inp ps :
  garbage ≠ -1 → part_id ≠ 0 → (∀ d, part_status d = 0) → attached f (Host (Prog w out) fs0 inp ps) →
  wp (check_debug_lock garbage) (λ _, untouched f (out ++ ["Reading status..."; "No status received"]%string) fs0)
    (Host (Prog w out) fs0 inp ps).
Proof.
  intros Hg Hid Hst Ha. eapply wp_connect; [done..|]. intros d w1 Hq H1. apply wp_bind, wp_say, wp_bind, wp_board.
  eapply wp_status; [exact Hq|exact H1|]. intros d2 w2 Hq2 H2. rewrite Hst. cbn [Z.eqb].
  eapply refuse; [exact Hq2|exact H2|by rewrite <- app_assoc].
Qed.

Lemma flash_refused f name w out fs0 inp ps :
  garbage ≠ -1 → part_id ≠ 0 → fs0 !! name = None → attached f (Host (Prog w out) fs0 inp ps) →
  wp (flash_firmware garbage name) (λ _, untouched f (out ++ ["File opening error"%string]) fs0) (Host (Prog w out) fs0 inp ps).
Proof.
  intros Hg Hid Hf Ha. eapply wp_connect; [done..|]. intros d w1 Hq H1. apply wp_bind. unfold fopen_r.
  apply wp_bind, wp_get_st. cbn [fs]. rewrite Hf. apply wp_ret, wp_say. split; [by eapply attached_holds|done].
Qed.

Lemma dump_refused f st name line w out fs0 inp ps :
  garbage ≠ -1 → part_id ≠ 0 → (∀ d, part_status d = st) → refusal st fs0 (Dump name) = Some line →
  attached f (Host (Prog w out) fs0 inp ps) →
  wp (dump_flash garbage name) (λ _, untouched f (out ++ [line]) fs0) (Host (Prog w out) fs0 inp ps).
Proof.
  intros Hg Hid Hst Hr Ha. unfold refusal in Hr. rewrite (proj2 (Z.eqb_neq part_id 0)) in Hr by done.
  eapply wp_connect; [done..|]. intros d w1 Hq H1. apply wp_bind, wp_board.
  eapply wp_status; [exact Hq|exact H1|]. intros d2 w2 Hq2 H2. rewrite Hst.
  destruct (st =? 0); [injection Hr as <-; eapply refuse; [exact Hq2|exact H2|reflexivity]|].
  destruct (negb (Z.land st STATUS_DEBUG_LOCKED_BM =? 0)); [injection Hr as <-; eapply refuse; [exact Hq2|exact H2|reflexivity]|].
  apply wp_bind. unfold fopen_a. apply wp_bind, wp_get_st. destruct (can_append name); [discriminate Hr|]. injection Hr as <-.
  apply wp_ret. cbn [negb]. eapply refuse; [exact Hq2|exact H2|reflexivity].
Qed.

Lemma wp_refusal f st r line w out fs0 inp ps :
  garbage ≠ -1 → (∀ d, part_status d = st) → refusal st fs0 r = Some line →
  attached f (Host (Prog w out) fs0 inp ps) →
  wp (perform r) (λ _, untouched f (out ++ announced r ++ [line]) fs0) (Host (Prog w out) fs0 inp ps).
Proof.
  intros Hg Hst Hr Ha. destruct (Z.eqb_spec part_id 0) as [Hid|Hid].
  { unfold refusal in Hr. rewrite Hid in Hr. injection Hr as <-. by apply no_chip_refused. }
  assert ((part_id =? 0) = false) as Eid by (by apply Z.eqb_neq).
  destruct r as [| | | |name|name]; cbn [perform announced app]; try (unfold refusal in Hr; rewrite Eid in Hr; discriminate Hr).
  - rewrite Eid. unfold refusal in Hr. rewrite Eid in Hr. destruct (Z.eqb_spec st 0) as [->|]; [|discriminate Hr]. injection Hr as <-.
    by apply lock_check_refused.
  - unfold refusal in Hr. rewrite Eid in Hr. destruct (fs0 !! name) eqn:Ef; [discriminate Hr|]. injection Hr as <-. by apply flash_refused.
  - by eapply dump_refused.
Qed.
End Commands.

(** * What the programmer does *)

(** C22 flash_firmware of any readable file on any attached target ends, with the file at the start of
    flash; the last block is filled up with what the buffer still held, and when the length is a multiple of 512
    a whole stale block follows the file; the rest of flash is erased. *)
Theorem firmware_image `{Part} `{Disk} (garbage : Z) (f : Z → Z) (name : string) (l : list Z) (s : host (wire cc2541)) :
  garbage ≠ -1 → part_id ≠ 0 → fs s !! name = Some l → broken name = false → Forall is_byte l → attached f s →
  ∃ g s', flash_firmware garbage name s = Ret ((), s') ∧ attached g s' ∧ (∀ a, 0 ≤ a → g a = image l a) ∧ fs s' = fs s.
Proof.
  intros ? ? ? ? ? ?. destruct s as [[w out] fs0 inp ps].
  destruct (wp_inv (flash_firmware garbage name)
    (λ _ s', ∃ g, attached g s' ∧ (∀ a, 0 ≤ a → g a = image l a) ∧ fs s' = fs0) (Host (Prog w out) fs0 inp ps))
    as ([] & s' & E & g & ? & ? & ?).
  - eapply wp_flash_firmware; [done..|]. eauto.
  - eauto 6.
Qed.

(** C18 Flashing a file of 256 KiB and then dumping flash appends exactly that file to the output file. *)
Theorem firmware_roundtrip `{Part} `{Disk} (garbage : Z) (f : Z → Z) (name dump : string) (l : list Z)
    (s : host (wire cc2541)) :
  garbage ≠ -1 → part_id ≠ 0 →
  (∀ d, part_status d ≠ 0 ∧ Z.land (part_status d) STATUS_DEBUG_LOCKED_BM = 0) →
  fs s !! name = Some l → broken name = false → can_append dump = true → roomy →
  ZL l = flash_size → Forall is_byte l → attached f s →
  ∃ s', (flash_firmware garbage name;; dump_flash garbage dump) s = Ret ((), s') ∧
    fs s' = <[dump := default [] (fs s !! dump) ++ l]> (fs s).
Proof.
  intros ? ? ? ? ? ? ? Hlen Hl ?. destruct s as [[w out] fs0 inp ps].
  destruct (wp_inv (flash_firmware garbage name;; dump_flash garbage dump)
    (λ _ s', fs s' = <[dump := default [] (fs0 !! dump) ++ l]> fs0) (Host (Prog w out) fs0 inp ps))
    as ([] & s' & E & ?); [|eauto].
  apply wp_bind. eapply wp_flash_firmware; [done..|]. intros g [[w1 o1] fs1 inp1 ps1] Ha1 Hg Hfs.
  cbn [fs] in Hfs. subst fs1. eapply wp_dump_flash; [done..|]. intros s2 _ Hfs2.
  by rewrite Hfs2, image_full with (l := l).
Qed.

(** C21 Every request the programmer refuses leaves the target's flash and every file as they were and says exactly why, on the last
    line: any request when no chip answers, a dump or a look at the lock when no status comes, a dump of a locked
    chip or into a file that cannot be opened, and flashing a file that cannot be opened. *)
Theorem requests_refused `{Part} `{Disk} (garbage st : Z) (f : Z → Z) (r : request) (line : string) (s : host (wire cc2541)) :
  garbage ≠ -1 → (∀ d, part_status d = st) → refusal st (fs s) r = Some line → attached f s →
  ∃ s', perform garbage r s = Ret ((), s') ∧ attached f s' ∧ fs s' = fs s ∧
    printed (hw s') = printed (hw s) ++ announced r ++ [line].
Proof.
  intros ? ? ? ?. destruct s as [[w out] fs0 inp ps].
  destruct (wp_inv (perform garbage r) (λ _, untouched f (out ++ announced r ++ [line]) fs0) (Host (Prog w out) fs0 inp ps))
    as ([] & s' & E & ? & ? & ?); [by eapply wp_refusal|eauto].
Qed.

Module Examples.
Import Cc2541.Examples.

#[local] Instance big_disk : Disk := {
  broken _ := false;
  can_append _ := true;
  accepts _ len := len;
}.

Definition board (files : gmap string (list Z)) : host (wire cc2541) :=
  Host (Prog (Wire false false false Running (Chip 0 0 Cc2541.Examples.fresh)) []) files [] (27, 22, 17).

Lemma attached_board files : attached (λ _, 0xFF) (board files).
Proof. split; [by left|done]. Qed.

(** A file of three bytes, and one of a whole block, which is followed by a copy of itself. *)
Lemma firmware_image_witness :
  ∃ g s', flash_firmware 0 "fw" (board {["fw"%string := [1; 2; 3]]}) = Ret ((), s') ∧ attached g s' ∧
    g 1 = 2 ∧ g 3 = 0 ∧ g 511 = 0 ∧ g 512 = 0xFF.
Proof.
  destruct (firmware_image 0 (λ _, 0xFF) "fw" [1; 2; 3] (board {["fw"%string := [1; 2; 3]]}))
    as (g & s' & E & Ha & Hg & _); [done|done|done|done|bytes|apply attached_board|].
  exists g, s'. split; [exact E|]. split; [exact Ha|]. rewrite !Hg by lia. repeat split; vm_compute; reflexivity.
Defined.

Lemma stale_block :
  let l := replicate 512 7 in
  ∀ g, (∀ a, 0 ≤ a → g a = image l a) → g 511 = 7 ∧ g 512 = 7 ∧ g 1023 = 7 ∧ g 1024 = 0xFF.
Proof. intros l g Hg. rewrite !Hg by lia. repeat split; vm_compute; reflexivity. Qed.

Definition full_file : list Z := replicate (Z.to_nat flash_size) 7.

Lemma full_file_length : ZL full_file = flash_size.
Proof. unfold full_file. rewrite length_replicate, Z2Nat.id; [done|unfold flash_size; lia]. Qed.

Lemma full_file_bytes : Forall is_byte full_file.
Proof. by apply Forall_replicate. Qed.

#[local] Opaque full_file.

Lemma firmware_roundtrip_witness :
  ∃ s', (flash_firmware 0 "fw";; dump_flash 0 "out") (board {["fw"%string := full_file]}) = Ret ((), s') ∧
    fs s' = <["out"%string := full_file]> {["fw"%string := full_file]}.
Proof.
  destruct (firmware_roundtrip 0 (λ _, 0xFF) "fw" "out" full_file (board {["fw"%string := full_file]})) as (s' & E & Hfs).
  - done.
  - done.
  - intros d. by split.
  - apply lookup_singleton_eq.
  - done.
  - done.
  - by intros size len.
  - apply full_file_length.
  - apply full_file_bytes.
  - apply attached_board.
  - exists s'. split; [exact E|]. rewrite Hfs. cbn [fs board]. rewrite lookup_singleton_ne by done.
    cbn [default from_option app]. reflexivity.
Defined.

(** A locked chip is not dumped. *)
#[local, refine] Instance locked_part : Part := {
  part_id := 0x8D;
  part_revision := 0x21;
  part_status _ := 0x26;
  part_lag _ _ := 3%nat;
  erase_polls := 5;
  write_polls := 2;
}.
Proof. all: try (intros; unfold is_byte; lia). Defined.

Lemma requests_refused_witness :
  ∃ s', perform (H := locked_part) 0 (Dump "out") (board ∅) = Ret ((), s') ∧ fs s' = ∅ ∧
    printed (hw s') = ["Flash dump not possible. Debug lock set."%string].
Proof.
  destruct (requests_refused (H := locked_part) 0 0x26 (λ _, 0xFF) (Dump "out") "Flash dump not possible. Debug lock set." (board ∅))
    as (s' & E & _ & Hfs & Hp).
  - done.
  - by intros d.
  - vm_compute. reflexivity.
  - apply attached_board.
  - exists s'. split; [exact E|]. split; [exact Hfs|exact Hp].
Defined.

(** pins.cfg as it is in the repository is read; with RESET_N first the newline that [fgets] leaves
    behind is taken for a line. *)
Definition line (l : string) : list ascii := String.list_ascii_of_string l ++ ["010"%char].
Definition start : host () := Host (Prog () []) ∅ [] (0, 0, 0).

Example config_read :
  match read_config (line "DD:27" ++ line "DC:22" ++ line "RESET_N:17") start with
  | Ret (ok, s) => ok = true ∧ pins s = (27, 22, 17)
  | _ => False
  end.
Proof. vm_compute. by split. Qed.

Example config_order :
  match read_config (line "RESET_N:17" ++ line "DD:27" ++ line "DC:22") start with
  | Ret (ok, s) => ok = false ∧ head (rev (printed (hw s))) = Some "Error in config file"%string
  | _ => False
  end.
Proof. vm_compute. by split. Qed.

(** The line numbers read are not used. *)
Lemma pins_ignored {W} `{Bcm2835 W} g dd dc rst (s : prog W) :
  programmer_init g dd dc rst s = programmer_init g 0 0 0 s.
Proof. done. Qed.
End Examples.
