(* ===== verification/BleClient.v ===== *)
(** The bluetooth boot loader client (tools/bluetooth/bluetooth_bootloader_client) over a BLE serial
    module, as an event loop: its invariant under every order of events, and the upload of a file
    run against the boot ROM. *)
From stdpp Require Import base list gmap fin_maps.
From Stdlib Require Import ZArith Lia.
From S2P Require Import Prelude Memory LibcMem Csr Boot BootProto BootClient.

#[local] Open Scope Z_scope.

(** * ATT packets (contrib/bluez/attrib) *)
Definition ATT_OP_HANDLE_NOTIFY : Z := 0x1B.
Definition ATT_OP_HANDLE_IND : Z := 0x1D.
Definition ATT_OP_HANDLE_CNF : Z := 0x1E.
Definition ATT_OP_WRITE_CMD : Z := 0x52.
Definition ATT_DEFAULT_LE_MTU : Z := 23.
Definition ATT_CID : Z := 4.

(** [len] is the size of the packet buffer, a size_t. *)
Definition enc_write_cmd (handle : Z) (value : list Z) (len : Z) : list Z :=
  let min_len := 3 in
  let room := wrapu 64 (len - min_len) in
  let vlen := if ZL value >? room then room else ZL value in
  [ATT_OP_WRITE_CMD; u8 handle; u8 (Z.shiftr handle 8)] ++ take (Z.to_nat vlen) value.
Definition enc_confirmation : list Z := [ATT_OP_HANDLE_CNF].

(** * bluetooth_bootloader_client.c: its state *)
Definition TX_MTU : nat := 24.
Definition jmp_addr : Z := 0x10000.

(** What goes to standard error. *)
Inductive message : Type :=
  | InvalidState
  | WritingTo (a : Z)
  | ErrorReadingSource
  | InvalidResponse (c : Z)
  | ProgrammingCompleted
  | Indication (handle : Z) (value : list Z)
  | InvalidOpcode
  | ConnectError
  | Connected (mtu : Z)
  | ErrorOpeningFile
  | ProgrammingStarted.

(** How the program ends: the main loop is left, or exit(1). *)
Inductive ending : Type := Quit | Exit1.

Record flags : Type := Flags {
  write_complete : Z;
  response_received : Z;
  jmp_addr_done : Z;
  jmp_initiated : Z;
  w_addr_set : Z;
}.

(** The globals; the part of the file not read yet; how many watches on the file and idle calls glib still
    has to run; whether notifications are handled; the packets sent; the messages; the end. *)
Record ble : Type := Ble {
  fl : flags;
  write_buf : list Z;
  write_addr : Z;
  att_mtu : Z;
  source : list Z;
  watches : nat;
  idles : nat;
  listening : bool;
  air : list (list Z);
  messages : list message;
  over : option ending;
}.

Definition set_fl (f : flags) (s : ble) : ble :=
  Ble f (write_buf s) (write_addr s) (att_mtu s) (source s) (watches s) (idles s) (listening s) (air s) (messages s) (over s).
Definition set_buf (b : list Z) (s : ble) : ble :=
  Ble (fl s) b (write_addr s) (att_mtu s) (source s) (watches s) (idles s) (listening s) (air s) (messages s) (over s).
Definition set_write_addr (a : Z) (s : ble) : ble :=
  Ble (fl s) (write_buf s) a (att_mtu s) (source s) (watches s) (idles s) (listening s) (air s) (messages s) (over s).
Definition set_source (l : list Z) (s : ble) : ble :=
  Ble (fl s) (write_buf s) (write_addr s) (att_mtu s) l (watches s) (idles s) (listening s) (air s) (messages s) (over s).
Definition set_watches (n : nat) (s : ble) : ble :=
  Ble (fl s) (write_buf s) (write_addr s) (att_mtu s) (source s) n (idles s) (listening s) (air s) (messages s) (over s).
Definition set_idles (n : nat) (s : ble) : ble :=
  Ble (fl s) (write_buf s) (write_addr s) (att_mtu s) (source s) (watches s) n (listening s) (air s) (messages s) (over s).
Definition listen_start (s : ble) : ble :=
  Ble (fl s) (write_buf s) (write_addr s) (att_mtu s) (source s) (watches s) (idles s) true (air s) (messages s) (over s).
Definition g_attrib_send (pdu : list Z) (s : ble) : ble :=
  Ble (fl s) (write_buf s) (write_addr s) (att_mtu s) (source s) (watches s) (idles s) (listening s) (air s ++ [pdu]) (messages s) (over s).
Definition g_printerr (m : message) (s : ble) : ble :=
  Ble (fl s) (write_buf s) (write_addr s) (att_mtu s) (source s) (watches s) (idles s) (listening s) (air s) (messages s ++ [m]) (over s).
Definition finish (e : ending) (s : ble) : ble :=
  Ble (fl s) (write_buf s) (write_addr s) (att_mtu s) (source s) (watches s) (idles s) (listening s) (air s) (messages s) (Some e).

Definition set_write_complete (v : Z) (s : ble) : ble :=
  let f := fl s in set_fl (Flags v (response_received f) (jmp_addr_done f) (jmp_initiated f) (w_addr_set f)) s.
Definition set_response_received (v : Z) (s : ble) : ble :=
  let f := fl s in set_fl (Flags (write_complete f) v (jmp_addr_done f) (jmp_initiated f) (w_addr_set f)) s.
Definition set_jmp_addr_done (v : Z) (s : ble) : ble :=
  let f := fl s in set_fl (Flags (write_complete f) (response_received f) v (jmp_initiated f) (w_addr_set f)) s.
Definition set_jmp_initiated (v : Z) (s : ble) : ble :=
  let f := fl s in set_fl (Flags (write_complete f) (response_received f) (jmp_addr_done f) v (w_addr_set f)) s.
Definition set_w_addr_set (v : Z) (s : ble) : ble :=
  let f := fl s in set_fl (Flags (write_complete f) (response_received f) (jmp_addr_done f) (jmp_initiated f) v) s.

(** [l] stored into the buffer from [off] on. *)
Definition poke (off : nat) (l buf : list Z) : list Z := take off buf ++ l ++ drop (off + length l) buf.
Definition store (off : nat) (l : list Z) (s : ble) : ble := set_buf (poke off l (write_buf s)) s.
Definition buf_at (i : nat) (s : ble) : Z := nth i (write_buf s) 0.

Section Client.
(** The handle commands are written to, whether the end of the file is a read error, and what
    lies behind a notification without a value. *)
Context (BHND : Z) (file_error : bool) (stray : Z).

(** * Its functions *)
Definition write_complete_cb (s : ble) : ble := set_write_complete 1 s.

(** [vlen] bytes of write_buf, through gatt_write_cmd. *)
Definition write_cmd (vlen : nat) (s : ble) : ble :=
  g_attrib_send (enc_write_cmd BHND (take vlen (write_buf s)) (att_mtu s)) s.

Definition write_bootloader_initiate_jmp (s : ble) : ble :=
  let s := store 0 [106] s in
  let s := write_cmd 1 s in
  set_write_complete 1 s.

Definition compute_16b_cksum (buf : list Z) : Z := fold_left Z.lxor (take 16 buf) 0.

Definition write_bootloader_data (s : ble) : ble :=
  let s := store 0 [119] s in
  let s := store 17 [u8 (compute_16b_cksum (drop 1 (write_buf s)))] s in
  let s := write_cmd 18 s in
  set_write_complete 1 s.

Definition write_bootloader_addr (addr : Z) (s : ble) : ble :=
  let s := store 1 (le_bytes 4 addr) s in
  let s := store 0 [97] s in
  let s := store 5 [u8 (Z.lxor (Z.lxor (Z.lxor (buf_at 1 s) (buf_at 2 s)) (buf_at 3 s)) (buf_at 4 s))] s in
  let s := write_cmd 6 s in
  set_write_complete 1 s.

(** g_io_channel_read_chars of at most 16 bytes. *)
Inductive status : Type := NORMAL (l : list Z) | END_OF_FILE | READ_ERROR.
Definition read_chars (s : ble) : status * ble :=
  match source s with
  | [] => (if file_error then READ_ERROR else END_OF_FILE, s)
  | l => (NORMAL (take 16 l), set_source (drop 16 l) s)
  end.

(** It returns false, which takes the watch off the file. *)
Definition write_cb (s : ble) : ble :=
  if negb (write_complete (fl s) =? 1) || negb (response_received (fl s) =? 1) then
    finish Exit1 (g_printerr InvalidState s)
  else
    let s := set_write_complete 0 s in
    let s := set_response_received 0 s in
    let s := set_write_addr (u32 (write_addr s + 16)) s in
    let s := if Z.land (write_addr s) 0xff =? 0 then g_printerr (WritingTo (write_addr s)) s else s in
    if negb (w_addr_set (fl s) =? 1) then
      write_bootloader_addr (write_addr s) (set_w_addr_set 1 s)
    else
      let s := store 0 (replicate 16 48) s in
      let '(st, s) := read_chars s in
      match st with
      | NORMAL l => write_bootloader_data (store 1 l s)
      | END_OF_FILE => set_jmp_addr_done 1 (write_bootloader_addr jmp_addr s)
      | READ_ERROR => finish Exit1 (g_printerr ErrorReadingSource s)
      end.

Definition process_response (data : list Z) (s : ble) : ble :=
  if (write_complete (fl s) =? 1) && (response_received (fl s) =? 0) then
    if nth 0 data stray =? 79 (* 'O' *) then
      let s := set_response_received 1 s in
      if negb (jmp_addr_done (fl s) =? 1) then set_watches (S (watches s)) s
      else if jmp_initiated (fl s) =? 0 then
        let s := set_write_complete 0 s in
        let s := set_response_received 0 s in
        let s := write_bootloader_initiate_jmp s in
        set_jmp_initiated 1 s
      else finish Quit (g_printerr ProgrammingCompleted s)
    else finish Exit1 (g_printerr (InvalidResponse (nth 0 data stray)) s)
  else s.

(** The handle is in the two bytes after the opcode. *)
Definition events_handler (pdu : list Z) (s : ble) : ble :=
  let handle := nth 1 pdu 0 + 256 * nth 2 pdu 0 in
  let op := nth 0 pdu 0 in
  if op =? ATT_OP_HANDLE_NOTIFY then process_response (drop 3 pdu) s
  else if op =? ATT_OP_HANDLE_IND then
    g_attrib_send enc_confirmation (g_printerr (Indication handle (drop 3 pdu)) s)
  else g_printerr InvalidOpcode s.

(** [err] is a failed connection, [opts] the MTU and channel that bt_io_get answers or its failure; [file] is
    the source file. *)
Definition connect_cb (err : bool) (opts : option (Z * Z)) (file : option (list Z)) (s : ble) : ble :=
  if err then finish Quit (g_printerr ConnectError s)
  else
    let mtu :=
      match opts with
      | Some (mtu, cid) => if cid =? ATT_CID then ATT_DEFAULT_LE_MTU else mtu
      | None => ATT_DEFAULT_LE_MTU
      end in
    let s := g_printerr (Connected mtu) s in
    let s := Ble (fl s) (write_buf s) (write_addr s) mtu (source s) (watches s) (S (idles s)) (listening s)
               (air s) (messages s) (over s) in
    match file with
    | None => finish Exit1 (g_printerr ErrorOpeningFile s)
    | Some l => g_printerr ProgrammingStarted (set_watches (S (watches s)) (set_source l s))
    end.

(** The globals before anything runs. *)
Definition globals : ble :=
  Ble (Flags 1 1 0 0 0) (replicate TX_MTU 0) (0x10000 - 16) 0 [] 0 0 false [] [] None.

(** * The main loop

    glib runs, in any order: the idle call of connect_cb, the watch on the file, the completion of
    a write, and the handler of a packet, which is lost if none is registered yet. *)
Inductive event : Type :=
  | Idle
  | Readable
  | Written
  | Packet (pdu : list Z).

Definition dispatch (e : event) (s : ble) : option ble :=
  match over s with
  | Some _ => None
  | None =>
      match e with
      | Idle => match idles s with O => None | S n => Some (listen_start (set_idles n s)) end
      | Readable => match watches s with O => None | S n => Some (write_cb (set_watches n s)) end
      | Written => Some (write_complete_cb s)
      | Packet pdu => Some (if listening s then events_handler pdu s else s)
      end
  end.

Fixpoint run (es : list event) (s : ble) : option ble :=
  match es with
  | [] => Some s
  | e :: es => s ← dispatch e s; run es s
  end.
End Client.

(** * The upload the client means to send *)

(** What a read of [b] makes of the block of 16 bytes: memset has put the character 0 into the bytes
    behind it, but not into the last one, which is the block's before. *)
Definition pad (b : list Z) (old : Z) : list Z :=
  b ++ (if Nat.eqb (length b) 16 then [] else replicate (15 - length b) 48 ++ [old]).

Fixpoint blocks (n : nat) (old : Z) (l : list Z) : list (list Z) :=
  match n, l with
  | S n, _ :: _ => let b := pad (take 16 l) old in b :: blocks n (nth 15 b 0) (drop 16 l)
  | _, _ => []
  end.
Definition blocks_of (old : Z) (l : list Z) : list (list Z) := blocks (length l) old l.

Definition commands (l : list Z) : list cmd :=
  SetAddress 0x10000 :: map WriteData (blocks_of 0 l) ++ [SetAddress jmp_addr; JumpTo].

Lemma blocks_fuel n m old l : (length l ≤ n)%nat → (length l ≤ m)%nat → blocks n old l = blocks m old l.
Proof.
  revert m old l. induction n as [|n IH]; intros m old l Hn Hm.
  - destruct l; simpl in *; [|lia]. by destruct m.
  - destruct l as [|x l]; [by destruct m|]. destruct m as [|m]; [simpl in *; lia|]. cbn [blocks]. f_equal.
    apply IH; rewrite length_drop; simpl in *; lia.
Qed.

Lemma blocks_of_cons old l : l ≠ [] →
  let b := pad (take 16 l) old in blocks_of old l = b :: blocks_of (nth 15 b 0) (drop 16 l).
Proof.
  intros Hl. destruct l as [|x l]; [done|]. unfold blocks_of at 1. cbn [blocks length].
  f_equal. apply blocks_fuel; rewrite length_drop; simpl; lia.
Qed.

Lemma length_pad b old : (length b ≤ 16)%nat → length (pad b old) = 16%nat.
Proof.
  intros Hb. unfold pad. rewrite length_app. destruct (Nat.eqb_spec (length b) 16); simpl; [lia|].
  rewrite length_app, length_replicate. simpl. lia.
Qed.

Lemma pad_byte b old : Forall is_byte b → is_byte old → Forall is_byte (pad b old).
Proof.
  intros Hb Ho. apply Forall_app. split; [done|]. case_match; [by apply Forall_nil|].
  apply Forall_app. split; [by apply Forall_replicate|]. apply Forall_cons. split; [done|by apply Forall_nil].
Qed.

Lemma nth_byte l i : Forall is_byte l → is_byte (nth i l 0).
Proof.
  intros Hl. destruct (nth_in_or_default i l 0) as [Hi| ->]; [|done].
  rewrite Forall_forall in Hl. by apply Hl, list_elem_of_In.
Qed.

Lemma blocks_of_ok old l : Forall is_byte l → is_byte old →
  Forall (λ b, length b = 16%nat ∧ Forall is_byte b) (blocks_of old l).
Proof.
  unfold blocks_of. generalize (length l) as n. intros n. revert old l.
  induction n as [|n IH]; intros old l Hl Ho; [by apply Forall_nil|].
  destruct l as [|x l]; [by apply Forall_nil|]. cbn [blocks]. apply Forall_cons.
  assert (Forall is_byte (pad (take 16 (x :: l)) old)) as Hb by (by apply pad_byte; [apply Forall_take|]).
  split; [split; [apply length_pad; rewrite length_take; lia|done]|].
  apply IH; [by apply Forall_drop|by apply nth_byte].
Qed.

(** The file, and what follows it in the last block. *)
Definition air_image (l : list Z) : list Z := concat (blocks_of 0 l).

Lemma concat_blocks old l : ∃ tail, concat (blocks_of old l) = l ++ tail ∧ (length tail < 16)%nat ∧
  ((length l mod 16)%nat = O → tail = []).
Proof.
  unfold blocks_of. enough (∀ n, (length l ≤ n)%nat → ∃ tail, concat (blocks n old l) = l ++ tail ∧ (length tail < 16)%nat ∧
    ((length l mod 16)%nat = O → tail = [])) as H by by apply H.
  intros n. revert old l. induction n as [|n IH]; intros old l Hn.
  { destruct l; [|simpl in *; lia]. exists []. simpl. split_and!; [done|lia|done]. }
  destruct (decide (l = [])) as [->|Hne]; [exists []; simpl; split_and!; [done|lia|done]|].
  assert (blocks (S n) old l = pad (take 16 l) old :: blocks n (nth 15 (pad (take 16 l) old) 0) (drop 16 l)) as ->
    by (by destruct l).
  cbn [concat]. destruct (decide (16 ≤ length l)%nat) as [H16|H16].
  - destruct (IH (nth 15 (pad (take 16 l) old) 0) (drop 16 l)) as (tail & -> & Ht & Hm); [rewrite length_drop; lia|].
    exists tail. unfold pad at 1. rewrite length_take, Nat.min_l by lia. simpl Nat.eqb. cbv iota. rewrite app_nil_r, app_assoc, take_drop.
    split_and!; [done|done|]. intros Hl. apply Hm. rewrite length_drop.
    replace (length l) with ((length l - 16) + 1 * 16)%nat in Hl by lia. by rewrite Nat.Div0.mod_add in Hl.
  - assert (drop 16 l = []) as -> by (apply drop_ge; lia).
    assert (∀ o, blocks n o [] = []) as -> by (by destruct n). rewrite take_ge by lia. cbn [concat]. rewrite app_nil_r. unfold pad.
    destruct (Nat.eqb_spec (length l) 16); [lia|]. eexists. split; [done|].
    rewrite length_app, length_replicate. destruct l as [|x l]; [done|]. simpl length in *. split; [lia|].
    rewrite Nat.mod_small by lia. done.
Qed.

(** ** The buffer *)
Lemma load_block buf b : length buf = TX_MTU → (1 ≤ length b ≤ 16)%nat →
  poke 1 b (poke 0 (replicate 16 48) buf) = 48 :: pad b (nth 16 buf 0) ++ drop 17 buf.
Proof.
  intros Hl Hb. unfold TX_MTU in Hl. unfold poke at 2. rewrite length_replicate. cbn [take app Nat.add].
  destruct (drop 16 buf) as [|old tl] eqn:E.
  { apply (f_equal length) in E. rewrite length_drop in E. simpl in E. lia. }
  assert (nth 16 buf 0 = old ∧ drop 17 buf = tl) as [-> ->].
  { split.
    - rewrite <- (take_drop 16 buf), app_nth2 by (rewrite length_take; lia). rewrite length_take, Nat.min_l, E by lia. done.
    - change 17%nat with (16 + 1)%nat. rewrite <- drop_drop, E. done. }
  unfold poke, pad. cbn [take replicate app]. f_equal. rewrite <- app_assoc. f_equal.
  destruct (Nat.eqb_spec (length b) 16) as [->|]; [done|].
  assert (∃ k, length b = k ∧ (1 ≤ k ≤ 15)%nat) as (k & -> & Hk) by (exists (length b); lia).
  do 16 (destruct k as [|k]; [first [lia|done]|]). lia.
Qed.

Lemma block_packet b tl : length b = 16%nat → Forall is_byte b → (1 ≤ length tl)%nat →
  let buf1 := poke 0 [119] (48 :: b ++ tl) in
  let buf2 := poke 17 [u8 (compute_16b_cksum (drop 1 buf1))] buf1 in
  take 18 buf2 = encode (WriteData b) ∧ nth 16 buf2 0 = nth 15 b 0 ∧ length buf2 = S (length (b ++ tl)).
Proof.
  intros Hb Hby Htl buf1 buf2.
  assert (buf1 = 119 :: b ++ tl) as E1 by done.
  assert (compute_16b_cksum (drop 1 buf1) = xor_bytes b) as Ec.
  { unfold compute_16b_cksum. rewrite E1. change (drop 1 (119 :: b ++ tl)) with (b ++ tl). by rewrite take_app_length'. }
  assert (buf2 = 119 :: b ++ [xor_bytes b] ++ drop 1 tl) as E2.
  { unfold buf2. rewrite Ec, (u8_small _ (xor_bytes_byte _ Hby)), E1. unfold poke.
    change (take 17 (119 :: b ++ tl)) with (119 :: take 16 (b ++ tl)).
    change (drop (17 + length [xor_bytes b]) (119 :: b ++ tl)) with (drop (16 + 1) (b ++ tl)).
    rewrite take_app_length', <- drop_drop, drop_app_length' by done. done. }
  rewrite E2. split_and!.
  - change (take 18 (119 :: b ++ [xor_bytes b] ++ drop 1 tl)) with (119 :: take 17 (b ++ [xor_bytes b] ++ drop 1 tl)).
    unfold encode, sealed. by rewrite app_assoc, take_app_length' by (rewrite length_app, Hb; done).
  - cbn [nth]. by rewrite app_nth1 by lia.
  - cbn [length]. rewrite !length_app, length_drop. simpl. lia.
Qed.

Lemma addr_packet a buf : is_u32 a → length buf = TX_MTU →
  let buf1 := poke 0 [97] (poke 1 (le_bytes 4 a) buf) in
  let buf2 := poke 5 [u8 (Z.lxor (Z.lxor (Z.lxor (nth 1 buf1 0) (nth 2 buf1 0)) (nth 3 buf1 0)) (nth 4 buf1 0))] buf1 in
  take 6 buf2 = encode (SetAddress a) ∧ length buf2 = TX_MTU ∧ nth 16 buf2 0 = nth 16 buf 0.
Proof.
  intros Ha Hl. unfold TX_MTU in *. pose proof (le_bytes_byte 4 a) as Hb.
  do 6 (destruct buf as [|? buf]; [done|]). cbv zeta. unfold encode, sealed. pose proof (length_le_bytes 4 a) as Hlen.
  destruct (le_bytes 4 a) as [|b0 [|b1 [|b2 [|b3 [|]]]]]; try done. unfold poke. cbn [take drop app length Nat.add nth].
  simpl take. simpl drop. cbn [app]. assert (xor_bytes [b0; b1; b2; b3] = Z.lxor (Z.lxor (Z.lxor b0 b1) b2) b3) as Hx.
  { unfold xor_bytes. cbn [fold_left]. by rewrite Z.lxor_0_l. }
  rewrite <- Hx, u8_small by (by apply xor_bytes_byte). done.
Qed.

(** * The event loop's invariant *)
#[local] Arguments enc_write_cmd : simpl never.
#[local] Arguments poke : simpl never.
#[local] Arguments blocks_of : simpl never.
#[local] Arguments encode : simpl never.
#[local] Arguments wrapu : simpl never.

(** A report that may be made. *)
Lemma report (b : bool) m s :
  (if b then g_printerr m s else s) =
  Ble (fl s) (write_buf s) (write_addr s) (att_mtu s) (source s) (watches s) (idles s) (listening s) (air s)
    (messages s ++ if b then [m] else []) (over s).
Proof. destruct b; [done|]. rewrite app_nil_r. by destruct s. Qed.

Section Loop.
Context (BHND : Z) (file_error : bool) (stray : Z) (mtu : Z) (l : list Z).
Hypothesis l_bytes : Forall is_byte l.

Definition packet (c : cmd) : list Z := enc_write_cmd BHND (encode c) mtu.
Definition script : list (list Z) := map packet (commands l).
#[local] Arguments packet : simpl never.

(** The write commands among the packets sent. *)
Definition is_write (pdu : list Z) : bool := nth 0 pdu 0 =? ATT_OP_WRITE_CMD.
Definition writes (s : ble) : list (list Z) := List.filter is_write (air s).

Lemma send_addr a s : is_u32 a → length (write_buf s) = TX_MTU → att_mtu s = mtu →
  ∃ buf, write_bootloader_addr BHND a s =
      set_write_complete 1 (g_attrib_send (packet (SetAddress a)) (set_buf buf s)) ∧
    length buf = TX_MTU ∧ nth 16 buf 0 = nth 16 (write_buf s) 0.
Proof.
  intros Ha Hl Hm. destruct (addr_packet a (write_buf s) Ha Hl) as (E & H1 & H2). eexists. split; [|split; [exact H1|exact H2]].
  unfold write_bootloader_addr, write_cmd, store, buf_at. cbn [write_buf set_buf att_mtu].
  by rewrite E, Hm.
Qed.

Lemma send_data b tl s : length b = 16%nat → Forall is_byte b → write_buf s = 48 :: b ++ tl → length tl = 7%nat →
  att_mtu s = mtu →
  ∃ buf, write_bootloader_data BHND s =
      set_write_complete 1 (g_attrib_send (packet (WriteData b)) (set_buf buf s)) ∧
    length buf = TX_MTU ∧ nth 16 buf 0 = nth 15 b 0.
Proof.
  intros Hb Hby Hw Htl Hm. destruct (block_packet b tl Hb Hby ltac:(lia)) as (E & H1 & H2).
  eexists. split; [|split; [|exact H1]].
  - unfold write_bootloader_data, write_cmd, store. cbn [write_buf set_buf att_mtu]. rewrite Hw, E, Hm. done.
  - rewrite H2, length_app, Hb, Htl. done.
Qed.

Lemma send_jump s : length (write_buf s) = TX_MTU → att_mtu s = mtu →
  ∃ buf, write_bootloader_initiate_jmp BHND s =
      set_write_complete 1 (g_attrib_send (packet JumpTo) (set_buf buf s)) ∧ length buf = TX_MTU.
Proof.
  intros Hl Hm. eexists. split.
  - unfold write_bootloader_initiate_jmp, write_cmd, store. cbn [write_buf set_buf att_mtu]. by rewrite Hm.
  - unfold poke. rewrite !length_app, length_take, length_drop, Hl. done.
Qed.

(** ** The phases of an upload

    [k] answers O have come so far. *)
Inductive phase (k : nat) : flags → nat → list (list Z) → list Z → Z → Prop :=
  | Starting : phase k (Flags 1 1 0 0 0) 1 [] l 0
  | Waiting bs src old :
      blocks_of 0 l = bs ++ blocks_of old src → Forall is_byte src → is_byte old → (length bs ≤ k)%nat →
      phase k (Flags 1 0 0 0 1) 0 (map packet (SetAddress 0x10000 :: map WriteData bs)) src old
  | Answered bs src old :
      blocks_of 0 l = bs ++ blocks_of old src → Forall is_byte src → is_byte old → (S (length bs) ≤ k)%nat →
      phase k (Flags 1 1 0 0 1) 1 (map packet (SetAddress 0x10000 :: map WriteData bs)) src old
  | Closing old :
      (S (length (blocks_of 0 l)) ≤ k)%nat →
      phase k (Flags 1 0 1 0 1) 0
        (map packet (SetAddress 0x10000 :: map WriteData (blocks_of 0 l) ++ [SetAddress jmp_addr])) [] old
  | Jumping old :
      (S (S (length (blocks_of 0 l))) ≤ k)%nat →
      phase k (Flags 1 0 1 1 1) 0 script [] old.

Record ongoing (k : nat) (s : ble) : Prop := {
  on_over : over s = None;
  on_mtu : att_mtu s = mtu;
  on_buf : length (write_buf s) = TX_MTU;
  on_addr : w_addr_set (fl s) = 0 → write_addr s = 0x10000 - 16;
  on_valid : InvalidState ∉ messages s;
  on_phase : phase k (fl s) (watches s) (writes s) (source s) (nth 16 (write_buf s) 0);
}.

(** At the end: what was sent is a beginning of the script, all of it if the client says it is complete. *)
Record ended (k : nat) (s : ble) : Prop := {
  en_over : is_Some (over s);
  en_valid : InvalidState ∉ messages s;
  en_sent : ∃ n, writes s = take n script ∧ (n ≤ S k)%nat ∧
    (over s = Some Quit → writes s = script ∧ (length script ≤ k)%nat);
}.

Definition sound (k : nat) (s : ble) : Prop := ongoing k s ∨ ended k s.

Lemma length_script : length script = S (S (S (length (blocks_of 0 l)))).
Proof. unfold script, commands. rewrite length_map. cbn [length]. rewrite length_app, length_map. simpl. lia. Qed.

Lemma phase_prefix k f w ws src old : phase k f w ws src old → ∃ n, ws = take n script ∧ (n ≤ S k)%nat.
Proof.
  intros H. destruct H as [|bs src old Hb _ _ Hk|bs src old Hb _ _ Hk|old Hk|old Hk].
  - exists O. split; [done|lia].
  - exists (S (length bs)). split; [|lia]. unfold script, commands. rewrite Hb. cbn [map take]. f_equal.
    rewrite !map_app, <- app_assoc, take_app_length'; [done|by rewrite !length_map].
  - exists (S (length bs)). split; [|lia]. unfold script, commands. rewrite Hb. cbn [map take]. f_equal.
    rewrite !map_app, <- app_assoc, take_app_length'; [done|by rewrite !length_map].
  - exists (S (S (length (blocks_of 0 l)))). split; [|lia]. unfold script, commands. cbn [map take]. f_equal.
    rewrite !map_app. cbn [map].
    change [packet (SetAddress jmp_addr); packet JumpTo] with ([packet (SetAddress jmp_addr)] ++ [packet JumpTo]).
    rewrite app_assoc, take_app_length'; [done|]. rewrite length_app, !length_map. simpl. lia.
  - exists (length script). split; [by rewrite firstn_all|]. unfold script, commands. rewrite length_map. cbn [length].
    rewrite length_app, length_map. simpl. lia.
Qed.

(** The number of answers O in a list of events. *)
Definition is_ok (e : event) : bool :=
  match e with
  | Packet pdu => (nth 0 pdu 0 =? ATT_OP_HANDLE_NOTIFY) && (nth 0 (drop 3 pdu) stray =? 79)
  | _ => false
  end.

Lemma is_write_packet c : is_write (packet c) = true.
Proof. done. Qed.

Lemma phase_more k k' f w ws src old : (k ≤ k')%nat → phase k f w ws src old → phase k' f w ws src old.
Proof. intros Hk H. destruct H; constructor; try done; lia. Qed.

Lemma ongoing_more k k' s : (k ≤ k')%nat → ongoing k s → ongoing k' s.
Proof. intros Hk []. split; try done. by eapply phase_more. Qed.

(** An exit in the middle. *)
Lemma exit_ended k s s' : ongoing k s → InvalidState ∉ messages s' → writes s' = writes s → over s' = Some Exit1 →
  ended k s'.
Proof.
  intros Hs Hv Hw Ho. destruct Hs as [_ _ _ _ _ Hp]. split; [by rewrite Ho|done|].
  destruct (phase_prefix _ _ _ _ _ _ Hp) as (n & E & Hn). exists n. rewrite Hw. split_and!; [done|done|].
  by rewrite Ho.
Qed.

Lemma not_invalid ms m : InvalidState ∉ ms → m ≠ InvalidState → InvalidState ∉ ms ++ [m].
Proof. intros H1 H2. rewrite elem_of_app, list_elem_of_singleton. naive_solver. Qed.

Lemma length_poke off b buf : (off + length b ≤ length buf)%nat → length (poke off b buf) = length buf.
Proof. intros H. unfold poke. rewrite !length_app, length_take, length_drop. lia. Qed.

(** [s'] is [s] after sending the command [c]. *)
Record sent (c : cmd) (f : flags) (src : list Z) (old : Z) (s s' : ble) : Prop := {
  se_air : air s' = air s ++ [packet c];
  se_fl : fl s' = f;
  se_source : source s' = src;
  se_old : nth 16 (write_buf s') 0 = old;
  se_buf : length (write_buf s') = TX_MTU;
  se_mtu : att_mtu s' = mtu;
  se_over : over s' = None;
  se_watches : watches s' = watches s;
  se_idles : idles s' = idles s;
  se_listening : listening s' = listening s;
  se_valid : InvalidState ∉ messages s → InvalidState ∉ messages s';
}.

Lemma ongoing_sent k c f src old s s' : sent c f src old s s' → w_addr_set f = 1 → InvalidState ∉ messages s →
  phase k f (watches s) (writes s ++ [packet c]) src old → ongoing k s'.
Proof.
  intros [Ha Hf Hs Ho Hb Hm Hov Hw _ _ Hv] Hf1 Hms Hp. split; try done; [by rewrite Hf, Hf1|by apply Hv|].
  unfold writes in *. by rewrite Ha, List.filter_app, Hf, Hw, Hs, Ho.
Qed.

(** The report of the address. *)
Definition reported (wa : Z) (ms : list message) : list message :=
  ms ++ (if Z.land wa 0xff =? 0 then [WritingTo wa] else []).
Lemma reported_valid wa ms : InvalidState ∉ ms → InvalidState ∉ reported wa ms.
Proof. intros H. unfold reported. destruct (_ =? 0); [by apply not_invalid|by rewrite app_nil_r]. Qed.

(** What write_cb sends in each state its watch can be set in. *)
Lemma write_cb_first s : fl s = Flags 1 1 0 0 0 → write_addr s = 0x10000 - 16 → length (write_buf s) = TX_MTU →
  att_mtu s = mtu → over s = None →
  sent (SetAddress 0x10000) (Flags 1 0 0 0 1) (source s) (nth 16 (write_buf s) 0) s (write_cb BHND file_error s).
Proof.
  intros Hf Ha Hb Hm Ho. destruct s as [f buf wa m src w i li a ms ov]; cbn in *. subst f wa m ov.
  unfold write_cb. cbn -[write_bootloader_addr]. change (u32 (65536 - 16 + 16)) with 0x10000.
  change (Z.land 65536 255 =? 0) with true. cbn -[write_bootloader_addr].
  match goal with |- context [write_bootloader_addr _ _ ?t] =>
    destruct (send_addr 0x10000 t) as (buf' & E & Hb' & Hn); [by split|done|done|rewrite E] end.
  split; try done. intros Hv. by apply not_invalid.
Qed.

Lemma write_cb_reads s : fl s = Flags 1 1 0 0 1 → over s = None →
  ∃ wa, write_cb BHND file_error s =
    let '(st, s) := read_chars file_error (store 0 (replicate 16 48)
      (Ble (Flags 0 0 0 0 1) (write_buf s) wa (att_mtu s) (source s) (watches s) (idles s) (listening s) (air s)
        (reported wa (messages s)) None)) in
    match st with
    | NORMAL l => write_bootloader_data BHND (store 1 l s)
    | END_OF_FILE => set_jmp_addr_done 1 (write_bootloader_addr BHND jmp_addr s)
    | READ_ERROR => finish Exit1 (g_printerr ErrorReadingSource s)
    end.
Proof.
  intros Hf Ho. destruct s as [f buf wa m src w i li a ms ov]; cbn in Hf, Ho. subst f ov. exists (u32 (wa + 16)).
  unfold write_cb. cbn -[replicate store read_chars]. rewrite report. done.
Qed.

Lemma write_cb_data s : fl s = Flags 1 1 0 0 1 → length (write_buf s) = TX_MTU → att_mtu s = mtu → over s = None →
  source s ≠ [] → Forall is_byte (source s) → is_byte (nth 16 (write_buf s) 0) →
  let b := pad (take 16 (source s)) (nth 16 (write_buf s) 0) in
  sent (WriteData b) (Flags 1 0 0 0 1) (drop 16 (source s)) (nth 15 b 0) s (write_cb BHND file_error s).
Proof.
  intros Hf Hb Hm Ho Hne Hby Hold b. destruct (write_cb_reads s Hf Ho) as [wa ->].
  destruct s as [f buf wa0 m src w i li a ms ov]; cbn -[replicate store read_chars] in *. subst f ov m.
  assert (length b = 16%nat) as Hbl by (apply length_pad; rewrite length_take; lia).
  assert (Forall is_byte b) as Hbb by (by apply pad_byte; [apply Forall_take|]).
  destruct src as [|x src]; [done|]. unfold read_chars. cbn -[replicate take drop]. unfold store. cbn -[replicate take drop].
  rewrite load_block by (first [exact Hb|rewrite length_take; cbn [length]; lia]). fold b.
  match goal with |- context [write_bootloader_data _ ?t] =>
    destruct (send_data b (drop 17 buf) t) as (buf' & E & Hb' & Hn); [done|done|done| |done|rewrite E] end.
  { by rewrite length_drop, Hb. }
  split; try done. intros Hv. by apply reported_valid.
Qed.

Lemma write_cb_eof s : fl s = Flags 1 1 0 0 1 → length (write_buf s) = TX_MTU → att_mtu s = mtu → over s = None →
  source s = [] → file_error = false →
  ∃ old, sent (SetAddress jmp_addr) (Flags 1 0 1 0 1) [] old s (write_cb BHND file_error s).
Proof.
  intros Hf Hb Hm Ho Hs He. destruct (write_cb_reads s Hf Ho) as [wa ->].
  destruct s as [f buf wa0 m src w i li a ms ov]; cbn -[replicate store read_chars] in *. subst f ov m src.
  unfold read_chars. cbn -[replicate]. rewrite He.
  match goal with |- context [write_bootloader_addr _ _ ?t] =>
    destruct (send_addr jmp_addr t) as (buf' & E & Hb' & Hn); [by split| |done|rewrite E] end.
  { cbn -[replicate]. rewrite length_poke; [exact Hb|]. rewrite length_replicate, Hb. unfold TX_MTU. lia. }
  eexists. split; try done. intros Hv. by apply reported_valid.
Qed.

Lemma response_jump data s : fl s = Flags 1 0 1 0 1 → length (write_buf s) = TX_MTU → att_mtu s = mtu → over s = None →
  nth 0 data stray = 79 →
  ∃ old, sent JumpTo (Flags 1 0 1 1 1) (source s) old s (process_response BHND stray data s).
Proof.
  intros Hf Hb Hm Ho Hd. destruct s as [f buf wa m src w i li a ms ov]; cbn in *. subst f ov m.
  unfold process_response. cbn. rewrite Hd. cbn.
  match goal with |- context [write_bootloader_initiate_jmp _ ?t] =>
    destruct (send_jump t) as (buf' & E & Hb'); [done|done|rewrite E] end.
  eexists. by split.
Qed.

(** A dispatch of write_cb. *)
Lemma write_cb_next k s bs : ongoing k s → fl s = Flags 1 1 0 0 1 →
  writes s = map packet (SetAddress 0x10000 :: map WriteData bs) →
  blocks_of 0 l = bs ++ blocks_of (nth 16 (write_buf s) 0) (source s) → Forall is_byte (source s) →
  is_byte (nth 16 (write_buf s) 0) → (S (length bs) ≤ k)%nat →
  sound k (write_cb BHND file_error (set_watches 0 s)).
Proof.
  intros Hon Hf Hw Hbs Hsrc Hold Hk. pose proof Hon as [Ho Hm Hb _ Hv _].
  destruct (decide (source s = [])) as [Hs|Hs]; [destruct file_error eqn:He|].
  - right. destruct (write_cb_reads (set_watches 0 s) Hf Ho) as [wa E]. rewrite He in E. rewrite E.
    unfold read_chars. cbn -[replicate]. rewrite Hs. eapply exit_ended; [exact Hon| |done|done].
    apply not_invalid; [by apply reported_valid|done].
  - left. destruct (write_cb_eof (set_watches 0 s) Hf Hb Hm Ho Hs He) as [old Hse]. rewrite <- He.
    assert (blocks_of 0 l = bs) as Eb by (rewrite Hbs, Hs; apply app_nil_r).
    eapply ongoing_sent; [exact Hse|done|done|]. change (writes (set_watches 0 s)) with (writes s). rewrite Hw.
    rewrite <- Eb in Hk |- *. pose proof (Closing k old Hk) as Hp. rewrite map_cons, map_app in Hp. exact Hp.
  - left. pose proof (write_cb_data (set_watches 0 s) Hf Hb Hm Ho Hs Hsrc Hold) as Hse. cbv zeta in Hse.
    eapply ongoing_sent; [exact Hse|done|done|]. change (writes (set_watches 0 s)) with (writes s).
    cbn [set_watches source write_buf]. rewrite (blocks_of_cons _ (source s) Hs) in Hbs. cbv zeta in Hbs.
    set (b := pad (take 16 (source s)) (nth 16 (write_buf s) 0)) in *.
    replace (writes s ++ [packet (WriteData b)])
      with (map packet (SetAddress 0x10000 :: map WriteData (bs ++ [b]))) by (rewrite Hw, map_cons, !map_app; done).
    apply Waiting; [by rewrite <- app_assoc|by apply Forall_drop| |rewrite length_app; simpl; lia].
    apply nth_byte, pad_byte; [by apply Forall_take|done].
Qed.

Lemma write_cb_start k s : ongoing k s → fl s = Flags 1 1 0 0 0 → source s = l → writes s = [] →
  nth 16 (write_buf s) 0 = 0 → ongoing k (write_cb BHND file_error (set_watches 0 s)).
Proof.
  intros [Ho Hm Hb Ha Hv _] Hf Hs Hw Hold.
  eapply ongoing_sent; [apply write_cb_first; try done|done|done|].
  - apply Ha. by rewrite Hf.
  - change (writes (set_watches 0 s)) with (writes s). rewrite Hw. cbn [set_watches source write_buf]. rewrite Hs, Hold.
    apply (Waiting k [] l); [done|done|done|simpl; lia].
Qed.

(** An answer to the request that is out. *)
Lemma process_response_sound k data s : ongoing k s →
  sound (if nth 0 data stray =? 79 then S k else k) (process_response BHND stray data s).
Proof.
  intros Hon. pose proof Hon as [Ho Hm Hb Ha Hv Hp]. assert (k ≤ (if (nth 0 data stray =? 79)%Z then S k else k))%nat as Hk
    by (destruct (nth 0 data stray =? 79); lia).
  destruct s as [f buf wa m src w i li a ms ov]; cbn in *. subst ov m. unfold process_response, writes in *. cbn in *.
  inversion Hp as [E1 E2 E3 E4 E5|bs src' old Hbs Hsrc Hold Hbk E1 E2 E3 E4 E5|bs src' old Hbs Hsrc Hold Hbk E1 E2 E3 E4 E5
    |old Hbk E1 E2 E3 E4 E5|old Hbk E1 E2 E3 E4 E5]; subst; cbn.
  - left. eapply ongoing_more; [|exact Hon]. lia.
  - destruct (nth 0 data stray =? 79); cbn.
    + left. split; try done. cbn. unfold writes. cbn. rewrite <- E3. by apply Answered; [..|lia].
    + right. eapply exit_ended; [exact Hon|by apply not_invalid|done|done].
  - left. eapply ongoing_more; [|exact Hon]. lia.
  - destruct (nth 0 data stray =? 79) eqn:Ed; cbn.
    + left. destruct (response_jump data (Ble (Flags 1 0 1 0 1) buf wa mtu [] 0 i li a ms None)) as [old' Hse];
        [done|done|done|done|by apply Z.eqb_eq|].
      unfold process_response in Hse. cbn in Hse. rewrite Ed in Hse. cbn in Hse.
      eapply ongoing_sent; [exact Hse|done|done|]. pose proof (Jumping (S k) old' ltac:(lia)) as Hj.
      match type of Hj with phase _ _ _ ?ws _ _ => match goal with |- phase _ _ _ ?ws' _ _ => replace ws' with ws end end;
        [exact Hj|]. unfold writes. cbn [air]. rewrite <- E3. unfold script, commands. cbn [map app]. f_equal.
      rewrite !map_app, <- app_assoc. done.
    + right. eapply exit_ended; [exact Hon|by apply not_invalid|done|done].
  - destruct (nth 0 data stray =? 79); cbn.
    + right. split; [done|by apply not_invalid|]. exists (length script).
      pose proof length_script as El. unfold writes. cbn [air]. rewrite firstn_all.
      split_and!; [by symmetry|lia|]. intros _. split; [by symmetry|lia].
    + right. eapply exit_ended; [exact Hon|by apply not_invalid|done|done].
Qed.

Lemma events_handler_sound k pdu s : ongoing k s →
  sound (if is_ok (Packet pdu) then S k else k) (events_handler BHND stray pdu s).
Proof.
  intros Hon. unfold events_handler. cbn [is_ok]. destruct (nth 0 pdu 0 =? ATT_OP_HANDLE_NOTIFY) eqn:En; cbn [andb].
  { by apply process_response_sound. }
  left. destruct Hon as [Ho Hm Hb Ha Hv Hp]. destruct (nth 0 pdu 0 =? ATT_OP_HANDLE_IND).
  - split; try done; [by apply not_invalid|]. unfold writes in *. cbn. by rewrite List.filter_app, app_nil_r.
  - split; try done. by apply not_invalid.
Qed.

Lemma dispatch_sound k e s s' : sound k s → dispatch BHND file_error stray e s = Some s' →
  sound (if is_ok e then S k else k) s'.
Proof.
  intros [Hon|[[x Hx] _ _]] Hd; [|unfold dispatch in Hd; by rewrite Hx in Hd].
  unfold dispatch in Hd. rewrite (on_over _ _ Hon) in Hd. destruct e as [| | |pdu].
  - destruct (idles s); [done|]. injection Hd as <-. left. by destruct Hon.
  - destruct (watches s) as [|n] eqn:Ew; [done|]. injection Hd as <-. cbn [is_ok].
    pose proof (on_phase _ _ Hon) as Hp. rewrite Ew in Hp.
    inversion Hp as [E1 E2 E3 E4 E5| |bs src' old Hbs Hsrc Hold Hbk E1 E2 E3 E4 E5| |]; subst.
    + left. by apply write_cb_start.
    + by eapply write_cb_next.
  - injection Hd as <-. left. cbn [is_ok]. destruct Hon as [Ho Hm Hb Ha Hv Hp]. split; try done.
    destruct s as [f buf wa m src w i li a ms ov]. unfold write_complete_cb, set_write_complete, set_fl, writes in *.
    cbn in *. assert (Flags 1 (response_received f) (jmp_addr_done f) (jmp_initiated f) (w_addr_set f) = f) as ->; [|exact Hp].
    by destruct Hp.
  - injection Hd as <-. destruct (listening s); [by apply events_handler_sound|].
    left. eapply ongoing_more; [|exact Hon]. destruct (is_ok (Packet pdu)); lia.
Qed.

(** The number of answers O among the events. *)
Definition oks (es : list event) : nat := length (List.filter is_ok es).

Lemma run_sound k es s s' : sound k s → run BHND file_error stray es s = Some s' → sound (oks es + k) s'.
Proof.
  revert k s. induction es as [|e es IH]; intros k s Hs Hr; [by injection Hr as <-|].
  cbn [run] in Hr. destruct (dispatch BHND file_error stray e s) as [s1|] eqn:Ed; [|done].
  pose proof (dispatch_sound _ _ _ _ Hs Ed) as H1. pose proof (IH _ _ H1 Hr) as H2.
  unfold oks in *. cbn [List.filter]. destruct (is_ok e); cbn [length]; [|done].
  by replace (S (length (List.filter is_ok es)) + k)%nat with (length (List.filter is_ok es) + S k)%nat by lia.
Qed.

(** What the two callbacks that matter do to an upload, besides. *)
Lemma read_sends k s s' : file_error = false → ongoing k s → dispatch BHND file_error stray Readable s = Some s' →
  response_received (fl s) = 1 ∧
  ∃ c f src old, sent c f src old (set_watches 0 s) s' ∧ response_received f = 0.
Proof.
  intros He [Ho Hm Hb Ha Hv Hp] Hd. unfold dispatch in Hd. rewrite Ho in Hd.
  destruct (watches s) as [|n] eqn:Ew; [done|]. injection Hd as <-. revert He.
  inversion Hp as [E1 E2 E3 E4 E5| |bs src' old Hbs Hsrc Hold Hbk E1 E2 E3 E4 E5| |]; subst; intros He; (split; [done|]).
  - eexists _, _, _, _. split; [apply write_cb_first; try done|done]. by apply Ha; rewrite <- E1.
  - destruct (decide (source s = [])) as [Hs|Hs].
    + destruct (write_cb_eof (set_watches 0 s)) as [o Hse]; [done..|]. by eexists _, _, _, _.
    + eexists _, _, _, _. split; [apply write_cb_data; done|done].
Qed.

Lemma answer_moves k s data : ongoing k s → response_received (fl s) = 0 → nth 0 data stray = 79 →
  let s' := process_response BHND stray data s in
  (jmp_initiated (fl s) = 0 ∧ over s' = None ∧ air s' = air s ∧ response_received (fl s') = 1 ∧
    idles s' = idles s ∧ listening s' = listening s) ∨
  (jmp_initiated (fl s) = 0 ∧ ∃ f src old, sent JumpTo f src old s s' ∧ response_received f = 0) ∨
  (jmp_initiated (fl s) = 1 ∧ over s' = Some Quit ∧ air s' = air s ∧ idles s' = idles s).
Proof.
  intros [Ho Hm Hb _ _ Hp] Hr Hd s'. unfold s'. clear s'.
  inversion Hp as [E1 E2 E3 E4 E5|bs src' old Hbs Hsrc Hold Hbk E1 E2 E3 E4 E5|bs src' old Hbs Hsrc Hold Hbk E1 E2 E3 E4 E5
    |old Hbk E1 E2 E3 E4 E5|old Hbk E1 E2 E3 E4 E5]; rewrite <- E1 in Hr; try done; clear Hr.
  - left. destruct s as [f buf wa m src w i li a ms ov]; cbn in *. subst f. unfold process_response. cbn. by rewrite Hd.
  - right; left. split; [done|]. destruct (response_jump data s) as [o Hse]; try done. by eexists _, _, _.
  - right; right. destruct s as [f buf wa m src w i li a ms ov]; cbn in *. subst f. unfold process_response. cbn. by rewrite Hd.
Qed.

Lemma outstanding k s : ongoing k s → response_received (fl s) = 0 →
  (jmp_initiated (fl s) = 0 ∧ (length (writes s) ≤ S (S (length (blocks_of 0 l))))%nat) ∨
  (jmp_initiated (fl s) = 1 ∧ length (writes s) = S (S (S (length (blocks_of 0 l))))).
Proof.
  intros [_ _ _ _ _ Hp] Hr. destruct Hp as [|bs src old Hbs _ _ _| |old _|old _]; try done.
  - left. split; [done|]. rewrite Hbs, length_map. cbn [length]. rewrite length_map, length_app. lia.
  - left. split; [done|]. rewrite length_map. cbn [length]. rewrite length_app, length_map. simpl. lia.
  - right. by rewrite length_script.
Qed.
End Loop.

(** What the client starts from. *)
Definition agreed (opts : option (Z * Z)) : Z :=
  match opts with
  | Some (mtu, cid) => if cid =? ATT_CID then ATT_DEFAULT_LE_MTU else mtu
  | None => ATT_DEFAULT_LE_MTU
  end.

Definition connected (opts : option (Z * Z)) (l : list Z) : ble := connect_cb false opts (Some l) globals.

Lemma connected_ongoing opts l BHND : Forall is_byte l → ongoing BHND (agreed opts) l 0 (connected opts l).
Proof.
  intros Hl. unfold connected. split; try done; [|cbn; apply Starting].
  intros Hv%list_elem_of_In. cbn in Hv. intuition congruence.
Qed.

Lemma sound_mtu BHND mtu l k s : sound BHND mtu l k s → over s = None → att_mtu s = mtu.
Proof. by intros [[]|[[x ->] _ _]]. Qed.

(** C17 Whatever the order in which the main loop runs the idle call, the watch on the file, the completions
    of writes and the packets that arrive, whatever those packets are, and whatever the file holds, the boot loader client never
    finds itself in the state it calls a programmer error; the write commands it has sent are a beginning of the one script that
    sets the load address, writes the file block by block and jumps; it is never more than one
    command ahead of the answers O; and when it says that programming is complete, it has sent the whole script and every command of
    it was answered. *)
Theorem sends_script BHND file_error stray opts l es s :
  Forall is_byte l → run BHND file_error stray es (connected opts l) = Some s →
  let scr := script BHND (agreed opts) l in
  (InvalidState ∉ messages s) ∧
  (∃ n, writes s = take n scr ∧ (n ≤ S (oks stray es))%nat) ∧
  (over s = Some Quit → writes s = scr ∧ (length scr ≤ oks stray es)%nat).
Proof.
  intros Hl Hr scr. pose proof (connected_ongoing opts l BHND Hl) as H0.
  assert (sound BHND (agreed opts) l (oks stray es + 0) s) as Hs by (eapply run_sound; [done|by left|exact Hr]).
  rewrite Nat.add_0_r in Hs. destruct Hs as [Hon|[_ Hv (n & Hw & Hn & Hq)]].
  - split_and!; [by destruct Hon|exact (phase_prefix _ _ _ _ _ _ _ _ _ (on_phase _ _ _ _ _ Hon))|].
    by rewrite (on_over _ _ _ _ _ Hon).
  - split_and!; [done|by exists n|done].
Qed.

Lemma length_encode c : wf_cmd c → ZL (encode c) ≤ 18.
Proof. intros Hc. destruct c; simpl in *; unfold sealed; rewrite ?length_app; simpl; destruct_and?; lia. Qed.

(** * The client and the boot ROM

    A bluetooth serial module stands between them: the value of a write command comes out of its serial line,
    and a byte on that line goes back as a notification. *)
Section Flight.
Context (buf : Z) (BHND : Z) (stray : Z).
#[local] Hint Extern 0 (Device board) => exact (board_device buf) : typeclass_instances.

Record link : Type := Link {
  cl : ble;
  bd : board;
  taken : nat;  (* of the packets sent *)
}.

(** What happens next: the main loop runs one of its callbacks, the module passes the next packet on to the board,
    or it passes on a byte that the board has sent. *)
Inductive move : Type := RunIdle | RunRead | RunWritten | Relay | Answer.

Definition notification (b : Z) : list Z := [ATT_OP_HANDLE_NOTIFY; u8 BHND; u8 (Z.shiftr BHND 8); b].

Definition on_client (e : event) (c : link) : option link :=
  s ← dispatch BHND false stray e (cl c); Some (Link s (bd c) (taken c)).

Definition tick (m : move) (c : link) : option link :=
  match m with
  | RunIdle => on_client Idle c
  | RunRead => on_client Readable c
  | RunWritten => on_client Written c
  | Relay =>
      match drop (taken c) (air (cl c)) with
      | [] => None
      | pdu :: _ => Some (Link (cl c) (dev_write (drop 3 pdu) (bd c)) (S (taken c)))
      end
  | Answer =>
      match dev_read (bd c) with
      | (Some b, d) => on_client (Packet (notification b)) (Link (cl c) d (taken c))
      | (None, _) => None
      end
  end.

(** No answer comes before the idle call has registered the handler of notifications. *)
Fixpoint in_time (ms : list move) : bool :=
  match ms with
  | [] | RunIdle :: _ => true
  | Answer :: _ => false
  | _ :: ms => in_time ms
  end.

Fixpoint fly (ms : list move) (c : link) : option link :=
  match ms with
  | [] => Some c
  | m :: ms => c ← tick m c; fly ms c
  end.

(** The completions of writes do not count. *)
Definition turns (ms : list move) : nat :=
  length (List.filter (λ m, match m with RunWritten => false | _ => true end) ms).

Context (t : target) (mtu : Z) (l : list Z).
Hypothesis l_bytes : Forall is_byte l.
Hypothesis mtu_fits : 21 ≤ mtu ≤ 65535.
Hypothesis fits : room buf (Target (t_mem t) 0x10000) (ZL (air_image l)).

#[local] Abbreviation cmds := (commands l).
#[local] Abbreviation bs := (blocks_of 0 l).

(** ** The script against the board *)
Lemma wire c : wf_cmd c → drop 3 (packet BHND mtu c) = encode c.
Proof.
  intros Hc. unfold packet, enc_write_cmd. cbn [app drop]. apply take_ge.
  pose proof (length_encode c Hc).
  rewrite wrapu_small by lia. destruct (Z.gtb_spec (ZL (encode c)) (mtu - 3)); lia.
Qed.

Lemma command_S i : cmds !! S i = (map WriteData bs ++ [SetAddress jmp_addr; JumpTo]) !! i.
Proof. done. Qed.

Lemma command_at i c : cmds !! i = Some c →
  (i = O ∧ c = SetAddress 0x10000) ∨ (∃ j b, i = S j ∧ bs !! j = Some b ∧ c = WriteData b) ∨
  (i = S (length bs) ∧ c = SetAddress jmp_addr) ∨ (i = S (S (length bs)) ∧ c = JumpTo).
Proof.
  destruct i as [|i]; [intros [= <-]; by left|]. rewrite command_S. intros [Hl|[Hi Hl]]%lookup_app_Some; right.
  - left. apply list_lookup_fmap_Some in Hl as (b & -> & Hb). by exists i, b.
  - right. rewrite length_map in *. destruct (i - length bs)%nat as [|[|k]] eqn:Ek; [| |done].
    + left. injection Hl as <-. split; [lia|done].
    + right. injection Hl as <-. split; [lia|done].
Qed.

Lemma commands_wf i c : cmds !! i = Some c → wf_cmd c.
Proof.
  intros [[_ ->]|[(j & b & _ & Hb & ->)|[[_ ->]|[_ ->]]]]%command_at; [by split| |by split|done].
  pose proof (blocks_of_ok 0 l l_bytes ltac:(done)) as Hok. by apply (proj1 (Forall_lookup _ _) Hok j b).
Qed.

(** The target once [n] commands are answered. *)
Definition after (n : nat) : target := fold_left exec_target (take n cmds) t.

Lemma after_next i c : cmds !! i = Some c → after (S i) = exec_target (after i) c.
Proof. intros Hc. unfold after. by rewrite (take_S_r _ _ _ Hc), fold_left_app. Qed.

Lemma length_commands : length cmds = S (S (S (length bs))).
Proof. unfold commands. cbn [length]. rewrite length_app, length_map. simpl. lia. Qed.

Lemma length_image j : ZL (concat (take j bs)) + ZL (concat (drop j bs)) = ZL (air_image l).
Proof. unfold air_image. rewrite <- (take_drop j bs) at 3. rewrite concat_app, length_app. lia. Qed.

(** A block goes where the blocks before it end. *)
Lemma block_fits j b : bs !! j = Some b →
  let t' := stored (Target (t_mem t) 0x10000) (concat (take j bs)) in
  admissible buf t' (WriteData b) ∧ exec_target t' (WriteData b) = stored t' b ∧
  stored t' b = stored (Target (t_mem t) 0x10000) (concat (take (S j) bs)).
Proof.
  intros Hb t'. pose proof (blocks_of_ok 0 l l_bytes ltac:(done)) as Hok.
  destruct (proj1 (Forall_lookup _ _) Hok j b Hb) as [Hl _]. pose proof (length_image j) as Hi.
  assert (room buf t' (ZL (concat (drop j bs)))) as (H1 & H2 & H3 & H4).
  { apply room_stored; [by rewrite Hi|lia]. }
  assert (16 ≤ ZL (concat (drop j bs))) as Hd.
  { rewrite (drop_S _ _ _ Hb). cbn [concat]. rewrite length_app. lia. }
  split; [|split].
  - split; [done|]. split; [eapply mapped_sub; [exact H3|lia..]|]. intros a Ha. apply H4. lia.
  - unfold exec_target. cbn [exec]. rewrite u32_small by (unfold is_u32; lia). unfold stored. by rewrite Hl.
  - unfold t'. by rewrite <- stored_app, (take_S_r _ _ _ Hb), concat_app, concat_cons, app_nil_r.
Qed.

Lemma after_blocks j : (j ≤ length bs)%nat → after (S j) = stored (Target (t_mem t) 0x10000) (concat (take j bs)).
Proof.
  induction j as [|j IH]; intros Hj.
  { rewrite (after_next 0 (SetAddress 0x10000) eq_refl). unfold stored. done. }
  destruct (lookup_lt_is_Some_2 bs j ltac:(lia)) as [b Hb]. rewrite (after_next (S j) (WriteData b)).
  - rewrite IH by lia. destruct (block_fits j b Hb) as (_ & -> & ->). done.
  - rewrite command_S. apply lookup_app_l_Some. by rewrite list_lookup_fmap, Hb.
Qed.

Definition final : target := Target (mem_write (t_mem t) 0x10000 (air_image l)) 0x10000.
Lemma after_all : after (S (S (length bs))) = final.
Proof.
  assert (cmds !! S (length bs) = Some (SetAddress jmp_addr)) as Hc.
  { rewrite command_S, lookup_app_r, length_map, Nat.sub_diag by (by rewrite length_map). done. }
  rewrite (after_next _ _ Hc), after_blocks by done.
  by rewrite take_ge by done.
Qed.

(** A request and its answer. *)
Lemma relay_ok i c d : cmds !! i = Some c → c ≠ JumpTo → ready buf (after i) d →
  ∃ d', dev_read (dev_write (encode c) d) = (Some 79, d') ∧ ready buf (after (S i)) d'.
Proof.
  intros Hc Hj Hd. pose proof (commands_wf _ _ Hc) as Hwf. rewrite (after_next i c Hc).
  assert (admissible buf (after i) c ∧ exec (after i) c = (exec_target (after i) c, [79], None)) as [Had He].
  { destruct (command_at _ _ Hc) as [[-> ->]|[(j & b & -> & Hb & ->)|[[-> ->]|[_ ->]]]]; [done| |done|done].
    pose proof (lookup_lt_Some _ _ _ Hb). rewrite after_blocks by lia. by destruct (block_fits j b Hb). }
  destruct (exchange buf _ c 79 d Hd Hwf Had He) as (d1 & d2 & <- & E & Hd2). by exists d2.
Qed.

(** ** Every order of what can happen *)

(** The board once it has taken in the request after [h] answers and its answer has been read. *)
Definition replied (h : nat) (d : board) : Prop :=
  if Nat.eqb h (S (S (length bs))) then ∃ s, d = Jumped 0x10000 s ∧ represents buf final s [] []
  else ready buf (after (S h)) d.

(** An upload under way, [h] answers heard; the request that is out may be with the board. *)
Record flying (h : nat) (c : link) : Prop := {
  fy_on : ongoing BHND mtu l h (cl c);
  fy_air : air (cl c) = writes (cl c);
  fy_out : length (air (cl c)) = (h + (if (response_received (fl (cl c)) =? 0)%Z then 1 else 0))%nat;
  fy_bd : (taken c = h ∧ ready buf (after h) (bd c)) ∨
    (taken c = S h ∧ response_received (fl (cl c)) = 0 ∧ ∃ d, dev_read (bd c) = (Some 79, d) ∧ replied h d);
  fy_idle : (idles (cl c) = 1%nat ∧ listening (cl c) = false ∧ h = 0%nat) ∨
    (idles (cl c) = 0%nat ∧ listening (cl c) = true);
}.

Record landed (c : link) : Prop := {
  la_over : over (cl c) = Some Quit;
  la_taken : taken c = length cmds;
  la_air : length (air (cl c)) = length cmds;
  la_idle : idles (cl c) = 0%nat;
  la_board : ∃ s, bd c = Jumped 0x10000 s ∧ represents buf final s [] [];
}.

(** The first answer was lost. *)
Record stalled (c : link) : Prop := {
  st_over : over (cl c) = None;
  st_idles : (idles (cl c) ≤ 1)%nat;
  st_watches : watches (cl c) = 0%nat;
  st_taken : taken c = 1%nat;
  st_air : length (air (cl c)) = 1%nat;
  st_board : ready buf (Target (t_mem t) 0x10000) (bd c);
}.

Definition progress (h : nat) (c : link) : nat := (1 - idles (cl c)) + taken c + h + length (air (cl c)).

Lemma fly_air h c : flying h c → ∃ n, air (cl c) = take n (script BHND mtu l).
Proof.
  intros [Hon -> _ _ _]. destruct (phase_prefix _ _ _ _ _ _ _ _ _ (on_phase _ _ _ _ _ Hon)) as (n & -> & _). by exists n.
Qed.

(** The request that is out. *)
Lemma pending h c : flying h c → response_received (fl (cl c)) = 0 → ∃ x pdu,
  cmds !! h = Some x ∧ drop 3 pdu = encode x ∧ drop h (air (cl c)) = [pdu] ∧ length (air (cl c)) = S h ∧
  ((jmp_initiated (fl (cl c)) = 0 ∧ (h ≤ S (length bs))%nat ∧ x ≠ JumpTo) ∨
   (jmp_initiated (fl (cl c)) = 1 ∧ h = S (S (length bs)) ∧ x = JumpTo)).
Proof.
  intros Hf Hr. destruct (fly_air h c Hf) as [n Hn]. destruct Hf as [Hon Ha Hout _ _]. rewrite Hr in Hout. cbn in Hout.
  pose proof (outstanding _ _ _ _ _ Hon Hr) as Hj. rewrite <- Ha in Hj.
  destruct (lookup_lt_is_Some_2 (air (cl c)) h ltac:(lia)) as [pdu Hl].
  assert (drop h (air (cl c)) = [pdu]) as Ed by (rewrite (drop_S _ _ _ Hl), drop_ge by lia; done).
  rewrite Hn in Hl. apply lookup_take_Some in Hl as [Hl _]. unfold script in Hl.
  apply list_lookup_fmap_Some in Hl as (x & -> & Hx). exists x, (packet BHND mtu x).
  split_and!; [done|by apply wire, (commands_wf h)|done|lia|].
  destruct (command_at _ _ Hx) as [[-> ->]|[(j & b & -> & Hb & ->)|[[-> ->]|[-> ->]]]];
    destruct Hj as [[Hj Hle]|[Hj He]]; try lia; try (left; split_and!; [done|lia|done]); try (by right; split_and!).
  pose proof (lookup_lt_Some _ _ _ Hb). lia.
Qed.

Lemma jump_ok d : ready buf final d →
  ∃ s, dev_read (dev_write (encode JumpTo) d) = (Some 79, Jumped 0x10000 s) ∧ represents buf final s [] [].
Proof.
  intros Hd. destruct (initiate_jmp_ok buf final d Hd) as (s & E & Hs). exists s. split; [|done].
  unfold initiate_jmp, mbind, client_bind, write, read1 in E. change (encode JumpTo) with [106].
  destruct (dev_read (dev_write [106] d)) as [[r|] d']; [|by cbn in E].
  cbn in E. destruct (Z.eqb_spec r 79) as [->|]; [|done]. by injection E as ->.
Qed.

(** Handing it to the board. *)
Lemma handed h c x : flying h c → cmds !! h = Some x → ready buf (after h) (bd c) →
  ∃ d, dev_read (dev_write (encode x) (bd c)) = (Some 79, d) ∧ replied h d.
Proof.
  intros Hf Hx Hb. unfold replied. destruct (Nat.eqb_spec h (S (S (length bs)))) as [->|Hne].
  - assert (x = JumpTo) as ->.
    { destruct (command_at _ _ Hx) as [[? _]|[(j & b & Ej & Hb' & _)|[[? _]|[_ ->]]]]; [done| |lia|done].
      injection Ej as <-. pose proof (lookup_lt_Some _ _ _ Hb'). lia. }
    rewrite after_all in Hb. destruct (jump_ok (bd c) Hb) as (s & E & Hs). eexists. split; [exact E|by exists s].
  - apply relay_ok; [done| |done]. intros ->.
    destruct (command_at _ _ Hx) as [[_ ?]|[(? & ? & _ & _ & ?)|[[_ ?]|[? _]]]]; done.
Qed.

(** A callback of the main loop. *)
Lemma callback h c e c' : flying h c → is_ok stray e = false → on_client e c = Some c' → over (cl c') = None →
  ongoing BHND mtu l h (cl c').
Proof.
  intros Hf He Hc Ho. unfold on_client in Hc.
  destruct (dispatch BHND false stray e (cl c)) as [s|] eqn:Ed; [|done]. injection Hc as <-. cbn [cl] in *.
  pose proof (dispatch_sound BHND false stray mtu l l_bytes h e (cl c) s) as Hs. rewrite He in Hs.
  destruct Hs as [Hon|[[x Hx] _ _]]; [left; apply Hf|done|done|]. by rewrite Ho in Hx.
Qed.

Lemma tick_idle h c c' : flying h c → tick RunIdle c = Some c' →
  flying h c' ∧ listening (cl c') = true ∧ progress h c' = S (progress h c).
Proof.
  intros Hf Ht. pose proof (on_over _ _ _ _ _ (fy_on _ _ Hf)) as Ho. pose proof (fy_idle _ _ Hf) as Hi. cbn [tick] in Ht.
  assert (∃ n, idles (cl c) = S n ∧ c' = Link (listen_start (set_idles n (cl c))) (bd c) (taken c)) as (n & Hn & E).
  { unfold on_client, dispatch in Ht. rewrite Ho in Ht. destruct (idles (cl c)) as [|n]; [done|]. exists n. by injection Ht as <-. }
  pose proof (callback h c Idle c' Hf eq_refl Ht) as Hon. subst c'. specialize (Hon Ho).
  destruct Hf as [_ Ha Hout Hb _]. destruct Hi as [(Hi & _)|[Hi _]]; rewrite Hi in Hn; [|done]. injection Hn as <-.
  split; [split; try done; by right|]. split; [done|]. unfold progress. cbn. rewrite Hi. lia.
Qed.

Lemma tick_written h c c' : flying h c → tick RunWritten c = Some c' →
  flying h c' ∧ listening (cl c') = listening (cl c) ∧ progress h c' = progress h c.
Proof.
  intros Hf Ht. pose proof (on_over _ _ _ _ _ (fy_on _ _ Hf)) as Ho. cbn [tick] in Ht.
  assert (c' = Link (write_complete_cb (cl c)) (bd c) (taken c)) as E.
  { unfold on_client, dispatch in Ht. rewrite Ho in Ht. by injection Ht as <-. }
  pose proof (callback h c Written c' Hf eq_refl Ht) as Hon. subst c'. specialize (Hon Ho).
  destruct Hf as [_ Ha Hout Hb Hi]. by split.
Qed.

Lemma tick_read h c c' : flying h c → tick RunRead c = Some c' →
  flying h c' ∧ listening (cl c') = listening (cl c) ∧ progress h c' = S (progress h c).
Proof.
  intros Hf Ht. pose proof (callback h c Readable c' Hf eq_refl Ht) as Hon. cbn [tick] in Ht. unfold on_client in Ht.
  destruct (dispatch BHND false stray Readable (cl c)) as [s|] eqn:Ed; [|done].
  destruct (read_sends BHND false stray mtu l _ _ _ eq_refl (fy_on _ _ Hf) Ed) as (Hr & x & f & src & old & Hse & Hr').
  injection Ht as <-. specialize (Hon (se_over _ _ _ _ _ _ _ _ Hse)).
  destruct Hf as [_ Ha Hout Hb Hi], Hse as [Ea Ef _ _ _ _ _ _ Ei El _]. rewrite Hr in Hout. cbn in Hout, Ea, Ei, El.
  split; [split|]; cbn [cl bd taken]; try done.
  - unfold writes. rewrite Ea, List.filter_app. by rewrite Ha at 1.
  - rewrite Ef, Hr', Ea, length_app. simpl. lia.
  - destruct Hb as [Hb|(_ & Hr0 & _)]; [by left|by rewrite Hr in Hr0].
  - by rewrite Ei, El.
  - split; [done|]. unfold progress. cbn [cl taken]. rewrite Ea, Ei, length_app. simpl. lia.
Qed.

Lemma tick_relay h c c' : flying h c → tick Relay c = Some c' →
  flying h c' ∧ listening (cl c') = listening (cl c) ∧ progress h c' = S (progress h c).
Proof.
  intros Hf Ht. cbn [tick] in Ht. pose proof (fy_out _ _ Hf) as Hlen.
  assert (taken c < length (air (cl c)))%nat as Hlt.
  { destruct (drop (taken c) (air (cl c))) eqn:Ed; [done|]. apply (f_equal length) in Ed. rewrite length_drop in Ed. simpl in Ed. lia. }
  destruct (fy_bd _ _ Hf) as [[Et Hb]|(Et & Hr & _)]; [|rewrite Hr in Hlen; cbn in Hlen; lia]. rewrite Et in *.
  destruct (Z.eqb_spec (response_received (fl (cl c))) 0) as [Hr|Hr]; [|lia].
  destruct (pending h c Hf Hr) as (x & pdu & Hx & Hp & Ed & _ & _). rewrite Ed, Hp in Ht. injection Ht as <-.
  split; [|split; [done|unfold progress; cbn [cl taken]; lia]].
  pose proof Hf as [Hon Ha Hout _ Hi]. split; cbn [cl bd taken]; try done. right. split; [done|]. split; [done|].
  by apply (handed h c x).
Qed.

(** An answer that is heard before the jump. *)
Lemma answered h c d : flying h c → response_received (fl (cl c)) = 0 → jmp_initiated (fl (cl c)) = 0 →
  listening (cl c) = true → taken c = S h → ready buf (after (S h)) d →
  let c' := Link (process_response BHND stray [79] (cl c)) d (taken c) in
  flying (S h) c' ∧ listening (cl c') = true ∧ (progress h c < progress (S h) c')%nat.
Proof.
  intros Hf Hr Hj Hli Ht Hd. cbv zeta.
  assert (idles (cl c) = 0%nat) as Hi by (destruct (fy_idle _ _ Hf) as [(_ & Hl' & _)|[Hi _]]; [by rewrite Hl' in Hli|done]).
  pose proof (fy_out _ _ Hf) as Hlen. rewrite Hr in Hlen.
  pose proof (process_response_sound BHND stray mtu l h [79] (cl c) (fy_on _ _ Hf)) as Hs. cbn [nth] in Hs.
  change (79 =? 79) with true in Hs. cbv iota in Hs. unfold progress. cbn [cl bd taken]. cbn in Hlen.
  destruct (answer_moves BHND stray mtu l h (cl c) [79] (fy_on _ _ Hf) Hr eq_refl)
    as [(_ & Hov & Ha & Hrr & Hid & Hls)|[(_ & f & src & old & [Ea Ef _ _ _ _ Hov _ Ei El _] & Hf0)|(Hj' & _)]];
    [| |by rewrite Hj in Hj']; set (s := process_response BHND stray [79] (cl c)) in *;
    (destruct Hs as [Hon|[[y Hy] _ _]]; [|by rewrite Hov in Hy]).
  - split; [|split; [by rewrite Hls|rewrite Hid, Ha, Hi; lia]]. split; cbn [cl bd taken]; try done; [| |by left|].
    + unfold writes. rewrite Ha. apply (fy_air _ _ Hf).
    + rewrite Ha, Hrr, Hlen. simpl. lia.
    + right. by rewrite Hid, Hls.
  - split; [|split; [by rewrite El|rewrite Ei, Ea, Hi, length_app; simpl; lia]]. split; cbn [cl bd taken]; try done; [| |by left|].
    + unfold writes. rewrite Ea, List.filter_app. by rewrite (fy_air _ _ Hf) at 1.
    + rewrite Ef, Hf0, Ea, length_app, Hlen. simpl. lia.
    + right. by rewrite Ei, El.
Qed.

(** The answer to the jump. *)
Lemma complete h c s : flying h c → response_received (fl (cl c)) = 0 → jmp_initiated (fl (cl c)) = 1 →
  listening (cl c) = true → taken c = S h → h = S (S (length bs)) → represents buf final s [] [] →
  let c' := Link (process_response BHND stray [79] (cl c)) (Jumped 0x10000 s) (taken c) in
  landed c' ∧ (progress h c < progress (S h) c')%nat.
Proof.
  intros Hf Hr Hj Hli Ht Hh Hs. cbv zeta. pose proof length_commands as El.
  assert (idles (cl c) = 0%nat) as Hi by (destruct (fy_idle _ _ Hf) as [(_ & Hl' & _)|[Hi _]]; [by rewrite Hl' in Hli|done]).
  pose proof (fy_out _ _ Hf) as Hlen. rewrite Hr in Hlen. cbn in Hlen. unfold progress. cbn [cl bd taken].
  destruct (answer_moves BHND stray mtu l h (cl c) [79] (fy_on _ _ Hf) Hr eq_refl)
    as [(Hj' & _)|[(Hj' & _)|(_ & Hov & Ha & Hid)]]; [by rewrite Hj in Hj'..|].
  split; [|rewrite Hid, Ha, Hi; lia]. split; cbn [cl bd taken]; [done|by rewrite Ht, Hh, El| |by rewrite Hid|by exists s].
  rewrite Ha, Hlen, Hh, El. lia.
Qed.

(** An answer before the handler is registered. *)
Lemma lost c d : flying 0 c → response_received (fl (cl c)) = 0 → idles (cl c) = 1%nat → taken c = 1%nat → replied 0 d →
  let c' := Link (cl c) d (taken c) in stalled c' ∧ (progress 0 c < progress 1 c')%nat.
Proof.
  intros Hf Hr Hi Ht Hd. cbv zeta. pose proof (fy_out _ _ Hf) as Hlen. rewrite Hr in Hlen. cbn in Hlen.
  unfold progress. cbn [cl taken]. split; [|lia]. pose proof (fy_on _ _ Hf) as [Ho _ _ _ _ Hp].
  split; cbn [cl bd taken]; try done; [lia|].
  inversion Hp as [E1 E2|? ? ? ? ? ? ? E1 E2|? ? ? ? ? ? ? E1 E2|? ? E1 E2|? ? E1 E2]; rewrite <- E1 in Hr; done.
Qed.

Lemma tick_answer h c c' : flying h c → tick Answer c = Some c' →
  if listening (cl c) then
    (flying (S h) c' ∧ listening (cl c') = true ∨ landed c' ∧ S h = length cmds) ∧ (progress h c < progress (S h) c')%nat
  else stalled c' ∧ h = 0%nat ∧ (progress 0 c < progress 1 c')%nat.
Proof.
  intros Hf Ht. pose proof (on_over _ _ _ _ _ (fy_on _ _ Hf)) as Ho. cbn [tick] in Ht. pose proof length_commands as El.
  destruct (fy_bd _ _ Hf) as [[_ (s & Eb & (_ & _ & _ & _ & _ & Eo))]|(Et & Hr & d & Er & Hd)].
  { rewrite Eb in Ht. cbn in Ht. by rewrite Eo in Ht. }
  rewrite Er in Ht. unfold on_client, dispatch in Ht. cbn [cl bd taken] in Ht. rewrite Ho in Ht.
  destruct (listening (cl c)) eqn:Hli; injection Ht as <-.
  - change (events_handler BHND stray (notification 79) (cl c)) with (process_response BHND stray [79] (cl c)).
    destruct (pending h c Hf Hr) as (x & pdu & _ & _ & _ & _ & [(Hj & Hh & _)|(Hj & Hh & _)]); unfold replied in Hd.
    + rewrite (proj2 (Nat.eqb_neq _ _)) in Hd by lia.
      destruct (answered h c d Hf Hr Hj Hli Et Hd) as (? & ? & ?). by split; [left|].
    + rewrite (proj2 (Nat.eqb_eq _ _) Hh) in Hd. destruct Hd as (s & -> & Hs).
      destruct (complete h c s Hf Hr Hj Hli Et Hh Hs). split; [right|done]. by rewrite Hh, El.
  - destruct (fy_idle _ _ Hf) as [(Hi & _ & ->)|[_ Hl']]; [|by rewrite Hl' in Hli].
    destruct (lost c d Hf Hr Hi Et Hd). by split_and!.
Qed.

(** Nothing comes after the end; after a lost answer the idle call and the completions are all that is left. *)
Lemma stays c m : landed c → tick m c = None.
Proof.
  intros [Ho Ht Ha _ _]. assert (drop (taken c) (air (cl c)) = []) as Ed by (apply drop_ge; lia).
  destruct m; cbn [tick]; [| | |by rewrite Ed|destruct (dev_read (bd c)) as [[b|] d]; [|done]];
    unfold on_client, dispatch; cbn [cl]; by rewrite Ho.
Qed.

Lemma stalled_tick m c c' : stalled c → tick m c = Some c' →
  (m = RunIdle ∨ m = RunWritten) ∧ stalled c' ∧ (turns [m] + progress 1 c ≤ progress 1 c')%nat.
Proof.
  intros [Ho Hi Hw Ht Ha Hb] Htick. pose proof Hb as (s & Eb & (_ & _ & _ & _ & _ & Eo)).
  assert (drop (taken c) (air (cl c)) = []) as Ed by (apply drop_ge; lia).
  destruct m; cbn [tick] in Htick; [| | |by rewrite Ed in Htick|by rewrite Eb in Htick; cbn in Htick; rewrite Eo in Htick];
    unfold on_client, dispatch in Htick; rewrite Ho in Htick.
  - destruct (idles (cl c)) as [|n] eqn:En; [done|]. injection Htick as <-. split; [by left|].
    split; [split; try done; cbn; lia|unfold progress; cbn; lia].
  - by rewrite Hw in Htick.
  - injection Htick as <-. split; [by right|]. by split.
Qed.

Lemma turns_cons m ms : turns (m :: ms) = (turns [m] + turns ms)%nat.
Proof. unfold turns. change (m :: ms) with ([m] ++ ms). by rewrite List.filter_app, length_app. Qed.

Lemma fly_cons m ms c c' : fly (m :: ms) c = Some c' → ∃ c1, tick m c = Some c1 ∧ fly ms c1 = Some c'.
Proof. cbn [fly]. destruct (tick m c) as [c1|]; [|done]. intros Hfly. by exists c1. Qed.

Lemma stalled_fly ms c c' : stalled c → fly ms c = Some c' → stalled c' ∧ (turns ms + progress 1 c ≤ progress 1 c')%nat.
Proof.
  revert c. induction ms as [|m ms IH]; intros c Hs Hfly; [by injection Hfly as <-|].
  apply fly_cons in Hfly as (c1 & Et & Hfly). destruct (stalled_tick m c c1 Hs Et) as (_ & H1 & Hp).
  destruct (IH c1 H1 Hfly) as [H2 Hp2]. split; [done|]. rewrite turns_cons. lia.
Qed.

(** Where a run from an upload under way can be, and whether its order was in time. *)
Definition outcome (ontime : bool) (h : nat) (c : link) : Prop :=
  if ontime then flying h c ∨ (landed c ∧ h = length cmds) else stalled c ∧ h = 1%nat.

Lemma fly_sound ms h c c' : flying h c → fly ms c = Some c' →
  ∃ h', outcome (listening (cl c) || in_time ms) h' c' ∧ (turns ms + progress h c ≤ progress h' c')%nat.
Proof.
  revert h c. induction ms as [|m ms IH]; intros h c Hf Hfly.
  { injection Hfly as <-. exists h. rewrite orb_true_r. split; [by left|done]. }
  apply fly_cons in Hfly as (c1 & Et & Hfly). rewrite turns_cons.
  destruct m; cbn [in_time].
  - destruct (tick_idle h c c1 Hf Et) as (H1 & Hl & Hp). destruct (IH h c1 H1 Hfly) as (h' & Ho & Hp').
    rewrite Hl in Ho. rewrite orb_true_r. exists h'. split; [done|]. cbn. lia.
  - destruct (tick_read h c c1 Hf Et) as (H1 & Hl & Hp). destruct (IH h c1 H1 Hfly) as (h' & Ho & Hp').
    rewrite Hl in Ho. exists h'. split; [done|]. cbn. lia.
  - destruct (tick_written h c c1 Hf Et) as (H1 & Hl & Hp). destruct (IH h c1 H1 Hfly) as (h' & Ho & Hp').
    rewrite Hl in Ho. exists h'. split; [done|]. cbn. lia.
  - destruct (tick_relay h c c1 Hf Et) as (H1 & Hl & Hp). destruct (IH h c1 H1 Hfly) as (h' & Ho & Hp').
    rewrite Hl in Ho. exists h'. split; [done|]. cbn. lia.
  - pose proof (tick_answer h c c1 Hf Et) as Ha. destruct (listening (cl c)); cbn [orb].
    + destruct Ha as [[[H1 Hl]|[H1 Hh]] Hp].
      * destruct (IH (S h) c1 H1 Hfly) as (h' & Ho & Hp'). rewrite Hl in Ho. exists h'. split; [done|]. cbn. lia.
      * exists (S h). destruct ms as [|m ms]; [injection Hfly as <-; split; [by right|cbn; lia]|].
        apply fly_cons in Hfly as (c2 & E2 & _). by rewrite (stays c1 m H1) in E2.
    + destruct Ha as (H1 & -> & Hp). destruct (stalled_fly ms c1 c' H1 Hfly). exists 1%nat. split; [done|]. cbn. lia.
Qed.

(** Once the handler is registered, nothing that follows is too early. *)
Lemma in_time_later ms k h c c' : flying h c → fly ms c = Some c' → listening (cl c) = false → in_time ms = true →
  listening (cl c') = true → in_time (ms ++ k) = true.
Proof.
  revert h c. induction ms as [|m ms IH]; intros h c Hf Hfly Hl Hin Hl'.
  { injection Hfly as <-. by rewrite Hl in Hl'. }
  apply fly_cons in Hfly as (c1 & Et & Hfly). destruct m; cbn [app in_time] in *; [done| | | |done].
  - destruct (tick_read h c c1 Hf Et) as (H1 & E & _). apply (IH h c1); by rewrite ?E.
  - destruct (tick_written h c c1 Hf Et) as (H1 & E & _). apply (IH h c1); by rewrite ?E.
  - destruct (tick_relay h c c1 Hf Et) as (H1 & E & _). apply (IH h c1); by rewrite ?E.
Qed.

Lemma in_time_idle ms : in_time ms = true → in_time (ms ++ [RunIdle]) = true.
Proof. induction ms as [|[] ms IH]; cbn; auto. Qed.

(** Something can always happen, until the end, and without an answer that is too early. *)
Lemma alive h c : flying h c → if listening (cl c) then ∃ m, m ≠ RunWritten ∧ is_Some (tick m c) else is_Some (tick RunIdle c).
Proof.
  intros Hf. pose proof (on_over _ _ _ _ _ (fy_on _ _ Hf)) as Ho. destruct (fy_idle _ _ Hf) as [(Hi & -> & _)|[_ Hl]].
  { cbn [tick]. unfold on_client, dispatch. rewrite Ho, Hi. done. }
  rewrite Hl. pose proof (fy_out _ _ Hf) as Hlen. destruct (Z.eqb_spec (response_received (fl (cl c))) 0) as [Hr|Hr].
  - destruct (fy_bd _ _ Hf) as [[Et _]|(_ & _ & d & Er & _)].
    + exists Relay. split; [done|]. cbn [tick]. destruct (pending h c Hf Hr) as (x & pdu & _ & _ & Ed & _). by rewrite Et, Ed.
    + exists Answer. split; [done|]. cbn [tick]. rewrite Er. unfold on_client, dispatch. cbn [cl]. by rewrite Ho.
  - exists RunRead. split; [done|]. cbn [tick]. unfold on_client, dispatch. rewrite Ho.
    pose proof (on_phase _ _ _ _ _ (fy_on _ _ Hf)) as Hp. inversion Hp as [E1 E2|? ? ? ? ? ? ? E1 E2|? ? ? ? ? ? ? E1 E2|? ? E1 E2|? ? E1 E2];
      rewrite <- E1 in Hr; done.
Qed.

Lemma alive_in_time ms h c0 c : flying h c0 → listening (cl c0) = false → fly ms c0 = Some c → in_time ms = true →
  (∃ h', flying h' c) → ∃ m, m ≠ RunWritten ∧ in_time (ms ++ [m]) = true ∧ is_Some (tick m c).
Proof.
  intros H0 Hl0 Hfly Hin [h' Hf]. pose proof (alive h' c Hf) as Ha. destruct (listening (cl c)) eqn:Hl.
  - destruct Ha as (m & Hm & Ht). exists m. split; [done|]. split; [|done].
    exact (in_time_later ms [m] h c0 c H0 Hfly Hl0 Hin Hl).
  - exists RunIdle. split; [done|]. split; [by apply in_time_idle|done].
Qed.

(** No order of what happens takes more than this. *)
Lemma progress_bound ontime h c : outcome ontime h c → (progress h c ≤ 3 * length bs + 10)%nat.
Proof.
  pose proof length_commands as El. unfold progress, outcome. destruct ontime.
  - intros [Hf|[[_ Ht Ha Hi _] ->]]; [|lia]. destruct (fly_air h c Hf) as [n Hn]. pose proof (fy_out _ _ Hf) as Hlen.
    assert (length (air (cl c)) ≤ S (S (S (length bs))))%nat by (rewrite Hn, length_take, length_script; lia).
    destruct (fy_bd _ _ Hf) as [[Et _]|(Et & Hr & _)]; [lia|]. rewrite Hr in Hlen. cbn in Hlen. lia.
  - intros [[_ Hi _ Ht Ha _] ->]. lia.
Qed.

Lemma flying_start opts s : agreed opts = mtu → represents buf t s [] [] → flying 0 (Link (connected opts l) (Running s) 0).
Proof.
  intros Hm Hs. split; cbn [cl bd taken]; [|done|done|left; split; [done|by exists s]|by left].
  rewrite <- Hm. by apply connected_ongoing.
Qed.
End Flight.

(** C16 The upload over the air, in every order of events.  Let the packets the two sides agreed on hold 21 bytes or
    more, the boot ROM wait for a host, and the file, rounded up to whole blocks, fit at 0x10000 in memory the boot code does
    not use.  However the idle call, the watch on the file, the completions of writes, the packets on their way to the board and its
    answers interleave, no more than three times the number of blocks and ten things happen besides completions.  If
    no answer comes before the idle call has registered the handler, the program is not left with an error; as long as it runs, something
    else than a completion can happen, again in time; and when it ends, the board holds the file from 0x10000
    on and less than a block more, nothing else of it has changed, and it has jumped there.  If the first answer does come before, it is lost: the program
    runs for ever with nothing to do, and nothing has been written to the board. *)
Theorem upload_over_the_air buf BHND stray opts l t s ms c :
  Forall is_byte l → 21 ≤ agreed opts ≤ 65535 → represents buf t s [] [] →
  room buf (Target (t_mem t) 0x10000) (ZL (air_image l)) →
  fly buf BHND stray ms (Link (connected opts l) (Running s) 0) = Some c →
  (turns ms ≤ 3 * length (blocks_of 0 l) + 10)%nat ∧
  if in_time ms then
    match over (cl c) with
    | None => ∃ m, m ≠ RunWritten ∧ in_time (ms ++ [m]) = true ∧ is_Some (tick buf BHND stray m c)
    | Some Exit1 => False
    | Some Quit =>
        ∃ s' tail, bd c = Jumped 0x10000 s' ∧ (length tail < 16)%nat ∧ arr (b_mem s') 0x10000 (l ++ tail) ∧
          represents buf (Target (mem_write (t_mem t) 0x10000 (l ++ tail)) 0x10000) s' [] []
    end
  else
    over (cl c) = None ∧ (∀ m, is_Some (tick buf BHND stray m c) → m = RunIdle ∨ m = RunWritten) ∧
    ready buf (Target (t_mem t) 0x10000) (bd c).
Proof.
  intros Hl Hmtu Hs Hroom Hfly. set (c0 := Link (connected opts l) (Running s) 0) in *.
  pose proof (flying_start buf BHND t (agreed opts) l Hl opts s eq_refl Hs) as H0.
  destruct (fly_sound buf BHND stray t (agreed opts) l Hl Hmtu Hroom ms 0 c0 c H0 Hfly) as (h & Hc & Hp).
  pose proof (progress_bound buf BHND t (agreed opts) l _ h c Hc). split; [lia|]. cbn [listening cl c0 orb] in Hc.
  change (listening (cl c0)) with false in Hc. cbn [orb] in Hc. unfold outcome in Hc. destruct (in_time ms) eqn:Hin.
  2:{ destruct Hc as [Hst _]. split; [apply Hst|]. split; [|apply Hst]. intros m [c' Hm].
      by destruct (stalled_tick buf BHND stray t m c c' Hst Hm). }
  destruct Hc as [Hf|[[Ho _ _ _ (s' & Hb & Hs')] _]].
  { rewrite (on_over _ _ _ _ _ (fy_on _ _ _ _ _ _ _ Hf)). apply (alive_in_time buf BHND stray t (agreed opts) l Hl Hmtu Hroom ms 0 c0);
      [exact H0|reflexivity|exact Hfly|exact Hin|by exists h]. }
  rewrite Ho. destruct (concat_blocks 0 l) as (tail & E & Ht & _). exists s', tail. fold (air_image l) in E.
  unfold final in Hs'. rewrite E in *. split_and!; [done..| |done].
  destruct Hroom as (_ & _ & _ & Hns). eapply represents_holds; [exact Hs'|exact Hns].
Qed.

(** * Examples *)
Module Examples.
Definition small : list Z := [1; 2; 3].

(** The client is asked to send one block; the answers come as notifications on handle 0x12. *)
Definition small_events : list event :=
  [Readable; Written; Idle; Packet [0x1B; 0x12; 0; 79]; Readable; Packet [0x1D; 0x12; 0; 7]; Packet [0x1B; 0x12; 0; 79];
   Readable; Packet [0x1B; 0x12; 0; 79]; Written; Packet [0x1B; 0x12; 0; 79]].

Lemma small_bytes : Forall is_byte small.
Proof. repeat (apply Forall_cons_2; [by vm_compute|]). by apply Forall_nil. Qed.

Lemma sends_script_witness :
  match run 0x12 false 0 small_events (connected None small) with
  | None => False
  | Some s => over s = Some Quit ∧ writes s = script 0x12 23 small
  end.
Proof.
  assert (over <$> run 0x12 false 0 small_events (connected None small) = Some (Some Quit)) as Ho by (vm_compute; reflexivity).
  destruct (run 0x12 false 0 small_events (connected None small)) as [s|] eqn:E; [|discriminate Ho].
  injection Ho as Ho. destruct (sends_script 0x12 false 0 None small small_events s small_bytes E) as (_ & _ & H).
  split; [exact Ho|exact (proj1 (H Ho))].
Defined.

(** The block on the air: behind the file come characters 0 and what byte 16 of the buffer held. *)
Lemma small_script : script 0x12 23 small =
  [[0x52; 0x12; 0; 97; 0; 0; 1; 0; 1];
   [0x52; 0x12; 0; 119; 1; 2; 3; 48; 48; 48; 48; 48; 48; 48; 48; 48; 48; 48; 48; 0; 0];
   [0x52; 0x12; 0; 97; 0; 0; 1; 0; 1]; [0x52; 0x12; 0; 106]].
Proof. vm_compute. reflexivity. Qed.

Definition small_moves : list move := [RunRead; Relay; RunIdle; Answer; RunWritten; RunRead; Relay; Answer; RunRead; Relay; Answer; Relay; RunWritten; Answer].
Definition small_link : link := Link (connected None small) (Running (powered [])) 0.

(** The idle call after the first answer. *)
Lemma early_answer :
  match fly 0x3000 0x12 0 [RunRead; Relay; Answer; RunIdle; RunWritten] small_link with
  | None => False
  | Some c => over (cl c) = None ∧ watches (cl c) = 0%nat ∧
      map (λ m, tick 0x3000 0x12 0 m c) [RunIdle; RunRead; Relay; Answer] = [None; None; None; None]
  end.
Proof. vm_compute. by repeat split. Qed.

Lemma upload_over_the_air_witness :
  match fly 0x3000 0x12 0 small_moves small_link with
  | None => False
  | Some c => over (cl c) = Some Quit ∧ ∃ s' tail, bd c = Jumped 0x10000 s' ∧ (length tail < 16)%nat ∧
      arr (b_mem s') 0x10000 (small ++ tail) ∧
      represents 0x3000 (Target (mem_write (t_mem ram_target) 0x10000 (small ++ tail)) 0x10000) s' [] []
  end.
Proof.
  assert ((λ c, over (cl c)) <$> fly 0x3000 0x12 0 small_moves small_link = Some (Some Quit)) as Ho
    by (vm_compute; reflexivity).
  destruct (fly 0x3000 0x12 0 small_moves small_link) as [c|] eqn:E; [|discriminate Ho]. injection Ho as Ho.
  destruct (upload_over_the_air 0x3000 0x12 0 None small ram_target (powered []) small_moves c small_bytes) as [_ H].
  - split; vm_compute; discriminate.
  - apply powered_represents.
  - split; [by vm_compute|split; [by vm_compute|split; [by apply ram_mapped|]]].
    intros a Ha. unfold scratch, dma. simpl in Ha. lia.
  - exact E.
  - rewrite Ho in H. split; [exact Ho|exact H].
Defined.
End Examples.
