(* ===== verification/BleTerminal.v ===== *)
(** The bluetooth terminal (tools/bluetooth/bluetooth_le_terminal): standard input goes out in write commands and
    notifications to standard output.  In any order of events nothing of the input is lost, doubled or reordered;
    of the output only what write takes arrives, because the code does not look at its result. *)
From stdpp Require Import base list.
From Stdlib Require Import ZArith Lia.
From S2P Require Import Prelude Memory BleClient.

#[local] Open Scope Z_scope.

(** * Its state *)
Definition TX_MTU : nat := 16.

(** What goes to standard error. *)
Inductive message : Type :=
  | ConnectError
  | Connected (mtu : Z)
  | Indication (handle : Z) (value : list Z)
  | InvalidOpcode.

(** The globals; what standard input still has to give; whether it is watched; the idle calls left; whether
    notifications are handled; whether standard input, and with it the terminal it is, has been made
    non-blocking; the packets sent; what went to standard output and error; whether the loop was left. *)
Record term : Type := Term {
  write_complete : Z;
  pending : list Z;
  mtu : Z;
  stdin : list Z;
  watched : bool;
  idles : nat;
  listening : bool;
  nonblocking : bool;
  air : list (list Z);
  stdout : list Z;
  messages : list message;
  quit : bool;
}.

Definition set_write_complete (v : Z) (s : term) : term :=
  Term v (pending s) (mtu s) (stdin s) (watched s) (idles s) (listening s) (nonblocking s) (air s) (stdout s) (messages s) (quit s).
Definition set_pending (p : list Z) (s : term) : term :=
  Term (write_complete s) p (mtu s) (stdin s) (watched s) (idles s) (listening s) (nonblocking s) (air s) (stdout s) (messages s) (quit s).
Definition set_stdin (l : list Z) (s : term) : term :=
  Term (write_complete s) (pending s) (mtu s) l (watched s) (idles s) (listening s) (nonblocking s) (air s) (stdout s) (messages s) (quit s).
Definition set_watched (b : bool) (s : term) : term :=
  Term (write_complete s) (pending s) (mtu s) (stdin s) b (idles s) (listening s) (nonblocking s) (air s) (stdout s) (messages s) (quit s).
Definition listen_start (n : nat) (s : term) : term :=
  Term (write_complete s) (pending s) (mtu s) (stdin s) (watched s) n true (nonblocking s) (air s) (stdout s) (messages s) (quit s).
Definition g_attrib_send (pdu : list Z) (s : term) : term :=
  Term (write_complete s) (pending s) (mtu s) (stdin s) (watched s) (idles s) (listening s) (nonblocking s) (air s ++ [pdu]) (stdout s) (messages s) (quit s).
Definition put_stdout (l : list Z) (s : term) : term :=
  Term (write_complete s) (pending s) (mtu s) (stdin s) (watched s) (idles s) (listening s) (nonblocking s) (air s) (stdout s ++ l) (messages s) (quit s).
Definition g_printerr (m : message) (s : term) : term :=
  Term (write_complete s) (pending s) (mtu s) (stdin s) (watched s) (idles s) (listening s) (nonblocking s) (air s) (stdout s) (messages s ++ [m]) (quit s).
Definition g_main_loop_quit (s : term) : term :=
  Term (write_complete s) (pending s) (mtu s) (stdin s) (watched s) (idles s) (listening s) (nonblocking s) (air s) (stdout s) (messages s) true.

Section Terminal.
Context (BHND : Z).

(** * Its functions *)
Definition write_complete_cb (s : term) : term := set_write_complete 1 s.

Definition write_cmd (value : list Z) (s : term) : term :=
  let s := set_write_complete 0 s in
  g_attrib_send (enc_write_cmd BHND value (mtu s)) s.

(** g_io_channel_read_chars, when [n] bytes could be read. *)
Definition read_chars (n : nat) (s : term) : list Z * term :=
  let k := (n `min` TX_MTU)%nat in (take k (stdin s), set_stdin (drop k (stdin s)) s).

(** Whether the watch stays, and the state. *)
Definition write_cb (n : nat) (s : term) : bool * term :=
  if negb (write_complete s =? 1) then (true, s)
  else
    let '(buf, s) :=
      if ZL (pending s) =? 0 then read_chars n s else (pending s, set_pending [] s) in
    if ZL buf =? 0 then (false, s) else (true, write_cmd buf s).

(** [write(STDOUT_FILENO, pdu + 3, len - 3)], its result ignored.  The count is a size_t, so a packet of less
    than three bytes offers the memory [behind] it; a non-blocking terminal takes only the first [n] of the bytes, none when it is full. *)
Definition offered (pdu behind : list Z) : list Z :=
  let bytes := drop 3 (pdu ++ behind) in
  take (Z.to_nat (Z.min (wrapu 64 (ZL pdu - 3)) (ZL bytes))) bytes.
Definition write_stdout (pdu behind : list Z) (n : nat) (s : term) : term :=
  put_stdout (if nonblocking s then take n (offered pdu behind) else offered pdu behind) s.

Definition events_handler (pdu behind : list Z) (n : nat) (s : term) : term :=
  let at_ i := nth i (pdu ++ behind) 0 in
  let handle := at_ 1%nat + 256 * at_ 2%nat in
  let op := at_ 0%nat in
  if op =? ATT_OP_HANDLE_NOTIFY then write_stdout pdu behind n s
  else if op =? ATT_OP_HANDLE_IND then
    g_attrib_send enc_confirmation (g_printerr (Indication handle (drop 3 pdu)) s)
  else g_printerr InvalidOpcode s.

(** [err] is a failed connection, [opts] the MTU and channel that bt_io_get answers or its failure.  Standard input
    becomes non-blocking. *)
Definition connect_cb (err : bool) (opts : option (Z * Z)) (s : term) : term :=
  if err then g_main_loop_quit (g_printerr ConnectError s)
  else
    let mtu :=
      match opts with
      | Some (mtu, cid) => if cid =? ATT_CID then ATT_DEFAULT_LE_MTU else mtu
      | None => ATT_DEFAULT_LE_MTU
      end in
    let s := g_printerr (Connected mtu) s in
    Term (write_complete s) (pending s) mtu (stdin s) true (S (idles s)) (listening s) true (air s) (stdout s) (messages s) (quit s).

Definition globals (input : list Z) : term := Term 1 [] 0 input false 0 false false [] [] [] false.

(** * The main loop *)
(** A read finds [n] bytes.  A packet comes with the memory behind it and what the terminal then takes; it is lost before
    its handler is registered. *)
Inductive event : Type :=
  | Idle
  | Readable (n : nat)
  | Written
  | Packet (pdu behind : list Z) (n : nat).

Definition dispatch (e : event) (s : term) : option term :=
  if quit s then None
  else
    match e with
    | Idle => match idles s with O => None | S n => Some (listen_start n s) end
    | Readable n =>
        if watched s then let '(keep, s) := write_cb n s in Some (set_watched keep s) else None
    | Written => Some (write_complete_cb s)
    | Packet pdu behind n => Some (if listening s then events_handler pdu behind n s else s)
    end.

Fixpoint run (es : list event) (s : term) : option term :=
  match es with
  | [] => Some s
  | e :: es => s ← dispatch e s; run es s
  end.

(** * What it forwards *)
Definition is_notify (pdu behind : list Z) : bool := nth 0 (pdu ++ behind) 0 =? ATT_OP_HANDLE_NOTIFY.
(** What a packet brings to standard output, and what it should: the value of a notification. *)
Definition shown (e : event) : list Z :=
  match e with Packet pdu behind n => if is_notify pdu behind then take n (offered pdu behind) else [] | _ => [] end.
Definition notified (e : event) : list Z :=
  match e with Packet pdu behind _ => if is_notify pdu behind then drop 3 pdu else [] | _ => [] end.
(** The packet has its header and the terminal takes it whole. *)
Definition taken_whole (e : event) : Prop :=
  match e with
  | Packet pdu behind n => is_notify pdu behind = true → (3 ≤ length pdu)%nat ∧ ZL pdu ≤ 65535 ∧ (length pdu ≤ n + 3)%nat
  | _ => True
  end.
(** The events after the idle call, which registers the handler. *)
Fixpoint handled (es : list event) : list event :=
  match es with
  | [] => []
  | Idle :: es => es
  | _ :: es => handled es
  end.
Definition is_written (e : event) : bool := match e with Written => true | _ => false end.
Definition completions (es : list event) : nat := length (List.filter is_written es).

(** The chunks sent so far, [input] what standard input had to give and [k] the completions so far. *)
Record forwards (opts : option (Z * Z)) (input : list Z) (k : nat) (cs : list (list Z)) (s : term) : Prop := {
  fw_air : List.filter is_write (air s) = map (λ c, enc_write_cmd BHND c (agreed opts)) cs;
  fw_input : concat cs ++ stdin s = input;
  fw_chunks : Forall (λ c, (1 ≤ length c ≤ TX_MTU)%nat) cs;
  fw_count : (length cs ≤ k + if (write_complete s =? 1)%Z then 0 else 1)%nat;
  fw_mtu : mtu s = agreed opts;
  fw_pending : pending s = [];
  fw_nonblocking : nonblocking s = true;
  fw_complete : write_complete s = 0 ∨ write_complete s = 1;
}.

Lemma forwards_start opts input : forwards opts input 0 [] (connect_cb false opts (globals input)).
Proof. split; try done. by right. Qed.

Lemma length_read n s : let '(buf, s') := read_chars n s in
  (length buf ≤ TX_MTU)%nat ∧ buf ++ stdin s' = stdin s.
Proof. cbn. split; [rewrite length_take; lia|apply take_drop]. Qed.

(** One run of write_cb: nothing, or one more chunk. *)
Lemma write_cb_forwards opts input k cs n s : forwards opts input k cs s →
  ∃ cs', forwards opts input k cs' (write_cb n s).2 ∧ stdout (write_cb n s).2 = stdout s ∧
    listening (write_cb n s).2 = listening s.
Proof.
  intros Hf. pose proof Hf as [Ha Hi Hc Hn Hm Hp Hb Hw]. unfold write_cb. destruct (Z.eqb_spec (write_complete s) 1) as [Hw1|Hw1]; cbn [negb].
  2:{ by exists cs. }
  rewrite Hp. change (ZL [] =? 0) with true. cbv iota. pose proof (length_read n s) as Hr.
  destruct (read_chars n s) as [buf s1] eqn:Er. injection Er as Eb <-. destruct Hr as [Hl Hs].
  destruct (Z.eqb_spec (ZL buf) 0) as [H0|H0]; cbn [snd fst].
  - exists cs. split; [|done]. destruct buf as [|x buf]; [|simpl in H0; lia].
    split; cbn; try done; [by cbn in Hs; rewrite Hs|by rewrite Hw1].
  - exists (cs ++ [buf]). split; [|done]. split; cbn [air stdin write_complete mtu pending write_cmd set_write_complete g_attrib_send set_stdin];
      [..|done|done|done|by left].
    + by rewrite List.filter_app, Ha, map_app, Hm.
    + cbn in Hs. by rewrite concat_app, concat_cons, app_nil_r, <- app_assoc, Hs.
    + apply Forall_app. split; [done|]. apply Forall_cons_2; [split; [lia|done]|by apply Forall_nil].
    + rewrite length_app. simpl in *. lia.
Qed.

Lemma dispatch_forwards opts input k cs e s s' : forwards opts input k cs s → dispatch e s = Some s' →
  ∃ cs', forwards opts input ((if is_written e then 1 else 0) + k) cs' s' ∧
    stdout s' = stdout s ++ (if listening s then shown e else []) ∧
    listening s' = match e with Idle => true | _ => listening s end.
Proof.
  intros Hf Hd. unfold dispatch in Hd. destruct (quit s); [done|].
  assert (∀ b : bool, stdout s = stdout s ++ if b then [] else []) as Hnil by (intros []; by rewrite app_nil_r).
  destruct e as [|n| |pdu behind n]; cbn [is_written shown Nat.add].
  - destruct (idles s); [done|]. injection Hd as <-. exists cs. split; [by destruct Hf|by split].
  - destruct (watched s); [|done]. destruct (write_cb_forwards opts input k cs n s Hf) as (cs' & Hf' & Ho & Hl).
    destruct (write_cb n s) as [keep s1]. cbn [snd] in *. injection Hd as <-. exists cs'. split; [by destruct Hf'|].
    cbn. by rewrite Ho, Hl.
  - injection Hd as <-. exists cs. split; [|by split]. destruct Hf as [Ha Hi Hc Hn Hm Hp Hb Hw].
    split; cbn; try done; [|by right]. destruct (write_complete s =? 1); lia.
  - injection Hd as <-. exists cs. destruct (listening s) eqn:El; [|by rewrite app_nil_r].
    unfold events_handler, is_notify. destruct (nth 0 (pdu ++ behind) 0 =? ATT_OP_HANDLE_NOTIFY).
    { unfold write_stdout. rewrite (fw_nonblocking _ _ _ _ _ Hf). split; [by destruct Hf|by split]. }
    rewrite app_nil_r. destruct (nth 0 (pdu ++ behind) 0 =? ATT_OP_HANDLE_IND); [|split; [by destruct Hf|by split]].
    split; [|by split]. destruct Hf. split; try done. cbn. by rewrite List.filter_app, app_nil_r.
Qed.

Lemma run_forwards opts input es : ∀ k cs s s', forwards opts input k cs s → run es s = Some s' →
  ∃ cs', forwards opts input (completions es + k) cs' s' ∧
    stdout s' = stdout s ++ concat (map shown (if listening s then es else handled es)).
Proof.
  induction es as [|e es IH]; intros k cs s s' Hf Hr.
  { injection Hr as <-. exists cs. destruct (listening s); by rewrite app_nil_r. }
  cbn [run] in Hr. destruct (dispatch e s) as [s1|] eqn:Ed; [|done]. change (run es s1 = Some s') in Hr.
  destruct (dispatch_forwards _ _ _ _ _ _ _ Hf Ed) as (cs1 & Hf1 & Ho1 & Hl1).
  destruct (IH _ _ _ _ Hf1 Hr) as (cs2 & Hf2 & Ho2). exists cs2. split.
  - unfold completions in *. cbn [List.filter]. destruct (is_written e); cbn [length Nat.add] in *; [|done].
    by rewrite Nat.add_succ_r in Hf2.
  - rewrite Ho2, Ho1, Hl1. destruct (listening s); [|by destruct e; rewrite app_nil_r].
    cbn [map concat]. rewrite <- app_assoc. by destruct e.
Qed.
End Terminal.

(** A packet with its header that is taken whole shows its value. *)
Lemma shown_whole e : taken_whole e → shown e = notified e.
Proof.
  destruct e as [|n| |pdu behind n]; cbn [taken_whole shown notified]; try done.
  destruct (is_notify pdu behind); [|done]. intros Hw. destruct (Hw eq_refl) as (H3 & Hmax & Hn). unfold offered.
  rewrite wrapu_small by lia. rewrite drop_app_le, take_take by lia. rewrite length_app, length_drop.
  rewrite take_app_le by (rewrite length_drop; lia). apply take_ge. rewrite length_drop. lia.
Qed.

(** C40 What the terminal forwards.  Whatever the order of its callbacks, however much each read of standard input gives
    and whatever packets come in, the values of the write commands put one after the other, and what standard input still has to give,
    are the input: nothing is lost, doubled or reordered; each value has 1 to 16 bytes and goes out whole; and at most one write is under way.
    Standard output gets, of each notification that comes after the handler was registered, what the non-blocking terminal takes of the bytes
    offered; it is exactly the values of these notifications, in their order, if each is taken whole and has
    the three bytes of its header. *)
Theorem terminal_forwards BHND opts input es s :
  19 ≤ agreed opts ≤ 65535 → run BHND es (connect_cb false opts (globals input)) = Some s →
  let values := map (drop 3) (List.filter is_write (air s)) in
  concat values ++ stdin s = input ∧ Forall (λ v, (1 ≤ length v ≤ TX_MTU)%nat) values ∧
  (length values ≤ completions es + if (write_complete s =? 1)%Z then 0 else 1)%nat ∧
  stdout s = concat (map shown (handled es)) ∧
  (Forall taken_whole (handled es) → stdout s = concat (map notified (handled es))).
Proof.
  intros Hmtu Hr values. destruct (run_forwards BHND opts input es 0 [] _ s (forwards_start BHND opts input) Hr) as (cs & Hf & Ho).
  destruct Hf as [Ha Hi Hc Hn _ _ _ _]. assert (values = cs) as ->.
  { unfold values. rewrite Ha, map_map. rewrite <- (map_id cs) at 2. apply map_ext_Forall. eapply Forall_impl; [exact Hc|].
    cbn beta. intros c Hl. unfold TX_MTU in Hl. unfold enc_write_cmd. cbn [app drop]. apply take_ge.
    rewrite wrapu_small by lia. destruct (Z.gtb_spec (ZL c) (agreed opts - 3)); lia. }
  rewrite Nat.add_0_r in Hn. split_and!; [done..|]. intros Hw. change (stdout s = concat (map shown (handled es))) in Ho.
  rewrite Ho. f_equal. apply map_ext_Forall. eapply Forall_impl; [exact Hw|]. exact shown_whole.
Qed.

(** * Examples *)
Module Examples.
Definition typed : list Z := [108; 115; 10; 112; 119; 100; 10].
Definition evs : list event :=
  [Readable 3; Readable 9; Idle; Packet [0x1B; 0x12; 0; 97; 98] [] 9; Written; Readable 9; Packet [0x1B; 0x12; 0; 99] [0] 1; Written; Readable 0].

Lemma evs_taken_whole : Forall taken_whole (handled evs).
Proof. cbn [handled evs]. repeat (apply Forall_cons_2; [cbn; intuition lia|]). by apply Forall_nil. Qed.

(** A full terminal loses a notification, and a packet of one byte shows the memory behind it. *)
Lemma output_lost :
  match run 0x12 [Idle; Packet [0x1B; 0x12; 0; 97; 98] [] 1; Packet [0x1B; 0x12; 0; 99] [] 0; Packet [0x1B] [1; 2; 3; 4; 5] 2]
    (connect_cb false None (globals [])) with
  | None => False
  | Some s => stdout s = [97; 3; 4]
  end.
Proof. vm_compute. reflexivity. Qed.

Lemma terminal_forwards_witness :
  match run 0x12 evs (connect_cb false None (globals typed)) with
  | None => False
  | Some s => watched s = false ∧ concat (map (drop 3) (List.filter is_write (air s))) ++ stdin s = typed ∧ stdout s = [97; 98; 99]
  end.
Proof.
  assert (watched <$> run 0x12 evs (connect_cb false None (globals typed)) = Some false) as Hw by (vm_compute; reflexivity).
  destruct (run 0x12 evs (connect_cb false None (globals typed))) as [s|] eqn:E; [|discriminate Hw]. injection Hw as Hw.
  destruct (terminal_forwards 0x12 None typed evs s) as (H1 & _ & _ & _ & H2); [split; vm_compute; discriminate|exact E|].
  split; [exact Hw|split; [exact H1|rewrite (H2 evs_taken_whole); vm_compute; reflexivity]].
Defined.
End Examples.
